(* ===== verification/_CoqProject ===== *)
-Q . S2P
Prelude.v
Redis.v
Constants.v
Keyspace.v
Numerals.v
Bytes.v
CircuitBreaker.v
RateLimiter.v
LoadBalancer.v
Json.v
Errors.v
ErrorHandler.v
Retry.v
Signals.v
Types.v
Crypto.v
Tokens.v
Stream.v
Provider.v
Adapter.v
Copies.v
Values.v
CostTracker.v
Registry.v
Cache.v
Auth.v
Router.v
Effects.v
Wiring.v
Footprint.v
Ledger.v
Overspend.v
Http.v
Backpressure.v
Metrics.v
HealthMonitor.v
Configuration.v
Replies.v
BreakerListing.v
Admin.v
AdminKeys.v
AdminProviders.v
AdminLogs.v
Seed.v
KeyRotation.v
Logger.v
Lifecycle.v
Connections.v
Operations.v
Catalog.v
Schema.v
LogTable.v
AdminRoutes.v
OpenAI.v
Mistral.v
Client.v
Turns.v
Anthropic.v
Cohere.v
Gemini.v
Adapters.v
Chunks.v
Instruments.v
Outbound.v
App.v
Revocation.v
Outage.v
