(* ===== verification/Prelude.v ===== *)
(** * AI gateway: verification development

    A model of the gateway under [src/src] (a TypeScript reverse proxy in front
    of several LLM providers, exposing the OpenAI API) and of its operational
    scripts under [src/scripts], with the theorems that make their parts correct.
    Paths below are relative to [src/src] unless they start with [scripts/].

    ** The program and its files

    A request is authenticated ([auth/middleware.ts]), validated
    ([types/openai.ts]), rate limited ([rate-limiter/index.ts]) and handed to the
    router ([services/router.ts]), which resolves the model in the provider
    registry ([providers/registry.ts]), consults the response cache
    ([cache/index.ts]) and the budget gate ([services/cost-tracker.ts]), and fails
    over between providers chosen by the load balancer ([loadbalancer/]) and
    admitted by the circuit breaker ([circuit-breaker/index.ts]); the provider's
    adapter ([providers/]) translates the request and its reply.  All of these
    share one Redis server, on which they run Lua scripts or single commands.  An
    admin API ([routes/admin/]) changes keys and providers in PostgreSQL, which
    the rest of the process reads through caches and snapshots.

    Foundations:
    - [Prelude]: results, tactics, strings, lists, arithmetic.
    - [Redis]: the keyspace with expiry, the commands with their documented
      semantics ([exec]), programs of commands ([prog]; a Lua script is one, run
      atomically by [run]), the server interface [RedisServer], the client with
      faults ([fault]: served, never sent, reply lost), EVALSHA with its NOSCRIPT
      fallback ([database/redis.ts]).
    - [Constants], [Keyspace], [Numerals], [Bytes], [Json], [Errors]: shared data
      ([utils/constants.ts], [utils/errors.ts]), key templates, the key families
      and the SCAN patterns that select them, JSON values, the error taxonomy and
      thrown values.
    - [Values]: the numbers and values that arithmetic may meet when data is not
      validated: infinities, [NaN], strings to number and back, [+].
    - [Replies]: what Lua values become as Redis replies, and the reply parsers.

    Resilience:
    - [CircuitBreaker]: the scripts, the class, an abstract state machine
      ([step]) and the refinement between them; [BreakerListing] its listing.
    - [RateLimiter]: the script, [check], and the history it must cap.
    - [LoadBalancer]: the five strategies, their scripts, the facade; the class
      [BaseProvider] is what they need of a provider.
    - [Retry] and [Signals] ([utils/retry.ts], [routes/http.ts]): the retry loop,
      its sleep as a state machine, the client's abort signal.
    - [HealthMonitor] ([services/health-monitor.ts]): probes, runs, life cycle.

    Requests and replies:
    - [ErrorHandler] ([middleware/error-handler.ts]), [Types] (the zod schemas as
      validators), [Tokens], [Stream] (the incremental SSE parser and frames of
      [utils/stream.ts]), [Crypto] ([utils/crypto.ts]).
    - [Provider] ([providers/base.ts]), [Adapter] (what the adapters share),
      [Copies] (the helpers that Gemini and Cohere repeat), [OpenAI], [Mistral],
      [Anthropic], [Cohere], [Gemini] (each adapter: requests, replies, the stream
      state machine), [Client] (an OpenAI client that reads what the gateway
      writes), [Turns] (conversations with tools), [Adapters] (all of them behind
      one record of operations, [ProviderMethods], with the class
      [LawfulProvider] that each discharges; [createAdapter]), [Chunks] (the
      response interfaces of [types/openai.ts] and the request bodies of
      [anthropic.ts] and [gemini.ts] as predicates on JSON).

    The gateway:
    - [CostTracker], [Registry], [Cache], [Auth].
    - [Router]: the three handlers, the failover loop and the stream generator
      over a record of dependencies ([RouterDeps]) on an abstract world; the class
      [LawfulBalancer] is what its theorems assume of the load balancer.
      [Effects] says what a run does to one component of the world.
    - [Wiring]: the production dependencies ([index.ts]) built from the files
      above over one keyspace; it discharges [LawfulBalancer] and runs the whole
      gateway on examples.  [Footprint] says which commands leave which keys of
      the store alone (the class [Apart]), for every component of the wiring.
    - [Ledger]: any sequence of requests and of settled log writes against the
      budget counter and the log.
      [Overspend]: the budget gate under concurrency, a step relation over checks
      and charges.
    - [Http] (the /v1 handlers), [Backpressure] (writing a stream to the
      socket), [Metrics] (the hooks of
      [middleware/metrics.ts]), [Instruments] (the declared series and the sample
      each recording call hands over), [Logger] ([utils/logger.ts]),
      [Configuration] ([config/index.ts]).
    - [Admin], [AdminKeys], [AdminProviders], [AdminLogs], [AdminRoutes]: the
      admin API, file by file of [routes/admin/], and its dispatch.
    - [Outbound]: the router over the adapters, with every request that leaves
      the process recorded.
    - [App] ([app.ts]): the route table with its guards, the hooks, load shedding
      and every handler over one state.  [Revocation]: events of the whole
      process around the deletion of a key.  [Outage]: the same application while
      Redis rejects every command; the class [Degrades] is what each dependency
      still promises.

    Operations:
    - [Catalog], [Schema]: tables and DDL statements over a catalogue; the tables
      as [database/schema.ts] declares them and as [database/migrations/] create
      them.  [LogTable]: the row a log entry becomes, and the monthly partitions.
    - [Operations] ([scripts/migrate.ts], [scripts/create-partition.ts]),
      [KeyRotation] ([scripts/rotate-encryption-key.ts]), [Seed]
      ([scripts/seed-dev.ts]), [Lifecycle] (start-up and shutdown of [index.ts]),
      [Connections] (the drivers' options and the module variables that hold the
      pool, the client and the services).

    ** How code becomes definitions

    A Lua script or a sequence of client calls is a [prog]; a method that talks
    to Redis takes the fate of its calls, the time and the keyspace, and returns
    the new keyspace with its result.  [Date.now()] is an argument.  Code that
    throws returns [result thrown A].  A handler of the router is a computation
    [M W A]: from a world to a new world, the trace of the dependency calls and
    metrics it made, and how it ended.  A table of PostgreSQL is a list of rows;
    its constraints are those of the migrations.  In-memory state (round-robin
    counters, the log queue, the registry snapshot and its in-flight load, the
    shutdown state) is explicit.  A streaming adapter is a step per event over its
    local variables ([drive]).  Concurrency appears where the code meets it:
    scripts are atomic steps in any order ([CircuitBreaker], [RateLimiter],
    [LoadBalancer] quantify over histories); the registry's refresh, the shutdown,
    the health monitor and key rotation are split at their awaits; in [App]
    requests are served one after the other.

    ** What the theorems show

    - Failover ([Router.failover_exact]) is exact: it ends, visits candidates at
      most once with one breaker verdict each and every slot released, and ends
      as documented; no provider is called for a request that is not entitled
      to it ([every_call_gated]); a served request is charged, logged and cached
      exactly once ([chat_charged_once], [stream_billed]), unless a counter
      refuses what the provider reported ([metrics_reconcile]) or the reader
      leaves while the handler waits ([stream_written]): then it is neither
      charged nor logged; and in the production wiring no connection slot leaks ([Wiring.slots_conserved]).
    - The whole application answers and guards every request, and counts those
      whose end Fastify reports; where the in-flight gauge drifts is stated
      ([App.request_served], [Http.request_lifecycle]); what leaves the process
      goes to the chosen provider with its own credential and nothing else
      ([Outbound.outbound_confined]); the metrics reconcile with the books
      ([Instruments.metrics_reconcile]), and so does the budget counter with the
      request log, up to the entries counted as lost ([Ledger.spend_reconciled]).  Checks and charges are apart, so
      a budget can be exceeded: by what is in flight at most, and by that much
      ([Overspend.overspend_bounded]).  While Redis rejects commands a request is
      served only if the rate limiter is off ([Outage.redis_outage]).
    - The adapters: a failed exchange is classified for failover in each, but not
      a body that breaks off ([adapters_fail_over]); a streamed reply and a plain
      one tell a client the same ([stream_agrees], up to the spacing of arguments,
      [gemini_stream_agrees], [cohere_stream_agrees]); what three of them yield,
      and what they send, has its declared type, but for array arguments sent to
      Gemini ([wire_types_kept]); what a conversation says is what Anthropic reads
      in the request sent ([conversation_translated]).
    - The breaker's scripts refine its state machine ([breaker_scripts_refine]),
      which trips, sheds load, recovers and never wedges.  The limiter never
      admits more than its caps in any window ([sliding_window_caps]); each load
      balancing strategy is what it claims.
    - Authentication is sound through its cache ([auth_sound]); a deleted key
      stays out once its cached context is dropped ([revoked_stays_out]); admin changes are in
      effect when they are answered ([key_change_effective],
      [provider_change_effective]); credentials are never shown.
    - Round trips: the credential envelope, cached replies, SSE parsing under any
      cut ([sse_parse_any_chunking]), log rows ([logged_then_read]).
    - Operations: interrupted migrations reach the declared schema
      and little beyond it ([migrations_reach_schema]), rotation keeps every
      replica serving, with one exception during the first roll
      ([rotation_without_downtime]), the shutdown awaits each of its steps
      ([shutdown_orderly]), the seed can be
      repeated and yields a gateway that serves ([seed_repeatable],
      [seed_serves]), partitions stay ahead of the rows while the job runs
      ([partitions_kept_ahead]), redacted fields are not written
      ([logged_fields_redacted]).

    Some theorems state behaviour that differs from a comment in the code
    ([late_successes_close_half_open], [tpm_sum_drift], [burst_never_binds],
    [round_robin_wrap_repeats], and parts of [cache_key_canonical],
    [stream_billed], [stream_written], [metrics_reconcile], [adapters_fail_over],
    [stream_agrees], [wire_types_kept], [revoked_stays_out], [request_served],
    [redis_outage], [rotation_without_downtime], [migrations_reach_schema],
    [logged_then_read] and [logged_fields_redacted]).

    ** Bounds, fuel and idealisations

    - The failover loop's fuel is the number of candidates; [failover_exact]
      shows that it never runs out.  The SSE parser's inner loop takes the buffer
      length; [Retry]'s loop the number of attempts; [flush_writes] the number of
      writes in flight; each is shown to be enough by the theorem about it.
    - JavaScript numbers are integers ([Z]) or exact rationals ([Q]) instead of
      doubles, with infinities and [NaN] where unvalidated data can make them; the round-robin counter keeps its wrap
      at [MAX_SAFE_INTEGER], and columns of the database their widths.  Redis and
      Lua integers are unbounded.
    - Strings are sequences of bytes; lengths and case folding are those of
      ASCII text.
    - A chunk an upstream sends may be any JSON value, and the counts of a usage
      report in it are taken as they are ([js_value]): a missing one makes the
      cost [NaN], a string is concatenated by [+].
    - An upstream stream is finite; a consumer may stop at any point, or, as
      [Backpressure] shows of the handler, be held at one for ever.
    - Of prom-client's calls only a counter's increase by a reported amount may
      throw: which amounts it refuses is a parameter ([counter_inc]), of which
      theorems assume at most that it takes numbers from 0 up.
    - In [App] requests end as Fastify says they do: whether it runs the abort
      hook for a client that left is part of the arrival.

    ** What is outside, and what is not modelled

    Code outside the repository is a parameter, with its documented behaviour as
    hypothesis where a theorem needs it: AES-GCM, SHA-256, [randomUUID] and the
    random source, [JSON.parse], the text decoder, tiktoken, [localeCompare],
    [new URL], the texts of zod's issues, the parsing of datetimes, [fetch] and
    the upstream providers, what PostgreSQL's numeric columns store, under-pressure
    (when it sheds, and what it then replies), cors (which requests it answers
    and how), and pino's redaction.  Redis,
    PostgreSQL's statements and rows, and prom-client's counters are modelled as
    far as the code relies on them.

    Not modelled: the headers that helmet and cors put on every reply, the
    database driver, the Redis client library and the tracing
    SDK beyond the options they are given, the HTTP server itself (routing
    tables, body parsing, its buffers), the exposition format and default
    metrics of prom-client, the output of the logger, the content of the
    monthly_usage view; how long the Redis client holds a command while it
    reconnects (in [Outage] each is rejected in the end; the docs measure requests
    that hang meanwhile); [scripts/benchmark.ts], whose only
    result is the time that two functions modelled here take, and the ORM's tool
    configuration [drizzle.config.ts]; tests and dashboards, which are not part
    of the program. *)

From Stdlib Require Import ZArith Lia QArith Ascii String.
From stdpp Require Import base gmap strings list fin_maps sorting.

(** ** Scopes and notations *)

Declare Scope gateway_scope.
Delimit Scope gateway_scope with gw.
Open Scope gateway_scope.
Open Scope Z_scope.

(** Results of fallible code: a value, or the thrown error. *)
Inductive result (E A : Type) : Type :=
| Ok (a : A)
| Err (e : E).
Arguments Ok {E A} a.
Arguments Err {E A} e.

Definition res_bind {E A B} (r : result E A) (f : A → result E B) : result E B :=
  match r with Ok a => f a | Err e => Err e end.

Notation "'let!' x := r 'in' k" := (res_bind r (λ x, k))
  (at level 10, x pattern, r at level 100, k at level 200) : gateway_scope.

Definition is_ok {E A} (r : result E A) : bool :=
  match r with Ok _ => true | Err _ => false end.

(** [a ?? b]: the nullish-coalescing operator. *)
Definition coalesce {A} (o : option A) (d : A) : A :=
  match o with Some a => a | None => d end.
Notation "o '??' d" := (coalesce o d) (at level 60, right associativity) : gateway_scope.

(** ** Tactics *)

(** Split the innermost scrutinee of a [match] or an [if], in the goal or in
    a hypothesis, keeping the equation. *)
Ltac split_match :=
  match goal with
  | |- context [match ?x with _ => _ end] =>
      lazymatch x with context [match _ with _ => _ end] => fail | _ => destruct x eqn:? end
  | H : context [match ?x with _ => _ end] |- _ =>
      lazymatch x with context [match _ with _ => _ end] => fail | _ => destruct x eqn:? end
  end.

(** Turn boolean comparisons in the context into propositions. *)
Ltac bool_props :=
  repeat match goal with
  | H : (_ <? _)%Z = true |- _ => apply Z.ltb_lt in H
  | H : (_ <? _)%Z = false |- _ => apply Z.ltb_ge in H
  | H : (_ <=? _)%Z = true |- _ => apply Z.leb_le in H
  | H : (_ <=? _)%Z = false |- _ => apply Z.leb_gt in H
  | H : (_ =? _)%Z = true |- _ => apply Z.eqb_eq in H
  | H : (_ =? _)%Z = false |- _ => apply Z.eqb_neq in H
  | H : _ && _ = true |- _ => apply andb_true_iff in H as [? ?]
  | H : _ && _ = false |- _ => apply andb_false_iff in H
  | H : _ || _ = true |- _ => apply orb_true_iff in H
  | H : _ || _ = false |- _ => apply orb_false_iff in H as [? ?]
  | H : negb _ = true |- _ => apply negb_true_iff in H
  | H : negb _ = false |- _ => apply negb_false_iff in H
  end.

Ltac crush_cases := repeat (split_match; simplify_eq/=); bool_props; try done; try lia.

(** ** Strings *)

Section Strings.
Open Scope string_scope.

(** JS [String.prototype.startsWith] / [endsWith] / [includes]. *)
Definition starts_with (p s : string) : bool := String.prefix p s.

Fixpoint ends_with (p s : string) : bool :=
  if String.eqb s p then true
  else match s with EmptyString => false | String _ s' => ends_with p s' end.

Fixpoint includes (p s : string) : bool :=
  if String.prefix p s then true
  else match s with EmptyString => false | String _ s' => includes p s' end.

(** JS [array.join(sep)]. *)
Fixpoint join (sep : string) (l : list string) : string :=
  match l with
  | [] => ""
  | [x] => x
  | x :: l' => x ++ sep ++ join sep l'
  end.

(** JS [String.prototype.toLowerCase] on ASCII letters. *)
Definition lower_ascii (c : ascii) : ascii :=
  let n := nat_of_ascii c in
  if (65 <=? n)%nat && (n <=? 90)%nat then ascii_of_nat (n + 32) else c.
Fixpoint to_lower (s : string) : string :=
  match s with
  | EmptyString => EmptyString
  | String c s' => String (lower_ascii c) (to_lower s')
  end.

(** JS [s.split(sep)] for a one-character separator. *)
Fixpoint split_on (sep : ascii) (s : string) : list string :=
  match s with
  | EmptyString => [""]
  | String c s' =>
      if Ascii.eqb c sep then "" :: split_on sep s'
      else match split_on sep s' with
           | [] => [String c ""]
           | x :: xs => String c x :: xs
           end
  end.

(** [s] does not contain the character [c]. *)
Fixpoint no_char (c : ascii) (s : string) : bool :=
  match s with
  | EmptyString => true
  | String d s' => negb (Ascii.eqb d c) && no_char c s'
  end.

Definition string_chars := list_ascii_of_string.

Lemma string_app_cons x a b : String x a ++ b = String x (a ++ b).
Proof. done. Qed.

Lemma string_chars_app a b : string_chars (a ++ b) = (string_chars a ++ string_chars b)%list.
Proof. induction a; simpl; [done | by rewrite IHa]. Qed.

Lemma string_chars_inj a b : string_chars a = string_chars b → a = b.
Proof.
  intros H. apply (f_equal string_of_list_ascii) in H.
  unfold string_chars in H. by rewrite !string_of_list_ascii_of_string in H.
Qed.

#[export] Instance string_app_r_inj s : Inj (=) (=) (λ a, a ++ s).
Proof.
  intros a b H. apply (f_equal string_chars) in H.
  rewrite !string_chars_app in H. by apply string_chars_inj, (app_inv_tail (string_chars s)).
Qed.

Lemma string_app_assoc a b c : (a ++ b) ++ c = a ++ (b ++ c).
Proof. induction a as [|x a IH]; [done |]. by rewrite !string_app_cons, IH. Qed.

Lemma string_app_empty_r a : a ++ "" = a.
Proof. induction a as [|x a IH]; [done |]. by rewrite !string_app_cons, IH. Qed.

Lemma join_empty_cons x l : join "" (x :: l) = x ++ join "" l.
Proof. destruct l; [simpl; by rewrite string_app_empty_r | done]. Qed.

Lemma join_empty_snoc l x : join "" (l ++ [x])%list = join "" l ++ x.
Proof.
  induction l as [|y l IH]; [done |]. rewrite <- app_comm_cons, !join_empty_cons, IH. by rewrite string_app_assoc.
Qed.

Lemma string_app_length a b : String.length (a ++ b) = (String.length a + String.length b)%nat.
Proof. induction a as [|x a IH]; [done |]. rewrite string_app_cons. simpl. by rewrite IH. Qed.

(** Two suffixes that differ within their common length cannot end the same
    string. *)
Definition suffix_clash (s1 s2 : string) : bool :=
  let l1 := reverse (string_chars s1) in
  let l2 := reverse (string_chars s2) in
  bool_decide (l1 `prefix_of` l2) || bool_decide (l2 `prefix_of` l1).

Lemma append_suffix_ne s1 s2 a b :
  suffix_clash s1 s2 = false → a ++ s1 ≠ b ++ s2.
Proof.
  intros Hc H. apply (f_equal (λ s, reverse (string_chars s))) in H.
  rewrite !string_chars_app, !reverse_app in H.
  unfold suffix_clash in Hc. apply orb_false_iff in Hc as [H1%bool_decide_eq_false H2%bool_decide_eq_false].
  apply app_eq_inv in H as [(k & E & _) | (k & E & _)]; [apply H2 | apply H1]; rewrite E; by eexists.
Qed.

(** Likewise for prefixes. *)
Definition prefix_clash (s1 s2 : string) : bool :=
  let l1 := string_chars s1 in
  let l2 := string_chars s2 in
  bool_decide (l1 `prefix_of` l2) || bool_decide (l2 `prefix_of` l1).

Lemma append_prefix_ne s1 s2 a b :
  prefix_clash s1 s2 = false → s1 ++ a ≠ s2 ++ b.
Proof.
  intros Hc H. apply (f_equal string_chars) in H.
  rewrite !string_chars_app in H.
  unfold prefix_clash in Hc. apply orb_false_iff in Hc as [H1%bool_decide_eq_false H2%bool_decide_eq_false].
  apply app_eq_inv in H as [(k & E & _) | (k & E & _)]; [apply H2 | apply H1]; rewrite E; by eexists.
Qed.

Lemma starts_with_app p s : starts_with p (p ++ s) = true.
Proof.
  unfold starts_with. induction p as [|c p IH]; [by destruct s |]. rewrite string_app_cons. simpl.
  destruct (ascii_dec c c); [done | congruence].
Qed.

Lemma starts_with_cancel p r s : starts_with (p ++ r) (p ++ s) = starts_with r s.
Proof.
  unfold starts_with. induction p as [|c p IH]; [done |]. rewrite !string_app_cons. simpl.
  destruct (ascii_dec c c); [done | congruence].
Qed.

Lemma starts_with_prefix p r s : starts_with (p ++ r) s = true → starts_with p s = true.
Proof.
  unfold starts_with. revert s. induction p as [|c p IH]; intros s H; [by destruct s |].
  rewrite string_app_cons in H. destruct s as [|d s]; [done |]. simpl in H |- *.
  destruct (ascii_dec c d); [by apply IH | done].
Qed.

Lemma split_on_app sep a b :
  no_char sep a = true → split_on sep (a ++ String sep b) = a :: split_on sep b.
Proof.
  induction a as [|c a IH]; intros H.
  - simpl. by rewrite Ascii.eqb_refl.
  - rewrite string_app_cons. simpl in *. apply andb_true_iff in H as [Hc Ha]. apply negb_true_iff in Hc.
    by rewrite Hc, IH.
Qed.

Lemma split_on_no_char sep a : no_char sep a = true → split_on sep a = [a].
Proof.
  induction a as [|c a IH]; simpl; intros H; [done |].
  apply andb_true_iff in H as [Hc Ha]. apply negb_true_iff in Hc.
  by rewrite Hc, IH.
Qed.
End Strings.

(** ** Lists *)

(** Sum of an integer measure over a list. *)
Definition sum_by {A} (f : A → Z) (l : list A) : Z := foldr (λ x s, f x + s) 0 l.

Section Lists.
Context {A : Type}.
Implicit Types (l : list A) (f : A → Z).

Lemma sum_by_nil f : sum_by f [] = 0.
Proof. done. Qed.
Lemma sum_by_cons f x l : sum_by f (x :: l) = f x + sum_by f l.
Proof. done. Qed.
Lemma sum_by_app f l1 l2 : sum_by f (l1 ++ l2)%list = sum_by f l1 + sum_by f l2.
Proof. induction l1 as [|x l1 IH]; [done |]. rewrite <- app_comm_cons, !sum_by_cons, IH. lia. Qed.
Lemma sum_by_perm f l1 l2 : l1 ≡ₚ l2 → sum_by f l1 = sum_by f l2.
Proof. induction 1; rewrite ?sum_by_cons; lia. Qed.
Lemma sum_by_nonneg f l : (∀ x, x ∈ l → 0 <= f x) → 0 <= sum_by f l.
Proof.
  induction l as [|x l IH]; intros H; [done |]. rewrite sum_by_cons.
  assert (0 <= f x) by (apply H; by left).
  assert (0 <= sum_by f l) by (apply IH; intros; apply H; by right). lia.
Qed.
Lemma sum_by_ext f g l : (∀ x, x ∈ l → f x = g x) → sum_by f l = sum_by g l.
Proof.
  induction l as [|x l IH]; intros H; [done |]. rewrite !sum_by_cons, IH.
  - by rewrite H by (by left).
  - intros y Hy. apply H. by right.
Qed.
Lemma sum_by_filter_split f (P : A → Prop) `{∀ x, Decision (P x)} l :
  sum_by f l = sum_by f (filter P l) + sum_by f (filter (λ x, ¬ P x) l).
Proof.
  induction l as [|x l IH]; [done |]. rewrite !filter_cons, sum_by_cons, IH.
  repeat case_decide; try done; rewrite !sum_by_cons; lia.
Qed.
Lemma filter_sublist_impl (P Q : A → Prop) `{∀ x, Decision (P x), ∀ x, Decision (Q x)} l :
  (∀ x, x ∈ l → P x → Q x) → filter P l `sublist_of` filter Q l.
Proof.
  induction l as [|x l IH]; intros H'; [done |]. rewrite !filter_cons.
  assert (filter P l `sublist_of` filter Q l) by (apply IH; intros; apply H'; [by right | done]).
  assert (P x → Q x) by (apply H'; by left).
  repeat case_decide; try tauto; [by constructor | by constructor].
Qed.
End Lists.

Create HintDb gateway.
Create Rewrite HintDb gateway.
#[export] Hint Rewrite @sum_by_nil @sum_by_cons @sum_by_app : gateway.

(** ** Integer arithmetic *)

(** JS/Lua [Math.ceil(a / b)] for a positive divisor. *)
Definition ceil_div (a b : Z) : Z := - ((- a) / b).

Lemma ceil_div_spec a b : 0 < b → b * (ceil_div a b - 1) < a <= b * ceil_div a b.
Proof.
  intros Hb. unfold ceil_div. pose proof (Z.div_mod (- a) b ltac:(lia)).
  pose proof (Z.mod_pos_bound (- a) b Hb). lia.
Qed.

Lemma ceil_div_pos a b : 0 < b → 0 < a → 1 <= ceil_div a b.
Proof. intros Hb Ha. pose proof (ceil_div_spec a b Hb). nia. Qed.

Lemma ceil_div_mono a a' b : 0 < b → a <= a' → ceil_div a b <= ceil_div a' b.
Proof.
  intros Hb Ha. pose proof (ceil_div_spec a b Hb). pose proof (ceil_div_spec a' b Hb). nia.
Qed.

(** [Number.MAX_SAFE_INTEGER]. *)
Definition MAX_SAFE_INTEGER : Z := 9007199254740991.

(** ** Timed sequences *)

(** Each time of [ts] is at most [w] after the one before, the first after [prev]. *)
Fixpoint paced (w prev : Z) (ts : list Z) : Prop :=
  match ts with [] => True | t :: ts' => prev <= t <= prev + w ∧ paced w t ts' end.

(** Two elements of one key, where the keys are distinct. *)
Lemma nodup_key {A B} (f : A → B) (l : list A) (x y : A) : NoDup (map f l) → x ∈ l → y ∈ l → f x = f y → x = y.
Proof.
  intros Hn Hx Hy E. apply list_elem_of_lookup in Hx as [i Hi], Hy as [j Hj].
  enough (i = j) by congruence. apply (NoDup_lookup (map f l) i j (f x)); [done | |];
    by rewrite list_lookup_fmap, ?Hi, ?Hj; simpl; rewrite ?E.
Qed.

(** ** Stable sorting *)

Section Sorting.
Context {A : Type} (le : A → A → bool).

Fixpoint insert_by (x : A) (l : list A) : list A :=
  match l with [] => [x] | y :: l' => if le x y then x :: y :: l' else y :: insert_by x l' end.
(** [Array.prototype.sort], which is stable; [le a b] when the comparator is at most 0. *)
Definition sort_by (l : list A) : list A := foldr insert_by [] l.

Lemma insert_by_perm x l : insert_by x l ≡ₚ x :: l.
Proof using. induction l as [|y l IH]; simpl; [done |]. destruct (le x y); [done |]. rewrite IH. apply Permutation_swap. Qed.

Lemma sort_by_perm l : sort_by l ≡ₚ l.
Proof using. induction l as [|x l IH]; [done |]. simpl. by rewrite insert_by_perm, IH. Qed.
End Sorting.

(** ** Text between marks *)

Fixpoint string_drop (n : nat) (s : string) : string :=
  match n, s with S n', String _ s' => string_drop n' s' | _, _ => s end.

(** [s] without the suffix, when it ends so. *)
Fixpoint strip_suffix (suffix s : string) : option string :=
  if String.eqb s suffix then Some ""
  else match s with String c s' => String c <$> strip_suffix suffix s' | EmptyString => None end.

Lemma strip_suffix_app suffix a : strip_suffix suffix (a ++ suffix) = Some a.
Proof.
  assert (Hself : ∀ u, strip_suffix u u = Some "") by (intros [|d u]; cbn [strip_suffix]; by rewrite String.eqb_refl).
  induction a as [|c a IH]; [apply Hself |]. rewrite string_app_cons. cbn [strip_suffix]. rewrite IH.
  destruct (String.eqb_spec (String c (a ++ suffix)) suffix) as [E | _]; [| done].
  apply (f_equal String.length) in E. simpl in E. rewrite string_app_length in E. lia.
Qed.
