(* ===== verification/Redis.v ===== *)
(** * Redis: the shared store, and programs of commands

    Every distributed component of the gateway (circuit breaker, rate limiter,
    load-balancer state, spend counters, cache, authentication cache) talks to
    one Redis server.  The server is not part of the repository: it appears here
    as the interface [RedisServer], whose single law says that a command
    behaves as Redis documents it ([exec]).  A Lua script, or a sequence of
    client calls, is a program [prog] that issues commands and inspects the
    replies; [run_refines] lifts the law from commands to programs.  The client
    side ([src/database/redis.ts]: [RedisScript.run], the reply parsers) follows. *)

From Stdlib Require Import ZArith Lia QArith String.
From stdpp Require Import base gmap strings list fin_maps.
From S2P Require Import Prelude.
Open Scope Z_scope.

(** ** Values, entries, commands, replies *)

(** String values, split by what they hold: text, an integer numeral, or the
    decimal numeral of a fractional number. *)
Inductive scalar :=
| SStr (s : string)
| SInt (z : Z)
| SNum (q : Q).

Inductive rval :=
| VStr (v : scalar)
| VZset (l : list (Z * string))  (* sorted by score, then member *)
| VHash (h : gmap string Z).

(** A key's value and its absolute expiry deadline in ms, if it has one. *)
Record entry := Entry { e_val : rval; e_deadline : option Z }.

Abbreviation db := (gmap string entry).

Inductive cmd :=
| GET (k : string)
| MGET (ks : list string)
| SET (k : string) (v : scalar) (px : option Z)
| DEL (ks : list string)
| INCR (k : string)
| DECR (k : string)
| INCRBYFLOAT (k : string) (q : Q)
| PEXPIRE (k : string) (ms : Z)
| HGET (k f : string)
| HSET (k f : string) (z : Z)
| HINCRBY (k f : string) (z : Z)
| ZADD (k : string) (score : Z) (m : string)
| ZCARD (k : string)
| ZREMRANGEBYSCORE (k : string) (lo hi : Z)
| ZRANGEBYSCORE (k : string) (lo hi : Z)
| ZRANGE0_WITHSCORES (k : string)  (* ZRANGE k 0 0 WITHSCORES *).

Inductive reply :=
| RNil
| RBulk (v : scalar)
| RInteger (z : Z)
| RStatus
| RMulti (l : list (option scalar))
| RMembers (l : list string)
| RFirst (o : option (Z * string))
| RError (e : string).

(** ** Documented command semantics *)

(** A key is visible until its deadline has passed. *)
Definition live (now : Z) (e : entry) : bool :=
  match e_deadline e with None => true | Some d => now <=? d end.

Definition look (now : Z) (s : db) (k : string) : option entry :=
  match s !! k with
  | Some e => if live now e then Some e else None
  | None => None
  end.

Definition look_val (now : Z) (s : db) (k : string) : option rval := e_val <$> look now s k.

Definition WRONGTYPE : reply := RError "WRONGTYPE Operation against a key holding the wrong kind of value".
Definition NOTINT : reply := RError "ERR value is not an integer or out of range".
Definition NOTFLOAT : reply := RError "ERR value is not a valid float".

(** Sorted-set order: by score, ties by member. *)
Definition zle (a b : Z * string) : bool :=
  (fst a <? fst b) || ((fst a =? fst b) && String.leb (snd a) (snd b)).

Fixpoint zinsert (x : Z * string) (l : list (Z * string)) : list (Z * string) :=
  match l with
  | [] => [x]
  | y :: l' => if zle x y then x :: y :: l' else y :: zinsert x l'
  end.

Definition zadd (score : Z) (m : string) (l : list (Z * string)) : list (Z * string) :=
  zinsert (score, m) (filter (λ x, x.2 ≠ m) l).

Definition in_range (lo hi : Z) (x : Z * string) : Prop := lo <= fst x <= hi.
#[export] Instance in_range_dec lo hi x : Decision (in_range lo hi x).
Proof. unfold in_range. apply _. Defined.

(** Write back a collection, deleting the key when the collection is empty. *)
Definition put_zset (k : string) (l : list (Z * string)) (dl : option Z) (s : db) : db :=
  match l with [] => delete k s | _ => <[k := Entry (VZset l) dl]> s end.

Definition read_zset (now : Z) (s : db) (k : string) : option (list (Z * string) * option Z) :=
  match look now s k with
  | None => Some ([], None)
  | Some (Entry (VZset l) dl) => Some (l, dl)
  | Some _ => None
  end.

Definition read_hash (now : Z) (s : db) (k : string) : option (gmap string Z * option Z) :=
  match look now s k with
  | None => Some (∅, None)
  | Some (Entry (VHash h) dl) => Some (h, dl)
  | Some _ => None
  end.

Definition read_int (now : Z) (s : db) (k : string) : option (Z * option Z) :=
  match look now s k with
  | None => Some (0, None)
  | Some (Entry (VStr (SInt z)) dl) => Some (z, dl)
  | Some _ => None
  end.

Definition to_q (v : scalar) : option Q :=
  match v with SInt z => Some (inject_Z z) | SNum q => Some q | SStr _ => None end.

Definition incr_by (k : string) (d now : Z) (s : db) : db * reply :=
  match read_int now s k with
  | Some (z, dl) => (<[k := Entry (VStr (SInt (z + d))) dl]> s, RInteger (z + d))
  | None => (s, NOTINT)
  end.

Definition get_scalar (now : Z) (s : db) (k : string) : option scalar :=
  match look_val now s k with Some (VStr v) => Some v | _ => None end.

Definition exec (c : cmd) (now : Z) (s : db) : db * reply :=
  match c with
  | GET k =>
      (s, match look_val now s k with
          | None => RNil
          | Some (VStr v) => RBulk v
          | Some _ => WRONGTYPE
          end)
  | MGET ks => (s, RMulti (map (get_scalar now s) ks))
  | SET k v px => (<[k := Entry (VStr v) (Z.add now <$> px)]> s, RStatus)
  | DEL ks =>
      (foldl (λ s k, delete k s) s ks,
       RInteger (Z.of_nat (length (filter (λ k, is_Some (look now s k)) ks))))
  | INCR k => incr_by k 1 now s
  | DECR k => incr_by k (-1) now s
  | INCRBYFLOAT k q =>
      match look now s k with
      | None => (<[k := Entry (VStr (SNum q)) None]> s, RBulk (SNum q))
      | Some (Entry (VStr v) dl) =>
          match to_q v with
          | Some q0 => (<[k := Entry (VStr (SNum (q0 + q))) dl]> s, RBulk (SNum (q0 + q)))
          | None => (s, NOTFLOAT)
          end
      | Some _ => (s, WRONGTYPE)
      end
  | PEXPIRE k ms =>
      match look now s k with
      | None => (s, RInteger 0)
      | Some e => (<[k := Entry (e_val e) (Some (now + ms))]> s, RInteger 1)
      end
  | HGET k f =>
      (s, match read_hash now s k with
          | None => WRONGTYPE
          | Some (h, _) => match h !! f with Some z => RBulk (SInt z) | None => RNil end
          end)
  | HSET k f z =>
      match read_hash now s k with
      | None => (s, WRONGTYPE)
      | Some (h, dl) =>
          (<[k := Entry (VHash (<[f := z]> h)) dl]> s,
           RInteger (if decide (is_Some (h !! f)) then 0 else 1))
      end
  | HINCRBY k f z =>
      match read_hash now s k with
      | None => (s, WRONGTYPE)
      | Some (h, dl) =>
          let z' := (h !! f ?? 0) + z in
          (<[k := Entry (VHash (<[f := z']> h)) dl]> s, RInteger z')
      end
  | ZADD k score m =>
      match read_zset now s k with
      | None => (s, WRONGTYPE)
      | Some (l, dl) =>
          (<[k := Entry (VZset (zadd score m l)) dl]> s,
           RInteger (if decide (m ∈ map snd l) then 0 else 1))
      end
  | ZCARD k =>
      (s, match read_zset now s k with
          | None => WRONGTYPE
          | Some (l, _) => RInteger (Z.of_nat (length l))
          end)
  | ZREMRANGEBYSCORE k lo hi =>
      match read_zset now s k with
      | None => (s, WRONGTYPE)
      | Some (l, dl) =>
          (put_zset k (filter (λ x, ¬ in_range lo hi x) l) dl s,
           RInteger (Z.of_nat (length (filter (in_range lo hi) l))))
      end
  | ZRANGEBYSCORE k lo hi =>
      (s, match read_zset now s k with
          | None => WRONGTYPE
          | Some (l, _) => RMembers (map snd (filter (in_range lo hi) l))
          end)
  | ZRANGE0_WITHSCORES k =>
      (s, match read_zset now s k with
          | None => WRONGTYPE
          | Some (l, _) => RFirst (head l)
          end)
  end.

(** ** Programs of commands *)

(** A Lua script body, or the command sequence of one client method: it issues
    commands, inspects replies, and either returns or raises. *)
Inductive prog (A : Type) : Type :=
| Done (a : A)
| Call (c : cmd) (k : reply → prog A)
| Raise (e : string).
Arguments Done {A} a.
Arguments Call {A} c k.
Arguments Raise {A} e.

Fixpoint bind {A B} (p : prog A) (f : A → prog B) : prog B :=
  match p with
  | Done a => f a
  | Call c k => Call c (λ r, bind (k r) f)
  | Raise e => Raise e
  end.

(** [redis.call(...)]: an error reply is raised. *)
Definition redis_call (c : cmd) : prog reply :=
  Call c (λ r, match r with RError e => Raise e | _ => Done r end).

Notation "'let*' x := p 'in' k" := (bind p (λ x, k))
  (at level 10, x pattern, p at level 100, k at level 200) : gateway_scope.
Notation "'call*' c 'in' k" := (bind (redis_call c) (λ _, k))
  (at level 10, c at level 100, k at level 200) : gateway_scope.

(** [tonumber(reply or '0')]; comparing or adding the [nil] that [tonumber]
    returns on text raises. *)
Definition tonumber_or_0 (r : reply) : prog Z :=
  match r with
  | RNil => Done 0
  | RBulk (SInt z) => Done z
  | RInteger z => Done z
  | _ => Raise "attempt to perform arithmetic on a nil value"
  end.

(** Execute a program: the store is not rolled back when it raises. *)
Fixpoint run {A} (p : prog A) (now : Z) (s : db) : db * result string A :=
  match p with
  | Done a => (s, Ok a)
  | Call c k => let '(s', r) := exec c now s in run (k r) now s'
  | Raise e => (s, Err e)
  end.

Lemma run_done {A} (a : A) now s : run (Done a) now s = (s, Ok a).
Proof. done. Qed.

Lemma run_bind {A B} (p : prog A) (f : A → prog B) now s :
  run (bind p f) now s =
  match run p now s with
  | (s', Ok a) => run (f a) now s'
  | (s', Err e) => (s', Err e)
  end.
Proof.
  revert s. induction p as [a | c k IH | e]; intros s; simpl; [done | | done].
  destruct (exec c now s) as [s' r]. apply IH.
Qed.

Lemma run_redis_call c now s :
  run (redis_call c) now s =
  match exec c now s with
  | (s', RError e) => (s', Err e)
  | (s', r) => (s', Ok r)
  end.
Proof. unfold redis_call. simpl. destruct (exec c now s) as [s' r]. by destruct r. Qed.

(** ** The server *)

(** What the gateway relies on: some server state can be viewed as a keyspace,
    and a command acts on that view as documented. *)
Class RedisServer (S : Type) := {
  srv_exec : S → Z → cmd → S * reply;
  srv_view : S → db;
  srv_exec_documented : ∀ s now c,
    (srv_view (srv_exec s now c).1, (srv_exec s now c).2) = exec c now (srv_view s)
}.

(** The keyspace itself is such a server. *)
Lemma exec_eta c now s : ((exec c now s).1, (exec c now s).2) = exec c now s.
Proof. by destruct (exec c now s). Qed.

#[export] Instance keyspace_server : RedisServer db := {
  srv_exec s now c := exec c now s;
  srv_view s := s;
  srv_exec_documented s now c := exec_eta c now s
}.

Section Server.
Context {S : Type} `{RedisServer S}.

Fixpoint srv_run {A} (p : prog A) (now : Z) (s : S) : S * result string A :=
  match p with
  | Done a => (s, Ok a)
  | Call c k => let '(s', r) := srv_exec s now c in srv_run (k r) now s'
  | Raise e => (s, Err e)
  end.

(** A program on any documented server behaves as on the keyspace. *)
Lemma run_refines {A} (p : prog A) now s :
  (srv_view (srv_run p now s).1, (srv_run p now s).2) = run p now (srv_view s).
Proof.
  revert s. induction p as [a | c k IH | e]; intros s; simpl; [done | | done].
  pose proof (srv_exec_documented s now c) as E.
  destruct (srv_exec s now c) as [s' r]. simpl in E. rewrite <- E. apply IH.
Qed.
End Server.

(** ** Looking up keys after a command *)

Section Lookups.
Implicit Types (s : db) (k : string).

Lemma look_insert_eq now s k e :
  look now (<[k := e]> s) k = if live now e then Some e else None.
Proof. unfold look. by rewrite lookup_insert_eq. Qed.

Lemma look_insert_ne now s k k' e : k ≠ k' → look now (<[k := e]> s) k' = look now s k'.
Proof. intros. unfold look. by rewrite lookup_insert_ne. Qed.

Lemma look_delete_eq now s k : look now (delete k s) k = None.
Proof. unfold look. by rewrite lookup_delete_eq. Qed.

Lemma look_delete_ne now s k k' : k ≠ k' → look now (delete k s) k' = look now s k'.
Proof. intros. unfold look. by rewrite lookup_delete_ne. Qed.

Lemma look_live now s k e : look now s k = Some e → live now e = true.
Proof. unfold look. intros. by repeat case_match; simplify_eq. Qed.

(** Once a key has expired it stays expired. *)
Lemma look_none_later now now' s k :
  now <= now' → look now s k = None → look now' s k = None.
Proof.
  unfold look, live. intros Hle H. destruct (s !! k) as [[v [d|]]|]; simpl in *; try done.
  destruct (now <=? d) eqn:E; [done |]. apply Z.leb_gt in E.
  destruct (now' <=? d) eqn:E'; [|done]. apply Z.leb_le in E'. lia.
Qed.
End Lookups.

(** [frame ks s s']: [s'] agrees with [s] on every key outside [ks]. *)
Definition frame (ks : list string) (s s' : db) : Prop := ∀ k, k ∉ ks → s' !! k = s !! k.

Lemma frame_refl ks s : frame ks s s.
Proof. done. Qed.

Lemma frame_trans ks s1 s2 s3 : frame ks s1 s2 → frame ks s2 s3 → frame ks s1 s3.
Proof. intros H1 H2 k Hk. by rewrite H2, H1. Qed.

(** The keys a command may change. *)
Definition written_keys (c : cmd) : list string :=
  match c with
  | GET _ | MGET _ | HGET _ _ | ZCARD _ | ZRANGEBYSCORE _ _ _ | ZRANGE0_WITHSCORES _ => []
  | SET k _ _ | INCR k | DECR k | INCRBYFLOAT k _ | PEXPIRE k _ | HSET k _ _
  | HINCRBY k _ _ | ZADD k _ _ | ZREMRANGEBYSCORE k _ _ => [k]
  | DEL ks => ks
  end.

Lemma delete_all_frame ks s : frame ks s (foldl (λ s k, delete k s) s ks).
Proof.
  revert s. induction ks as [|k ks IH]; intros s; [done |]. simpl.
  intros k' Hk'. apply not_elem_of_cons in Hk' as [Hne Hin].
  rewrite (IH (delete k s)) by done. by apply lookup_delete_ne.
Qed.

Lemma exec_frame c now s : frame (written_keys c) s (exec c now s).1.
Proof.
  destruct c; simpl; unfold incr_by; try (by apply frame_refl); try (by apply delete_all_frame).
  all: repeat case_match; simplify_eq/=; intros k' Hk'%not_elem_of_cons;
    destruct Hk' as [Hk' _]; rewrite ?lookup_insert_ne by done; try done.
  unfold put_zset. case_match; by rewrite ?lookup_delete_ne, ?lookup_insert_ne.
Qed.

(** [writes_within ks p]: whatever the replies, [p] only writes keys of [ks]. *)
Inductive writes_within (ks : list string) {A} : prog A → Prop :=
| ww_done a : writes_within ks (Done a)
| ww_raise e : writes_within ks (Raise e)
| ww_call c k : (∀ x, x ∈ written_keys c → x ∈ ks) → (∀ r, writes_within ks (k r)) →
    writes_within ks (Call c k).

Lemma ww_bind ks {A B} (p : prog A) (f : A → prog B) :
  writes_within ks p → (∀ a, writes_within ks (f a)) → writes_within ks (bind p f).
Proof. intros Hp Hf. induction Hp; simpl; [done | by constructor | by constructor]. Qed.

Lemma ww_redis_call ks c :
  (∀ x, x ∈ written_keys c → x ∈ ks) → writes_within ks (redis_call c).
Proof. intros H. constructor; [done |]. intros []; constructor. Qed.

Lemma ww_tonumber_or_0 ks r : writes_within ks (tonumber_or_0 r).
Proof. destruct r as [|[]| | | | | |]; constructor. Qed.

(** [solve_frame]: a program built from binds, conditionals and commands only
    writes the listed keys. *)
Ltac solve_frame :=
  repeat first
  [ apply ww_bind; [| intros ?]
  | apply ww_redis_call; let x := fresh in let Hx := fresh in
    intros x Hx; simpl in Hx; rewrite ?elem_of_cons in Hx; rewrite ?elem_of_cons; tauto
  | apply ww_tonumber_or_0
  | constructor
  | split_match ].

Lemma run_frame {A} ks (p : prog A) now s : writes_within ks p → frame ks s (run p now s).1.
Proof.
  intros H. revert s. induction H as [a | e | c k Hc Hk IH]; intros s; simpl; [done | done |].
  pose proof (exec_frame c now s) as Hf. destruct (exec c now s) as [s' r]. simpl in Hf.
  eapply frame_trans; [| apply IH]. intros x Hx. apply Hf. intros Hin. by apply Hx, Hc.
Qed.

#[global] Arguments bind : simpl never.
#[global] Arguments redis_call : simpl never.
#[global] Arguments run : simpl never.

(** ** The client *)

(** What can happen to one client call: it is served, it never reaches the
    server, or it is served and the reply is lost. *)
Inductive fault := Up | Down | Lost.

Definition client {A} (f : fault) (p : prog A) (now : Z) (s : db) : db * result string A :=
  match f with
  | Up => run p now s
  | Down => (s, Err "Connection is closed.")
  | Lost => ((run p now s).1, Err "Command timed out")
  end.

(** A read never changes the store; a failed one raises. *)
Lemma client_get f k now s : ∃ r, client f (redis_call (GET k)) now s = (s, r) ∧
  match r with
  | Ok (RBulk v) => look_val now s k = Some (VStr v)
  | Ok x => x = RNil ∧ look_val now s k = None
  | Err _ => True
  end.
Proof.
  destruct f; simpl; [| by eexists |]; rewrite run_redis_call; cbn [exec];
    destruct (look_val now s k) as [[v | l | h]|]; simpl; by eexists.
Qed.

(** ioredis reconnect delay ([retryStrategy]). *)
Definition retryStrategy (times : Z) : Z := Z.min (times * 200) 2000.

(** [class RedisScript]: the cached SHA, and the server's script cache. *)
Record script_state := ScriptState { ss_sha : option string; ss_cache : gset string }.

Definition isNoScriptError (e : string) : bool := includes "NOSCRIPT" e.

Section RedisScript.
(** The SHA-1 digest SCRIPT LOAD returns. *)
Variable digest : string → string.
Context {A : Type} (source : string) (body : prog A).

Definition evalsha (sha : string) (now : Z) (h : script_state) (s : db)
    : script_state * db * result string A :=
  if decide (sha ∈ ss_cache h)
  then let '(s', r) := run body now s in (h, s', r)
  else (h, s, Err "NOSCRIPT No matching script. Please use EVAL.").

Definition script_run (now : Z) (h : script_state) (s : db)
    : script_state * db * result string A :=
  let '(sha, h1) :=
    match ss_sha h with
    | Some sha => (sha, h)
    | None => (digest source,
               ScriptState (Some (digest source)) ({[digest source]} ∪ ss_cache h))
    end in
  match evalsha sha now h1 s with
  | (h2, s2, Err e) =>
      if isNoScriptError e then
        let '(s3, r) := run body now s2 in
        (ScriptState None ({[digest source]} ∪ ss_cache h2), s3, r)
      else (h2, s2, Err e)
  | ok => ok
  end.
End RedisScript.

(** A script runs exactly once whatever the state of the SHA and script caches
    (restart, SCRIPT FLUSH), as long as its own errors do not look like a
    NOSCRIPT error. *)
Lemma script_run_once digest {A} source (body : prog A) now h s :
  (∀ e, (run body now s).2 = Err e → isNoScriptError e = false) →
  (script_run digest source body now h s).1.2 = (run body now s).1 ∧
  (script_run digest source body now h s).2 = (run body now s).2.
Proof.
  intros Hns. unfold script_run, evalsha.
  destruct (ss_sha h) as [sha|]; simpl.
  - destruct (decide (sha ∈ ss_cache h)).
    + destruct (run body now s) as [s' [a|err]]; simpl in *; [done |]. by rewrite Hns.
    + simpl. by destruct (run body now s).
  - rewrite decide_True by set_solver.
    destruct (run body now s) as [s' [a|err]]; simpl in *; [done |]. by rewrite Hns.
Qed.

Lemma retryStrategy_bounds times : 1 <= times → 200 <= retryStrategy times <= 2000.
Proof. unfold retryStrategy. lia. Qed.
