(* ===== verification/Constants.v ===== *)
(** * Shared constants ([src/utils/constants.ts])

    Header names, discriminators, and the Redis key templates, with the lemmas
    that keep the key families of different components and identifiers apart. *)

From Stdlib Require Import ZArith Lia String Ascii.
From stdpp Require Import base gmap strings list.
From S2P Require Import Prelude.
Open Scope string_scope.

Module HEADERS.
Definition AUTHORIZATION := "authorization".
Definition API_KEY := "x-api-key".
Definition REQUEST_ID := "x-request-id".
Definition RETRY_AFTER := "retry-after".
Definition CONTENT_TYPE := "content-type".
Definition GATEWAY_PROVIDER := "x-gateway-provider".
Definition GATEWAY_MODEL := "x-gateway-model".
Definition GATEWAY_LATENCY_MS := "x-gateway-latency-ms".
Definition GATEWAY_CACHE_STATUS := "x-gateway-cache-status".
Definition GATEWAY_CACHE_CONTROL := "x-gateway-cache-control".
Definition GATEWAY_FAILOVER_COUNT := "x-gateway-failover-count".
Definition RATELIMIT_LIMIT := "x-ratelimit-limit".
Definition RATELIMIT_REMAINING := "x-ratelimit-remaining".
Definition RATELIMIT_RESET := "x-ratelimit-reset".
End HEADERS.

Inductive CacheStatus := HIT | MISS | BYPASS | SKIP.
Inductive AdapterType := openai | anthropic | gemini | cohere | mistral.
Inductive CircuitState := CLOSED | OPEN | HALF_OPEN.
Inductive HealthStatus := HEALTHY | DEGRADED | UNHEALTHY | UNKNOWN.

#[export] Instance CacheStatus_eq_dec : EqDecision CacheStatus.
Proof. solve_decision. Defined.
#[export] Instance AdapterType_eq_dec : EqDecision AdapterType.
Proof. solve_decision. Defined.
#[export] Instance CircuitState_eq_dec : EqDecision CircuitState.
Proof. solve_decision. Defined.
#[export] Instance HealthStatus_eq_dec : EqDecision HealthStatus.
Proof. solve_decision. Defined.

(** The strings the states are persisted as. *)
Definition circuit_state_str (c : CircuitState) : string :=
  match c with CLOSED => "CLOSED" | OPEN => "OPEN" | HALF_OPEN => "HALF_OPEN" end.

(** [OPENAI_OBJECT]. *)
Inductive OpenAIObject := CHAT_COMPLETION | CHAT_COMPLETION_CHUNK | EMBEDDING | LIST | MODEL.
Definition object_str (o : OpenAIObject) : string :=
  match o with
  | CHAT_COMPLETION => "chat.completion" | CHAT_COMPLETION_CHUNK => "chat.completion.chunk"
  | EMBEDDING => "embedding" | LIST => "list" | MODEL => "model"
  end.

Module SSE.
Definition DATA_PREFIX := "data: ".
Definition EVENT_DELIMITER := String "010"%char (String "010"%char "").
Definition DONE := "[DONE]".
End SSE.

Definition ONE_MINUTE_MS : Z := 60000.
Definition ONE_MINUTE_SECONDS : Z := 60.

(** ** Redis key templates *)

Module redisKeys.
Definition authKey (prefix keyHash : string) := prefix ++ "auth:" ++ keyHash.
Definition cbState (prefix providerId : string) := prefix ++ "cb:" ++ providerId ++ ":state".
Definition cbFailures (prefix providerId : string) := prefix ++ "cb:" ++ providerId ++ ":failures".
Definition cbOpenedAt (prefix providerId : string) := prefix ++ "cb:" ++ providerId ++ ":opened_at".
Definition cbHalfSuccesses (prefix providerId : string) :=
  prefix ++ "cb:" ++ providerId ++ ":half_successes".
Definition cbHalfProbes (prefix providerId : string) :=
  prefix ++ "cb:" ++ providerId ++ ":half_probes".
Definition cbScanPattern (prefix : string) := prefix ++ "cb:*:state".
Definition rateLimitRpm (prefix apiKeyId : string) := prefix ++ "rl:rpm:" ++ apiKeyId.
Definition rateLimitTpm (prefix apiKeyId : string) := prefix ++ "rl:tpm:" ++ apiKeyId.
Definition rateLimitTpmSum (prefix apiKeyId : string) := prefix ++ "rl:tpmsum:" ++ apiKeyId.
Definition rateLimitBurst (prefix apiKeyId : string) := prefix ++ "rl:burst:" ++ apiKeyId.
Definition cacheEntry (prefix fingerprint : string) := prefix ++ "cache:" ++ fingerprint.
Definition cacheScanPattern (prefix : string) := prefix ++ "cache:*".
Definition lbRoundRobin (prefix setKey : string) := prefix ++ "lb:rr:" ++ setKey.
Definition lbWrrCurrent (prefix setKey : string) := prefix ++ "lb:wrr:" ++ setKey.
Definition lbConnections (prefix providerId : string) := prefix ++ "lb:conn:" ++ providerId.
Definition lbLatencyEma (prefix providerId : string) := prefix ++ "lb:lat:" ++ providerId.
End redisKeys.

(** ** Separation of the key families *)

(** Two keys under one prefix are equal only if the rest is. *)
Lemma keys_same_prefix (p a b : string) : p ++ a = p ++ b ↔ a = b.
Proof. split; [apply (inj _) | by intros ->]. Qed.

(** [key_ne]: discharge a disequality between two keys of [redisKeys]. *)
Ltac key_ne :=
  unfold redisKeys.authKey, redisKeys.cbState, redisKeys.cbFailures, redisKeys.cbOpenedAt,
    redisKeys.cbHalfSuccesses, redisKeys.cbHalfProbes, redisKeys.rateLimitRpm,
    redisKeys.rateLimitTpm, redisKeys.rateLimitTpmSum, redisKeys.rateLimitBurst,
    redisKeys.cacheEntry, redisKeys.lbRoundRobin, redisKeys.lbWrrCurrent, redisKeys.lbConnections,
    redisKeys.lbLatencyEma in *;
  rewrite ?keys_same_prefix; rewrite ?keys_same_prefix;
  first [ done | congruence
        | apply append_prefix_ne; reflexivity
        | apply append_suffix_ne; reflexivity ].

(** The five breaker keys of a provider, and of two different providers. *)
Definition cb_suffixes : list string :=
  [":state"; ":failures"; ":opened_at"; ":half_successes"; ":half_probes"].

Definition cb_key (prefix suffix providerId : string) : string :=
  prefix ++ "cb:" ++ providerId ++ suffix.

Lemma cb_key_inj prefix x y i j :
  x ∈ cb_suffixes → y ∈ cb_suffixes →
  cb_key prefix x i = cb_key prefix y j → x = y ∧ i = j.
Proof.
  unfold cb_key. intros Hx Hy. rewrite !keys_same_prefix. intros E.
  assert (Hxy : x = y).
  { destruct (decide (x = y)) as [->|Hne]; [done | exfalso].
    assert (Hc : suffix_clash x y = false).
    { unfold cb_suffixes in *.
      repeat match goal with
      | H : _ ∈ _ :: _ |- _ => apply elem_of_cons in H as [-> | H]
      | H : _ ∈ [] |- _ => by apply elem_of_nil in H
      end; first [done | reflexivity]. }
    by apply (append_suffix_ne x y i j Hc). }
  subst. by apply (inj (λ a, a ++ y)) in E.
Qed.
