(* ===== verification/Keyspace.v ===== *)
(** * The key space ([redisKeys], and the patterns given to SCAN)

    Every key the gateway writes is of one of the families of [redisKeys]; the
    families do not meet, and the two patterns that are scanned match exactly
    the family they are meant for. *)

From Stdlib Require Import ZArith Lia String Ascii.
From stdpp Require Import base gmap strings list.
From S2P Require Import Prelude Constants.
Open Scope string_scope.

(** ** Families *)

Inductive family :=
| FAuth | FState | FFailures | FOpenedAt | FHalfSuccesses | FHalfProbes | FRpm | FTpm | FTpmSum | FBurst | FEntry
| FRoundRobin | FWrr | FConnections | FLatency.
#[export] Instance family_eq_dec : EqDecision family.
Proof. solve_decision. Defined.

(** The builder of each family. *)
Definition key_of_family (f : family) (prefix i : string) : string :=
  match f with
  | FAuth => redisKeys.authKey prefix i
  | FState => redisKeys.cbState prefix i
  | FFailures => redisKeys.cbFailures prefix i
  | FOpenedAt => redisKeys.cbOpenedAt prefix i
  | FHalfSuccesses => redisKeys.cbHalfSuccesses prefix i
  | FHalfProbes => redisKeys.cbHalfProbes prefix i
  | FRpm => redisKeys.rateLimitRpm prefix i
  | FTpm => redisKeys.rateLimitTpm prefix i
  | FTpmSum => redisKeys.rateLimitTpmSum prefix i
  | FBurst => redisKeys.rateLimitBurst prefix i
  | FEntry => redisKeys.cacheEntry prefix i
  | FRoundRobin => redisKeys.lbRoundRobin prefix i
  | FWrr => redisKeys.lbWrrCurrent prefix i
  | FConnections => redisKeys.lbConnections prefix i
  | FLatency => redisKeys.lbLatencyEma prefix i
  end.

(** What precedes and what follows the identifier. *)
Definition around_id (f : family) : string * string :=
  match f with
  | FAuth => ("auth:", "")
  | FState => ("cb:", ":state") | FFailures => ("cb:", ":failures") | FOpenedAt => ("cb:", ":opened_at")
  | FHalfSuccesses => ("cb:", ":half_successes") | FHalfProbes => ("cb:", ":half_probes")
  | FRpm => ("rl:rpm:", "") | FTpm => ("rl:tpm:", "") | FTpmSum => ("rl:tpmsum:", "") | FBurst => ("rl:burst:", "")
  | FEntry => ("cache:", "")
  | FRoundRobin => ("lb:rr:", "") | FWrr => ("lb:wrr:", "") | FConnections => ("lb:conn:", "") | FLatency => ("lb:lat:", "")
  end.

Lemma key_of_family_shape f prefix i : key_of_family f prefix i = prefix ++ (around_id f).1 ++ i ++ (around_id f).2.
Proof. destruct f; cbn; rewrite ?string_app_empty_r; reflexivity. Qed.

Lemma families_apart f g prefix i j : key_of_family f prefix i = key_of_family g prefix j → f = g ∧ i = j.
Proof.
  intros E. assert (Hfg : f = g).
  { destruct (decide (f = g)) as [| Hne]; [done | exfalso]. revert E. destruct f, g; try done; clear Hne; cbn [key_of_family]; key_ne. }
  subst g. split; [done |]. rewrite !key_of_family_shape, !keys_same_prefix in E. by apply (inj (λ a, a ++ _)) in E.
Qed.

(** ** Patterns *)

(** A SCAN pattern without [?], classes or escapes: a star matches any characters. *)
Fixpoint glob (p : string) (s : string) {struct p} : bool :=
  match p with
  | "" => match s with "" => true | _ => false end
  | String c p' =>
      if Ascii.eqb c "*" then
        (fix star (s : string) : bool := glob p' s || match s with "" => false | String _ s' => star s' end) s
      else match s with String d s' => Ascii.eqb c d && glob p' s' | "" => false end
  end.

Definition plain (p : string) : Prop :=
  Forall (λ c, c ∉ ["*"; "?"; "["; "\"]%char) (list_ascii_of_string p).

Lemma glob_literal p q s : plain p →
  glob (p ++ q) s = true ↔ ∃ s', s = p ++ s' ∧ glob q s' = true.
Proof.
  revert s. induction p as [|c p IH]; intros s Hp; [split; [by exists s | by intros (s' & -> & H)] |].
  apply list.Forall_cons in Hp as [Hc Hp]. change (String c p ++ q) with (String c (p ++ q)). cbn [glob].
  assert (E : Ascii.eqb c "*" = false) by (apply Ascii.eqb_neq; intros ->; apply Hc; by left). rewrite E.
  destruct s as [|d s]; [split; [done | by intros (s' & [=] & _)] |].
  rewrite andb_true_iff, Ascii.eqb_eq, IH by exact Hp. split.
  - intros [-> (s' & -> & H)]. by exists s'.
  - intros (s' & [= -> ->] & H). split; [done | by exists s'].
Qed.

Lemma glob_star q s : glob (String "*" q) s = true ↔ ∃ a b, s = a ++ b ∧ glob q b = true.
Proof.
  cbn [glob]. change (Ascii.eqb "*" "*") with true. cbv iota. induction s as [|d s IH].
  - rewrite orb_false_r. split; [by exists "", "" |]. intros ([|] & [|] & E & H); done.
  - rewrite orb_true_iff, IH. split.
    + intros [H | (a & b & -> & H)]; [by exists "", (String d s) | by exists (String d a), b].
    + intros ([|c a] & b & E & H); [left; change (String d s = b) in E; by subst b | right].
      change (String d s = String c (a ++ b)) in E. injection E as -> ->. by exists a, b.
Qed.

Lemma glob_self q s : plain q → glob q s = true ↔ s = q.
Proof.
  intros Hq. rewrite <- (string_app_empty_r q) at 1. rewrite glob_literal by done. split.
  - intros ([|] & -> & H); [apply string_app_empty_r | done].
  - intros ->. exists "". by rewrite string_app_empty_r.
Qed.

(** ** Theorem *)

(** The patterns are exact. Under a prefix without glob characters, the pattern
    of the cache matches the cache entries and no key of another family, and
    the pattern of the breakers matches their state keys and no other: flushing
    the cache and listing the breakers touch nothing else. *)
Theorem scan_patterns_exact prefix k : plain prefix →
  (glob (redisKeys.cacheScanPattern prefix) k = true ↔ ∃ i, k = redisKeys.cacheEntry prefix i) ∧
  (glob (redisKeys.cbScanPattern prefix) k = true ↔ ∃ i, k = redisKeys.cbState prefix i) ∧
  ∀ f i, k = key_of_family f prefix i →
    glob (redisKeys.cacheScanPattern prefix) k = bool_decide (f = FEntry) ∧
    glob (redisKeys.cbScanPattern prefix) k = bool_decide (f = FState).
Proof.
  intros Hp.
  assert (Hl : ∀ p : string, bool_decide (plain p) = true → plain p) by (intros p; apply bool_decide_eq_true_1).
  assert (He : glob (redisKeys.cacheScanPattern prefix) k = true ↔ ∃ i, k = redisKeys.cacheEntry prefix i).
  { unfold redisKeys.cacheScanPattern, redisKeys.cacheEntry. rewrite glob_literal by done.
    change "cache:*" with ("cache:" ++ String "*" ""). setoid_rewrite (glob_literal "cache:"); [| by apply Hl]. setoid_rewrite glob_star. split.
    - intros (x & -> & y & -> & a & [|] & -> & H); [| done]. exists a. by rewrite string_app_empty_r.
    - intros [i ->]. eexists. split; [done |]. exists i. split; [done |]. exists i, "". by rewrite string_app_empty_r. }
  assert (Hs : glob (redisKeys.cbScanPattern prefix) k = true ↔ ∃ i, k = redisKeys.cbState prefix i).
  { unfold redisKeys.cbScanPattern, redisKeys.cbState. rewrite glob_literal by done.
    change "cb:*:state" with ("cb:" ++ String "*" ":state"). setoid_rewrite (glob_literal "cb:"); [| by apply Hl]. setoid_rewrite glob_star.
    setoid_rewrite glob_self; [| by apply Hl]. split.
    - intros (x & -> & y & -> & a & b & -> & ->). by exists a.
    - intros [i ->]. eexists. split; [done |]. eexists. split; [done |]. by exists i, ":state". }
  split; [done |]. split; [done |]. intros f i ->. split; apply eq_bool_prop_intro; rewrite !Is_true_true, bool_decide_eq_true.
  - rewrite He. split; [intros [j E]; by apply (families_apart f FEntry) in E as [-> _] | intros ->; by exists i].
  - rewrite Hs. split; [intros [j E]; by apply (families_apart f FState) in E as [-> _] | intros ->; by exists i].
Qed.

Lemma scan_patterns_exact_witness :
  plain "gw:" ∧ glob (redisKeys.cacheScanPattern "gw:") (redisKeys.cacheEntry "gw:" "ab") = true ∧
  glob (redisKeys.cbScanPattern "gw:") (redisKeys.cbFailures "gw:" "p") = false.
Proof.
  assert (Hp : plain "gw:") by (refine (bool_decide_eq_true_1 _ _); by vm_compute). split; [done |]. split.
  - apply (scan_patterns_exact "gw:" _ Hp). by eexists.
  - by apply (scan_patterns_exact "gw:" _ Hp) with (f := FFailures) (i := "p").
Defined.
