(* ===== verification/Numerals.v ===== *)
(** * Decimal numerals

    Printing and parsing of integers as JS and Lua do it for integers in the
    safe range, used for Redis members and HTTP headers. *)

From Stdlib Require Import ZArith Lia QArith String Ascii DecimalString Decimal DecimalZ.
From stdpp Require Import base gmap strings list.
From S2P Require Import Prelude.
Open Scope Z_scope.

(** [String(n)], and Lua's number-to-string coercion, of an integer. *)
Definition dec (z : Z) : string := NilZero.string_of_int (Z.to_int z).

(** [tonumber(s)] on an optionally signed string of digits; [None] otherwise. *)
Definition undec (s : string) : option Z := Z.of_int <$> NilZero.int_of_string s.

(** [Number(s)] on a decimal numeral, as PostgreSQL writes numeric columns. *)
Definition parse_decimal (s : string) : option Q :=
  match split_on "."%char s with
  | [i] => inject_Z <$> undec i
  | [i; f] =>
      if no_char "-"%char f
      then (λ z, inject_Z z / inject_Z (10 ^ Z.of_nat (String.length f)))%Q <$> undec (i ++ f)
      else None
  | _ => None
  end.

Example parse_decimal_price : parse_decimal "-0.250" = Some (-250 / 1000)%Q.
Proof. reflexivity. Qed.

Lemma to_int_not_nil z : Z.to_int z ≠ Decimal.Pos Decimal.Nil ∧ Z.to_int z ≠ Decimal.Neg Decimal.Nil.
Proof.
  destruct z as [|p|p]; simpl; split; try done; intros [= H]; by apply (DecimalPos.Unsigned.to_uint_nonnil p).
Qed.

Lemma undec_dec z : undec (dec z) = Some z.
Proof.
  unfold undec, dec. destruct (to_int_not_nil z).
  rewrite NilZero.isi by done. simpl. by rewrite DecimalZ.of_to.
Qed.

(** Numerals contain only digits and a sign. *)
Lemma no_char_uint c d :
  (Nat.ltb 57 (nat_of_ascii c)) = true → no_char c (NilEmpty.string_of_uint d) = true.
Proof.
  intros Hc. assert (∀ x, (nat_of_ascii x <= 57)%nat → Ascii.eqb x c = false) as Hx.
  { intros x Hle. apply Ascii.eqb_neq. intros ->. apply Nat.ltb_lt in Hc. lia. }
  induction d; cbn [NilEmpty.string_of_uint no_char]; [done |..]; rewrite Hx by (vm_compute; lia); done.
Qed.

Lemma no_char_dec c z :
  (Nat.ltb 57 (nat_of_ascii c)) = true → no_char c (dec z) = true.
Proof.
  intros Hc. assert (Hz : ∀ d, no_char c (NilZero.string_of_uint d) = true).
  { intros []; try (by apply no_char_uint). cbn [NilZero.string_of_uint no_char].
    rewrite (proj2 (Ascii.eqb_neq _ _)); [done |]. intros <-. by vm_compute in Hc. }
  unfold dec. destruct (Z.to_int z); cbn [NilZero.string_of_int no_char]; [apply Hz |].
  rewrite Hz, andb_true_r. apply negb_true_iff, Ascii.eqb_neq. intros <-. by vm_compute in Hc.
Qed.

Lemma dec_not_empty z : dec z ≠ EmptyString.
Proof. intros H. pose proof (undec_dec z) as E. by rewrite H in E. Qed.

(** No control character in a numeral. *)
Lemma no_control_dec c z : (Nat.ltb (nat_of_ascii c) 32) = true → no_char c (dec z) = true.
Proof.
  intros Hc. assert (∀ x, (32 <= nat_of_ascii x)%nat → Ascii.eqb x c = false) as Hx.
  { intros x Hle. apply Ascii.eqb_neq. intros ->. apply Nat.ltb_lt in Hc. lia. }
  assert (Hu : ∀ d, no_char c (NilEmpty.string_of_uint d) = true).
  { induction d; cbn [NilEmpty.string_of_uint no_char]; [done |..]; rewrite Hx by (vm_compute; lia); done. }
  assert (Hz : ∀ d, no_char c (NilZero.string_of_uint d) = true).
  { intros []; try apply Hu. cbn [NilZero.string_of_uint no_char]. by rewrite Hx by (vm_compute; lia). }
  unfold dec. destruct (Z.to_int z); cbn [NilZero.string_of_int no_char]; [apply Hz |].
  rewrite Hz, Hx by (vm_compute; lia). done.
Qed.
