(* ===== verification/Bytes.v ===== *)
(** * Buffers and their text encodings

    Node's [Buffer] as a list of bytes, and the two encodings the gateway
    stores bytes in: hexadecimal and base64url. *)

From Stdlib Require Import ZArith Lia QArith String Ascii.
From stdpp Require Import base strings list option.
From S2P Require Import Prelude.
Open Scope Z_scope.

Abbreviation Buffer := (list Byte.byte).

#[export] Instance byte_eq_dec : EqDecision Byte.byte := Byte.byte_eq_dec.

Definition byte_val (b : Byte.byte) : Z := Z.of_N (Byte.to_N b).
Definition byte_of (z : Z) : Byte.byte :=
  match Byte.of_N (Z.to_N (z mod 256)) with Some b => b | None => Byte.x00 end.

Lemma byte_of_val b : byte_of (byte_val b) = b.
Proof. by destruct b. Qed.
Lemma byte_val_range b : 0 <= byte_val b < 256.
Proof. unfold byte_val. pose proof (Byte.to_N_bounded b). lia. Qed.

(** The character of rank [n] of an alphabet, and the rank of a character. *)
Definition nth_char (alphabet : string) (n : Z) : ascii :=
  match String.get (Z.to_nat n) alphabet with Some c => c | None => "000"%char end.
Fixpoint rank (c : ascii) (alphabet : string) : option Z :=
  match alphabet with
  | EmptyString => None
  | String d s => if Ascii.eqb c d then Some 0 else Z.succ <$> rank c s
  end.

(** [0 <= k < n], one by one. *)
Fixpoint upto (n : nat) : list Z := match n with O => [] | S n' => upto n' ++ [Z.of_nat n'] end.
Lemma upto_spec n z : 0 <= z < Z.of_nat n → z ∈ upto n.
Proof.
  induction n as [|n IH]; [lia |]. intros Hz. cbn [upto]. apply elem_of_app.
  destruct (decide (z = Z.of_nat n)) as [-> |]; [right; by left | left; apply IH; lia].
Qed.
Lemma upto_forall (P : Z → bool) n : forallb P (upto n) = true → ∀ z, 0 <= z < Z.of_nat n → P z = true.
Proof. intros H z Hz. apply (proj1 (forallb_forall P _) H z), list_elem_of_In. by apply upto_spec. Qed.

(** ** Hexadecimal *)

Definition hex_alphabet : string := "0123456789abcdef".
Definition hex_rank (c : ascii) : option Z := rank (lower_ascii c) hex_alphabet.

Fixpoint to_hex (b : Buffer) : string :=
  match b with
  | [] => ""
  | x :: b' => String (nth_char hex_alphabet (byte_val x / 16)) (String (nth_char hex_alphabet (byte_val x mod 16)) (to_hex b'))
  end.

(** [Buffer.from(s, 'hex')]: stops at the first pair that is not two digits. *)
Fixpoint of_hex (s : string) : Buffer :=
  match s with
  | String c (String d s') =>
      match hex_rank c, hex_rank d with
      | Some h, Some l => byte_of (h * 16 + l) :: of_hex s'
      | _, _ => []
      end
  | _ => []
  end.

Lemma hex_rank_nth z : 0 <= z < 16 → hex_rank (nth_char hex_alphabet z) = Some z.
Proof.
  intros Hz. apply (bool_decide_unpack _). 
  apply Is_true_true. revert z Hz. apply (upto_forall (λ z, bool_decide (hex_rank (nth_char hex_alphabet z) = Some z)) 16).
  by vm_compute.
Qed.

Lemma of_to_hex b : of_hex (to_hex b) = b.
Proof.
  induction b as [|x b IH]; [done |]. cbn [to_hex of_hex]. pose proof (byte_val_range x).
  rewrite !hex_rank_nth, IH by (Z.to_euclidean_division_equations; lia). f_equal.
  rewrite Z.mul_comm, <- Z.div_mod by lia. apply byte_of_val.
Qed.

Lemma to_hex_length b : String.length (to_hex b) = (2 * length b)%nat.
Proof. induction b as [|x b IH]; [done |]. simpl. rewrite IH. lia. Qed.

(** ** base64url *)

Definition base64url_alphabet : string := "ABCDEFGHIJKLMNOPQRSTUVWXYZabcdefghijklmnopqrstuvwxyz0123456789-_".

Fixpoint sextets (b : Buffer) : list Z :=
  match b with
  | x :: y :: z :: b' =>
      let '(x, y, z) := (byte_val x, byte_val y, byte_val z) in
      x / 4 :: (x mod 4) * 16 + y / 16 :: (y mod 16) * 4 + z / 64 :: z mod 64 :: sextets b'
  | [x; y] =>
      let '(x, y) := (byte_val x, byte_val y) in [x / 4; (x mod 4) * 16 + y / 16; (y mod 16) * 4]
  | [x] => let x := byte_val x in [x / 4; (x mod 4) * 16]
  | [] => []
  end.

Definition to_base64url (b : Buffer) : string :=
  string_of_list_ascii (map (nth_char base64url_alphabet) (sextets b)).

(** A character of either base64 alphabet. *)
Definition sextet_of (c : ascii) : option Z :=
  if Ascii.eqb c "+" then Some 62 else if Ascii.eqb c "/" then Some 63 else rank c base64url_alphabet.

Fixpoint of_sextets (l : list Z) : Buffer :=
  match l with
  | s0 :: s1 :: s2 :: s3 :: l' =>
      byte_of (s0 * 4 + s1 / 16) :: byte_of ((s1 mod 16) * 16 + s2 / 4) :: byte_of ((s2 mod 4) * 64 + s3) :: of_sextets l'
  | [s0; s1; s2] => [byte_of (s0 * 4 + s1 / 16); byte_of ((s1 mod 16) * 16 + s2 / 4)]
  | [s0; s1] => [byte_of (s0 * 4 + s1 / 16)]
  | _ => []
  end.

(** [Buffer.from(s, 'base64url')]: characters of neither alphabet are skipped. *)
Definition of_base64url (s : string) : Buffer := of_sextets (omap sextet_of (list_ascii_of_string s)).

Lemma sextet_of_nth z : 0 <= z < 64 → sextet_of (nth_char base64url_alphabet z) = Some z.
Proof.
  intros Hz. apply (bool_decide_unpack _), Is_true_true. revert z Hz.
  apply (upto_forall (λ z, bool_decide (sextet_of (nth_char base64url_alphabet z) = Some z)) 64). by vm_compute.
Qed.

Lemma base64url_no_dot z : 0 <= z < 64 → Ascii.eqb (nth_char base64url_alphabet z) "." = false.
Proof.
  intros Hz. apply negb_true_iff. revert z Hz.
  apply (upto_forall (λ z, negb (Ascii.eqb (nth_char base64url_alphabet z) ".")) 64). by vm_compute.
Qed.

(** Three bytes at a time. *)
Lemma bytes_ind (P : Buffer → Prop) :
  P [] → (∀ x, P [x]) → (∀ x y, P [x; y]) → (∀ x y z b, P b → P (x :: y :: z :: b)) → ∀ b, P b.
Proof.
  intros H0 H1 H2 H3. fix IH 1. intros [|x [|y [|z b]]]; [done | apply H1 | apply H2 | apply H3, IH].
Qed.

Ltac div64 := Z.to_euclidean_division_equations; lia.

Lemma sextets_range b : Forall (λ s, 0 <= s < 64) (sextets b).
Proof.
  induction b as [| x | x y | x y z b IH] using bytes_ind; cbn [sextets]; [constructor | ..];
    pose proof (byte_val_range x); try pose proof (byte_val_range y); try pose proof (byte_val_range z);
    repeat (constructor; [div64 |]); done.
Qed.

Lemma byte_of_eq v x : v = byte_val x → byte_of v = x.
Proof. intros ->. apply byte_of_val. Qed.

Lemma of_sextets_sextets b : of_sextets (sextets b) = b.
Proof.
  induction b as [| x | x y | x y z b IH] using bytes_ind; cbn [sextets of_sextets]; [done | ..];
    pose proof (byte_val_range x); try pose proof (byte_val_range y); try pose proof (byte_val_range z);
    rewrite ?IH; repeat f_equal; apply byte_of_eq; div64.
Qed.

Lemma of_to_base64url b : of_base64url (to_base64url b) = b.
Proof.
  unfold of_base64url, to_base64url. rewrite list_ascii_of_string_of_list_ascii.
  rewrite <- (of_sextets_sextets b) at 2. f_equal.
  induction (sextets_range b) as [|s l Hs _ IH]; [done |]. cbn [map].
  change (omap sextet_of (?x :: ?r)) with (match sextet_of x with Some y => y :: omap sextet_of r | None => omap sextet_of r end).
  by rewrite sextet_of_nth, IH.
Qed.

Lemma to_base64url_no_dot b : no_char "." (to_base64url b) = true.
Proof.
  unfold to_base64url. induction (sextets_range b) as [|s l Hs _ IH]; [done |].
  cbn [map string_of_list_ascii no_char]. by rewrite base64url_no_dot, IH.
Qed.
