(* ===== verification/CircuitBreaker.v ===== *)
(** * Distributed circuit breaker ([src/circuit-breaker/index.ts])

    The four Lua scripts as programs over the keyspace, the class's methods, an
    abstract state machine of one breaker, the simulation of the scripts by the
    machine, and the machine's invariants, safety and recovery. *)

From Stdlib Require Import ZArith Lia QArith String Ascii.
From stdpp Require Import base gmap strings list fin_maps pretty.
From S2P Require Import Prelude Redis Constants.
Open Scope Z_scope.

(** ** The scripts *)

Section Scripts.
Open Scope string_scope.
Open Scope Z_scope.

(** [redis.call('GET', k) or d] used as text. *)
Definition text_or (d : string) (r : reply) : prog string :=
  match r with
  | RNil => Done d
  | RBulk (SStr s) => Done s
  | RBulk (SInt z) => Done (pretty z)
  | _ => Raise "unexpected reply"
  end.

Definition get_text_or (k d : string) : prog string :=
  let* r := redis_call (GET k) in text_or d r.
Definition get_number_or_0 (k : string) : prog Z :=
  let* r := redis_call (GET k) in tonumber_or_0 r.

#[global] Arguments get_text_or : simpl never.
#[global] Arguments get_number_or_0 : simpl never.

Definition ACQUIRE_LUA (kState kOpenedAt kHalfProbes kHalfSuccesses : string)
    (now timeout maxProbes : Z) : prog (string * Z) :=
  let* state := get_text_or kState "CLOSED" in
  if String.eqb state "CLOSED" then Done ("CLOSED", 1)
  else if String.eqb state "OPEN" then
    let* openedAt := get_number_or_0 kOpenedAt in
    if timeout <=? now - openedAt then
      call* SET kState (SStr "HALF_OPEN") None in
      call* SET kHalfProbes (SInt 1) (Some timeout) in
      call* SET kHalfSuccesses (SInt 0) None in
      Done ("HALF_OPEN", 1)
    else Done ("OPEN", 0)
  else if String.eqb state "HALF_OPEN" then
    let* probes := get_number_or_0 kHalfProbes in
    if probes <? maxProbes then
      call* INCR kHalfProbes in
      call* PEXPIRE kHalfProbes timeout in
      Done ("HALF_OPEN", 1)
    else Done ("HALF_OPEN", 0)
  else Done (state, 1).

Definition SUCCESS_LUA (kState kFailures kHalfSuccesses kHalfProbes kOpenedAt : string)
    (threshold : Z) : prog string :=
  let* state := get_text_or kState "CLOSED" in
  if String.eqb state "HALF_OPEN" then
    let* r := redis_call (INCR kHalfSuccesses) in
    let* s := tonumber_or_0 r in
    if threshold <=? s then
      call* SET kState (SStr "CLOSED") None in
      call* DEL [kFailures; kHalfSuccesses; kHalfProbes; kOpenedAt] in
      Done "CLOSED"
    else
      let* p := get_number_or_0 kHalfProbes in
      if 0 <? p then call* DECR kHalfProbes in Done "HALF_OPEN"
      else Done "HALF_OPEN"
  else if String.eqb state "CLOSED" then
    call* DEL [kFailures] in Done "CLOSED"
  else Done state.

Definition RELEASE_LUA (kState kHalfProbes : string) : prog string :=
  let* state := get_text_or kState "CLOSED" in
  if String.eqb state "HALF_OPEN" then
    let* p := get_number_or_0 kHalfProbes in
    if 0 <? p then call* DECR kHalfProbes in Done state
    else Done state
  else Done state.

Definition FAILURE_LUA (kState kFailures kOpenedAt kHalfProbes kHalfSuccesses : string)
    (now threshold window : Z) : prog string :=
  let* state := get_text_or kState "CLOSED" in
  if String.eqb state "OPEN" then Done "OPEN"
  else if String.eqb state "HALF_OPEN" then
    call* SET kState (SStr "OPEN") None in
    call* SET kOpenedAt (SInt now) None in
    call* DEL [kHalfProbes; kHalfSuccesses; kFailures] in
    Done "OPEN"
  else
    let* r := redis_call (INCR kFailures) in
    let* f := tonumber_or_0 r in
    call* PEXPIRE kFailures window in
    if threshold <=? f then
      call* SET kState (SStr "OPEN") None in
      call* SET kOpenedAt (SInt now) None in
      Done "OPEN"
    else Done "CLOSED".
End Scripts.

(** ** The class *)

Record CircuitBreakerOptions := {
  failureThreshold : Z;
  successThreshold : Z;
  timeoutMs : Z;
  windowMs : Z;
  halfOpenMaxProbes : Z
}.

(** The configuration schema's bounds ([CB_*] are integers >= 1). *)
Definition options_ok (o : CircuitBreakerOptions) : Prop :=
  1 <= failureThreshold o ∧ 1 <= successThreshold o ∧ 1 <= timeoutMs o ∧
  1 <= windowMs o ∧ 1 <= halfOpenMaxProbes o.

Record CircuitDecision := { cd_state : string; cd_allowed : bool }.

Definition parseDecision (raw : string * Z) : CircuitDecision :=
  {| cd_state := raw.1; cd_allowed := raw.2 =? 1 |}.

Section Methods.
Variable prefix : string.
Variable opts : CircuitBreakerOptions.

Definition acquire (id : string) (nowMs : Z) : prog CircuitDecision :=
  let* raw := ACQUIRE_LUA (redisKeys.cbState prefix id) (redisKeys.cbOpenedAt prefix id)
               (redisKeys.cbHalfProbes prefix id) (redisKeys.cbHalfSuccesses prefix id)
               nowMs (timeoutMs opts) (halfOpenMaxProbes opts) in
  Done (parseDecision raw).

Definition recordSuccess (id : string) : prog string :=
  SUCCESS_LUA (redisKeys.cbState prefix id) (redisKeys.cbFailures prefix id)
    (redisKeys.cbHalfSuccesses prefix id) (redisKeys.cbHalfProbes prefix id)
    (redisKeys.cbOpenedAt prefix id) (successThreshold opts).

Definition recordFailure (id : string) (nowMs : Z) : prog string :=
  FAILURE_LUA (redisKeys.cbState prefix id) (redisKeys.cbFailures prefix id)
    (redisKeys.cbOpenedAt prefix id) (redisKeys.cbHalfProbes prefix id)
    (redisKeys.cbHalfSuccesses prefix id) nowMs (failureThreshold opts) (windowMs opts).

Definition release (id : string) : prog unit :=
  let* _ := RELEASE_LUA (redisKeys.cbState prefix id) (redisKeys.cbHalfProbes prefix id) in
  Done tt.

Definition reset (id : string) : prog unit :=
  call* DEL [redisKeys.cbState prefix id; redisKeys.cbFailures prefix id;
             redisKeys.cbOpenedAt prefix id; redisKeys.cbHalfProbes prefix id;
             redisKeys.cbHalfSuccesses prefix id] in
  Done tt.

(** [getState]: one MGET of state, failures and opened-at. *)
Record CircuitBreakerStatus := {
  cs_providerId : string; cs_state : string; cs_failures : Z; cs_openedAt : option Z
}.

Definition scalar_num (o : option scalar) : option Z :=
  match o with Some (SInt z) => Some z | _ => None end.

Definition getState (id : string) : prog CircuitBreakerStatus :=
  let* r := redis_call (MGET [redisKeys.cbState prefix id; redisKeys.cbFailures prefix id;
                              redisKeys.cbOpenedAt prefix id]) in
  match r with
  | RMulti [state; failures; openedAt] =>
      Done {| cs_providerId := id;
              cs_state := match state with Some (SStr s) => s | _ => "CLOSED"%string end;
              cs_failures := scalar_num failures ?? 0;
              cs_openedAt := scalar_num openedAt |}
  | _ => Raise "unexpected reply"%string
  end.
End Methods.

(** ** The abstract breaker *)

(** A counter with a lease: its value and its expiry deadline. *)
Definition leased := option (Z * Z).

Record breaker := Breaker {
  b_state : option CircuitState;
  b_failures : leased;
  b_openedAt : option Z;
  b_probes : leased;
  b_successes : option Z
}.

Definition initial : breaker := Breaker None None None None None.

Definition state_of (b : breaker) : CircuitState := b_state b ?? CLOSED.

(** The value of a leased counter at server time [t]. *)
Definition value_at (t : Z) (c : leased) : Z :=
  match c with Some (v, d) => if t <=? d then v else 0 | None => 0 end.

(** Give one unit back, keeping the lease. *)
Definition give_back (t : Z) (c : leased) : leased :=
  match c with
  | Some (v, d) => if t <=? d then if 0 <? v then Some (v - 1, d) else c else c
  | None => c
  end.

Inductive op :=
| OpAcquire (now : Z)
| OpSuccess
| OpFailure (now : Z)
| OpRelease
| OpReset.

(** [t] is the server clock, the [now] of an operation the caller's clock.
    The result is the reported state and, for an acquire, the admission. *)
Definition step (o : CircuitBreakerOptions) (t : Z) (a : op) (b : breaker)
    : breaker * (CircuitState * bool) :=
  match a with
  | OpAcquire now =>
      match state_of b with
      | CLOSED => (b, (CLOSED, true))
      | OPEN =>
          if timeoutMs o <=? now - (b_openedAt b ?? 0) then
            (Breaker (Some HALF_OPEN) (b_failures b) (b_openedAt b)
               (Some (1, t + timeoutMs o)) (Some 0), (HALF_OPEN, true))
          else (b, (OPEN, false))
      | HALF_OPEN =>
          if value_at t (b_probes b) <? halfOpenMaxProbes o then
            (Breaker (b_state b) (b_failures b) (b_openedAt b)
               (Some (value_at t (b_probes b) + 1, t + timeoutMs o)) (b_successes b),
             (HALF_OPEN, true))
          else (b, (HALF_OPEN, false))
      end
  | OpSuccess =>
      match state_of b with
      | HALF_OPEN =>
          let s := (b_successes b ?? 0) + 1 in
          if successThreshold o <=? s then
            (Breaker (Some CLOSED) None None None None, (CLOSED, true))
          else
            (Breaker (b_state b) (b_failures b) (b_openedAt b)
               (give_back t (b_probes b)) (Some s), (HALF_OPEN, true))
      | CLOSED => (Breaker (b_state b) None (b_openedAt b) (b_probes b) (b_successes b), (CLOSED, true))
      | OPEN => (b, (OPEN, true))
      end
  | OpFailure now =>
      match state_of b with
      | OPEN => (b, (OPEN, true))
      | HALF_OPEN => (Breaker (Some OPEN) None (Some now) None None, (OPEN, true))
      | CLOSED =>
          let f := value_at t (b_failures b) + 1 in
          let fs := Some (f, t + windowMs o) in
          if failureThreshold o <=? f then
            (Breaker (Some OPEN) fs (Some now) (b_probes b) (b_successes b), (OPEN, true))
          else (Breaker (b_state b) fs (b_openedAt b) (b_probes b) (b_successes b), (CLOSED, true))
      end
  | OpRelease =>
      match state_of b with
      | HALF_OPEN =>
          (Breaker (b_state b) (b_failures b) (b_openedAt b)
             (give_back t (b_probes b)) (b_successes b), (HALF_OPEN, true))
      | c => (b, (c, true))
      end
  | OpReset => (initial, (CLOSED, true))
  end.

(** ** Simulation *)

Definition text_entry (c : CircuitState) : entry := Entry (VStr (SStr (circuit_state_str c))) None.
Definition int_entry (z : Z) : entry := Entry (VStr (SInt z)) None.
Definition leased_entry (c : Z * Z) : entry := Entry (VStr (SInt c.1)) (Some c.2).

Definition state_eqb (c d : CircuitState) : bool :=
  match c, d with
  | CLOSED, CLOSED | OPEN, OPEN | HALF_OPEN, HALF_OPEN => true
  | _, _ => false
  end.

Lemma state_str_eqb c d : String.eqb (circuit_state_str c) (circuit_state_str d) = state_eqb c d.
Proof. by destruct c, d. Qed.

(** Symbolic execution of the commands the scripts use. *)
Section Commands.
Context (t : Z) (s : db) (k : string).

Lemma run_get_state oc :
  s !! k = text_entry <$> oc →
  run (get_text_or k "CLOSED") t s = (s, Ok (circuit_state_str (oc ?? CLOSED))).
Proof. intros H. unfold get_text_or. rewrite run_bind, run_redis_call. simpl. unfold look_val, look. rewrite H. by destruct oc. Qed.

Lemma run_get_int oz :
  s !! k = int_entry <$> oz → run (get_number_or_0 k) t s = (s, Ok (oz ?? 0)).
Proof. intros H. unfold get_number_or_0. rewrite run_bind, run_redis_call. simpl. unfold look_val, look. rewrite H. by destruct oz. Qed.

Lemma run_get_leased c :
  s !! k = leased_entry <$> c → run (get_number_or_0 k) t s = (s, Ok (value_at t c)).
Proof.
  intros H. unfold get_number_or_0. rewrite run_bind, run_redis_call. simpl. unfold look_val, look. rewrite H.
  destruct c as [[v d]|]; [|done]. simpl. unfold live. simpl. by destruct (t <=? d).
Qed.

Lemma run_set v px :
  run (redis_call (SET k v px)) t s = (<[k := Entry (VStr v) (Z.add t <$> px)]> s, Ok RStatus).
Proof. by rewrite run_redis_call. Qed.

Lemma run_incr_int oz :
  s !! k = int_entry <$> oz →
  run (redis_call (INCR k)) t s = (<[k := int_entry ((oz ?? 0) + 1)]> s, Ok (RInteger ((oz ?? 0) + 1))).
Proof.
  intros H. rewrite run_redis_call. simpl. unfold incr_by, read_int, look. rewrite H. by destruct oz.
Qed.

(** INCR followed by PEXPIRE renews a leased counter. *)
Lemma run_incr_lease c :
  s !! k = leased_entry <$> c →
  ∃ s1, run (redis_call (INCR k)) t s = (s1, Ok (RInteger (value_at t c + 1))) ∧
        (∀ ms, 0 <= ms → run (redis_call (PEXPIRE k ms)) t s1 =
          (<[k := leased_entry (value_at t c + 1, t + ms)]> s, Ok (RInteger 1))).
Proof.
  intros H. rewrite run_redis_call. setoid_rewrite run_redis_call. simpl. unfold incr_by, read_int, look. rewrite H.
  destruct c as [[v d]|]; simpl; [unfold live; simpl; destruct (t <=? d) eqn:E |];
    (eexists; split; [done |]); intros ms Hms;
    rewrite lookup_insert_eq; unfold live; simpl; rewrite ?E; by rewrite insert_insert_eq.
Qed.

Lemma run_give_back {A} c (x : A) :
  s !! k = leased_entry <$> c →
  ∃ s', run (let* p := get_number_or_0 k in
             if 0 <? p then call* DECR k in Done x else Done x) t s = (s', Ok x) ∧
        s' !! k = leased_entry <$> give_back t c ∧ (∀ k', k' ≠ k → s' !! k' = s !! k').
Proof.
  intros H. rewrite run_bind, (run_get_leased c H).
  destruct c as [[v d]|]; simpl; [|by eexists].
  destruct (t <=? d) eqn:E; [|by eexists]. destruct (0 <? v) eqn:Ev; [|by eexists].
  rewrite run_bind, run_redis_call. simpl.
  unfold incr_by, read_int, look. rewrite H. simpl. unfold live. simpl. rewrite E.
  eexists; split; [done |]. split; [by rewrite lookup_insert_eq |].
  intros. by rewrite lookup_insert_ne.
Qed.

Lemma run_del ks :
  ∃ r, run (redis_call (DEL ks)) t s = (foldl (λ s k, delete k s) s ks, Ok r).
Proof. rewrite run_redis_call. simpl. by eexists. Qed.
End Commands.

(** Execute the stores and deletions at the head of a program. *)
Ltac lua_step :=
  rewrite run_bind; first
  [ rewrite run_set
  | match goal with
    | |- context [run (redis_call (DEL ?ks)) ?t ?s] =>
        let r := fresh "r" in let E := fresh "E" in
        destruct (run_del t s ks) as [r E]; rewrite E; clear E
    end ]; cbv iota beta.
Ltac lua_run := repeat lua_step; simpl.

Section Simulation.
(** The five keys of one provider, pairwise different. *)
Variables kS kF kO kP kH : string.
Hypothesis keys_distinct : NoDup [kS; kF; kO; kP; kH].
Variable o : CircuitBreakerOptions.
Hypothesis o_ok : options_ok o.

Definition rep_keys (b : breaker) (s : db) : Prop :=
  s !! kS = text_entry <$> b_state b ∧
  s !! kF = leased_entry <$> b_failures b ∧
  s !! kO = int_entry <$> b_openedAt b ∧
  s !! kP = leased_entry <$> b_probes b ∧
  s !! kH = int_entry <$> b_successes b.

Lemma keys_ne :
  (kS ≠ kF ∧ kS ≠ kO ∧ kS ≠ kP ∧ kS ≠ kH) ∧ (kF ≠ kO ∧ kF ≠ kP ∧ kF ≠ kH) ∧
  (kO ≠ kP ∧ kO ≠ kH) ∧ kP ≠ kH.
Proof using keys_distinct.
  pose proof keys_distinct as H. clear -H. rewrite !NoDup_cons, !not_elem_of_cons in H. tauto.
Qed.

Ltac rep_done :=
  unfold rep_keys; simpl; repeat split;
  repeat first [rewrite lookup_insert_eq | rewrite lookup_insert_ne by congruence
               | rewrite lookup_delete_eq | rewrite lookup_delete_ne by congruence]; done.

Ltac start_sim :=
  destruct keys_ne as ((?&?&?&?)&(?&?&?)&(?&?)&?); destruct o_ok as (?&?&?&?&?);
  intros (HS&HF&HO&HP&HH); unfold step, state_of;
  rewrite run_bind, (run_get_state _ _ _ _ HS); cbv iota beta; change "CLOSED"%string with (circuit_state_str CLOSED);
  change "HALF_OPEN"%string with (circuit_state_str HALF_OPEN);
  change "OPEN"%string with (circuit_state_str OPEN);
  rewrite !state_str_eqb.

Lemma sim_acquire t now b s :
  rep_keys b s →
  ∃ s', run (ACQUIRE_LUA kS kO kP kH now (timeoutMs o) (halfOpenMaxProbes o)) t s =
          (s', Ok (circuit_state_str (step o t (OpAcquire now) b).2.1,
                   if (step o t (OpAcquire now) b).2.2 then 1 else 0)) ∧
        rep_keys (step o t (OpAcquire now) b).1 s'.
Proof using keys_distinct o_ok.
  unfold ACQUIRE_LUA. start_sim. destruct (b_state b ?? CLOSED) eqn:Est; simpl.
  - by eexists.
  - rewrite run_bind, (run_get_int _ _ _ _ HO). destruct (timeoutMs o <=? _); [|by eexists].
    lua_run. eexists; split; [done |]. rep_done.
  - rewrite run_bind, (run_get_leased _ _ _ _ HP). destruct (_ <? halfOpenMaxProbes o); [|by eexists].
    destruct (run_incr_lease t s kP _ HP) as (s1 & E1 & E2).
    rewrite run_bind, E1, run_bind, E2 by lia. eexists; split; [done |]. rep_done.
Qed.

Lemma sim_success t b s :
  rep_keys b s →
  ∃ s', run (SUCCESS_LUA kS kF kH kP kO (successThreshold o)) t s =
          (s', Ok (circuit_state_str (step o t OpSuccess b).2.1)) ∧
        rep_keys (step o t OpSuccess b).1 s'.
Proof using keys_distinct o_ok.
  unfold SUCCESS_LUA. start_sim. destruct (b_state b ?? CLOSED) eqn:Est; simpl.
  - lua_run. eexists; split; [done |]. simpl. rep_done.
  - by eexists.
  - rewrite run_bind, (run_incr_int _ _ _ _ HH), run_bind. simpl.
    destruct (successThreshold o <=? _).
    + lua_run. eexists; split; [done |]. simpl. rep_done.
    + assert (HP' : <[kH := int_entry ((b_successes b ?? 0) + 1)]> s !! kP = leased_entry <$> b_probes b).
      { by rewrite lookup_insert_ne. }
      destruct (run_give_back t _ kP _ (circuit_state_str HALF_OPEN) HP') as (s' & E & Ek & Ene).
      exists s'. split; [exact E |].
      unfold rep_keys; simpl. rewrite Ek, !Ene by congruence.
      repeat split; rewrite ?lookup_insert_eq, ?lookup_insert_ne by congruence; done.
Qed.

Lemma sim_release t b s :
  rep_keys b s →
  ∃ s', run (RELEASE_LUA kS kP) t s = (s', Ok (circuit_state_str (step o t OpRelease b).2.1)) ∧
        rep_keys (step o t OpRelease b).1 s'.
Proof using keys_distinct o_ok.
  unfold RELEASE_LUA. start_sim. destruct (b_state b ?? CLOSED) eqn:Est; simpl; [by eexists.. |].
  destruct (run_give_back t _ kP _ (circuit_state_str HALF_OPEN) HP) as (s' & E & Ek & Ene).
  exists s'. split; [exact E |]. unfold rep_keys; simpl. by rewrite Ek, !Ene by congruence.
Qed.

Lemma sim_failure t now b s :
  rep_keys b s →
  ∃ s', run (FAILURE_LUA kS kF kO kP kH now (failureThreshold o) (windowMs o)) t s =
          (s', Ok (circuit_state_str (step o t (OpFailure now) b).2.1)) ∧
        rep_keys (step o t (OpFailure now) b).1 s'.
Proof using keys_distinct o_ok.
  unfold FAILURE_LUA. start_sim. destruct (b_state b ?? CLOSED) eqn:Est; simpl.
  - destruct (run_incr_lease t s kF _ HF) as (s1 & E1 & E2).
    rewrite run_bind, E1. cbv iota beta. rewrite run_bind. simpl. rewrite run_bind, E2 by lia.
    destruct (failureThreshold o <=? _); lua_run; (eexists; split; [done |]); rep_done.
  - by eexists.
  - lua_run. eexists; split; [done |]. simpl. rep_done.
Qed.
End Simulation.

(** ** One breaker in the keyspace *)

Section Breaker.
Variable prefix : string.
Variable o : CircuitBreakerOptions.
Hypothesis o_ok : options_ok o.

Definition cb_keys (id : string) : list string :=
  [redisKeys.cbState prefix id; redisKeys.cbFailures prefix id; redisKeys.cbOpenedAt prefix id;
   redisKeys.cbHalfProbes prefix id; redisKeys.cbHalfSuccesses prefix id].

(** The keyspace holds breaker [b] for provider [id]. *)
Definition rep (id : string) (b : breaker) (s : db) : Prop :=
  rep_keys (redisKeys.cbState prefix id) (redisKeys.cbFailures prefix id)
    (redisKeys.cbOpenedAt prefix id) (redisKeys.cbHalfProbes prefix id)
    (redisKeys.cbHalfSuccesses prefix id) b s.

(** An operation as the program the class runs, with what the caller sees. *)
Definition op_prog (id : string) (a : op) : prog (option (string * bool)) :=
  match a with
  | OpAcquire now => let* d := acquire prefix o id now in Done (Some (cd_state d, cd_allowed d))
  | OpSuccess => let* c := recordSuccess prefix o id in Done (Some (c, true))
  | OpFailure now => let* c := recordFailure prefix o id now in Done (Some (c, true))
  | OpRelease => let* _ := release prefix id in Done None
  | OpReset => let* _ := reset prefix id in Done None
  end.

Definition observe (a : op) (r : CircuitState * bool) : option (string * bool) :=
  match a with
  | OpRelease | OpReset => None
  | _ => Some (circuit_state_str r.1, r.2)
  end.

Lemma cb_keys_nodup id : NoDup (cb_keys id).
Proof.
  unfold cb_keys. repeat (apply NoDup_cons; split); try apply NoDup_nil_2.
  all: rewrite ?not_elem_of_cons; repeat split; try apply not_elem_of_nil; key_ne.
Qed.

Lemma cb_keys_disjoint i j k : i ≠ j → k ∈ cb_keys i → k ∉ cb_keys j.
Proof.
  intros Hij Hi Hj. unfold cb_keys in *.
  assert (Hk : ∀ i, k ∈ cb_keys i → ∃ x, x ∈ cb_suffixes ∧ k = cb_key prefix x i).
  { clear. unfold cb_keys, cb_suffixes. intros i H.
    repeat (apply elem_of_cons in H as [-> | H]); [eexists; split; [|done]; set_solver.. |].
    by apply elem_of_nil in H. }
  destruct (Hk i Hi) as (x & Hx & Ex), (Hk j Hj) as (y & Hy & Ey).
  rewrite Ex in Ey. by destruct (cb_key_inj prefix x y i j Hx Hy Ey).
Qed.

(** Every method writes only the keys of its provider's breaker. *)
Ltac breaker_frame :=
  unfold acquire, recordSuccess, recordFailure, release, reset, ACQUIRE_LUA, SUCCESS_LUA, FAILURE_LUA,
    RELEASE_LUA, get_text_or, get_number_or_0, text_or, cb_keys; solve_frame.

Lemma acquire_writes id now : writes_within (cb_keys id) (acquire prefix o id now).
Proof. breaker_frame. Qed.
Lemma recordSuccess_writes id : writes_within (cb_keys id) (recordSuccess prefix o id).
Proof. breaker_frame. Qed.
Lemma recordFailure_writes id now : writes_within (cb_keys id) (recordFailure prefix o id now).
Proof. breaker_frame. Qed.
Lemma release_writes id : writes_within (cb_keys id) (release prefix id).
Proof. breaker_frame. Qed.
Lemma reset_writes id : writes_within (cb_keys id) (reset prefix id).
Proof. breaker_frame. Qed.

Lemma op_writes id a : writes_within (cb_keys id) (op_prog id a).
Proof.
  destruct a; simpl; (apply ww_bind; [| intros; constructor]);
    eauto using acquire_writes, recordSuccess_writes, recordFailure_writes, release_writes, reset_writes.
Qed.

Lemma rep_frame ks id b s s' :
  frame ks s s' → (∀ k, k ∈ cb_keys id → k ∉ ks) → rep id b s → rep id b s'.
Proof.
  intros Hf Hk (HS&HF&HO&HP&HH). unfold rep, rep_keys. unfold cb_keys in Hk.
  rewrite !Hf by (apply Hk; set_solver). done.
Qed.

Lemma op_simulated id a t b s :
  rep id b s →
  ∃ s', run (op_prog id a) t s = (s', Ok (observe a (step o t a b).2)) ∧
        rep id (step o t a b).1 s'.
Proof using o_ok.
  intros Hrep. pose proof (cb_keys_nodup id) as Hnd. destruct a as [now| |now| |].
  - destruct (sim_acquire _ _ _ _ _ Hnd o o_ok t now b s Hrep) as (s' & E & H).
    exists s'. split; [|exact H]. unfold op_prog, acquire. rewrite !run_bind, E.
    by destruct (step o t (OpAcquire now) b).2 as [? []].
  - destruct (sim_success _ _ _ _ _ Hnd o o_ok t b s Hrep) as (s' & E & H).
    exists s'. split; [|exact H]. simpl. unfold recordSuccess. rewrite run_bind, E. 
    unfold observe, step. by destruct (state_of b); simpl; try case_match.
  - destruct (sim_failure _ _ _ _ _ Hnd o o_ok t now b s Hrep) as (s' & E & H).
    exists s'. split; [|exact H]. simpl. unfold recordFailure. rewrite run_bind, E.
    unfold observe, step. by destruct (state_of b); simpl; try case_match.
  - destruct (sim_release _ _ _ _ _ Hnd o o_ok t b s Hrep) as (s' & E & H).
    exists s'. split; [|exact H]. simpl. unfold release. by rewrite !run_bind, E.
  - simpl. unfold reset. rewrite !run_bind. destruct (run_del t s (cb_keys id)) as [r E].
    unfold cb_keys in E. rewrite E. eexists; split; [done |].
    unfold rep, rep_keys. simpl.
    repeat split; repeat first [rewrite lookup_delete_eq; done | rewrite lookup_delete_ne by key_ne]; done.
Qed.

Lemma rep_other id id' a t b' s :
  id ≠ id' → rep id' b' s → rep id' b' (run (op_prog id a) t s).1.
Proof.
  intros Hne Hr. eapply rep_frame; [apply run_frame, op_writes | | exact Hr].
  intros k Hk. by eapply cb_keys_disjoint; [| exact Hk].
Qed.
End Breaker.

(** ** The machine *)

Section Machine.
Variable o : CircuitBreakerOptions.

(** Run timed operations: the final breaker and what each caller saw. *)
Fixpoint steps (l : list (Z * op)) (b : breaker) : breaker * list (option (string * bool)) :=
  match l with
  | [] => (b, [])
  | (t, a) :: l' =>
      let r := step o t a b in
      let rs := steps l' r.1 in
      (rs.1, observe a r.2 :: rs.2)
  end.

Definition leased_in (lo hi : Z) (c : leased) : Prop :=
  match c with Some (v, _) => lo <= v <= hi | None => True end.

(** What holds of every reachable breaker. *)
Definition wf (b : breaker) : Prop :=
  match state_of b with
  | CLOSED => leased_in 1 (failureThreshold o - 1) (b_failures b) ∧
              b_openedAt b = None ∧ b_probes b = None ∧ b_successes b = None
  | OPEN => is_Some (b_openedAt b) ∧ b_probes b = None ∧ b_successes b = None
  | HALF_OPEN => is_Some (b_openedAt b) ∧ leased_in 0 (halfOpenMaxProbes o) (b_probes b) ∧
                 ∃ n, b_successes b = Some n ∧ 0 <= n < successThreshold o
  end.

Hypothesis o_ok : options_ok o.

Lemma value_at_range lo hi t c : lo <= 0 <= hi → leased_in lo hi c → lo <= value_at t c <= hi.
Proof. destruct c as [[v d]|]; simpl; [destruct (t <=? d) |]; lia. Qed.

Lemma give_back_range hi t c : leased_in 0 hi c → leased_in 0 hi (give_back t c).
Proof.
  destruct c as [[v d]|]; simpl; [|done]. intros H.
  destruct (t <=? d); [|done]. destruct (0 <? v) eqn:E; bool_props; simpl; lia.
Qed.

Lemma wf_initial : wf initial.
Proof. done. Qed.

Lemma wf_step t a b : wf b → wf (step o t a b).1.
Proof using o_ok.
  destruct o_ok as (?&?&?&?&?). intros Hwf. unfold wf in Hwf.
  assert (Hkeep : ∀ f oa p n, state_of (Breaker (b_state b) f oa p n) = state_of b) by done.
  destruct a; unfold step; destruct (state_of b) eqn:Es; simpl;
    try (unfold wf; by rewrite Es); try apply wf_initial.
  - destruct (timeoutMs o <=? _); simpl; [|by unfold wf; rewrite Es].
    unfold wf; simpl. destruct Hwf as (?&?&?). split_and!; [done | lia | lia | eexists; split; [done | lia]].
  - destruct (_ <? _) eqn:E; simpl; [|by unfold wf; rewrite Es]. bool_props.
    destruct Hwf as (?&Hp&?). unfold wf. rewrite Hkeep. simpl.
    pose proof (value_at_range 0 (halfOpenMaxProbes o) t (b_probes b) ltac:(lia) Hp).
    split_and!; [done | lia | lia | done].
  - unfold wf. rewrite Hkeep. simpl. tauto.
  - destruct Hwf as (?&Hp&n&Hn&?). rewrite Hn. simpl. destruct (_ <=? _) eqn:E; bool_props; [done |].
    simpl. unfold wf. rewrite Hkeep. simpl.
    split_and!; [done | by apply give_back_range | eexists; split; [done | lia]].
  - destruct Hwf as (Hf&?&?&?).
    assert (0 <= value_at t (b_failures b)).
    { destruct (b_failures b) as [[v d]|]; simpl in *; [destruct (t <=? d) |]; lia. }
    destruct (_ <=? _) eqn:E; bool_props; simpl; [by unfold wf; simpl; eauto |].
    unfold wf. rewrite Hkeep. simpl. split_and!; [lia | lia | done..].
  - unfold wf. simpl. eauto.
  - destruct Hwf as (?&Hp&?). unfold wf. rewrite Hkeep. simpl.
    split_and!; [done | by apply give_back_range | done].
Qed.

Lemma wf_steps l b : wf b → wf (steps l b).1.
Proof using o_ok. revert b. induction l as [|[t a] l IH]; intros b H; [done |]. by apply IH, wf_step. Qed.

(** *** Tripping *)

Definition failures (ts : list Z) : list (Z * op) := map (λ t, (t, OpFailure t)) ts.

Lemma open_absorbs_failures ts b : state_of b = OPEN → (steps (failures ts) b).1 = b.
Proof.
  intros Hb. induction ts as [|t ts IH]; [done |]. simpl. unfold step. rewrite Hb. simpl. apply IH.
Qed.

Lemma count_failures ts : ∀ b v prev,
  state_of b = CLOSED → b_failures b = Some (v, prev + windowMs o) → v < failureThreshold o →
  paced (windowMs o) prev ts →
  state_of (steps (failures ts) b).1 =
    if failureThreshold o <=? v + Z.of_nat (length ts) then OPEN else CLOSED.
Proof.
  induction ts as [|t ts IH]; intros b v prev Hb Hf Hv Hp.
  - simpl. rewrite Z.add_0_r. destruct (_ <=? _) eqn:E; bool_props; [lia | done].
  - destruct Hp as [Ht Hp]. simpl. unfold step. rewrite Hb, Hf. simpl.
    rewrite (proj2 (Z.leb_le t (prev + windowMs o))) by lia.
    destruct (failureThreshold o <=? v + 1) eqn:E; bool_props; simpl.
    + rewrite open_absorbs_failures by done. simpl.
      rewrite (proj2 (Z.leb_le _ _)); [done | lia].
    + rewrite (IH _ (v + 1) t); [|done|done|lia|done].
      by replace (v + 1 + Z.of_nat (length ts)) with (v + Z.of_nat (S (length ts))) by lia.
Qed.

Lemma trip ts t0 b :
  state_of b = CLOSED → b_failures b = None → paced (windowMs o) t0 ts →
  state_of (steps (failures ts) b).1 =
    if failureThreshold o <=? Z.of_nat (length ts) then OPEN else CLOSED.
Proof using o_ok.
  intros Hb Hf Hp. destruct o_ok as (?&?&?&?&?). destruct ts as [|t ts]; simpl in *.
  - rewrite Hb. rewrite (proj2 (Z.leb_gt _ _)); [done | lia].
  - unfold step. rewrite Hb, Hf. simpl. change (0 + 1) with 1.
    destruct (failureThreshold o <=? 1) eqn:E; bool_props; simpl.
    + rewrite open_absorbs_failures by done. simpl.
      rewrite (proj2 (Z.leb_le _ _)); [done | lia].
    + rewrite (count_failures ts _ 1 t); [|done|done|lia|tauto].
      by replace (1 + Z.of_nat (length ts)) with (Z.of_nat (S (length ts))) by lia.
Qed.

(** *** Recovery *)

(** [n] probe rounds (acquire, then success) at instant [t]. *)
Fixpoint probe_rounds (n : nat) (t : Z) : list (Z * op) :=
  match n with
  | O => []
  | S n' => (t, OpAcquire t) :: (t, OpSuccess) :: probe_rounds n' t
  end.

Definition all_allowed (l : list (option (string * bool))) : Prop :=
  Forall (λ x, match x with Some (_, ok) => ok = true | None => True end) l.

Lemma half_open_acquire t f oa d n :
  1 <= halfOpenMaxProbes o → t <= d →
  step o t (OpAcquire t) (Breaker (Some HALF_OPEN) f oa (Some (0, d)) n) =
  (Breaker (Some HALF_OPEN) f oa (Some (1, t + timeoutMs o)) n, (HALF_OPEN, true)).
Proof.
  intros Hm Hd. unfold step, state_of. simpl. rewrite (proj2 (Z.leb_le t d) Hd).
  by rewrite (proj2 (Z.ltb_lt _ _)) by lia.
Qed.

Lemma half_open_success t f oa k :
  0 <= timeoutMs o →
  step o t OpSuccess (Breaker (Some HALF_OPEN) f oa (Some (1, t + timeoutMs o)) (Some k)) =
  if successThreshold o <=? k + 1
  then (Breaker (Some CLOSED) None None None None, (CLOSED, true))
  else (Breaker (Some HALF_OPEN) f oa (Some (0, t + timeoutMs o)) (Some (k + 1)), (HALF_OPEN, true)).
Proof.
  intros Ht. unfold step, state_of. simpl. by rewrite (proj2 (Z.leb_le t _)) by lia.
Qed.

Lemma half_open_rounds n t f oa : ∀ k d,
  t <= d → k + Z.of_nat (S n) = successThreshold o →
  let r := steps (probe_rounds (S n) t) (Breaker (Some HALF_OPEN) f oa (Some (0, d)) (Some k)) in
  state_of r.1 = CLOSED ∧ all_allowed r.2.
Proof using o_ok.
  destruct o_ok as (?&?&?&?&?).
  induction n as [|n IH]; intros k d Hd Hk; cbn [probe_rounds steps];
    rewrite half_open_acquire by lia; cbn [fst snd]; rewrite half_open_success by lia.
  - rewrite (proj2 (Z.leb_le _ _)) by lia. split; [done |]. by repeat constructor.
  - rewrite (proj2 (Z.leb_gt _ _)) by lia. cbn [fst snd].
    destruct (IH (k + 1) (t + timeoutMs o)) as [HA HB]; [lia | lia |].
    split; [exact HA |]. constructor; [done |]. constructor; [done | exact HB].
Qed.

(** From OPEN, once the timeout has elapsed, [successThreshold] probe rounds
    are all admitted and close the breaker. *)
Lemma recover t b :
  wf b → state_of b = OPEN → timeoutMs o <= t - (b_openedAt b ?? 0) →
  let r := steps (probe_rounds (Z.to_nat (successThreshold o)) t) b in
  state_of r.1 = CLOSED ∧ all_allowed r.2.
Proof using o_ok.
  destruct o_ok as (?&?&?&?&?). intros Hwf Ho Ht.
  destruct (Z.to_nat (successThreshold o)) as [|n] eqn:En; [lia |].
  assert (Ha : step o t (OpAcquire t) b =
    (Breaker (Some HALF_OPEN) (b_failures b) (b_openedAt b) (Some (1, t + timeoutMs o)) (Some 0),
     (HALF_OPEN, true))).
  { unfold step. rewrite Ho. by rewrite (proj2 (Z.leb_le _ _)) by lia. }
  cbn [probe_rounds steps]. rewrite Ha. cbn [fst snd]. rewrite half_open_success by lia.
  destruct (_ <=? 0 + 1) eqn:E; bool_props; cbn [fst snd].
  - assert (n = O) as -> by lia. simpl. split; [done |]. by repeat constructor.
  - destruct n as [|n]; [lia |].
    destruct (half_open_rounds n t (b_failures b) (b_openedAt b) (0 + 1) (t + timeoutMs o)) as [HA HB];
      [lia | lia |].
    split; [exact HA |]. constructor; [done |]. constructor; [done | exact HB].
Qed.
End Machine.

(** ** Theorems about the scripts *)

Section Executions.
Variable prefix : string.
Variable o : CircuitBreakerOptions.

(** Run timed operations of one provider on the keyspace. *)
Fixpoint exec_ops (id : string) (l : list (Z * op)) (s : db)
    : db * list (result string (option (string * bool))) :=
  match l with
  | [] => (s, [])
  | (t, a) :: l' =>
      let r := run (op_prog prefix o id a) t s in
      let rs := exec_ops id l' r.1 in
      (rs.1, r.2 :: rs.2)
  end.

Lemma exec_ops_simulated id l b s :
  options_ok o → rep prefix id b s →
  (exec_ops id l s).2 = map Ok (steps o l b).2 ∧
  rep prefix id (steps o l b).1 (exec_ops id l s).1.
Proof.
  intros Ho. revert b s. induction l as [|[t a] l IH]; intros b s Hr; [done |]. simpl.
  destruct (op_simulated prefix o Ho id a t b s Hr) as (s' & E & Hr').
  rewrite E. simpl. destruct (IH _ _ Hr') as [E2 Hr2]. by rewrite E2.
Qed.
End Executions.

Lemma rep_empty prefix id : rep prefix id initial ∅.
Proof. unfold rep, rep_keys. simpl. by rewrite !lookup_empty. Qed.

Definition default_options : CircuitBreakerOptions :=
  {| failureThreshold := 5; successThreshold := 2; timeoutMs := 30000; windowMs := 60000;
     halfOpenMaxProbes := 1 |}.

Lemma default_options_ok : options_ok default_options.
Proof. unfold options_ok. simpl. lia. Qed.

(** C2: Every operation of the breaker (the Lua scripts of acquire,
    recordSuccess, recordFailure and release, and reset), run atomically on any
    server with the documented Redis semantics, implements the abstract state
    machine: it raises no script error, reports what the machine reports, leaves
    the keyspace representing the machine's next state, and does not disturb the
    breaker of any other provider. *)
Theorem breaker_scripts_refine {S} `{RedisServer S} prefix o id a t b (s : S)
    (Ho : options_ok o) (Hrep : rep prefix id b (srv_view s)) :
  let r := srv_run (op_prog prefix o id a) t s in
  r.2 = Ok (observe a (step o t a b).2) ∧
  rep prefix id (step o t a b).1 (srv_view r.1) ∧
  (∀ id' b', id ≠ id' → rep prefix id' b' (srv_view s) → rep prefix id' b' (srv_view r.1)).
Proof.
  pose proof (run_refines (op_prog prefix o id a) t s) as E.
  destruct (op_simulated prefix o Ho id a t b _ Hrep) as (s' & E' & Hr').
  intros r. unfold r. pose proof (f_equal fst E) as E1. pose proof (f_equal snd E) as E2.
  simpl in E1, E2. rewrite E1, E2. split_and!.
  - by rewrite E'.
  - by rewrite E'.
  - intros id' b' Hne Hb'. by apply rep_other.
Qed.

Lemma breaker_scripts_refine_witness :
  let r := srv_run (op_prog "gw:" default_options "p1" (OpAcquire 30500)) 30500
             (<["gw:cb:p1:state"%string := text_entry OPEN]>
              (<["gw:cb:p1:opened_at"%string := int_entry 400]> (∅ : db))) in
  r.2 = Ok (Some ("HALF_OPEN"%string, true)).
Proof.
  apply (breaker_scripts_refine "gw:" default_options "p1" (OpAcquire 30500) 30500
           (Breaker (Some OPEN) None (Some 400) None None)
           (<["gw:cb:p1:state"%string := text_entry OPEN]>
            (<["gw:cb:p1:opened_at"%string := int_entry 400]> (∅ : db)))).
  - apply default_options_ok.
  - unfold rep, rep_keys. by vm_compute.
Defined.

(** C39: Starting from an empty keyspace, any sequence of operations runs without
    a script error and leaves a well-formed breaker: a CLOSED breaker has fewer
    than [failureThreshold] failures and no leftover open or probe data, an OPEN
    one has its opening time and no probe data, and a HALF_OPEN one has between 0
    and [halfOpenMaxProbes] probes in flight and fewer than [successThreshold]
    successes. *)
Theorem breaker_invariant prefix o id l (Ho : options_ok o) :
  let r := exec_ops prefix o id l ∅ in
  Forall (λ x, is_ok x = true) r.2 ∧ ∃ b, rep prefix id b r.1 ∧ wf o b.
Proof.
  destruct (exec_ops_simulated prefix o id l initial ∅ Ho (rep_empty prefix id)) as [E Hr].
  split.
  - rewrite E. by apply Forall_forall; intros x (y & -> & _)%list_elem_of_fmap.
  - eexists; split; [exact Hr |]. by apply wf_steps.
Qed.

Lemma breaker_invariant_witness :
  ∃ b, rep "gw:" "p1" b (exec_ops "gw:" default_options "p1" (failures [1; 2; 3; 4; 5]) ∅).1 ∧
       wf default_options b.
Proof. apply (breaker_invariant "gw:" default_options "p1"), default_options_ok. Defined.

(** While a breaker is OPEN and its timeout has not elapsed, an acquire is
    refused and, like every late success, failure or release, leaves the keyspace
    exactly as it was; in particular a straggler's failure never restarts the
    open timer. *)
Theorem open_breaker_rejects prefix o id b t s opened
    (Hrep : rep prefix id b s) (Hopen : state_of b = OPEN) (Hat : b_openedAt b = Some opened) :
  (∀ now, now - opened < timeoutMs o →
     run (op_prog prefix o id (OpAcquire now)) t s = (s, Ok (Some ("OPEN"%string, false)))) ∧
  (∀ now, run (op_prog prefix o id (OpFailure now)) t s = (s, Ok (Some ("OPEN"%string, true)))) ∧
  run (op_prog prefix o id OpSuccess) t s = (s, Ok (Some ("OPEN"%string, true))) ∧
  run (op_prog prefix o id OpRelease) t s = (s, Ok None).
Proof.
  destruct Hrep as (HS&_&HO&_). rewrite Hat in HO. unfold state_of in Hopen.
  unfold op_prog, acquire, recordFailure, recordSuccess, release,
    ACQUIRE_LUA, FAILURE_LUA, SUCCESS_LUA, RELEASE_LUA.
  split_and!; intros; rewrite ?run_bind, (run_get_state _ _ _ _ HS), Hopen; try done.
  cbn -[Z.leb]. rewrite !run_bind. rewrite (run_get_int _ _ _ (Some opened) HO). cbn -[Z.leb].
  by rewrite (proj2 (Z.leb_gt _ _)).
Qed.

Lemma open_breaker_rejects_witness :
  let s := (exec_ops "gw:" default_options "p1" (failures [1; 2; 3; 4; 5]) ∅).1 in
  run (op_prog "gw:" default_options "p1" (OpAcquire 30004)) 30004 s =
    (s, Ok (Some ("OPEN"%string, false))).
Proof.
  apply (open_breaker_rejects "gw:" default_options "p1"
           (Breaker (Some OPEN) (Some (5, 60005)) (Some 5) None None) 30004 _ 5);
    [unfold rep, rep_keys; by vm_compute | done | done | done].
Defined.

(** From a CLOSED breaker with no counted failures, consecutive failures,
    each within [windowMs] of the one before, leave the stored state OPEN exactly
    when there are at least [failureThreshold] of them. *)
Theorem breaker_trips_at_threshold prefix o id b s t0 ts
    (Ho : options_ok o) (Hrep : rep prefix id b s)
    (Hclosed : state_of b = CLOSED) (Hclean : b_failures b = None)
    (Hpace : paced (windowMs o) t0 ts) :
  let s' := (exec_ops prefix o id (failures ts) s).1 in
  run (getState prefix id) t0 s' = (s', Ok
    {| cs_providerId := id;
       cs_state := if failureThreshold o <=? Z.of_nat (length ts) then "OPEN" else "CLOSED";
       cs_failures := scalar_num (get_scalar t0 s' (redisKeys.cbFailures prefix id)) ?? 0;
       cs_openedAt := scalar_num (get_scalar t0 s' (redisKeys.cbOpenedAt prefix id)) |}).
Proof.
  destruct (exec_ops_simulated prefix o id (failures ts) b s Ho Hrep) as [_ (HS&_)].
  intros s'. unfold getState. rewrite run_bind, run_redis_call. simpl.
  pose proof (trip o Ho ts t0 b Hclosed Hclean Hpace) as E. unfold state_of in E.
  unfold get_scalar at 1, look_val, look. unfold s'. rewrite HS.
  destruct (b_state _) as [c|] eqn:Ec; simpl in *.
  - rewrite E. by destruct (_ <=? _).
  - by destruct (_ <=? _).
Qed.

Lemma breaker_trips_at_threshold_witness :
  let s' := (exec_ops "gw:" default_options "p1" (failures [1; 2; 3; 4; 5]) ∅).1 in
  match (run (getState "gw:" "p1") 1 s').2 with Ok c => cs_state c = "OPEN"%string | Err _ => False end.
Proof.
  intros s'. unfold s'.
  rewrite (breaker_trips_at_threshold "gw:" default_options "p1" initial ∅ 1 [1; 2; 3; 4; 5]);
    [done | apply default_options_ok | apply rep_empty | done | done | simpl; lia].
Defined.

(** C40: An OPEN breaker whose timeout has elapsed recovers: [successThreshold]
    probes, each followed by its success, are all admitted, raise no script
    error, and close the breaker. *)
Theorem breaker_recovers prefix o id b s t
    (Ho : options_ok o) (Hrep : rep prefix id b s) (Hwf : wf o b)
    (Hopen : state_of b = OPEN) (Helapsed : timeoutMs o <= t - (b_openedAt b ?? 0)) :
  let r := exec_ops prefix o id (probe_rounds (Z.to_nat (successThreshold o)) t) s in
  Forall (λ x, ∃ c, x = Ok (Some (c, true))) r.2 ∧
  ∃ b', rep prefix id b' r.1 ∧ state_of b' = CLOSED.
Proof.
  destruct (exec_ops_simulated prefix o id (probe_rounds (Z.to_nat (successThreshold o)) t) b s Ho Hrep)
    as [E Hr].
  destruct (recover o Ho t b Hwf Hopen Helapsed) as [Hc Hall].
  intros r. unfold r. split; [| by eexists].
  rewrite E. apply Forall_forall. intros x (y & -> & Hy)%list_elem_of_fmap.
  assert (Hsome : ∀ n b', Forall is_Some (steps o (probe_rounds n t) b').2).
  { clear. induction n as [|n IH]; intros b'; simpl; [done |]. repeat constructor; [eauto.. |]. apply IH. }
  specialize (proj1 (Forall_forall _ _) (Hsome _ _) y Hy) as [[c ok] ->].
  specialize (proj1 (Forall_forall _ _) Hall _ Hy). simpl. intros ->. eauto.
Qed.

Lemma breaker_recovers_witness :
  let s := (exec_ops "gw:" default_options "p1" (failures [1; 2; 3; 4; 5]) ∅).1 in
  ∃ b', rep "gw:" "p1" b' (exec_ops "gw:" default_options "p1" (probe_rounds 2 30005) s).1 ∧
        state_of b' = CLOSED.
Proof.
  apply (breaker_recovers "gw:" default_options "p1"
           (Breaker (Some OPEN) (Some (5, 60005)) (Some 5) None None) _ 30005);
    [apply default_options_ok | unfold rep, rep_keys; by vm_compute | | done | simpl; lia].
  unfold wf. simpl. by eauto.
Defined.

(** HALF_OPEN never wedges: for a well-formed HALF_OPEN breaker, once the
    lease of its probe counter has run out, whatever became of the probes, the
    next acquire is admitted and takes a slot under a fresh lease. *)
Theorem half_open_never_wedges prefix o id b s t now
    (Ho : options_ok o) (Hrep : rep prefix id b s) (Hwf : wf o b) (Hhalf : state_of b = HALF_OPEN)
    (Hlease : ∀ v d, b_probes b = Some (v, d) → d < t) :
  let r := run (op_prog prefix o id (OpAcquire now)) t s in
  r.2 = Ok (Some ("HALF_OPEN"%string, true)) ∧
  r.1 !! redisKeys.cbHalfProbes prefix id = Some (leased_entry (1, t + timeoutMs o)).
Proof.
  destruct (op_simulated prefix o Ho id (OpAcquire now) t b s Hrep) as (s' & E & (_&_&_&HP&_)).
  assert (Hv : value_at t (b_probes b) = 0).
  { destruct (b_probes b) as [[v d]|]; [|done]. simpl. by rewrite (proj2 (Z.leb_gt _ _)) by eauto. }
  intros r. unfold r. rewrite E. simpl. rewrite HP. unfold step. rewrite Hhalf, Hv.
  destruct Ho as (?&?&?&?&?). by rewrite (proj2 (Z.ltb_lt _ _)) by lia.
Qed.

Lemma half_open_never_wedges_witness :
  let s := (exec_ops "gw:" default_options "p1"
              (failures [1; 2; 3; 4; 5] ++ [(30005, OpAcquire 30005)])%list ∅).1 in
  (run (op_prog "gw:" default_options "p1" (OpAcquire 60006)) 60006 s).2 =
    Ok (Some ("HALF_OPEN"%string, true)).
Proof.
  apply (half_open_never_wedges "gw:" default_options "p1"
           (Breaker (Some HALF_OPEN) (Some (5, 60005)) (Some 5) (Some (1, 60005)) (Some 0)));
    [apply default_options_ok | unfold rep, rep_keys; by vm_compute | | done | ].
  - unfold wf. simpl. split_and!; [eauto | lia | lia | eexists; split; [done | lia]].
  - simpl. intros v d [= <- <-]. lia.
Defined.

(** A success that arrives in HALF_OPEN counts towards closing whether or not
    it comes from a probe: with no probe in flight at all, [successThreshold]
    late successes close the breaker. *)
Theorem late_successes_close_half_open prefix o id s t oa fs
    (Ho : options_ok o) (Hrep : rep prefix id (Breaker (Some HALF_OPEN) fs oa None (Some 0)) s) :
  let r := exec_ops prefix o id (repeat (t, OpSuccess) (Z.to_nat (successThreshold o))) s in
  ∃ b', rep prefix id b' r.1 ∧ state_of b' = CLOSED.
Proof.
  destruct (exec_ops_simulated prefix o id (repeat (t, OpSuccess) (Z.to_nat (successThreshold o))) _ s Ho Hrep)
    as [_ Hr].
  intros r. eexists; split; [exact Hr |].
  assert (Hgen : ∀ n k, k + Z.of_nat (S n) = successThreshold o →
    state_of (steps o (repeat (t, OpSuccess) (S n)) (Breaker (Some HALF_OPEN) fs oa None (Some k))).1 = CLOSED).
  { clear. induction n as [|n IH]; intros k Hk; cbn [repeat steps fst]; unfold step at 1; simpl;
      destruct (_ <=? k + 1) eqn:E; bool_props; try lia; [done |].
    simpl. apply (IH (k + 1)). lia. }
  destruct Ho as (?&?&?&?&?). destruct (Z.to_nat (successThreshold o)) as [|n] eqn:En; [lia |].
  apply Hgen. lia.
Qed.

Lemma late_successes_close_half_open_witness :
  let s := (exec_ops "gw:" default_options "p1"
              (failures [1; 2; 3; 4; 5] ++ [(30005, OpAcquire 30005)])%list ∅).1 in
  let s := delete "gw:cb:p1:half_probes"%string s in
  ∃ b', rep "gw:" "p1" b' (exec_ops "gw:" default_options "p1" (repeat (30006, OpSuccess) 2) s).1 ∧
        state_of b' = CLOSED.
Proof.
  apply (late_successes_close_half_open "gw:" default_options "p1" _ 30006 (Some 5) (Some (5, 60005)));
    [apply default_options_ok | unfold rep, rep_keys; by vm_compute].
Defined.
