(* ===== verification/RateLimiter.v ===== *)
(** * Sliding-window rate limiter ([src/rate-limiter/index.ts])

    The Lua script over the keyspace, [RateLimiter.check], an abstract limiter
    the script is simulated by, and what the limiter guarantees about the
    requests it admits: the per-minute request and token caps, the burst
    dimension, and the drift of the running token sum. *)

From Stdlib Require Import ZArith Lia QArith Qround String Ascii.
From stdpp Require Import base gmap strings list fin_maps.
From S2P Require Import Prelude Redis Constants Numerals.
Open Scope Z_scope.

(** ** Members of the token window *)

(** [member .. ':' .. reqTokens]. *)
Definition tpm_member (member : string) (tokens : Z) : string :=
  (member ++ ":" ++ dec tokens)%string.

(** [string.match(m, '([^:]+)$')]: the text after the last colon, if any. *)
Definition last_segment (m : string) : option string :=
  match last (split_on ":"%char m) with
  | Some EmptyString | None => None
  | Some seg => Some seg
  end.

(** The tokens a member of the window stands for ([if t then ...]). *)
Definition member_tokens (m : string) : option Z := last_segment m ≫= undec.
Definition member_tokens_or_0 (m : string) : Z := member_tokens m ?? 0.

Lemma split_on_not_nil c s : split_on c s ≠ [].
Proof. destruct s as [|d s]; simpl; [done |]. destruct (Ascii.eqb d c); [done |]. by destruct (split_on c s). Qed.

Lemma last_split_on c a b : no_char c b = true → last (split_on c (a ++ String c b)) = Some b.
Proof.
  intros Hb. assert (Hend : ∀ x, last (x :: split_on c b) = Some b).
  { intros x. by rewrite (split_on_no_char c b Hb). }
  induction a as [|d a IH].
  - simpl. rewrite Ascii.eqb_refl. apply Hend.
  - rewrite string_app_cons. simpl. destruct (Ascii.eqb d c).
    + destruct (split_on c (a ++ String c b)) eqn:E; [by apply split_on_not_nil in E |]. exact IH.
    + destruct (split_on c (a ++ String c b)) as [|x l] eqn:E; [by apply split_on_not_nil in E |].
      destruct l as [|y l]; [| exact IH].
      exfalso. simpl in IH. injection IH as ->.
      assert (Hl : ∀ a, (2 <= length (split_on c (a ++ String c b)))%nat).
      { clear. induction a as [|d a IH]; [simpl; rewrite Ascii.eqb_refl; simpl |].
        - destruct (split_on c b) eqn:E; [by apply split_on_not_nil in E | simpl; lia].
        - rewrite string_app_cons. simpl. destruct (Ascii.eqb d c); [simpl; lia |].
          destruct (split_on c (a ++ String c b)); simpl in *; lia. }
      specialize (Hl a). rewrite E in Hl. simpl in Hl. lia.
Qed.

Lemma member_tokens_of m n : member_tokens (tpm_member m n) = Some n.
Proof.
  unfold member_tokens, last_segment, tpm_member. change (":" ++ dec n)%string with (String ":" (dec n)).
  rewrite last_split_on by (by apply no_char_dec). pose proof (dec_not_empty n).
  destruct (dec n) eqn:E; [done |]. simpl. rewrite <- E. apply undec_dec.
Qed.

Lemma tpm_member_inj m m' n n' : tpm_member m n = tpm_member m' n' → m = m' ∧ n = n'.
Proof.
  intros E. assert (n = n') as <-.
  { apply (f_equal member_tokens) in E. rewrite !member_tokens_of in E. congruence. }
  split; [|done]. by apply (inj (λ a, a ++ (":" ++ dec n))%string) in E.
Qed.

(** ** The script *)

Record script_args := {
  a_now : Z; a_rpmWindow : Z; a_rpmLimit : Z; a_tpmWindow : Z; a_tpmLimit : Z;
  a_reqTokens : Z; a_member : string; a_burstEnabled : bool; a_burstWindow : Z; a_burstLimit : Z
}.

(** The reply: allowed, reason, limit, remaining, reset, retry-after. *)
Record script_reply := ScriptReply {
  r_allowed : bool; r_reason : string; r_limit : Z; r_remaining : Z; r_resetSec : Z; r_retryAfterSec : Z
}.

Definition members_of (r : reply) : list string := match r with RMembers l => l | _ => [] end.
Definition first_of (r : reply) : option Z := match r with RFirst (Some (n, _)) => Some n | _ => None end.

Definition RATE_LIMIT_LUA (k1 k2 k3 k4 : string) (a : script_args) : prog script_reply :=
  call* ZREMRANGEBYSCORE k1 0 (a_now a - a_rpmWindow a) in
  let* _ := (if a_burstEnabled a
             then call* ZREMRANGEBYSCORE k3 0 (a_now a - a_burstWindow a) in Done tt
             else Done tt) in
  let* r := redis_call (ZCARD k1) in
  let* rpmCount := tonumber_or_0 r in
  let* r := redis_call (GET k4) in
  let* tpmSum := tonumber_or_0 r in
  let* r := redis_call (ZRANGEBYSCORE k2 0 (a_now a - a_tpmWindow a)) in
  let expired := members_of r in
  let* tpmSum :=
    (if bool_decide (expired = []) then Done tpmSum
     else
       let tpmSum := foldl (λ sum m, match member_tokens m with Some t => sum - t | None => sum end)
                           tpmSum expired in
       call* ZREMRANGEBYSCORE k2 0 (a_now a - a_tpmWindow a) in
       Done tpmSum) in
  let* tpmSum :=
    (if tpmSum <? 0 then Done 0
     else
       let* r := redis_call (ZCARD k2) in
       let* n := tonumber_or_0 r in
       Done (if n =? 0 then 0 else tpmSum)) in
  let* burstCount :=
    (if a_burstEnabled a then let* r := redis_call (ZCARD k3) in tonumber_or_0 r else Done 0) in
  let '(allowed, reason) :=
    if a_rpmLimit a <=? rpmCount then (false, "rpm"%string)
    else if a_burstEnabled a && (a_burstLimit a <=? burstCount) then (false, "burst"%string)
    else if a_tpmLimit a <? tpmSum + a_reqTokens a then (false, "tpm"%string)
    else (true, ""%string) in
  let* rpmCount :=
    (if allowed then
       call* ZADD k1 (a_now a) (a_member a) in
       call* PEXPIRE k1 (a_rpmWindow a + 1000) in
       call* ZADD k2 (a_now a) (tpm_member (a_member a) (a_reqTokens a)) in
       call* PEXPIRE k2 (a_tpmWindow a + 1000) in
       call* SET k4 (SInt (tpmSum + a_reqTokens a)) (Some (a_tpmWindow a + 1000)) in
       let* _ := (if a_burstEnabled a then
                    call* ZADD k3 (a_now a) (a_member a) in
                    call* PEXPIRE k3 (a_burstWindow a + 1000) in Done tt
                  else Done tt) in
       Done (rpmCount + 1)
     else Done rpmCount) in
  let rpmRemaining := Z.max 0 (a_rpmLimit a - rpmCount) in
  let* oldest := redis_call (ZRANGE0_WITHSCORES k1) in
  let resetMs := match first_of oldest with
                 | Some n => n + a_rpmWindow a
                 | None => a_now a + a_rpmWindow a
                 end in
  let resetSec := ceil_div resetMs 1000 in
  let* retryAfterSec :=
    (if allowed then Done 0
     else
       let '(rk, rw) :=
         if String.eqb reason "tpm" then (k2, a_tpmWindow a)
         else if String.eqb reason "burst" then (k3, a_burstWindow a)
         else (k1, a_rpmWindow a) in
       let* o := redis_call (ZRANGE0_WITHSCORES rk) in
       Done (Z.max 1 (match first_of o with
                      | Some n => ceil_div (n + rw - a_now a) 1000
                      | None => 0
                      end))) in
  Done (ScriptReply allowed reason (a_rpmLimit a) rpmRemaining resetSec retryAfterSec).

(** ** [RateLimiter.check] *)

Inductive RateLimitReason := rpm | tpm | burst.

Record RateLimitResult := {
  rl_allowed : bool;
  rl_reason : option RateLimitReason;
  rl_limit : Z;
  rl_remaining : Z;
  rl_resetUnixSec : Z;
  rl_retryAfterSec : Z
}.

Record RateLimitConfig := { rpmLimit : Z; tpmLimit : Z; estimatedTokens : Z }.

(** The process configuration the limiter reads. *)
Record limiter_config := {
  RATE_LIMIT_ENABLED : bool;
  RATE_LIMIT_BURST_ENABLED : bool;
  RATE_LIMIT_BURST_MULTIPLIER : Q;
  RATE_LIMIT_BURST_WINDOW_MS : Z
}.

Definition parseResult (raw : script_reply) : RateLimitResult :=
  {| rl_allowed := r_allowed raw;
     rl_reason :=
       if String.eqb (r_reason raw) "rpm" then Some rpm
       else if String.eqb (r_reason raw) "tpm" then Some tpm
       else if String.eqb (r_reason raw) "burst" then Some burst
       else None;
     rl_limit := r_limit raw;
     rl_remaining := r_remaining raw;
     rl_resetUnixSec := r_resetSec raw;
     rl_retryAfterSec := r_retryAfterSec raw |}.

Definition burst_limit (c : limiter_config) (rpmL : Z) : Z :=
  Qceiling (inject_Z rpmL * RATE_LIMIT_BURST_MULTIPLIER c).

(** The arguments [check] passes; [uuid] is the [randomUUID()] it draws. *)
Definition check_args (c : limiter_config) (limits : RateLimitConfig) (nowMs : Z) (uuid : string)
    : script_args :=
  {| a_now := nowMs; a_rpmWindow := ONE_MINUTE_MS; a_rpmLimit := rpmLimit limits;
     a_tpmWindow := ONE_MINUTE_MS; a_tpmLimit := tpmLimit limits;
     a_reqTokens := Z.max 0 (estimatedTokens limits);
     a_member := (dec nowMs ++ ":" ++ uuid)%string;
     a_burstEnabled := RATE_LIMIT_BURST_ENABLED c;
     a_burstWindow := RATE_LIMIT_BURST_WINDOW_MS c;
     a_burstLimit := burst_limit c (rpmLimit limits) |}.

Definition check (prefix : string) (c : limiter_config) (apiKeyId : string)
    (limits : RateLimitConfig) (nowMs : Z) (uuid : string) : prog RateLimitResult :=
  if negb (RATE_LIMIT_ENABLED c) then
    Done {| rl_allowed := true; rl_reason := None; rl_limit := rpmLimit limits;
            rl_remaining := rpmLimit limits;
            rl_resetUnixSec := ceil_div (nowMs + ONE_MINUTE_MS) 1000;
            rl_retryAfterSec := 0 |}
  else
    let* raw := RATE_LIMIT_LUA (redisKeys.rateLimitRpm prefix apiKeyId)
                  (redisKeys.rateLimitTpm prefix apiKeyId)
                  (redisKeys.rateLimitBurst prefix apiKeyId)
                  (redisKeys.rateLimitTpmSum prefix apiKeyId)
                  (check_args c limits nowMs uuid) in
    Done (parseResult raw).

(** ** The abstract limiter *)

(** A window: its members with their scores, and the expiry of its key. *)
Definition window := option (list (Z * string) * Z).

Record limiter := Limiter {
  l_rpm : window;
  l_tpm : window;
  l_burst : window;
  l_sum : option (Z * Z)
}.

Definition no_requests : limiter := Limiter None None None None.

(** The visible members at server time [t]. *)
Definition members_at (t : Z) (w : window) : list (Z * string) :=
  match w with Some (l, d) => if t <=? d then l else [] | None => [] end.

(** Drop the members with score in [0, hi]. *)
Definition evict (t hi : Z) (w : window) : window :=
  match w with
  | Some (l, d) =>
      if t <=? d then
        match filter (λ x, ¬ in_range 0 hi x) l with [] => None | l' => Some (l', d) end
      else None
  | None => None
  end.

Definition insert_at (t ttl n : Z) (m : string) (w : window) : window :=
  Some (zadd n m (members_at t w), t + ttl).

Definition sum_at (t : Z) (s : option (Z * Z)) : Z :=
  match s with Some (v, d) => if t <=? d then v else 0 | None => 0 end.

Definition oldest (w : list (Z * string)) : option Z := fst <$> head w.

Definition tokens_in (l : list (Z * string)) : Z := sum_by (λ x, member_tokens_or_0 x.2) l.

(** The limiter after eviction, and the token sum the decision uses. *)
Definition evicted (t : Z) (a : script_args) (st : limiter) : limiter :=
  let gone := filter (in_range 0 (a_now a - a_tpmWindow a)) (members_at t (l_tpm st)) in
  Limiter (evict t (a_now a - a_rpmWindow a) (l_rpm st))
          (if bool_decide (gone = []) then l_tpm st
           else evict t (a_now a - a_tpmWindow a) (l_tpm st))
          (if a_burstEnabled a then evict t (a_now a - a_burstWindow a) (l_burst st) else l_burst st)
          (l_sum st).

Definition current_sum (t : Z) (a : script_args) (st : limiter) : Z :=
  let gone := filter (in_range 0 (a_now a - a_tpmWindow a)) (members_at t (l_tpm st)) in
  let s := sum_at t (l_sum st) - tokens_in gone in
  if s <? 0 then 0
  else if bool_decide (members_at t (l_tpm (evicted t a st)) = []) then 0 else s.

Definition decide_request (t : Z) (a : script_args) (st : limiter) : bool * string :=
  let st1 := evicted t a st in
  if a_rpmLimit a <=? Z.of_nat (length (members_at t (l_rpm st1))) then (false, "rpm"%string)
  else if a_burstEnabled a && (a_burstLimit a <=? Z.of_nat (length (members_at t (l_burst st1))))
  then (false, "burst"%string)
  else if a_tpmLimit a <? current_sum t a st + a_reqTokens a then (false, "tpm"%string)
  else (true, ""%string).

Definition admit_request (t : Z) (a : script_args) (st : limiter) : limiter :=
  let st1 := evicted t a st in
  Limiter (insert_at t (a_rpmWindow a + 1000) (a_now a) (a_member a) (l_rpm st1))
          (insert_at t (a_tpmWindow a + 1000) (a_now a) (tpm_member (a_member a) (a_reqTokens a)) (l_tpm st1))
          (if a_burstEnabled a
           then insert_at t (a_burstWindow a + 1000) (a_now a) (a_member a) (l_burst st1)
           else l_burst st1)
          (Some (current_sum t a st + a_reqTokens a, t + (a_tpmWindow a + 1000))).

(** One check: the next limiter and the reply. *)
Definition check_step (t : Z) (a : script_args) (st : limiter) : limiter * script_reply :=
  let st1 := evicted t a st in
  let d := decide_request t a st in
  let st2 := if d.1 then admit_request t a st else st1 in
  let rpmCount := Z.of_nat (length (members_at t (l_rpm st1))) + (if d.1 then 1 else 0) in
  let resetMs := match oldest (members_at t (l_rpm st2)) with
                 | Some n => n + a_rpmWindow a
                 | None => a_now a + a_rpmWindow a
                 end in
  let '(w, rw) := if String.eqb d.2 "tpm" then (l_tpm st2, a_tpmWindow a)
                  else if String.eqb d.2 "burst" then (l_burst st2, a_burstWindow a)
                  else (l_rpm st2, a_rpmWindow a) in
  (st2, ScriptReply d.1 d.2 (a_rpmLimit a) (Z.max 0 (a_rpmLimit a - rpmCount))
          (ceil_div resetMs 1000)
          (if d.1 then 0
           else Z.max 1 (match oldest (members_at t w) with
                         | Some n => ceil_div (n + rw - a_now a) 1000
                         | None => 0
                         end))).

(** ** Simulation of the script *)

Definition window_entry (w : list (Z * string) * Z) : entry := Entry (VZset w.1) (Some w.2).
Definition sum_entry (c : Z * Z) : entry := Entry (VStr (SInt c.1)) (Some c.2).

(** Symbolic execution of the sorted-set commands. *)
Section Commands.
Context (t : Z) (s : db) (k : string) (w : window) (Hk : s !! k = window_entry <$> w).

Lemma read_window :
  ∃ dl, read_zset t s k = Some (members_at t w, dl) ∧
        (members_at t w ≠ [] → dl = snd <$> w) ∧ (∀ d, dl = Some d → t <= d).
Proof using Hk.
  unfold read_zset, look. rewrite Hk. destruct w as [[l d]|]; simpl; [|by eexists].
  unfold live. simpl. destruct (t <=? d) eqn:E; bool_props; simpl; eexists; split_and!; try done.
  by intros ? [= <-].
Qed.

Lemma run_zcard : run (redis_call (ZCARD k)) t s =
  (s, Ok (RInteger (Z.of_nat (length (members_at t w))))).
Proof using Hk. rewrite run_redis_call. simpl. by destruct read_window as (dl & -> & _). Qed.

Lemma run_zrangebyscore lo hi : run (redis_call (ZRANGEBYSCORE k lo hi)) t s =
  (s, Ok (RMembers (map snd (filter (in_range lo hi) (members_at t w))))).
Proof using Hk. rewrite run_redis_call. simpl. by destruct read_window as (dl & -> & _). Qed.

Lemma run_zfirst : run (redis_call (ZRANGE0_WITHSCORES k)) t s =
  (s, Ok (RFirst (head (members_at t w)))).
Proof using Hk. rewrite run_redis_call. simpl. by destruct read_window as (dl & -> & _). Qed.

Lemma run_zrem hi :
  ∃ s' r, run (redis_call (ZREMRANGEBYSCORE k 0 hi)) t s = (s', Ok r) ∧
    s' !! k = window_entry <$> evict t hi w ∧ (∀ k', k' ≠ k → s' !! k' = s !! k').
Proof using Hk.
  rewrite run_redis_call. simpl. unfold read_zset, look. rewrite Hk.
  destruct w as [[l d]|]; simpl; unfold live; simpl; [destruct (t <=? d) |]; simpl;
    unfold put_zset; (eexists _, _; split; [done |]).
  1: destruct (filter _ l) eqn:E.
  all: split; [| intros; by rewrite ?lookup_delete_ne, ?lookup_insert_ne];
    by rewrite ?lookup_delete_eq, ?lookup_insert_eq.
Qed.

Lemma run_zadd_pexpire n m :
  ∃ s1 r, run (redis_call (ZADD k n m)) t s = (s1, Ok r) ∧
    (∀ ttl, 0 <= ttl → run (redis_call (PEXPIRE k ttl)) t s1 =
       (<[k := Entry (VZset (zadd n m (members_at t w))) (Some (t + ttl))]> s, Ok (RInteger 1))).
Proof using Hk.
  rewrite run_redis_call. setoid_rewrite run_redis_call. simpl.
  destruct read_window as (dl & -> & _ & Hlive).
  eexists _, _; split; [done |]. intros ttl Httl. unfold look. rewrite lookup_insert_eq.
  unfold live. simpl. destruct dl as [d|]; simpl.
  - rewrite (proj2 (Z.leb_le t d)) by eauto. by rewrite insert_insert_eq.
  - by rewrite insert_insert_eq.
Qed.
End Commands.

Lemma run_get_sum t s k c :
  s !! k = sum_entry <$> c →
  ∃ r, run (redis_call (GET k)) t s = (s, Ok r) ∧ run (tonumber_or_0 r) t s = (s, Ok (sum_at t c)).
Proof.
  intros H. rewrite run_redis_call. simpl. unfold look_val, look. rewrite H.
  destruct c as [[v d]|]; [|by eexists]. simpl. unfold live. simpl. destruct (t <=? d); by eexists.
Qed.

Lemma subtract_expired gone : ∀ z,
  foldl (λ sum m, match member_tokens m with Some t => sum - t | None => sum end) z (map snd gone) =
  z - tokens_in gone.
Proof.
  unfold tokens_in. induction gone as [|[n m] gone IH]; intros z; cbn [map foldl snd]; [rewrite sum_by_nil; lia |].
  rewrite IH, sum_by_cons. cbn [snd]. unfold member_tokens_or_0. destruct (member_tokens m); cbn [coalesce]; lia.
Qed.

Lemma tonumber_int t s z : run (tonumber_or_0 (RInteger z)) t s = (s, Ok z).
Proof. done. Qed.

Lemma zero_length {A} (l : list A) : (Z.of_nat (length l) =? 0) = bool_decide (l = []).
Proof. destruct l; [done |]. rewrite bool_decide_eq_false_2 by done. apply Z.eqb_neq. simpl. lia. Qed.

(** Step over the command at the head of a program, given its result. *)
Tactic Notation "lua_rw" uconstr(H) := rewrite run_bind, H; cbv beta iota.

Section Simulation.
Variables k1 k2 k3 k4 : string.
Hypothesis keys_distinct : NoDup [k1; k2; k3; k4].

Definition lrep (st : limiter) (s : db) : Prop :=
  s !! k1 = window_entry <$> l_rpm st ∧ s !! k2 = window_entry <$> l_tpm st ∧
  s !! k3 = window_entry <$> l_burst st ∧ s !! k4 = sum_entry <$> l_sum st.

Lemma lkeys_ne : (k1 ≠ k2 ∧ k1 ≠ k3 ∧ k1 ≠ k4) ∧ (k2 ≠ k3 ∧ k2 ≠ k4) ∧ k3 ≠ k4.
Proof using keys_distinct.
  pose proof keys_distinct as H. clear -H. rewrite !NoDup_cons, !not_elem_of_cons in H. tauto.
Qed.

(** Phase 1: eviction and measurement up to the decision. *)
Lemma sim_measure t a st s :
  lrep st s →
  ∃ s', lrep (evicted t a st) s' ∧ ∀ A (K : Z → Z → Z → prog A),
  run (
    call* ZREMRANGEBYSCORE k1 0 (a_now a - a_rpmWindow a) in
    let* _ := (if a_burstEnabled a
               then call* ZREMRANGEBYSCORE k3 0 (a_now a - a_burstWindow a) in Done tt
               else Done tt) in
    let* r := redis_call (ZCARD k1) in
    let* rpmCount := tonumber_or_0 r in
    let* r := redis_call (GET k4) in
    let* tpmSum := tonumber_or_0 r in
    let* r := redis_call (ZRANGEBYSCORE k2 0 (a_now a - a_tpmWindow a)) in
    let expired := members_of r in
    let* tpmSum :=
      (if bool_decide (expired = []) then Done tpmSum
       else
         let tpmSum := foldl (λ sum m, match member_tokens m with Some t => sum - t | None => sum end)
                             tpmSum expired in
         call* ZREMRANGEBYSCORE k2 0 (a_now a - a_tpmWindow a) in
         Done tpmSum) in
    let* tpmSum :=
      (if tpmSum <? 0 then Done 0
       else
         let* r := redis_call (ZCARD k2) in
         let* n := tonumber_or_0 r in
         Done (if n =? 0 then 0 else tpmSum)) in
    let* burstCount :=
      (if a_burstEnabled a then let* r := redis_call (ZCARD k3) in tonumber_or_0 r else Done 0) in
    K rpmCount tpmSum burstCount) t s =
  run (K (Z.of_nat (length (members_at t (l_rpm (evicted t a st)))))
         (current_sum t a st)
         (if a_burstEnabled a then Z.of_nat (length (members_at t (l_burst (evicted t a st)))) else 0)) t s'.
Proof using keys_distinct.
  intros (H1&H2&H3&H4). destruct lkeys_ne as ((?&?&?)&(?&?)&?).
  destruct (run_zrem t s k1 _ H1 (a_now a - a_rpmWindow a)) as (s1 & r1 & E1 & Hs1 & F1).
  assert (HB : ∃ s2, run (if a_burstEnabled a
               then call* ZREMRANGEBYSCORE k3 0 (a_now a - a_burstWindow a) in Done tt
               else Done tt) t s1 = (s2, Ok tt) ∧
     s2 !! k3 = window_entry <$> l_burst (evicted t a st) ∧ (∀ k', k' ≠ k3 → s2 !! k' = s1 !! k')).
  { simpl. destruct (a_burstEnabled a).
    - assert (H3' : s1 !! k3 = window_entry <$> l_burst st) by (by rewrite F1 by congruence).
      destruct (run_zrem t s1 k3 _ H3' (a_now a - a_burstWindow a)) as (s2 & r2 & E2 & Hs2 & F2).
      exists s2. by rewrite run_bind, E2.
    - exists s1. split_and!; [done | by rewrite F1 by congruence | done]. }
  destruct HB as (s2 & E2 & Hs2 & F2).
  assert (G1 : s2 !! k1 = window_entry <$> l_rpm (evicted t a st)) by (by rewrite F2 by congruence).
  assert (G2 : s2 !! k2 = window_entry <$> l_tpm st) by (by rewrite F2, F1 by congruence).
  assert (G4 : s2 !! k4 = sum_entry <$> l_sum st) by (by rewrite F2, F1 by congruence).
  destruct (run_get_sum t s2 k4 _ G4) as (r & Eg & En).
  set (gone := filter (in_range 0 (a_now a - a_tpmWindow a)) (members_at t (l_tpm st))).
  assert (HT : ∃ s3, lrep (evicted t a st) s3 ∧
    run (if bool_decide (map snd gone = []) then Done (sum_at t (l_sum st))
         else call* ZREMRANGEBYSCORE k2 0 (a_now a - a_tpmWindow a) in
              Done (sum_at t (l_sum st) - tokens_in gone)) t s2 =
    (s3, Ok (sum_at t (l_sum st) - tokens_in gone))).
  { unfold lrep, evicted in *. simpl in *. fold gone.
    destruct gone as [|x gone'] eqn:Eg'.
    - exists s2. simpl. rewrite Z.sub_0_r. by split_and!.
    - rewrite !bool_decide_eq_false_2 by done.
      destruct (run_zrem t s2 k2 _ G2 (a_now a - a_tpmWindow a)) as (s3 & r3 & E3 & Hs3 & F3).
      exists s3. rewrite run_bind, E3. split; [|done].
      rewrite Hs3, !F3 by congruence. by rewrite G1, Hs2, G4. }
  destruct HT as (s3 & Hrep3 & E3). exists s3. split; [exact Hrep3 |]. intros A K.
  destruct Hrep3 as (I1&I2&I3&I4).
  lua_rw E1. lua_rw E2. lua_rw (run_zcard _ _ _ _ G1). lua_rw tonumber_int.
  lua_rw Eg. lua_rw En. lua_rw (run_zrangebyscore _ _ _ _ G2 0 (a_now a - a_tpmWindow a)).
  cbn [members_of]. fold gone. rewrite subtract_expired. lua_rw E3.
  unfold current_sum. fold gone. rewrite run_bind.
  destruct (_ <? 0); [| lua_rw (run_zcard _ _ _ _ I2); lua_rw tonumber_int; rewrite zero_length];
    change (run (Done ?x) t s3) with (s3, Ok (E:=string) x); cbv beta iota; rewrite run_bind;
    (destruct (a_burstEnabled a); [lua_rw (run_zcard _ _ _ _ I3) |]; reflexivity).
Qed.

(** Phase 2: recording an admitted request. *)
Lemma sim_record t a st s n :
  0 <= a_rpmWindow a → 0 <= a_tpmWindow a → 0 <= a_burstWindow a →
  lrep (evicted t a st) s →
  ∃ s', lrep (admit_request t a st) s' ∧ ∀ A (K : Z → prog A),
  run (let* rpmCount :=
    (call* ZADD k1 (a_now a) (a_member a) in
     call* PEXPIRE k1 (a_rpmWindow a + 1000) in
     call* ZADD k2 (a_now a) (tpm_member (a_member a) (a_reqTokens a)) in
     call* PEXPIRE k2 (a_tpmWindow a + 1000) in
     call* SET k4 (SInt (current_sum t a st + a_reqTokens a)) (Some (a_tpmWindow a + 1000)) in
     let* _ := (if a_burstEnabled a then
                  call* ZADD k3 (a_now a) (a_member a) in
                  call* PEXPIRE k3 (a_burstWindow a + 1000) in Done tt
                else Done tt) in
     Done (n + 1)) in K rpmCount) t s = run (K (n + 1)) t s'.
Proof using keys_distinct.
  intros Hw1 Hw2 Hw3 (H1&H2&H3&H4). destruct lkeys_ne as ((?&?&?)&(?&?)&?).
  destruct (run_zadd_pexpire t s k1 _ H1 (a_now a) (a_member a)) as (s1 & r1 & E1 & E1').
  set (s2 := <[k1 := Entry (VZset (zadd (a_now a) (a_member a) (members_at t (l_rpm (evicted t a st)))))
                      (Some (t + (a_rpmWindow a + 1000)))]> s).
  assert (G2 : s2 !! k2 = window_entry <$> l_tpm (evicted t a st)) by (unfold s2; by rewrite lookup_insert_ne).
  destruct (run_zadd_pexpire t s2 k2 _ G2 (a_now a) (tpm_member (a_member a) (a_reqTokens a))) as (s3 & r3 & E3 & E3').
  set (s4 := <[k4 := Entry (VStr (SInt (current_sum t a st + a_reqTokens a))) (Some (t + (a_tpmWindow a + 1000)))]>
              (<[k2 := Entry (VZset (zadd (a_now a) (tpm_member (a_member a) (a_reqTokens a))
                                       (members_at t (l_tpm (evicted t a st)))))
                         (Some (t + (a_tpmWindow a + 1000)))]> s2)).
  assert (G3 : s4 !! k3 = window_entry <$> l_burst (evicted t a st)).
  { unfold s4, s2. by rewrite !lookup_insert_ne by congruence. }
  assert (HB : ∃ s5, run (if a_burstEnabled a then
                  call* ZADD k3 (a_now a) (a_member a) in
                  call* PEXPIRE k3 (a_burstWindow a + 1000) in Done tt
                else Done tt) t s4 = (s5, Ok tt) ∧ lrep (admit_request t a st) s5).
  { unfold lrep, admit_request. cbn [l_rpm l_tpm l_burst l_sum]. destruct (a_burstEnabled a) eqn:Eb.
    - destruct (run_zadd_pexpire t s4 k3 _ G3 (a_now a) (a_member a)) as (s5 & r5 & E5 & E5').
      rewrite run_bind, E5, run_bind, E5' by lia. eexists; split; [done |].
      unfold s4, s2, insert_at. split_and!;
        repeat first [rewrite lookup_insert_eq; done | rewrite lookup_insert_ne by congruence].
    - exists s4; split; [done |]. unfold s4, s2, insert_at. split_and!;
        repeat first [rewrite lookup_insert_eq; done | rewrite lookup_insert_ne by congruence].
      exact H3. }
  destruct HB as (s5 & E5 & Hr5). exists s5. split; [exact Hr5 |]. intros A K.
  rewrite run_bind. lua_rw E1. lua_rw E1'; [|lia]. fold s2.
  lua_rw E3. lua_rw E3'; [|lia]. rewrite run_bind, run_redis_call.
  cbn [exec fmap option_fmap option_map]. cbv beta iota. fold s4.
  by lua_rw E5.
Qed.

(** Phase 3: the reply. *)
Lemma sim_script t a st s :
  0 <= a_rpmWindow a → 0 <= a_tpmWindow a → 0 <= a_burstWindow a →
  lrep st s →
  ∃ s', run (RATE_LIMIT_LUA k1 k2 k3 k4 a) t s = (s', Ok (check_step t a st).2) ∧
        lrep (check_step t a st).1 s'.
Proof using keys_distinct.
  intros Hw1 Hw2 Hw3 Hr. unfold RATE_LIMIT_LUA.
  destruct (sim_measure t a st s Hr) as (s1 & Hr1 & E).
  set (n := Z.of_nat (length (members_at t (l_rpm (evicted t a st))))).
  set (d := decide_request t a st).
  (* the reply computed from the final limiter *)
  assert (Hreply : ∀ s2 c, lrep c s2 →
    c = (if d.1 then admit_request t a st else evicted t a st) →
    run (let* oldest := redis_call (ZRANGE0_WITHSCORES k1) in
         let* retryAfterSec :=
           (if d.1 then Done 0
            else
              let '(rk, rw) :=
                if String.eqb d.2 "tpm" then (k2, a_tpmWindow a)
                else if String.eqb d.2 "burst" then (k3, a_burstWindow a)
                else (k1, a_rpmWindow a) in
              let* o := redis_call (ZRANGE0_WITHSCORES rk) in
              Done (Z.max 1 (match first_of o with
                             | Some n => ceil_div (n + rw - a_now a) 1000
                             | None => 0
                             end))) in
         Done (ScriptReply d.1 d.2 (a_rpmLimit a) (Z.max 0 (a_rpmLimit a - (n + if d.1 then 1 else 0)))
           (ceil_div (match first_of oldest with
               | Some n => n + a_rpmWindow a
               | None => a_now a + a_rpmWindow a
               end) 1000) retryAfterSec)) t s2 = (s2, Ok (check_step t a st).2)).
  { intros s2 c (I1&I2&I3&I4) ->. unfold check_step. fold d n.
    assert (Hf : ∀ w, first_of (RFirst (head w)) = oldest w) by (intros [|[? ?] ?]; done).
    lua_rw (run_zfirst _ _ _ _ I1). rewrite Hf. rewrite run_bind.
    destruct d as [[] reason]; cbn [fst snd] in *.
    - by destruct (String.eqb reason "tpm"), (String.eqb reason "burst").
    - destruct (String.eqb reason "tpm"); [| destruct (String.eqb reason "burst")];
        [lua_rw (run_zfirst _ _ _ _ I2) | lua_rw (run_zfirst _ _ _ _ I3) | lua_rw (run_zfirst _ _ _ _ I1)];
        by rewrite Hf. }
  assert (Hd : (if a_rpmLimit a <=? n then (false, "rpm"%string)
    else if a_burstEnabled a && (a_burstLimit a <=?
           (if a_burstEnabled a then Z.of_nat (length (members_at t (l_burst (evicted t a st)))) else 0))
    then (false, "burst"%string)
    else if a_tpmLimit a <? current_sum t a st + a_reqTokens a then (false, "tpm"%string)
    else (true, ""%string)) = d).
  { unfold d, decide_request. fold n. by destruct (a_burstEnabled a). }
  destruct (d.1) eqn:Ed.
  - destruct (sim_record t a st s1 n Hw1 Hw2 Hw3 Hr1) as (s2 & Hr2 & E2).
    exists s2. split; [| unfold check_step; fold d; rewrite Ed; by repeat case_match; simplify_eq].
    etrans; [apply E |]. cbv beta. fold n. rewrite Hd. destruct d as [[] reason]; [|done].
    etrans; [apply E2 |]. cbv beta. by apply (Hreply s2 _ Hr2).
  - exists s1. split; [| unfold check_step; fold d; rewrite Ed; by repeat case_match; simplify_eq].
    etrans; [apply E |]. cbv beta. fold n. rewrite Hd. destruct d as [[] reason]; [done |].
    specialize (Hreply s1 _ Hr1 eq_refl). cbn [fst snd] in Hreply. rewrite Z.add_0_r in Hreply.
    rewrite run_bind. exact Hreply.
Qed.
End Simulation.

(** ** Sorted-set facts *)

Lemma zinsert_perm x l : zinsert x l ≡ₚ x :: l.
Proof.
  induction l as [|y l IH]; simpl; [done |]. destruct (zle x y); [done |].
  rewrite IH. apply Permutation_swap.
Qed.

Lemma elem_of_zadd n m l x : x ∈ zadd n m l ↔ x = (n, m) ∨ (x ∈ l ∧ x.2 ≠ m).
Proof. unfold zadd. rewrite zinsert_perm, elem_of_cons, list_elem_of_filter. tauto. Qed.

Lemma elem_of_evict t hi w x :
  x ∈ members_at t (evict t hi w) ↔ x ∈ members_at t w ∧ ¬ in_range 0 hi x.
Proof.
  pose proof (not_elem_of_nil x) as Hnil.
  destruct w as [[l d]|]; simpl; [|tauto]. destruct (t <=? d) eqn:E; [|tauto].
  transitivity (x ∈ filter (λ x, ¬ in_range 0 hi x) l); [|rewrite list_elem_of_filter; tauto].
  destruct (filter _ l) eqn:Ef; simpl; [done |]. by rewrite E, <- Ef.
Qed.

Lemma sum_by_submseteq {A} (f : A → Z) l k :
  (∀ x, x ∈ k → 0 <= f x) → l ⊆+ k → sum_by f l <= sum_by f k.
Proof.
  intros Hk Hs. apply submseteq_Permutation in Hs as [k' E]. rewrite (sum_by_perm f _ _ E), sum_by_app.
  assert (0 <= sum_by f k'); [|lia]. apply sum_by_nonneg. intros x Hx. apply Hk. rewrite E. set_solver.
Qed.

Lemma tokens_in_zadd n m l :
  (∀ x, x ∈ l → 0 <= member_tokens_or_0 x.2) →
  tokens_in (zadd n m l) <= member_tokens_or_0 m + tokens_in l.
Proof.
  intros Hl. unfold tokens_in, zadd. rewrite (sum_by_perm _ _ _ (zinsert_perm _ _)), sum_by_cons. simpl.
  pose proof (sum_by_submseteq (λ x, member_tokens_or_0 x.2) _ _ Hl
                (sublist_submseteq _ _ (sublist_filter (λ x : Z * string, x.2 ≠ m) l))). lia.
Qed.

Lemma tokens_in_evict t hi w :
  tokens_in (members_at t (evict t hi w)) =
  tokens_in (members_at t w) - tokens_in (filter (in_range 0 hi) (members_at t w)).
Proof.
  destruct w as [[l d]|]; simpl; [|done]. destruct (t <=? d) eqn:E; [|done].
  unfold tokens_in. rewrite (sum_by_filter_split _ (in_range 0 hi) l).
  destruct (filter (λ x, ¬ in_range 0 hi x) l) eqn:Ef; cbn [members_at]; rewrite ?E, ?sum_by_nil; lia.
Qed.

(** ** What the limiter guarantees over a run *)

(** One call to [check]: the server's clock, the caller's clock, its token
    estimate, and the uuid it draws. *)
Record call := Call' { c_server : Z; c_now : Z; c_tokens : Z; c_uuid : string }.

(** An admitted request: time, member, tokens. *)
Definition admitted := (Z * string * Z)%type.

Section Run.
Variable cfg : limiter_config.
Variables rpmL tpmL : Z.

Definition args_of (x : call) : script_args :=
  check_args cfg {| rpmLimit := rpmL; tpmLimit := tpmL; estimatedTokens := c_tokens x |} (c_now x) (c_uuid x).

Definition member_of (x : call) : string := a_member (args_of x).

Abbreviation W := ONE_MINUTE_MS.

(** Requests of [h] in the window (T - W, T]. *)
Definition in_window (T : Z) (x : admitted) : Prop := T - W < x.1.1 <= T.
#[global] Instance in_window_dec T x : Decision (in_window T x).
Proof. unfold in_window. apply _. Defined.
Definition requests_in (T : Z) (h : list admitted) : Z := Z.of_nat (length (filter (in_window T) h)).
Definition tokens_spent_in (T : Z) (h : list admitted) : Z := sum_by snd (filter (in_window T) h).

Definition holds (w : window) (n : Z) (m : string) : Prop :=
  ∃ l d, w = Some (l, d) ∧ (n, m) ∈ l ∧ n + W + 500 <= d.

(** The history [h] (latest first) of a limiter last used at [last]. *)
Record history_ok (h : list admitted) (st : limiter) (last : Z) : Prop := {
  h_past : ∀ x, x ∈ h → x.1.1 <= last;
  h_tokens : ∀ x, x ∈ h → 0 <= x.2;
  h_rpm : ∀ n m k, (n, m, k) ∈ h → last - W < n → holds (l_rpm st) n m;
  h_tpm : ∀ n m k, (n, m, k) ∈ h → last - W < n → holds (l_tpm st) n (tpm_member m k);
  h_nodup : NoDup (map (λ x, x.1.2) h);
  h_sum : ∀ l d, l_tpm st = Some (l, d) →
    (∀ x, x ∈ l → 0 <= member_tokens_or_0 x.2) ∧ ∃ v, l_sum st = Some (v, d) ∧ tokens_in l <= v;
  h_burst : ∀ l d, l_burst st = Some (l, d) →
    NoDup l ∧ ∀ n m, (n, m) ∈ l →
      0 <= n ∧ ∃ k, (n, m, k) ∈ h;
  h_caps : ∀ T, requests_in T h <= rpmL ∧ tokens_spent_in T h <= tpmL
}.

Lemma holds_evict t hi w n m :
  holds w n m → t <= n + W + 500 → hi < n → holds (evict t hi w) n m ∧ (n, m) ∈ members_at t (evict t hi w).
Proof.
  intros (l & d & -> & Hin & Hd) Ht Hhi.
  assert (Hl : (n, m) ∈ members_at t (evict t hi (Some (l, d)))).
  { apply elem_of_evict. simpl. rewrite (proj2 (Z.leb_le t d)) by lia. split; [done |].
    unfold in_range. simpl. lia. }
  split; [|done]. unfold holds. simpl in *. destruct (t <=? d) eqn:E; bool_props; [|lia].
  destruct (filter _ l) eqn:Ef; simpl in Hl; [by apply elem_of_nil in Hl |].
  rewrite (proj2 (Z.leb_le t d)) in Hl by lia. by eexists _, _.
Qed.

(** The clocks agree to half a second. *)
Definition skew_ok (x : call) : Prop := c_now x - 500 <= c_server x <= c_now x + 500.

Section Check.
Variables (h : list admitted) (st : limiter) (last : Z) (x : call).
Hypothesis Hok : history_ok h st last.
Hypothesis Hmono : last <= c_now x.
Hypothesis Hskew : skew_ok x.

Abbreviation t := (c_server x).
Abbreviation a := (args_of x).
Abbreviation now := (c_now x).

Lemma kept_rpm n m k :
  (n, m, k) ∈ h → now - W < n →
  holds (l_rpm (evicted t a st)) n m ∧ (n, m) ∈ members_at t (l_rpm (evicted t a st)).
Proof using Hok Hmono Hskew.
  intros Hin Hn. unfold skew_ok in Hskew. apply holds_evict; simpl; [| lia | lia].
  eapply h_rpm; [exact Hok | exact Hin | lia].
Qed.

Lemma kept_tpm n m k :
  (n, m, k) ∈ h → now - W < n →
  holds (l_tpm (evicted t a st)) n (tpm_member m k) ∧
  (n, tpm_member m k) ∈ members_at t (l_tpm (evicted t a st)).
Proof using Hok Hmono Hskew.
  intros Hin Hn. unfold skew_ok in Hskew.
  assert (Hh : holds (l_tpm st) n (tpm_member m k)) by (eapply h_tpm; [exact Hok | exact Hin | lia]).
  unfold evicted. cbn [l_tpm]. case_bool_decide; [|by apply holds_evict; simpl; [| lia | lia]].
  split; [done |]. destruct Hh as (l & d & -> & Hl & Hd). simpl.
  by rewrite (proj2 (Z.leb_le t d)) by lia.
Qed.

Lemma requests_counted :
  requests_in now h <= Z.of_nat (length (members_at t (l_rpm (evicted t a st)))).
Proof using Hok Hmono Hskew.
  unfold requests_in. apply inj_le.
  rewrite <- (length_fmap (fst : admitted → Z * string) (filter (in_window now) h)).
  apply submseteq_length, NoDup_submseteq.
  - apply (NoDup_fmap_1 snd). rewrite <- list_fmap_compose.
    eapply sublist_NoDup; [apply (h_nodup _ _ _ Hok) |].
    by apply fmap_sublist, sublist_filter.
  - intros [n m] ([[n' m'] k] & [= -> ->] & [Hw Hin]%list_elem_of_filter)%list_elem_of_fmap.
    unfold in_window in Hw. simpl in Hw. by eapply (kept_rpm n' m'); [| lia].
Qed.

Lemma tokens_nonneg y : y ∈ members_at t (l_tpm (evicted t a st)) → 0 <= member_tokens_or_0 y.2.
Proof using Hok.
  assert (Hall : ∀ y, y ∈ members_at t (l_tpm st) → 0 <= member_tokens_or_0 y.2).
  { intros z Hz. destruct (l_tpm st) as [[l d]|] eqn:E; simpl in Hz; [|by apply elem_of_nil in Hz].
    destruct (t <=? d); [|by apply elem_of_nil in Hz]. by apply (h_sum _ _ _ Hok l d E). }
  unfold evicted. cbn [l_tpm]. case_bool_decide; [by apply Hall |].
  intros [Hy _]%elem_of_evict. by apply Hall.
Qed.

Lemma sum_covers :
  0 <= current_sum t a st ∧
  tokens_in (members_at t (l_tpm (evicted t a st))) <= current_sum t a st.
Proof using Hok.
  set (gone := filter (in_range 0 (a_now a - a_tpmWindow a)) (members_at t (l_tpm st))).
  assert (Hle : tokens_in (members_at t (l_tpm (evicted t a st))) = 0 ∨
                tokens_in (members_at t (l_tpm (evicted t a st))) <= sum_at t (l_sum st) - tokens_in gone).
  { assert (Hin : members_at t (l_tpm st) = [] ∨ tokens_in (members_at t (l_tpm st)) <= sum_at t (l_sum st)).
    { destruct (l_tpm st) as [[l d]|] eqn:E; simpl; [|by left]. destruct (t <=? d) eqn:Et; [|by left].
      right. destruct (h_sum _ _ _ Hok l d E) as (_ & v & -> & Hv). simpl. by rewrite Et. }
    unfold evicted. cbn [l_tpm]. fold gone. case_bool_decide as Eg.
    - rewrite Eg. change (tokens_in []) with 0. destruct Hin as [-> | ?]; [by left | right; lia].
    - rewrite tokens_in_evict. fold gone. destruct Hin as [E|?]; [|right; lia].
      unfold gone in Eg. by rewrite E in Eg. }
  assert (Hnn : 0 <= tokens_in (members_at t (l_tpm (evicted t a st)))).
  { apply sum_by_nonneg, tokens_nonneg. }
  unfold current_sum. fold gone. destruct (_ <? 0) eqn:E0; bool_props; [lia |].
  case_bool_decide as Ee; [|lia]. rewrite Ee. by change (tokens_in []) with 0.
Qed.

Lemma tokens_counted : tokens_spent_in now h <= current_sum t a st.
Proof using Hok Hmono Hskew.
  etrans; [| apply sum_covers].
  transitivity (tokens_in (map (λ y, (y.1.1, tpm_member y.1.2 y.2)) (filter (in_window now) h))).
  { unfold tokens_spent_in, tokens_in. clear Hok.
    induction (filter (in_window now) h) as [|y l IH]; [done |].
    cbn [map]. rewrite !sum_by_cons. cbn [snd]. unfold member_tokens_or_0 at 1.
    rewrite member_tokens_of. cbn [coalesce]. lia. }
  apply sum_by_submseteq; [apply tokens_nonneg |]. apply NoDup_submseteq.
  - apply (NoDup_fmap_1 snd). 
    assert (Hnd : NoDup (map (λ y : admitted, y.1.2) (filter (in_window now) h))).
    { eapply sublist_NoDup; [apply (h_nodup _ _ _ Hok) |]. by apply fmap_sublist, sublist_filter. }
    rewrite <- list_fmap_compose. clear -Hnd. induction (filter _ h) as [|y l IH]; [constructor |].
    cbn [map fmap list_fmap] in *. apply NoDup_cons in Hnd as [Hy Hl]. apply NoDup_cons. split; [|by apply IH].
    intros (z & E & Hz)%list_elem_of_fmap. simpl in E. apply tpm_member_inj in E as [E _].
    apply Hy, list_elem_of_fmap. by exists z.
  - intros p (y & -> & [Hw Hin]%list_elem_of_filter)%list_elem_of_fmap. destruct y as [[n m] k].
    unfold in_window in Hw. simpl in *. by eapply (kept_tpm n m k); [| lia].
Qed.

Lemma burst_counted :
  RATE_LIMIT_BURST_WINDOW_MS cfg <= W → RATE_LIMIT_BURST_ENABLED cfg = true →
  Z.of_nat (length (members_at t (l_burst (evicted t a st)))) <=
  Z.of_nat (length (members_at t (l_rpm (evicted t a st)))).
Proof using Hok Hmono Hskew.
  intros Hbw Hen. apply inj_le, submseteq_length.
  assert (Hview : NoDup (members_at t (l_burst (evicted t a st))) ∧
    ∀ y, y ∈ members_at t (l_burst (evicted t a st)) → y ∈ members_at t (l_rpm (evicted t a st)));
    [|by apply NoDup_submseteq; apply Hview].
  simpl. rewrite Hen. destruct (l_burst st) as [[l d]|] eqn:E.
  - destruct (h_burst _ _ _ Hok l d E) as [Hnd Hin]. split.
    + simpl. destruct (t <=? d) eqn:Et; [|constructor].
      destruct (filter _ l) eqn:Ef; simpl; [constructor |]. rewrite Et, <- Ef. by apply NoDup_filter.
    + intros [n m] [Hy Hr]%elem_of_evict. simpl in Hy. destruct (t <=? d); [|by apply elem_of_nil in Hy].
      destruct (Hin n m Hy) as (Hn & k & Hh). unfold in_range in Hr. simpl in Hr.
      eapply (kept_rpm n m k Hh). lia.
  - simpl. split; [constructor |]. by intros y Hy%elem_of_nil.
Qed.

Lemma holds_insert ttl n m n' m' w :
  (n, m) ∈ members_at t w → m ≠ m' → n + W + 500 <= t + ttl → holds (insert_at t ttl n' m' w) n m.
Proof using.
  intros Hin Hne Hd. eexists _, _. split; [done |]. split; [|done].
  apply elem_of_zadd. by right.
Qed.

Lemma holds_inserted ttl n m w : n + W + 500 <= t + ttl → holds (insert_at t ttl n m w) n m.
Proof using. intros Hd. eexists _, _. split; [done |]. split; [|done]. apply elem_of_zadd. by left. Qed.

Lemma rejected_history : history_ok h (evicted t a st) now.
Proof using Hok Hmono Hskew.
  split; try apply Hok.
  - intros y Hy. pose proof (h_past _ _ _ Hok y Hy). lia.
  - intros. by eapply kept_rpm.
  - intros. by eapply kept_tpm.
  - intros l d. unfold evicted. cbn [l_tpm l_sum]. case_bool_decide; [by apply Hok |].
    destruct (l_tpm st) as [[l0 d0]|] eqn:E; simpl; [|done].
    destruct (h_sum _ _ _ Hok l0 d0 E) as [Hnn (v & Hv & Hle)].
    destruct (_ <=? d0); [|done].
    destruct (filter (λ x, ¬ in_range _ _ x) l0) as [|y l'] eqn:Ef; [done |]. intros [= <- <-].
    rewrite <- Ef. split; [intros z [_ Hz]%list_elem_of_filter; by apply Hnn |].
    eexists; split; [exact Hv |]. etrans; [| exact Hle].
    apply sum_by_submseteq; [exact Hnn |]. by apply sublist_submseteq, sublist_filter.
  - intros l d Hl. cbn [l_burst evicted] in Hl.
    assert (Hsub : ∃ l0 d0, l_burst st = Some (l0, d0) ∧ l `sublist_of` l0).
    { destruct (a_burstEnabled a); [|by eauto].
      destruct (l_burst st) as [[l0 d0]|]; simpl in Hl; [|done]. destruct (_ <=? d0); [|done].
      destruct (filter _ l0) eqn:Ef; [done |]. injection Hl as <- <-. eexists _, _. split; [done |].
      rewrite <- Ef. apply sublist_filter. }
    destruct Hsub as (l0 & d0 & E & Hs). destruct (h_burst _ _ _ Hok l0 d0 E) as [Hnd Hin]. split.
    + by eapply sublist_NoDup.
    + intros n m Hnm. apply Hin. by eapply elem_of_sublist.
Qed.

Hypothesis Hfresh : a_member a ∉ map (λ y : admitted, y.1.2) h.
Hypothesis Hnow : 0 <= now.
Hypothesis Hadmit : (decide_request t a st).1 = true.

Abbreviation entry_now := (now, a_member a, a_reqTokens a).

Lemma admitted_caps T : requests_in T (entry_now :: h) <= rpmL ∧ tokens_spent_in T (entry_now :: h) <= tpmL.
Proof using Hok Hmono Hskew Hadmit.
  destruct (h_caps _ _ _ Hok T) as [Hr Hk]. unfold requests_in, tokens_spent_in in *.
  rewrite !filter_cons. case_decide as Hin; [|done]. unfold in_window in Hin. simpl in Hin.
  cbn [length]. rewrite sum_by_cons. cbn [snd].
  assert (Hsub : filter (in_window T) h ⊆+ filter (in_window now) h).
  { apply sublist_submseteq, filter_sublist_impl. intros y Hy.
    pose proof (h_past _ _ _ Hok y Hy). unfold in_window. lia. }
  pose proof (submseteq_length _ _ Hsub) as Hlen.
  assert (Htok : sum_by snd (filter (in_window T) h) <= sum_by snd (filter (in_window now) h)).
  { apply sum_by_submseteq; [|done]. intros y [_ Hy]%list_elem_of_filter. by apply (h_tokens _ _ _ Hok). }
  pose proof requests_counted as Hrc. unfold requests_in in Hrc.
  pose proof tokens_counted as Htc. unfold tokens_spent_in in Htc.
  unfold decide_request in Hadmit.
  destruct (_ <=? _) eqn:E1; [done |]. destruct (_ && _); [done |].
  destruct (a_tpmLimit a <? _) eqn:E3; [done |]. bool_props.
  change (a_rpmLimit a) with rpmL in E1. change (a_tpmLimit a) with tpmL in E3. lia.
Qed.

Lemma admitted_history : history_ok (entry_now :: h) (admit_request t a st) now.
Proof using Hok Hmono Hskew Hadmit Hfresh Hnow.
  pose proof Hskew as Hsk. unfold skew_ok in Hsk.
  assert (Hne : ∀ n m k, (n, m, k) ∈ h → m ≠ a_member a).
  { intros n m k Hin ->. apply Hfresh, list_elem_of_fmap. by exists (n, a_member a, k). }
  assert (HW : a_rpmWindow a = W ∧ a_tpmWindow a = W) by done. destruct HW as [HW1 HW2].
  split.
  - intros y [-> | Hy]%elem_of_cons; [simpl; lia |]. pose proof (h_past _ _ _ Hok y Hy). lia.
  - intros y [-> | Hy]%elem_of_cons; [simpl; lia |]. by apply (h_tokens _ _ _ Hok).
  - intros n m k [[= -> -> ->] | Hin]%elem_of_cons Hn; unfold admit_request; cbn [l_rpm]; rewrite HW1.
    + apply holds_inserted. simpl. lia.
    + apply holds_insert; [by eapply kept_rpm | exact (Hne _ _ _ Hin) | pose proof (h_past _ _ _ Hok _ Hin); simpl in *; lia].
  - intros n m k [[= -> -> ->] | Hin]%elem_of_cons Hn; unfold admit_request; cbn [l_tpm]; rewrite HW2.
    + apply holds_inserted. simpl. lia.
    + apply holds_insert; [by eapply kept_tpm | | pose proof (h_past _ _ _ Hok _ Hin); simpl in *; lia].
      intros [E _]%tpm_member_inj. by apply (Hne _ _ _ Hin).
  - cbn [map]. apply NoDup_cons. split; [exact Hfresh | apply Hok].
  - intros l d [= <- <-]. split.
    + intros y [-> | [Hy _]]%elem_of_zadd; [|by apply tokens_nonneg].
      simpl. unfold member_tokens_or_0. rewrite member_tokens_of. simpl. lia.
    + eexists; split; [done |]. etrans; [apply tokens_in_zadd, tokens_nonneg |].
      unfold member_tokens_or_0. rewrite member_tokens_of. cbn [coalesce].
      pose proof sum_covers as [_ Hs]. unfold evicted in Hs. simpl in Hs |- *. lia.
  - pose proof (h_burst _ _ _ rejected_history) as Hb. intros l d Hl.
    assert (Hview : NoDup (members_at t (l_burst (evicted t a st))) ∧
      ∀ n m, (n, m) ∈ members_at t (l_burst (evicted t a st)) → 0 <= n ∧ ∃ k, (n, m, k) ∈ h).
    { destruct (l_burst (evicted t a st)) as [[l1 d1]|] eqn:E1; simpl.
      - destruct (t <=? d1); [by eapply Hb |]. split; [constructor | by intros ? ? ?%elem_of_nil].
      - split; [constructor | by intros ? ? ?%elem_of_nil]. }
    destruct Hview as [Hnd Hin]. revert Hl. unfold admit_request. cbn [l_burst].
    destruct (a_burstEnabled a).
    + intros [= <- <-]. split.
      * unfold zadd. rewrite zinsert_perm. apply NoDup_cons. split; [|by apply NoDup_filter].
        intros [Hno _]%list_elem_of_filter. by apply Hno.
      * intros n m [[= -> ->] | [Hnm _]]%elem_of_zadd; [split; [done | eexists; by left] |].
        destruct (Hin n m Hnm) as [? [k ?]]. split; [done | exists k; by right].
    + intros E. destruct (Hb l d E) as [Hnd' Hin']. split; [done |]. intros n m Hnm.
      destruct (Hin' n m Hnm) as [? [k ?]]. split; [done | exists k; by right].
  - apply admitted_caps.
Qed.
End Check.

(** The history after one check. *)
Definition entry_of (x : call) : admitted := (c_now x, member_of x, a_reqTokens (args_of x)).

Lemma check_history h st last x :
  history_ok h st last → last <= c_now x → skew_ok x → 0 <= c_now x →
  member_of x ∉ map (λ y : admitted, y.1.2) h →
  history_ok (if r_allowed (check_step (c_server x) (args_of x) st).2 then entry_of x :: h else h)
             (check_step (c_server x) (args_of x) st).1 (c_now x).
Proof.
  intros Hok Hm Hs Hn Hf. unfold check_step.
  destruct (decide_request (c_server x) (args_of x) st) as [[] reason] eqn:E; cbn [fst snd];
    destruct (String.eqb reason "tpm"); try destruct (String.eqb reason "burst"); cbn [r_allowed fst snd];
    first [ by eapply rejected_history | apply (admitted_history h st last x); by rewrite ?E ].
Qed.

Lemma burst_not_reason h st last x :
  history_ok h st last → last <= c_now x → skew_ok x →
  RATE_LIMIT_BURST_WINDOW_MS cfg <= W → rpmL <= burst_limit cfg rpmL →
  r_reason (check_step (c_server x) (args_of x) st).2 ≠ "burst"%string.
Proof.
  intros Hok Hm Hs Hw Hl.
  assert (Hd : (decide_request (c_server x) (args_of x) st).2 ≠ "burst"%string).
  { unfold decide_request. destruct (_ <=? _) eqn:E1; [done |].
    destruct (_ && _) eqn:E2; [| by destruct (_ <? _)]. exfalso. bool_props.
    pose proof (burst_counted h st last x Hok Hm Hs Hw). simpl in *. naive_solver lia. }
  unfold check_step. destruct (decide_request _ _ _) as [b r]. simpl in *.
  destruct (String.eqb r "tpm"); [done |]. by destruct (String.eqb r "burst").
Qed.

(** *** Runs of [check] on the keyspace *)

Variables prefix key : string.
Hypothesis enabled : RATE_LIMIT_ENABLED cfg = true.
Hypothesis window_nonneg : 0 <= RATE_LIMIT_BURST_WINDOW_MS cfg.

Definition check_call (x : call) : prog RateLimitResult :=
  check prefix cfg key {| rpmLimit := rpmL; tpmLimit := tpmL; estimatedTokens := c_tokens x |}
    (c_now x) (c_uuid x).

Fixpoint checks (calls : list call) (s : db) : db * list (result string RateLimitResult) :=
  match calls with
  | [] => (s, [])
  | x :: calls' =>
      let r := run (check_call x) (c_server x) s in
      let rs := checks calls' r.1 in
      (rs.1, r.2 :: rs.2)
  end.

Definition allowed_reply (r : result string RateLimitResult) : bool :=
  match r with Ok r => rl_allowed r | Err _ => false end.

(** The requests a run admitted. *)
Fixpoint admissions (calls : list call) (rs : list (result string RateLimitResult)) : list admitted :=
  match calls, rs with
  | x :: calls', r :: rs' =>
      if allowed_reply r then entry_of x :: admissions calls' rs' else admissions calls' rs'
  | _, _ => []
  end.

(** Calls in clock order, with clocks that agree. *)
Fixpoint ordered (last : Z) (calls : list call) : Prop :=
  match calls with
  | [] => True
  | x :: calls' => last <= c_now x ∧ skew_ok x ∧ ordered (c_now x) calls'
  end.

Definition limiter_rep : limiter → db → Prop :=
  lrep (redisKeys.rateLimitRpm prefix key) (redisKeys.rateLimitTpm prefix key)
       (redisKeys.rateLimitBurst prefix key) (redisKeys.rateLimitTpmSum prefix key).

Lemma limiter_keys_nodup :
  NoDup [redisKeys.rateLimitRpm prefix key; redisKeys.rateLimitTpm prefix key;
         redisKeys.rateLimitBurst prefix key; redisKeys.rateLimitTpmSum prefix key].
Proof using.
  repeat (apply NoDup_cons; split); try apply NoDup_nil_2;
    rewrite ?not_elem_of_cons; repeat split; try apply not_elem_of_nil; key_ne.
Qed.

Lemma check_simulated x st s :
  limiter_rep st s →
  ∃ s', run (check_call x) (c_server x) s =
          (s', Ok (parseResult (check_step (c_server x) (args_of x) st).2)) ∧
        limiter_rep (check_step (c_server x) (args_of x) st).1 s'.
Proof using enabled window_nonneg.
  intros Hr. unfold check_call, check. rewrite enabled. cbn [negb].
  destruct (sim_script _ _ _ _ limiter_keys_nodup (c_server x) (args_of x) st s) as (s' & E & Hr');
    [done | done | exact window_nonneg | exact Hr |].
  exists s'. split; [|exact Hr']. fold (args_of x). by rewrite run_bind, E.
Qed.

Lemma spent_perm T l l' : l ≡ₚ l' →
  requests_in T l = requests_in T l' ∧ tokens_spent_in T l = tokens_spent_in T l'.
Proof using.
  intros Hp. apply (filter_Permutation (in_window T)) in Hp. split.
  - unfold requests_in. by rewrite Hp.
  - by apply sum_by_perm.
Qed.

Lemma run_invariant calls : ∀ last h st s,
  history_ok h st last → limiter_rep st s → 0 <= last → ordered last calls →
  NoDup (map member_of calls ++ map (λ y : admitted, y.1.2) h)%list →
  let rs := (checks calls s).2 in
  Forall (λ r, is_ok r = true) rs ∧
  (∀ T, requests_in T (admissions calls rs ++ h)%list <= rpmL ∧
        tokens_spent_in T (admissions calls rs ++ h)%list <= tpmL) ∧
  (RATE_LIMIT_BURST_WINDOW_MS cfg <= W → rpmL <= burst_limit cfg rpmL →
   Forall (λ r, ∀ v, r = Ok v → rl_reason v ≠ Some burst) rs).
Proof using enabled window_nonneg.
  induction calls as [|x calls IH]; intros last h st s Hok Hr Hl Ho Hnd.
  { simpl. split_and!; [constructor | apply Hok | constructor]. }
  destruct Ho as (Hm & Hs & Ho). cbn [map app] in Hnd. apply NoDup_cons in Hnd as [Hx Hnd].
  rewrite elem_of_app in Hx.
  destruct (check_simulated x st s Hr) as (s' & E & Hr').
  cbn [checks]. rewrite E. cbn [fst snd admissions allowed_reply parseResult rl_allowed].
  pose proof (check_history h st last x Hok Hm Hs ltac:(lia) ltac:(tauto)) as Hok'.
  destruct (IH _ _ _ _ Hok' Hr' ltac:(lia) Ho) as (I1 & I2 & I3).
  { destruct (r_allowed _); [|done]. cbn [map]. rewrite <- Permutation_middle.
    by apply NoDup_cons; rewrite elem_of_app. }
  split_and!.
  - by constructor.
  - intros T. specialize (I2 T). destruct (r_allowed _); [|done]. revert I2.
    pose proof (spent_perm T _ _ (Permutation_middle (admissions calls (checks calls s').2) h (entry_of x)))
      as [Hp1 Hp2]. rewrite <- app_comm_cons, Hp1, Hp2. done.
  - intros Hw Hb. constructor; [|by apply I3]. intros v [= <-].
    pose proof (burst_not_reason h st last x Hok Hm Hs Hw Hb) as Hne. simpl.
    destruct (String.eqb _ "rpm"); [done |]. destruct (String.eqb _ "tpm"); [done |].
    destruct (String.eqb _ "burst") eqn:Eb; [|done]. apply String.eqb_eq in Eb. by rewrite Eb in Hne.
Qed.

Lemma history_empty : 0 <= rpmL → 0 <= tpmL → history_ok [] no_requests 0.
Proof using.
  split; try (by intros * ?%elem_of_nil); try done. constructor.
Qed.

Lemma limiter_rep_empty : limiter_rep no_requests ∅.
Proof using. unfold limiter_rep, lrep. simpl. by rewrite !lookup_empty. Qed.
End Run.

(** ** Theorems *)

Lemma member_of_uuid cfg rpmL tpmL x y :
  member_of cfg rpmL tpmL x = member_of cfg rpmL tpmL y → c_uuid x = c_uuid y.
Proof.
  unfold member_of. simpl. intros E.
  change (dec (c_now x) ++ String ":" (c_uuid x) = dec (c_now y) ++ String ":" (c_uuid y))%string in E.
  pose proof (f_equal (split_on ":") E) as Es. rewrite !split_on_app in Es by (by apply no_char_dec).
  injection Es as Hd _. rewrite Hd in E. apply (inj (String.append (dec (c_now y)))) in E. by injection E.
Qed.

Lemma members_nodup cfg rpmL tpmL calls :
  NoDup (map c_uuid calls) → NoDup (map (member_of cfg rpmL tpmL) calls).
Proof.
  induction calls as [|x calls IH]; cbn [map]; intros Hn; [constructor |].
  apply NoDup_cons in Hn as [Hx Hn]. apply NoDup_cons. split; [|by apply IH].
  intros (y & E & Hy)%list_elem_of_fmap. apply Hx. apply member_of_uuid in E. rewrite E.
  by apply list_elem_of_fmap_2.
Qed.

Definition default_config : limiter_config :=
  {| RATE_LIMIT_ENABLED := true; RATE_LIMIT_BURST_ENABLED := true;
     RATE_LIMIT_BURST_MULTIPLIER := 2; RATE_LIMIT_BURST_WINDOW_MS := 10000 |}.

Definition sample_calls : list call :=
  [Call' 1000 1000 40 "u1"; Call' 1500 1400 50 "u2"; Call' 61500 61500 60 "u3"].

Lemma sample_calls_ordered : ordered 0 sample_calls ∧ NoDup (map c_uuid sample_calls).
Proof. split; [repeat split; simpl; lia | refine (bool_decide_unpack _ _); vm_compute; exact I]. Qed.

(** C3: The sliding window keeps its caps. Whatever the sequence of calls to
    [check] for a key (in clock order, clocks within half a second of the
    server's, distinct uuids), every call returns, and for every instant T the
    requests admitted in (T - 60 s, T] are at most the request limit and their
    estimated tokens at most the token limit. *)
Theorem sliding_window_caps cfg rpmL tpmL prefix key calls :
  RATE_LIMIT_ENABLED cfg = true → 0 <= RATE_LIMIT_BURST_WINDOW_MS cfg →
  0 <= rpmL → 0 <= tpmL → ordered 0 calls → NoDup (map c_uuid calls) →
  let rs := (checks cfg rpmL tpmL prefix key calls ∅).2 in
  let h := admissions cfg rpmL tpmL calls rs in
  Forall (λ r, is_ok r = true) rs ∧
  ∀ T, requests_in T h <= rpmL ∧ tokens_spent_in T h <= tpmL.
Proof.
  intros He Hb Hr Ht Ho Hn.
  destruct (run_invariant cfg rpmL tpmL prefix key He Hb calls 0 [] no_requests ∅
    (history_empty rpmL tpmL Hr Ht) (limiter_rep_empty prefix key) ltac:(lia) Ho) as (H1 & H2 & _).
  { rewrite app_nil_r. by apply members_nodup. }
  split; [done |]. intros T. specialize (H2 T). by rewrite app_nil_r in H2.
Qed.

Lemma sliding_window_caps_witness :
  let rs := (checks default_config 2 100 "gw" "k" sample_calls ∅).2 in
  Forall (λ r, is_ok r = true) rs ∧
  ∀ T, requests_in T (admissions default_config 2 100 sample_calls rs) <= 2 ∧
       tokens_spent_in T (admissions default_config 2 100 sample_calls rs) <= 100.
Proof.
  apply (sliding_window_caps default_config 2 100 "gw" "k" sample_calls);
    [done | simpl; lia | lia | lia | apply sample_calls_ordered | apply sample_calls_ordered].
Defined.

(** The burst dimension never binds when its window is at most a minute
    and its limit at least the request limit, as with the default window
    (10 s) and multiplier (2): no check is ever rejected for [burst]. *)
Theorem burst_never_binds cfg rpmL tpmL prefix key calls :
  RATE_LIMIT_ENABLED cfg = true → 0 <= RATE_LIMIT_BURST_WINDOW_MS cfg <= ONE_MINUTE_MS →
  (1 <= RATE_LIMIT_BURST_MULTIPLIER cfg)%Q →
  0 <= rpmL → 0 <= tpmL → ordered 0 calls → NoDup (map c_uuid calls) →
  Forall (λ r, ∀ v, r = Ok v → rl_reason v ≠ Some burst) (checks cfg rpmL tpmL prefix key calls ∅).2.
Proof.
  intros He Hb Hm Hr Ht Ho Hn.
  destruct (run_invariant cfg rpmL tpmL prefix key He ltac:(lia) calls 0 [] no_requests ∅
    (history_empty rpmL tpmL Hr Ht) (limiter_rep_empty prefix key) ltac:(lia) Ho) as (_ & _ & H3).
  { rewrite app_nil_r. by apply members_nodup. }
  apply H3; [lia |]. unfold burst_limit. rewrite <- (Qceiling_Z rpmL) at 1. apply Qceiling_resp_le.
  rewrite <- (Qmult_1_r (inject_Z rpmL)) at 1. rewrite !(Qmult_comm (inject_Z rpmL)).
  apply Qmult_le_compat_r; [done |]. unfold Qle. simpl. lia.
Qed.

Lemma burst_never_binds_witness :
  Forall (λ r, ∀ v, r = Ok v → rl_reason v ≠ Some burst)
    (checks default_config 2 100 "gw" "k" sample_calls ∅).2.
Proof.
  apply (burst_never_binds default_config 2 100 "gw" "k" sample_calls);
    [done | simpl; unfold ONE_MINUTE_MS; lia | done | lia | lia
     | apply sample_calls_ordered | apply sample_calls_ordered].
Defined.

(** What the script answers from any state it can be in: an admitted
    request has no reason and no retry delay, a rejected one names the
    dimension and waits at least a second, and the remaining budget is within
    the limit. *)
Theorem rate_limit_reply prefix cfg key limits x st s :
  RATE_LIMIT_ENABLED cfg = true → 0 <= RATE_LIMIT_BURST_WINDOW_MS cfg → 0 <= rpmLimit limits →
  limiter_rep prefix key st s →
  ∃ s' v, run (check prefix cfg key limits (c_now x) (c_uuid x)) (c_server x) s = (s', Ok v) ∧
    rl_limit v = rpmLimit limits ∧ 0 <= rl_remaining v <= rpmLimit limits ∧
    (if rl_allowed v then rl_reason v = None ∧ rl_retryAfterSec v = 0
     else rl_reason v ≠ None ∧ 1 <= rl_retryAfterSec v).
Proof.
  intros He Hb Hl Hr. unfold check. rewrite He. cbn [negb].
  destruct (sim_script _ _ _ _ (limiter_keys_nodup prefix key) (c_server x)
    (check_args cfg limits (c_now x) (c_uuid x)) st s) as (s' & E & _); [done | done | done | exact Hr |].
  eexists s', _. split; [by rewrite run_bind, E |].
  unfold check_step, decide_request. cbv zeta.
  repeat case_match; simplify_eq/=; split_and!; try done; lia.
Qed.

Lemma rate_limit_reply_witness :
  ∃ s' v, run (check "gw" default_config "k" {| rpmLimit := 2; tpmLimit := 100; estimatedTokens := 500 |}
                1000 "u1") 1000 ∅ = (s', Ok v) ∧
    rl_limit v = 2 ∧ 0 <= rl_remaining v <= 2 ∧
    (if rl_allowed v then rl_reason v = None ∧ rl_retryAfterSec v = 0
     else rl_reason v ≠ None ∧ 1 <= rl_retryAfterSec v).
Proof.
  apply (rate_limit_reply "gw" default_config "k"
           {| rpmLimit := 2; tpmLimit := 100; estimatedTokens := 500 |} (Call' 1000 1000 500 "u1") no_requests ∅);
    [done | simpl; lia | simpl; lia | apply limiter_rep_empty].
Defined.

(** The running token sum drifts upwards. A check that is rejected
    removes expired members from the token window but leaves the stored sum
    alone, so their tokens are counted for ever after: with a limit of 100
    tokens a minute, 60 tokens at 0 s and 30 at 30 s, the rejected request of
    80 at 60 s makes the request of 60 at 61 s be rejected too, although only
    30 tokens were spent in the last minute. *)
Theorem tpm_sum_drift :
  let calls := [Call' 0 0 60 "a"; Call' 30000 30000 30 "b"; Call' 60000 60000 80 "c"; Call' 61000 61000 60 "d"] in
  let rs := (checks default_config 50 100 "gw" "k" calls ∅).2 in
  map (λ r, match r with Ok v => Some (rl_allowed v, rl_reason v) | Err _ => None end) rs =
    [Some (true, None); Some (true, None); Some (false, Some tpm); Some (false, Some tpm)] ∧
  tokens_spent_in 61000 (admissions default_config 50 100 calls rs) + 60 <= 100.
Proof. vm_compute. by split. Qed.
