(* ===== verification/LoadBalancer.v ===== *)
(** * Load balancing ([src/loadbalancer])

    The five selection strategies over the shared store, and the facade
    [LoadBalancer]: round robin in memory, smooth weighted round robin,
    least connections and latency-based selection as Lua scripts, random
    picks.  A provider is anything with an identifier and a weight. *)

From Stdlib Require Import ZArith Lia Lqa QArith Qminmax String.
From stdpp Require Import base gmap strings list fin_maps sorting.
From S2P Require Import Prelude Redis Constants.
Open Scope Z_scope.

(** What the strategies read of a [BaseProvider]. *)
Class BaseProvider (P : Type) := { id : P → string; weight : P → Z }.

Inductive StrategyName :=
| ROUND_ROBIN | WEIGHTED_ROUND_ROBIN | LEAST_CONNECTIONS | LATENCY_BASED | RANDOM.

Inductive lb_error := EmptyCandidatesError | StrategyError (e : string).

(** ** Scripts *)

(** The loop of [SMOOTH_WRR_LUA]: raise every current weight, remember the
    total and the first candidate with the highest current weight. *)
Fixpoint wrr_loop (key : string) (args : list (string * Z)) (total : Z) (best : option (string * Z))
    : prog (Z * option (string * Z)) :=
  match args with
  | [] => Done (total, best)
  | (id, w) :: args' =>
      let total := total + w in
      let* r := redis_call (HGET key id) in
      let* c := tonumber_or_0 r in
      let cw := c + w in
      call* HSET key id cw in
      let best := match best with
                  | None => Some (id, cw)
                  | Some (_, bestCw) => if bestCw <? cw then Some (id, cw) else best
                  end in
      wrr_loop key args' total best
  end.

Definition SMOOTH_WRR_LUA (key : string) (ttl : Z) (args : list (string * Z)) : prog (option string) :=
  let* r := wrr_loop key args 0 None in
  match r.2 with
  | Some (bestId, _) =>
      call* HINCRBY key bestId (- r.1) in
      call* PEXPIRE key ttl in
      Done (Some bestId)
  | None => Done None
  end.

(** The loop of [SELECT_AND_ACQUIRE_LUA]: the first key with the least value. *)
Fixpoint min_loop (keys : list string) (i : nat) (best : option (Z * nat)) : prog (option (Z * nat)) :=
  match keys with
  | [] => Done best
  | k :: keys' =>
      let* r := redis_call (GET k) in
      let* v := tonumber_or_0 r in
      let best := match best with
                  | None => Some (v, i)
                  | Some (minVal, _) => if v <? minVal then Some (v, i) else best
                  end in
      min_loop keys' (S i) best
  end.

Definition SELECT_AND_ACQUIRE_LUA (keys : list string) (ttl : Z) (ids : list string)
    : prog (option string) :=
  let* best := min_loop keys 0 None in
  match best with
  | Some (_, minIdx) =>
      match keys !! minIdx with
      | Some k =>
          call* INCR k in
          call* PEXPIRE k ttl in
          Done (ids !! minIdx)
      | None => Raise "Lua redis lib command arguments must be strings or integers"
      end
  | None => Raise "Lua redis lib command arguments must be strings or integers"
  end.

Definition RELEASE_LUA (k : string) : prog Z :=
  let* r := redis_call (GET k) in
  let* v := tonumber_or_0 r in
  if 0 <? v then let* r := redis_call (DECR k) in tonumber_or_0 r else Done 0.

(** [EMA_UPDATE_LUA]; the stored decimal stands for the number it denotes. *)
Definition EMA_UPDATE_LUA (k : string) (alpha sample : Q) (ttl : Z) : prog Q :=
  let* prev := redis_call (GET k) in
  let* ema := match prev with
              | RNil => Done sample
              | RBulk v => match to_q v with
                           | Some p => Done (alpha * sample + (1 - alpha) * p)%Q
                           | None => Raise "attempt to perform arithmetic on a nil value"
                           end
              | _ => Raise "attempt to perform arithmetic on a nil value"
              end in
  call* SET k (SNum ema) (Some ttl) in
  Done ema.

Definition WRR_STATE_TTL_MS : Z := 300000.
Definition CONNECTION_TTL_MS : Z := 600000.
Definition DEFAULT_EMA_MS : Q := 100.
Definition EMA_TTL_MS : Z := 600000.
Definition EPSILON_MS : Q := 1 # 10.

(** ** Strategies *)

Section Strategies.
Context {P : Type} `{BaseProvider P}.

(** [sha256Hex], [a.localeCompare(b) <= 0] and [secureRandomInt]. *)
Variable sha256Hex : string → string.
Variable locale_le : string → string → Prop.
Context `{!RelDecision locale_le}.
Variable secureRandomInt : Z → Z.

(** The configuration: key prefix, smoothing factor, failure penalty. *)
Variable prefix : string.
Variable LB_LATENCY_EMA_ALPHA LB_FAILURE_PENALTY_MS : Q.

Definition candidateSetKey (candidates : list P) : string :=
  let ids := merge_sort locale_le (map id candidates) in
  String.substring 0 16 (sha256Hex (join "," ids)).

Definition cryptoPick (candidates : list P) : result lb_error P :=
  if bool_decide (candidates = []) then Err EmptyCandidatesError
  else match candidates !! Z.to_nat (secureRandomInt (Z.of_nat (length candidates))) with
       | Some p => Ok p
       | None => Err (StrategyError "undefined")
       end.

(** [list.find(c => c.id === chosenId)]. *)
Definition find_id (chosen : string) (candidates : list P) : option P :=
  List.find (λ c, String.eqb (id c) chosen) candidates.

(** The in-memory rotation counters of round robin. *)
Abbreviation counters := (gmap string Z).

Definition rr_select (candidates : list P) (c : counters) : counters * result lb_error P :=
  if bool_decide (candidates = []) then (c, Err EmptyCandidatesError)
  else
    let key := candidateSetKey candidates in
    let current := c !! key ?? 0 in
    let index := current mod Z.of_nat (length candidates) in
    (<[key := (current + 1) mod MAX_SAFE_INTEGER]> c,
     match candidates !! Z.to_nat index with
     | Some p => Ok p
     | None => Err (StrategyError "undefined")
     end).

(** [Math.max(0, Math.trunc(candidate.weight))]; weights are integers. *)
Definition wrr_weight (p : P) : Z := Z.max 0 (weight p).

Fixpoint weighted_walk (target : Z) (candidates : list P) : option P :=
  match candidates with
  | [] => None
  | p :: rest =>
      let target := target - wrr_weight p in
      if target <? 0 then Some p else weighted_walk target rest
  end.

Definition weightedRandom (candidates : list P) : result lb_error P :=
  let total := sum_by wrr_weight candidates in
  if total <=? 0 then
    match candidates !! Z.to_nat (secureRandomInt (Z.of_nat (length candidates))) with
    | Some p => Ok p
    | None => Err (StrategyError "undefined")
    end
  else
    match weighted_walk (secureRandomInt total) candidates with
    | Some p => Ok p
    | None => match last candidates with
              | Some p => Ok p
              | None => Err (StrategyError "undefined")
              end
    end.

Definition wrr_args (candidates : list P) : list (string * Z) :=
  map (λ c, (id c, wrr_weight c)) candidates.

Definition wrr_select (f : fault) (candidates : list P) (now : Z) (s : db) : db * result lb_error P :=
  if bool_decide (candidates = []) then (s, Err EmptyCandidatesError)
  else
    let key := redisKeys.lbWrrCurrent prefix (candidateSetKey candidates) in
    match client f (SMOOTH_WRR_LUA key WRR_STATE_TTL_MS (wrr_args candidates)) now s with
    | (s', Ok (Some chosenId)) =>
        (s', match find_id chosenId candidates with
             | Some p => Ok p
             | None => weightedRandom candidates
             end)
    | (s', _) => (s', weightedRandom candidates)
    end.

Definition conn_key (p : P) : string := redisKeys.lbConnections prefix (id p).

Definition lc_select (f : fault) (candidates : list P) (now : Z) (s : db) : db * result lb_error P :=
  if bool_decide (candidates = []) then (s, Err EmptyCandidatesError)
  else
    match client f (SELECT_AND_ACQUIRE_LUA (map conn_key candidates) CONNECTION_TTL_MS
                      (map id candidates)) now s with
    | (s', Ok (Some chosenId)) =>
        (s', match find_id chosenId candidates with
             | Some p => Ok p
             | None => cryptoPick candidates
             end)
    | (s', _) => (s', cryptoPick candidates)
    end.

Definition lc_release (f : fault) (providerId : string) (now : Z) (s : db) : db :=
  (client f (RELEASE_LUA (redisKeys.lbConnections prefix providerId)) now s).1.

(** [weight / ema] with the guards of [LatencyBasedStrategy.select]: text
    ([Number(...)] is [NaN]) and non-positive averages count as [EPSILON_MS]. *)
Definition safe_ema (raw : option scalar) : Q :=
  match raw with
  | None => DEFAULT_EMA_MS
  | Some v => match to_q v with
              | Some q => if Qle_bool q 0 then EPSILON_MS else q
              | None => EPSILON_MS
              end
  end.

Definition score (p : P) (raw : option scalar) : Q := inject_Z (Z.max 0 (weight p)) / safe_ema raw.

(** The [forEach] over the candidates and the raw averages. *)
Fixpoint best_score (candidates : list P) (raws : list (option scalar)) (best : P) (bestScore : option Q) : P :=
  match candidates with
  | [] => best
  | p :: rest =>
      let sc := score p (head raws ?? None) in
      let better := match bestScore with None => true | Some b => negb (Qle_bool sc b) end in
      if better then best_score rest (tail raws) p (Some sc)
      else best_score rest (tail raws) best bestScore
  end.

Definition mget (ks : list string) : prog (list (option scalar)) :=
  let* r := redis_call (MGET ks) in
  match r with RMulti l => Done l | _ => Raise "unexpected reply" end.

Definition ema_key (p : P) : string := redisKeys.lbLatencyEma prefix (id p).

Definition latency_select (f : fault) (candidates : list P) (now : Z) (s : db) : db * result lb_error P :=
  match candidates with
  | [] => (s, Err EmptyCandidatesError)
  | first :: _ =>
      match client f (mget (map ema_key candidates)) now s with
      | (s', Ok raw) => (s', Ok (best_score candidates raw first None))
      | (s', Err _) => (s', cryptoPick candidates)
      end
  end.

Definition updateEma (f : fault) (providerId : string) (sampleMs : Q) (now : Z) (s : db) : db :=
  (client f (EMA_UPDATE_LUA (redisKeys.lbLatencyEma prefix providerId) LB_LATENCY_EMA_ALPHA sampleMs
               EMA_TTL_MS) now s).1.

(** ** The facade [LoadBalancer] *)

Definition strategy_select (name : StrategyName) (f : fault) (candidates : list P) (now : Z)
    (c : counters) (s : db) : counters * db * result lb_error P :=
  match name with
  | ROUND_ROBIN => let r := rr_select candidates c in (r.1, s, r.2)
  | WEIGHTED_ROUND_ROBIN => let r := wrr_select f candidates now s in (c, r.1, r.2)
  | LEAST_CONNECTIONS => let r := lc_select f candidates now s in (c, r.1, r.2)
  | LATENCY_BASED => let r := latency_select f candidates now s in (c, r.1, r.2)
  | RANDOM => (c, s, cryptoPick candidates)
  end.

Definition select (name : StrategyName) (f : fault) (candidates : list P) (now : Z)
    (c : counters) (s : db) : counters * db * result lb_error P :=
  if bool_decide (candidates = []) then (c, s, Err EmptyCandidatesError)
  else
    match strategy_select name f candidates now c s with
    | (c', s', Ok p) => (c', s', Ok p)
    | (c', s', Err EmptyCandidatesError) => (c', s', Err EmptyCandidatesError)
    | (c', s', Err (StrategyError _)) => (c', s', cryptoPick candidates)
    end.

Definition recordSuccess (name : StrategyName) (f : fault) (providerId : string) (latencyMs : Q)
    (now : Z) (s : db) : db :=
  match name with
  | LATENCY_BASED => updateEma f providerId (Qmax 0 latencyMs) now s
  | _ => s
  end.

Definition recordFailure (name : StrategyName) (f : fault) (providerId : string) (now : Z) (s : db) : db :=
  match name with
  | LATENCY_BASED => updateEma f providerId LB_FAILURE_PENALTY_MS now s
  | _ => s
  end.

Definition release (name : StrategyName) (f : fault) (providerId : string) (now : Z) (s : db) : db :=
  match name with
  | LEAST_CONNECTIONS => lc_release f providerId now s
  | _ => s
  end.
End Strategies.

(** ** Smooth weighted round robin *)

(** The current weight of an identifier in the stored hash. *)
Definition cw (h : gmap string Z) (i : string) : Z := h !! i ?? 0.

Definition raise_all (args : list (string * Z)) (h : gmap string Z) : gmap string Z :=
  foldl (λ h x, <[x.1 := cw h x.1 + x.2]> h) h args.

(** The choice the loop makes. *)
Definition pick_best (args : list (string * Z)) (h : gmap string Z) (best : option (string * Z)) :=
  foldl (λ best x, match best with
                   | None => Some (x.1, cw h x.1 + x.2)
                   | Some (_, b) => if b <? cw h x.1 + x.2 then Some (x.1, cw h x.1 + x.2) else best
                   end) best args.

Section WRR.
Variables (key : string) (args : list (string * Z)).
Hypothesis ids_nodup : NoDup (map fst args).
Hypothesis weights_nonneg : ∀ x, x ∈ args → 0 <= x.2.

Abbreviation T := (sum_by snd args).
Hypothesis total_pos : 0 < T.

Lemma raise_all_other l h i : i ∉ map fst l → cw (raise_all l h) i = cw h i.
Proof using.
  revert h. induction l as [|[j w] l IH]; intros h Hi; [done |].
  cbn [map fst] in Hi. apply not_elem_of_cons in Hi as [Hne Hi].
  change (raise_all ((j, w) :: l) h) with (raise_all l (<[j := cw h j + w]> h)).
  rewrite IH by done. unfold cw. by rewrite lookup_insert_ne.
Qed.

Lemma raise_all_in l h i w : NoDup (map fst l) → (i, w) ∈ l → cw (raise_all l h) i = cw h i + w.
Proof using.
  revert h. induction l as [|[j v] l IH]; intros h Hn Hi; [by apply elem_of_nil in Hi |].
  cbn [map fst] in Hn. apply NoDup_cons in Hn as [Hj Hn].
  change (raise_all ((j, v) :: l) h) with (raise_all l (<[j := cw h j + v]> h)).
  apply elem_of_cons in Hi as [[= <- <-] | Hi].
  - rewrite raise_all_other by done. unfold cw. by rewrite lookup_insert_eq.
  - rewrite IH by done. assert (i ≠ j).
    { intros ->. apply Hj. apply list_elem_of_fmap. by exists (j, w). }
    unfold cw. by rewrite lookup_insert_ne.
Qed.

Lemma run_hget {A} t s h dl i (f : Z → prog A) :
  read_hash t s key = Some (h, dl) →
  run (let* r := redis_call (HGET key i) in let* c := tonumber_or_0 r in f c) t s = run (f (cw h i)) t s.
Proof using.
  intros Hh. rewrite run_bind, run_redis_call. simpl. rewrite Hh. unfold cw.
  by destruct (h !! i).
Qed.

Lemma run_hset t s h dl i z :
  read_hash t s key = Some (h, dl) →
  run (redis_call (HSET key i z)) t s =
    (<[key := Entry (VHash (<[i := z]> h)) dl]> s, Ok (RInteger (if decide (is_Some (h !! i)) then 0 else 1))).
Proof using. intros Hh. rewrite run_redis_call. simpl. by rewrite Hh. Qed.

Lemma run_hincrby t s h dl i z :
  read_hash t s key = Some (h, dl) →
  run (redis_call (HINCRBY key i z)) t s =
    (<[key := Entry (VHash (<[i := cw h i + z]> h)) dl]> s, Ok (RInteger (cw h i + z))).
Proof using. intros Hh. rewrite run_redis_call. simpl. by rewrite Hh. Qed.

(** The loop over the keyspace computes both. *)
Lemma run_wrr_loop t l : ∀ s h dl total best,
  NoDup (map fst l) → (∀ d, dl = Some d → t <= d) → read_hash t s key = Some (h, dl) →
  ∃ s', run (wrr_loop key l total best) t s = (s', Ok (total + sum_by snd l, pick_best l h best)) ∧
        read_hash t s' key = Some (raise_all l h, dl) ∧
        (∀ k, k ≠ key → s' !! k = s !! k).
Proof using.
  induction l as [|[i w] l IH]; intros s h dl total best Hn Hdl Hh.
  { exists s. cbn [wrr_loop]. change (sum_by snd ([] : list (string * Z))) with 0. by rewrite Z.add_0_r. }
  cbn [map fst] in Hn. apply NoDup_cons in Hn as [Hi Hn]. cbn [wrr_loop].
  rewrite (run_hget t s h dl i _ Hh), run_bind, (run_hset t s h dl i _ Hh). cbv beta iota.
  set (s1 := <[key := Entry (VHash (<[i := cw h i + w]> h)) dl]> s).
  assert (H1 : read_hash t s1 key = Some (<[i := cw h i + w]> h, dl)).
  { unfold read_hash, s1. rewrite look_insert_eq. unfold live. simpl. destruct dl as [d|]; [|done].
    by rewrite (proj2 (Z.leb_le t d)) by (by apply Hdl). }
  destruct (IH s1 _ dl (total + w) (match best with None => Some (i, cw h i + w)
    | Some (_, b) => if b <? cw h i + w then Some (i, cw h i + w) else best end) Hn Hdl H1) as (s' & E & Hh' & Hf).
  exists s'. split; [| split; [exact Hh' |]].
  - refine (eq_trans E _). rewrite sum_by_cons. cbn [snd]. f_equal. f_equal. f_equal; [lia |].
    unfold pick_best. cbn [foldl fst snd].
    assert (Hc : ∀ x, x ∈ l → cw (<[i := cw h i + w]> h) x.1 = cw h x.1).
    { intros x Hx. unfold cw. rewrite lookup_insert_ne; [done |]. intros ->. apply Hi.
      apply list_elem_of_fmap. by exists x. }
    revert Hc. generalize (match best with None => Some (i, cw h i + w)
      | Some (_, b) => if b <? cw h i + w then Some (i, cw h i + w) else best end).
    generalize (<[i := cw h i + w]> h). clear. induction l as [|x l IH]; intros h' b Hc; [done |].
    cbn [foldl]. rewrite Hc by (by left). apply IH. intros y Hy. apply Hc. by right.
  - intros k Hk. rewrite Hf by done. unfold s1. by rewrite lookup_insert_ne.
Qed.

(** The choice is a candidate with the greatest raised weight. *)
Lemma pick_best_spec l h : l ≠ [] →
  ∃ i w, pick_best l h None = Some (i, cw h i + w) ∧ (i, w) ∈ l ∧
         ∀ x, x ∈ l → cw h x.1 + x.2 <= cw h i + w.
Proof using.
  assert (Hgen : ∀ l' i w, ∃ j v, pick_best l' h (Some (i, cw h i + w)) = Some (j, cw h j + v) ∧
    ((j, v) = (i, w) ∨ (j, v) ∈ l') ∧ cw h i + w <= cw h j + v ∧
    ∀ x, x ∈ l' → cw h x.1 + x.2 <= cw h j + v).
  { induction l' as [|[k u] l' IH]; intros i w.
    - exists i, w. split_and!; [done | by left | lia | by intros ? ?%elem_of_nil].
    - unfold pick_best. cbn [foldl fst snd]. destruct (cw h i + w <? cw h k + u) eqn:E; bool_props.
      + destruct (IH k u) as (j & v & Hp & Hin & Hle & Hall). exists j, v. split; [exact Hp |].
        split_and!; [right; destruct Hin as [-> | Hin]; [by left | by right] | lia |].
        intros x [-> | Hx]%elem_of_cons; [done | by apply Hall].
      + destruct (IH i w) as (j & v & Hp & Hin & Hle & Hall). exists j, v. split; [exact Hp |].
        split_and!; [destruct Hin as [-> | Hin]; [by left | right; by right] | done |].
        intros x [-> | Hx]%elem_of_cons; [simpl; lia | by apply Hall]. }
  destruct l as [|[i w] l]; [done |]. intros _. destruct (Hgen l i w) as (j & v & Hp & Hin & Hle & Hall).
  exists j, v. split; [exact Hp |]. split.
  - destruct Hin as [-> | Hin]; [by left | by right].
  - intros x [-> | Hx]%elem_of_cons; [done | by apply Hall].
Qed.

(** One selection: the chosen identifier, and the hash after it. *)
Lemma run_smooth_wrr t s h dl :
  (∀ d, dl = Some d → t <= d) → read_hash t s key = Some (h, dl) →
  ∃ s' h' i w, run (SMOOTH_WRR_LUA key WRR_STATE_TTL_MS args) t s = (s', Ok (Some i)) ∧
    s' !! key = Some (Entry (VHash h') (Some (t + WRR_STATE_TTL_MS))) ∧
    (∀ k, k ≠ key → s' !! k = s !! k) ∧
    (i, w) ∈ args ∧ (∀ x, x ∈ args → cw h x.1 + x.2 <= cw h i + w) ∧
    (∀ x, x ∈ args → cw h' x.1 = cw h x.1 + x.2 - (if decide (x.1 = i) then T else 0)).
Proof using ids_nodup total_pos weights_nonneg.
  intros Hdl Hh. unfold SMOOTH_WRR_LUA.
  destruct (run_wrr_loop t args s h dl 0 None ids_nodup Hdl Hh) as (s1 & E & Hh1 & Hf).
  destruct (pick_best_spec args h) as (i & w & Hp & Hin & Hmax).
  { intros ->. by rewrite sum_by_nil in total_pos. }
  rewrite run_bind, E, Hp. cbn [snd fst]. rewrite run_bind, (run_hincrby _ _ _ _ _ _ Hh1).
  cbv beta iota. rewrite run_bind, run_redis_call. simpl. rewrite look_insert_eq.
  set (e := Entry _ dl).
  assert (Hl : live t e = true).
  { unfold live. simpl. destruct dl as [d|]; [|done]. apply Z.leb_le. by apply Hdl. }
  rewrite Hl. cbn [e_val e]. rewrite insert_insert_eq.
  eexists _, _, i, w. split; [done |]. split; [by rewrite lookup_insert_eq |].
  split; [intros k Hk; rewrite lookup_insert_ne by done; by apply Hf |]. split; [done |]. split; [done |].
  intros [j v] Hj. cbn [fst snd].
  rewrite (raise_all_in args h i w ids_nodup Hin). unfold cw at 1. case_decide as Hd.
  - subst j. rewrite lookup_insert_eq. cbn [coalesce].
    rewrite <- (raise_all_in args h i w ids_nodup Hin), (raise_all_in args h i v ids_nodup Hj). lia.
  - rewrite lookup_insert_ne by done. fold (cw (raise_all args h) j).
    rewrite (raise_all_in args h j v ids_nodup Hj). lia.
Qed.

(** *** Fairness over a round *)

Definition occ (i : string) (l : list string) : Z := Z.of_nat (length (filter (eq i) l)).

Lemma occ_cons i j l : occ i (j :: l) = occ i l + (if decide (i = j) then 1 else 0).
Proof using. unfold occ. rewrite filter_cons. case_decide; cbn [length]; lia. Qed.

(** The hash after the selections [picks] (latest first). *)
Definition wrr_inv (h : gmap string Z) (picks : list string) : Prop :=
  (∀ x, x ∈ args → cw h x.1 = Z.of_nat (length picks) * x.2 - T * occ x.1 picks ∧ - T < cw h x.1) ∧
  sum_by (λ x, cw h x.1) args = 0.

Lemma wrr_inv_start : wrr_inv ∅ [].
Proof using total_pos.
  split.
  - intros x _. unfold cw, occ. rewrite lookup_empty. simpl. lia.
  - transitivity (sum_by (λ _ : string * Z, 0) args); [apply sum_by_ext; intros; unfold cw; by rewrite lookup_empty |].
    clear. induction args as [|x l IH]; [done |]. rewrite sum_by_cons. lia.
Qed.

Lemma sum_by_plus {A} (f g : A → Z) l : sum_by (λ x, f x + g x) l = sum_by f l + sum_by g l.
Proof using. induction l as [|x l IH]; [done |]. rewrite !sum_by_cons, IH. lia. Qed.

Lemma sum_by_single (l : list (string * Z)) i w c : NoDup (map fst l) → (i, w) ∈ l →
  sum_by (λ x, if decide (x.1 = i) then c else 0) l = c.
Proof using.
  assert (Hz : ∀ l : list (string * Z), i ∉ map fst l → sum_by (λ x, if decide (x.1 = i) then c else 0) l = 0).
  { clear. induction l as [|x l IH]; [done |]. cbn [map]. intros [Hne Hi]%not_elem_of_cons.
    rewrite sum_by_cons, IH by done. rewrite decide_False by done. lia. }
  induction l as [|x l IH]; intros Hn Hi; [by apply elem_of_nil in Hi |].
  cbn [map] in Hn. apply NoDup_cons in Hn as [Hx Hn]. rewrite sum_by_cons.
  apply elem_of_cons in Hi as [<- | Hi].
  - rewrite Hz by done. cbn [fst]. rewrite decide_True by done. lia.
  - rewrite IH by done. rewrite decide_False; [lia |]. intros <-. apply Hx. apply list_elem_of_fmap. by exists (x.1, w).
Qed.

Lemma sum_by_max_pos {A} (f : A → Z) l m : (∀ x, x ∈ l → f x <= m) → 0 < sum_by f l → 0 < m.
Proof using.
  intros Hle Hs. destruct (Z_lt_le_dec 0 m) as [|Hm]; [done |]. exfalso.
  assert (sum_by f l <= 0); [|lia]. clear Hs. induction l as [|x l IH]; [done |]. rewrite sum_by_cons.
  assert (f x <= m) by (apply Hle; by left).
  assert (sum_by f l <= 0) by (apply IH; intros; apply Hle; by right). lia.
Qed.

Lemma wrr_inv_step h h' picks i w :
  wrr_inv h picks → (i, w) ∈ args → (∀ x, x ∈ args → cw h x.1 + x.2 <= cw h i + w) →
  (∀ x, x ∈ args → cw h' x.1 = cw h x.1 + x.2 - (if decide (x.1 = i) then T else 0)) →
  wrr_inv h' (i :: picks).
Proof using ids_nodup total_pos weights_nonneg.
  intros [Hinv Hsum] Hi Hmax Hh'.
  assert (Hpos : 0 < cw h i + w).
  { eapply (sum_by_max_pos (λ x, cw h x.1 + x.2)); [exact Hmax |]. rewrite sum_by_plus, Hsum. lia. }
  split.
  - intros x Hx. destruct (Hinv x Hx) as [He Hb]. rewrite (Hh' x Hx), occ_cons. cbn [length].
    pose proof (weights_nonneg x Hx). case_decide as Hd; [|lia].
    assert (x = (i, w)) as ->.
    { destruct x as [j v]. simpl in Hd. subst j. f_equal.
      pose proof (Hmax _ Hx). simpl in *.
      assert (NoDup args) by (eapply NoDup_fmap_1; exact ids_nodup).
      apply list_elem_of_lookup in Hx as [n Hx]. apply list_elem_of_lookup in Hi as [m Hi].
      assert (n = m) as ->.
      { eapply (NoDup_lookup (map fst args) n m i); [done | |].
        - by rewrite list_lookup_fmap, Hx.
        - by rewrite list_lookup_fmap, Hi. }
      rewrite Hx in Hi. by injection Hi. }
    simpl in *. lia.
  - transitivity (sum_by (λ x, (cw h x.1 + x.2) + (if decide (x.1 = i) then - T else 0)) args).
    { apply sum_by_ext. intros x Hx. rewrite (Hh' x Hx). case_decide; lia. }
    rewrite !sum_by_plus, Hsum, (sum_by_single args i w (- T) ids_nodup Hi). lia.
Qed.

Fixpoint wrr_runs (ts : list Z) (s : db) : db * list (result string (option string)) :=
  match ts with
  | [] => (s, [])
  | t :: ts' =>
      let r := run (SMOOTH_WRR_LUA key WRR_STATE_TTL_MS args) t s in
      let rs := wrr_runs ts' r.1 in
      (rs.1, r.2 :: rs.2)
  end.

(** The hash [h] is what the script reads, up to the expiry of its key. *)
Definition ready (t0 : Z) (s : db) (h : gmap string Z) : Prop :=
  ∀ t, t0 <= t <= t0 + WRR_STATE_TTL_MS →
  ∃ dl, read_hash t s key = Some (h, dl) ∧ ∀ d, dl = Some d → t <= d.

Lemma wrr_runs_inv ts : ∀ s h t0 hist,
  ready t0 s h → wrr_inv h hist → paced WRR_STATE_TTL_MS t0 ts →
  ∃ picks h', (wrr_runs ts s).2 = map (λ i, Ok (Some i)) picks ∧ length picks = length ts ∧
    (∀ i, i ∈ picks → i ∈ map fst args) ∧
    wrr_inv h' (rev picks ++ hist)%list ∧ (ts = [] → h' = h) ∧
    (ts ≠ [] → ∃ dl, (wrr_runs ts s).1 !! key = Some (Entry (VHash h') dl)).
Proof using ids_nodup total_pos weights_nonneg.
  induction ts as [|t ts IH]; intros s h t0 hist Hr Hi Hp.
  { exists [], h. split_and!; try done. intros i Hn. by apply elem_of_nil in Hn. }
  destruct Hp as [Ht Hp]. destruct (Hr t Ht) as (dl & Hh & Hdl).
  destruct (run_smooth_wrr t s h dl Hdl Hh) as (s' & h' & i & w & E & Hk & Hf & Hin & Hmax & Hh').
  assert (Hr' : ready t s' h').
  { intros u Hu. exists (Some (t + WRR_STATE_TTL_MS)). unfold read_hash, look. rewrite Hk. unfold live. simpl.
    rewrite (proj2 (Z.leb_le _ _)) by lia. split; [done |]. intros d [= <-]. lia. }
  destruct (IH s' h' t (i :: hist) Hr' (wrr_inv_step _ _ _ _ _ Hi Hin Hmax Hh') Hp)
    as (picks & h2 & E2 & Hl & Hin2 & Hi2 & He & Hr2).
  exists (i :: picks), h2. cbn [wrr_runs]. rewrite E. cbn [fst snd map length rev]. rewrite E2, Hl.
  split_and!; [done | done | | | done | ].
  - intros j [-> | Hj]%elem_of_cons; [|by apply Hin2]. apply list_elem_of_fmap. by exists (i, w).
  - by rewrite <- app_assoc.
  - intros _. destruct ts as [|u ts]; [|by apply Hr2]. rewrite (He eq_refl). by eexists.
Qed.

Lemma occ_perm i l l' : l ≡ₚ l' → occ i l = occ i l'.
Proof using. intros Hp. unfold occ. by rewrite Hp. Qed.

(** After a full round every identifier has been chosen exactly as often as
    its weight says, and the current weights are back at zero. *)
Lemma wrr_round h picks :
  wrr_inv h picks → Z.of_nat (length picks) = T →
  ∀ x, x ∈ args → occ x.1 picks = x.2 ∧ cw h x.1 = 0.
Proof using total_pos.
  intros [Hinv Hsum] Hl x Hx.
  assert (Hnn : ∀ y, y ∈ args → 0 <= cw h y.1).
  { intros y Hy. destruct (Hinv y Hy) as [He Hb]. rewrite Hl in He.
    assert (0 < T * (y.2 - occ y.1 picks + 1)) by lia.
    assert (0 <= y.2 - occ y.1 picks) by nia. nia. }
  assert (Hz : cw h x.1 = 0).
  { pose proof (Hnn x Hx). apply Z.le_antisymm; [|done].
    rewrite <- Hsum. apply list_elem_of_lookup in Hx as [n Hx]. apply list_elem_of_split_length in Hx as (l1 & l2 & E & _).
    rewrite E, sum_by_app, sum_by_cons.
    assert (0 <= sum_by (λ y, cw h y.1) l1 ∧ 0 <= sum_by (λ y, cw h y.1) l2); [|lia].
    split; apply sum_by_nonneg; intros y Hy; apply Hnn; rewrite E; apply elem_of_app; [by left | right; by right]. }
  destruct (Hinv x Hx) as [He _]. split; [|done]. rewrite Hl, Hz in He. nia.
Qed.
End WRR.

(** ** Lemmas about the strategies *)

Section Picks.
Context {P : Type} `{BaseProvider P}.
Variable secureRandomInt : Z → Z.

(** [randomInt(0, max)]: a number in [0, max). *)
Definition random_ok : Prop := ∀ m, 0 < m → 0 <= secureRandomInt m < m.

Lemma lookup_z_in {A} (l : list A) i :
  0 <= i < Z.of_nat (length l) → ∃ x, l !! Z.to_nat i = Some x ∧ x ∈ l.
Proof using.
  intros Hi. destruct (lookup_lt_is_Some_2 l (Z.to_nat i) ltac:(lia)) as [x Hx].
  exists x. split; [done |]. by eapply list_elem_of_lookup_2.
Qed.

Lemma cryptoPick_in (l : list P) : random_ok → l ≠ [] → ∃ p, cryptoPick secureRandomInt l = Ok p ∧ p ∈ l.
Proof using.
  intros Hr Hl. unfold cryptoPick. rewrite bool_decide_eq_false_2 by done.
  assert (0 < Z.of_nat (length l)) by (destruct l; [done | simpl; lia]).
  destruct (lookup_z_in l _ (Hr _ H0)) as (x & E & Hx). rewrite E. by exists x.
Qed.

Lemma find_id_in i (l : list P) p : find_id i l = Some p → p ∈ l ∧ id p = i.
Proof using.
  unfold find_id. intros E. apply List.find_some in E as [Hin He].
  apply String.eqb_eq in He. split; [by apply list_elem_of_In | done].
Qed.

Lemma find_id_some i (l : list P) : i ∈ map id l → ∃ p, find_id i l = Some p ∧ p ∈ l ∧ id p = i.
Proof using.
  intros (p & -> & Hp)%list_elem_of_fmap. destruct (find_id (id p) l) as [q|] eqn:E.
  - exists q. split; [done |]. by apply find_id_in.
  - exfalso. unfold find_id in E. apply list_elem_of_In in Hp.
    pose proof (List.find_none _ _ E p Hp) as Hn. simpl in Hn. by rewrite String.eqb_refl in Hn.
Qed.

Lemma weighted_walk_some (l : list P) : ∀ t, 0 <= t < sum_by wrr_weight l → ∃ p, weighted_walk t l = Some p ∧ p ∈ l ∧ 0 < wrr_weight p.
Proof using.
  induction l as [|p l IH]; intros t Ht; [change (sum_by wrr_weight ([] : list P)) with 0 in Ht; lia |]. rewrite sum_by_cons in Ht.
  cbn [weighted_walk]. destruct (t - wrr_weight p <? 0) eqn:E; bool_props.
  - exists p. split; [done |]. split; [by left | lia].
  - destruct (IH (t - wrr_weight p)) as (q & Hq & Hin & Hw); [lia |]. exists q. split; [done |]. split; [by right | done].
Qed.

Lemma weightedRandom_in (l : list P) : random_ok → l ≠ [] → ∃ p, weightedRandom secureRandomInt l = Ok p ∧ p ∈ l.
Proof using.
  intros Hr Hl. unfold weightedRandom. destruct (_ <=? 0) eqn:E; bool_props.
  - assert (Hlen : 0 < Z.of_nat (length l)) by (destruct l; [done | simpl; lia]).
    destruct (lookup_z_in l _ (Hr _ Hlen)) as (x & Ex & Hx). rewrite Ex. by exists x.
  - destruct (weighted_walk_some l (secureRandomInt (sum_by wrr_weight l)) (Hr _ E)) as (p & Ep & Hp & _).
    rewrite Ep. by exists p.
Qed.

Lemma best_score_in (l : list P) : ∀ raws b sc, best_score l raws b sc ∈ b :: l.
Proof using.
  induction l as [|p l IH]; intros raws b sc; cbn [best_score]; [by left |].
  assert (Hgo : ∀ q sc, q = p ∨ q = b → best_score l (tail raws) q sc ∈ b :: p :: l).
  { intros q sc' Hq. pose proof (IH (tail raws) q sc') as Hin.
    rewrite elem_of_cons in Hin. rewrite !elem_of_cons. destruct Hq as [-> | ->]; tauto. }
  destruct (match sc with None => _ | Some _ => _ end); apply Hgo; tauto.
Qed.

Variable sha256Hex : string → string.
Variable locale_le : string → string → Prop.
Context `{!RelDecision locale_le}.

Lemma rr_select_in (l : list P) c : l ≠ [] → ∃ p, (rr_select sha256Hex locale_le l c).2 = Ok p ∧ p ∈ l.
Proof using.
  intros Hl. unfold rr_select. rewrite bool_decide_eq_false_2 by done. cbn [snd].
  assert (0 < Z.of_nat (length l)) by (destruct l; [done | simpl; lia]).
  destruct (lookup_z_in l ((c !! candidateSetKey sha256Hex locale_le l ?? 0) mod Z.of_nat (length l))) as (p & Ep & Hp);
    [apply Z.mod_pos_bound; lia |].
  exists p. by rewrite Ep.
Qed.

(** The counters stay non-negative. *)
Lemma rr_select_counters (l : list P) c : (∀ k v, c !! k = Some v → 0 <= v) →
  ∀ k v, (rr_select sha256Hex locale_le l c).1 !! k = Some v → 0 <= v.
Proof using.
  intros Hc k v. unfold rr_select. case_bool_decide; [apply Hc |]. cbn [fst].
  destruct (decide (k = candidateSetKey sha256Hex locale_le l)) as [-> | Hne].
  - rewrite lookup_insert_eq. intros [= <-]. apply Z.mod_pos_bound. unfold MAX_SAFE_INTEGER. lia.
  - rewrite lookup_insert_ne by done. apply Hc.
Qed.
End Picks.

(** Whatever happens to the store, a candidate is selected. *)
Lemma select_member {P} `{BaseProvider P} sha256Hex locale_le `{!RelDecision locale_le}
    rnd prefix name f (candidates : list P) now c s :
  random_ok rnd → candidates ≠ [] →
  ∃ p, (select sha256Hex locale_le rnd prefix name f candidates now c s).2 = Ok p ∧ p ∈ candidates.
Proof.
  intros Hr Hl. unfold select. rewrite bool_decide_eq_false_2 by done.
  pose proof (cryptoPick_in rnd candidates Hr Hl) as (q & Eq & Hq).
  pose proof (weightedRandom_in rnd candidates Hr Hl) as (q' & Eq' & Hq').
  assert (Hs : ∃ p, (strategy_select sha256Hex locale_le rnd prefix name f candidates now c s).2 = Ok p ∧
                    p ∈ candidates).
  { destruct name; simpl.
    - by apply rr_select_in.
    - unfold wrr_select. rewrite bool_decide_eq_false_2 by done.
      destruct (client _ _ _ _) as [s' [[i|]|e]]; [| by eauto | by eauto].
      destruct (find_id i candidates) as [p|] eqn:E; [|by eauto]. exists p. split; [done |]. by apply find_id_in in E as [? _].
    - unfold lc_select. rewrite bool_decide_eq_false_2 by done.
      destruct (client _ _ _ _) as [s' [[i|]|e]]; [| by eauto | by eauto].
      destruct (find_id i candidates) as [p|] eqn:E; [|by eauto]. exists p. split; [done |]. by apply find_id_in in E as [? _].
    - unfold latency_select. destruct candidates as [|p l]; [done |].
      destruct (client _ _ _ _) as [s' [raw|e]]; [|by eauto]. eexists; split; [done |].
      pose proof (best_score_in (p :: l) raw p None) as Hin.
      rewrite !elem_of_cons in Hin. rewrite elem_of_cons. tauto.
    - by eauto. }
  destruct Hs as (p & E & Hp).
  destruct (strategy_select _ _ _ _ _ _ _ _ _) as [[c' s'] r]. simpl in E. subst r. simpl. by exists p.
Qed.

(** ** Theorems *)

(** Selection always succeeds. Whatever the strategy, the contents of the
    keyspace and the fate of the Redis call (served, unreachable, reply lost),
    [LoadBalancer.select] returns one of the candidates when there is one, and
    [EmptyCandidatesError] when there is none. *)
Theorem select_total {P} `{BaseProvider P} sha256Hex locale_le `{!RelDecision locale_le}
    rnd prefix name f (candidates : list P) now c s :
  random_ok rnd → (∀ k v, c !! k = Some v → 0 <= v) →
  let r := select sha256Hex locale_le rnd prefix name f candidates now c s in
  if bool_decide (candidates = []) then r = (c, s, Err EmptyCandidatesError)
  else (∃ p, r.2 = Ok p ∧ p ∈ candidates) ∧ ∀ k v, r.1.1 !! k = Some v → 0 <= v.
Proof.
  intros Hr Hc r. unfold r. case_bool_decide as Hl; [by rewrite Hl |]. split; [by apply select_member |].
  unfold select. rewrite bool_decide_eq_false_2 by done. unfold strategy_select.
  destruct name; simpl; repeat case_match; simplify_eq/=; try done.
  all: by apply rr_select_counters.
Qed.

(** *** Round robin: a full rotation *)

Section RoundRobin.
Context {P : Type} `{BaseProvider P}.
Variable sha256Hex : string → string.
Variable locale_le : string → string → Prop.
Context `{!RelDecision locale_le}.
Variable l : list P.
Hypothesis l_ne : l ≠ [].

Abbreviation n := (Z.of_nat (length l)).
Abbreviation set_key := (candidateSetKey sha256Hex locale_le l).

Fixpoint rr_selects (m : nat) (c : gmap string Z) : gmap string Z * list (result lb_error P) :=
  match m with
  | O => (c, [])
  | S m' =>
      let r := rr_select sha256Hex locale_le l c in
      let rs := rr_selects m' r.1 in
      (rs.1, r.2 :: rs.2)
  end.

Lemma rr_select_eq c :
  rr_select sha256Hex locale_le l c =
  (<[set_key := ((c !! set_key ?? 0) + 1) mod MAX_SAFE_INTEGER]> c,
   match l !! Z.to_nat ((c !! set_key ?? 0) mod n) with
   | Some p => Ok p
   | None => Err (StrategyError "undefined")
   end).
Proof using l_ne. unfold rr_select. by rewrite bool_decide_eq_false_2. Qed.

Lemma rr_runs m : ∀ c v, c !! set_key ?? 0 = v → 0 <= v → v + Z.of_nat m <= MAX_SAFE_INTEGER →
  length (rr_selects m c).2 = m ∧
  ∀ i x, (i < m)%nat → l !! Z.to_nat ((v + Z.of_nat i) mod n) = Some x → (rr_selects m c).2 !! i = Some (Ok x).
Proof using l_ne.
  induction m as [|m IH]; intros c v Hv Hn Hm; [split; [done | lia] |].
  cbn [rr_selects]. rewrite rr_select_eq, Hv. cbn [fst snd].
  set (c' := <[set_key := (v + 1) mod MAX_SAFE_INTEGER]> c).
  set (r0 := match l !! _ with Some p => _ | None => _ end).
  assert (Hhead : ∀ x, l !! Z.to_nat ((v + Z.of_nat 0) mod n) = Some x → r0 = Ok x).
  { intros x Hx. rewrite Z.add_0_r in Hx. unfold r0. by rewrite Hx. }
  destruct m as [|m'].
  { split; [done |]. intros [|i] x Hi Hx; [by rewrite <- (Hhead x Hx) | lia]. }
  assert (Hc : c' !! set_key ?? 0 = v + 1).
  { unfold c'. rewrite lookup_insert_eq. cbn [coalesce]. apply Z.mod_small. lia. }
  destruct (IH c' (v + 1) Hc ltac:(lia) ltac:(lia)) as [Hl Hi]. split; [cbn [length]; by rewrite Hl |].
  intros [|i] x Hlt Hx; [by rewrite <- (Hhead x Hx) |].
  apply (Hi i x); [lia |]. by replace (v + 1 + Z.of_nat i) with (v + Z.of_nat (S i)) by lia.
Qed.

(** The rotation of [l] that starts at index [v mod n]. *)
Lemma rr_rotation v i : 0 <= v → (i < length l)%nat →
  (drop (Z.to_nat (v mod n)) l ++ take (Z.to_nat (v mod n)) l)%list !! i = l !! Z.to_nat ((v + Z.of_nat i) mod n).
Proof using.
  intros Hv Hi. pose proof (Z.mod_pos_bound v n ltac:(lia)) as Hr.
  rewrite <- Zplus_mod_idemp_l. set (r := v mod n) in *.
  destruct (Z_lt_le_dec (r + Z.of_nat i) n) as [Hlt | Hge].
  - rewrite lookup_app_l by (rewrite length_drop; lia). rewrite lookup_drop, Z.mod_small by lia.
    f_equal. lia.
  - rewrite lookup_app_r by (rewrite length_drop; lia). rewrite length_drop, lookup_take_lt by lia.
    rewrite <- (Z.mod_unique (r + Z.of_nat i) n 1 (r + Z.of_nat i - n)) by lia. f_equal. lia.
Qed.
End RoundRobin.

(** Round robin is fair: as many selections as there are candidates give
    every candidate exactly once, whatever the counter, as long as it does not
    wrap on the way. *)
Theorem round_robin_rotation {P} `{BaseProvider P} sha256Hex locale_le `{!RelDecision locale_le}
    (l : list P) c :
  let v := c !! candidateSetKey sha256Hex locale_le l ?? 0 in
  l ≠ [] → 0 <= v → v + Z.of_nat (length l) <= MAX_SAFE_INTEGER →
  ∃ picks, (rr_selects sha256Hex locale_le l (length l) c).2 = map Ok picks ∧ picks ≡ₚ l.
Proof.
  intros v Hl Hv Hm. exists (drop (Z.to_nat (v mod Z.of_nat (length l))) l ++ take (Z.to_nat (v mod Z.of_nat (length l))) l)%list.
  split; [| rewrite Permutation_app_comm; by rewrite take_drop].
  destruct (rr_runs sha256Hex locale_le l Hl (length l) c v eq_refl Hv Hm) as [Hlen Hi].
  apply list_eq_same_length with (length l); [ | done | ].
  - rewrite length_map, length_app, length_drop, length_take.
    pose proof (Z.mod_pos_bound v (Z.of_nat (length l)) ltac:(destruct l; [done | simpl; lia])). lia.
  - intros i x y Hlt Hx Hy. change (map Ok) with (fmap (M := list) (Ok (E := lb_error) (A := P))) in Hy.
    rewrite list_lookup_fmap, rr_rotation in Hy by done.
    destruct (l !! _) as [z|] eqn:E; [|done]. rewrite (Hi i z Hlt E) in Hx. simpl in Hy. congruence.
Qed.

(** The sample providers of the witnesses: an identifier and a weight. *)
#[export] Instance sample_provider : BaseProvider (string * Z) := { id := fst; weight := snd }.

Definition sample_hash (s : string) : string := s.
Definition string_le (a b : string) : Prop := String.leb a b = true.
#[export] Instance string_le_dec : RelDecision string_le.
Proof. intros a b. unfold string_le. apply _. Defined.

Lemma random_zero : random_ok (λ _, 0).
Proof. intros m Hm. lia. Qed.

Lemma select_total_witness :
  ∃ p, (select sample_hash string_le (λ _, 0) "gw" LEAST_CONNECTIONS Lost
          [("a"%string, 1); ("b"%string, 2)] 5 ∅ ∅).2 = Ok p ∧ p ∈ [("a"%string, 1); ("b"%string, 2)].
Proof.
  refine (proj1 (select_total sample_hash string_le (λ _, 0) "gw" LEAST_CONNECTIONS Lost
           [("a"%string, 1); ("b"%string, 2)] 5 ∅ ∅ random_zero _)). by intros k v E%lookup_empty_Some.
Defined.

Lemma round_robin_rotation_witness :
  ∃ picks, (rr_selects sample_hash string_le [("a"%string, 1); ("b"%string, 2); ("c"%string, 1)] 3 (<["a,b,c"%string := 7]> ∅)).2
             = map Ok picks ∧ picks ≡ₚ [("a"%string, 1); ("b"%string, 2); ("c"%string, 1)].
Proof.
  apply (round_robin_rotation sample_hash string_le [("a"%string, 1); ("b"%string, 2); ("c"%string, 1)]
           (<["a,b,c"%string := 7]> ∅)); [done | vm_compute; by intros | vm_compute; by intros].
Defined.

(** The rotation does not survive the wrap of the counter: [MAX_SAFE_INTEGER]
    is no multiple of the number of candidates in general, so with two
    candidates the same one is chosen twice in a row when the counter wraps. *)
Theorem round_robin_wrap_repeats :
  (rr_selects sample_hash string_le [("a"%string, 1); ("b"%string, 1)] 2
     (<["a,b"%string := MAX_SAFE_INTEGER - 1]> ∅)).2 = [Ok ("a"%string, 1); Ok ("a"%string, 1)].
Proof. vm_compute. done. Qed.

(** *** Weighted round robin: exact shares *)

Section WrrSelects.
Context {P : Type} `{BaseProvider P}.
Variable sha256Hex : string → string.
Variable locale_le : string → string → Prop.
Context `{!RelDecision locale_le}.
Variable rnd : Z → Z.
Variable prefix : string.
Variable l : list P.

Abbreviation wrr_key := (redisKeys.lbWrrCurrent prefix (candidateSetKey sha256Hex locale_le l)).

Fixpoint wrr_selects (ts : list Z) (s : db) : db * list (result lb_error P) :=
  match ts with
  | [] => (s, [])
  | t :: ts' =>
      let r := wrr_select sha256Hex locale_le rnd prefix Up l t s in
      let rs := wrr_selects ts' r.1 in
      (rs.1, r.2 :: rs.2)
  end.

Lemma wrr_args_ids : map fst (wrr_args l) = map id l.
Proof using. unfold wrr_args. rewrite map_map. done. Qed.

Lemma wrr_args_total : sum_by snd (wrr_args l) = sum_by wrr_weight l.
Proof using.
  unfold wrr_args. induction l as [|p k IH]; [done |].
  change (map (λ c, (id c, wrr_weight c)) (p :: k)) with ((id p, wrr_weight p) :: map (λ c, (id c, wrr_weight c)) k).
  rewrite !sum_by_cons, IH. done.
Qed.

Lemma wrr_selects_run ts : ∀ s picks, l ≠ [] →
  (wrr_runs wrr_key (wrr_args l) ts s).2 = map (λ i, Ok (Some i)) picks →
  (∀ i, i ∈ picks → i ∈ map id l) →
  (wrr_selects ts s).1 = (wrr_runs wrr_key (wrr_args l) ts s).1 ∧
  ∃ ps : list P, (wrr_selects ts s).2 = map Ok ps ∧ map id ps = picks.
Proof using.
  induction ts as [|t ts IH]; intros s picks Hl E Hin.
  { destruct picks; [|done]. split; [done |]. by exists []. }
  destruct picks as [|i picks]; [done |]. cbn [wrr_runs snd map] in E. injection E as E1 E2.
  assert (Hs : wrr_select sha256Hex locale_le rnd prefix Up l t s =
    ((run (SMOOTH_WRR_LUA wrr_key WRR_STATE_TTL_MS (wrr_args l)) t s).1,
     match find_id i l with Some p => Ok p | None => weightedRandom rnd l end)).
  { unfold wrr_select. rewrite bool_decide_eq_false_2 by done. cbn [client].
    destruct (run _ t s) as [s' r]. simpl in E1. by rewrite E1. }
  destruct (find_id_some i l (Hin i ltac:(by left))) as (p & Ep & Hp & Hid). rewrite Ep in Hs.
  destruct (IH _ picks Hl E2 (λ j Hj, Hin j (list_elem_of_further _ _ _ Hj))) as (I1 & ps & I2 & I3).
  cbn [wrr_selects wrr_runs]. rewrite Hs. cbn [fst snd]. split; [done |].
  exists (p :: ps). cbn [map]. rewrite I2, Hid, I3. done.
Qed.
End WrrSelects.

(** C29: Smooth weighted round robin gives exact shares. Selecting from one
    candidate set with positive total weight T, in any number of steps no
    further apart than the state's lifetime, a candidate of weight w is never
    ahead of its share by a full turn (T * count < steps * w + T; weight 0 is
    never chosen), and after T selections every candidate was chosen exactly w
    times and all current weights are back at zero. *)
Theorem smooth_wrr_exact {P} `{BaseProvider P} sha256Hex locale_le `{!RelDecision locale_le}
    rnd prefix (l : list P) ts t0 s :
  let T := sum_by wrr_weight l in
  let key := redisKeys.lbWrrCurrent prefix (candidateSetKey sha256Hex locale_le l) in
  NoDup (map id l) → 0 < T → paced WRR_STATE_TTL_MS t0 ts → s !! key = None →
  let r := wrr_selects sha256Hex locale_le rnd prefix l ts s in
  ∃ picks, r.2 = map Ok picks ∧ length picks = length ts ∧
    (∀ p, p ∈ l → T * occ (id p) (map id picks) < Z.of_nat (length ts) * wrr_weight p + T) ∧
    (Z.of_nat (length ts) = T →
       (∀ p, p ∈ l → occ (id p) (map id picks) = wrr_weight p) ∧
       ∃ h dl, r.1 !! key = Some (Entry (VHash h) dl) ∧ ∀ p, p ∈ l → cw h (id p) = 0).
Proof.
  intros T key Hn HT Hp Hs. rewrite <- (wrr_args_ids l) in Hn.
  assert (HT' : 0 < sum_by snd (wrr_args l)) by (by rewrite wrr_args_total).
  assert (Hw : ∀ x, x ∈ wrr_args l → 0 <= x.2).
  { intros x (p & -> & _)%list_elem_of_fmap. simpl. unfold wrr_weight. lia. }
  destruct (wrr_runs_inv key (wrr_args l) Hn Hw HT' ts s ∅ t0 []) as (ids & h & E & Hlen & Hin & [Hi Hs0] & _ & Hk).
  { intros t _. exists None. split; [|done]. unfold read_hash, look. by rewrite Hs. }
  { by apply wrr_inv_start. }
  { done. }
  rewrite app_nil_r in Hi. rewrite wrr_args_ids in Hin.
  assert (Hl : l ≠ []) by (intros ->; change T with 0 in HT; lia).
  destruct (wrr_selects_run sha256Hex locale_le rnd prefix l ts s ids Hl E Hin) as (Hdb & picks & Er & Eids).
  assert (Hocc : ∀ i, occ i (rev ids) = occ i ids).
  { intros i. apply occ_perm. symmetry. apply Permutation_rev. }
  assert (Hmem : ∀ p, p ∈ l → (id p, wrr_weight p) ∈ wrr_args l).
  { intros p Hpl. unfold wrr_args. apply list_elem_of_fmap. by exists p. }
  exists picks. split; [exact Er |]. rewrite Eids. split; [rewrite <- Hlen, <- Eids; by rewrite length_map |]. split.
  - intros p Hpl. destruct (Hi _ (Hmem p Hpl)) as [H1 H2]. simpl in H1, H2.
    rewrite length_rev, Hlen, Hocc, wrr_args_total in H1. rewrite wrr_args_total in H2. unfold T. lia.
  - intros HlenT.
    assert (Hround : ∀ x, x ∈ wrr_args l → occ x.1 (rev ids) = x.2 ∧ cw h x.1 = 0).
    { eapply wrr_round; [exact HT' | split; [exact Hi | exact Hs0] |].
      rewrite length_rev, Hlen, wrr_args_total. exact HlenT. }
    split.
    + intros p Hpl. destruct (Hround _ (Hmem p Hpl)) as [H1 _]. by rewrite Hocc in H1.
    + destruct Hk as [dl Hk]; [by intros ->; simpl in HlenT; lia |].
      exists h, dl. rewrite Hdb. split; [done |]. intros p Hpl. by destruct (Hround _ (Hmem p Hpl)).
Qed.

Definition sample_providers : list (string * Z) := [("A"%string, 5); ("B"%string, 1); ("C"%string, 1)].

Lemma smooth_wrr_exact_witness :
  ∃ picks, (wrr_selects sample_hash string_le (λ _, 0) "gw" sample_providers [1; 2; 3; 4; 5; 6; 7] ∅).2
             = map Ok picks ∧
    ∀ p, p ∈ sample_providers → occ (id p) (map id picks) = wrr_weight p.
Proof.
  destruct (smooth_wrr_exact sample_hash string_le (λ _, 0) "gw" sample_providers [1; 2; 3; 4; 5; 6; 7] 0 ∅)
    as (picks & E & _ & _ & H);
    [refine (bool_decide_unpack _ _); vm_compute; exact I | done | repeat split; by vm_compute | done |].
  exists picks. split; [exact E | by apply H].
Defined.

(** *** Least connections: the gauge counts the requests in flight *)

Section LeastConnections.
Context {P : Type} `{BaseProvider P}.
Variable rnd : Z → Z.
Variable prefix : string.

Abbreviation ckey := (redisKeys.lbConnections prefix).

Lemma ckey_inj i j : ckey i = ckey j → i = j.
Proof using. unfold redisKeys.lbConnections. intros E. apply (inj _) in E. by apply (inj _) in E. Qed.

(** The gauge of a provider as a client reads it at time [t]. *)
Definition gauge (t : Z) (s : db) (i : string) : option Z := fst <$> read_int t s (ckey i).

(** The gauges are [g], and stay visible until [t1]. *)
Definition gauges (t1 : Z) (g : string → Z) (s : db) : Prop :=
  ∀ i, 0 <= g i ∧
    ((s !! ckey i = None ∧ g i = 0) ∨
     ∃ d, s !! ckey i = Some (Entry (VStr (SInt (g i))) (Some d)) ∧ t1 <= d).

Definition bump (g : string → Z) (i : string) (d : Z) : string → Z :=
  λ j, if decide (j = i) then g j + d else g j.

Section At.
Variables (t0 t1 t : Z) (g : string → Z) (s : db).
Hypothesis Ht : t0 <= t <= t1.
Hypothesis Hspan : t1 <= t0 + CONNECTION_TTL_MS.
Hypothesis Hg : gauges t1 g s.

Lemma gauges_read i : ∃ dl, read_int t s (ckey i) = Some (g i, dl) ∧
  ∀ d, dl = Some d → t1 <= d.
Proof using Hg Ht.
  unfold read_int, look. destruct (Hg i) as [_ [[-> ->] | (d & -> & Hd)]]; [by exists None |].
  exists (Some d). unfold live. simpl. rewrite (proj2 (Z.leb_le _ _)) by lia. split; [done |]. by intros ? [= <-].
Qed.

Lemma run_get_gauge {A} i (f : Z → prog A) :
  run (let* r := redis_call (GET (ckey i)) in let* v := tonumber_or_0 r in f v) t s = run (f (g i)) t s.
Proof using Hg Ht.
  rewrite run_bind, run_redis_call. simpl. unfold look_val, look.
  destruct (Hg i) as [_ [[-> ->] | (d & -> & Hd)]]; [done |].
  unfold live. simpl. by rewrite (proj2 (Z.leb_le _ _)) by lia.
Qed.

Definition min_from (l : list P) (i : nat) (best : option (Z * nat)) : option (Z * nat) :=
  foldl (λ b x, match b with
                | None => Some (g (id x.1), x.2)
                | Some (m, _) => if g (id x.1) <? m then Some (g (id x.1), x.2) else b
                end) best (zip l (seq i (length l))).

Lemma run_min_loop (l : list P) : ∀ i best,
  run (min_loop (map (conn_key prefix) l) i best) t s = (s, Ok (min_from l i best)).
Proof using Hg Ht.
  induction l as [|p l IH]; intros i best; [done |].
  cbn [map min_loop]. unfold conn_key at 1. rewrite run_get_gauge. rewrite IH. done.
Qed.

Lemma min_from_spec (l : list P) : ∀ i b,
  ∃ m n, min_from l i (Some b) = Some (m, n) ∧ m <= b.1 ∧
    ((m, n) = b ∨ ∃ k p, n = (i + k)%nat ∧ l !! k = Some p ∧ m = g (id p)) ∧
    ∀ p, p ∈ l → m <= g (id p).
Proof using.
  induction l as [|q l IH]; intros i [m0 n0].
  { exists m0, n0. split_and!; [done | simpl; lia | by left | by intros ? ?%elem_of_nil]. }
  unfold min_from. cbn [length seq zip zip_with foldl fst snd].
  destruct (g (id q) <? m0) eqn:E; bool_props.
  - destruct (IH (S i) (g (id q), i)) as (m & n & Em & Hle & Hor & Hall). exists m, n.
    simpl in Hle. split; [exact Em |]. split_and!; [simpl; lia | |].
    + right. destruct Hor as [[= -> ->] | (k & p & -> & Hk & ->)].
      * exists O, q. split_and!; [lia | done | done].
      * exists (S k), p. split_and!; [lia | done | done].
    + intros p [-> | Hp]%elem_of_cons; [lia | by apply Hall].
  - destruct (IH (S i) (m0, n0)) as (m & n & Em & Hle & Hor & Hall). exists m, n.
    simpl in Hle. split; [exact Em |]. split_and!; [simpl; lia | |].
    + destruct Hor as [Hor | (k & p & -> & Hk & ->)]; [by left | right].
      exists (S k), p. split_and!; [lia | done | done].
    + intros p [-> | Hp]%elem_of_cons; [lia | by apply Hall].
Qed.

Lemma gauges_bump i d dl z : 0 <= g i + d → t1 <= z →
  gauges t1 (bump g i d) (<[ckey i := Entry (VStr (SInt (g i + d))) (Some z)]> (match dl with None => s | Some e => <[ckey i := e]> s end)).
Proof using Hg.
  intros Hnn Hz j. unfold bump. case_decide as Hd.
  - subst j. split; [done |]. right. exists z. by rewrite lookup_insert_eq.
  - assert (ckey i ≠ ckey j) by (intros E; by apply ckey_inj in E).
    destruct (Hg j) as [Hn Hor]. split; [done |]. destruct dl; by rewrite !lookup_insert_ne by done.
Qed.

(** A selection takes a slot of a candidate with the least gauge. *)
Lemma lc_select_least (l : list P) : l ≠ [] →
  ∃ s' p, lc_select rnd prefix Up l t s = (s', Ok p) ∧ p ∈ l ∧
    (∀ q, q ∈ l → g (id p) <= g (id q)) ∧ gauges t1 (bump g (id p) 1) s'.
Proof using Hg Ht Hspan.
  intros Hl. unfold lc_select. rewrite bool_decide_eq_false_2 by done. cbn [client].
  unfold SELECT_AND_ACQUIRE_LUA. rewrite run_bind, run_min_loop.
  destruct l as [|p0 l]; [done |].
  destruct (min_from_spec l 1 (g (id p0), O)) as (m & n & Em & Hle & Hor & Hall).
  change (min_from (p0 :: l) 0 None) with (min_from l 1 (Some (g (id p0), O))). rewrite Em.
  assert (Hp : ∃ p, (p0 :: l) !! n = Some p ∧ m = g (id p)).
  { destruct Hor as [[= -> ->] | (k & p & -> & Hk & ->)]; [by exists p0 | by exists p]. }
  destruct Hp as (p & Hp & ->). cbv beta iota.
  assert (Hmap : ∀ {B} (f : P → B), map f (p0 :: l) !! n = Some (f p)).
  { intros B f. change (map f) with (fmap (M := list) f). by rewrite list_lookup_fmap, Hp. }
  rewrite Hmap, (Hmap _ id). rewrite run_bind, run_redis_call. cbn [exec]. unfold incr_by.
  destruct (gauges_read (id p)) as (dl & Er & Hdl). unfold conn_key. rewrite Er.
  cbv beta iota. rewrite run_bind, run_redis_call. cbn [exec]. rewrite look_insert_eq.
  set (e := Entry _ dl). assert (Hlive : live t e = true).
  { unfold live. simpl. destruct dl as [d|]; [|done]. apply Z.leb_le. pose proof (Hdl d eq_refl). lia. }
  rewrite Hlive. cbv beta iota. cbn [e_val e].
  assert (Hin : p ∈ p0 :: l) by (by eapply list_elem_of_lookup_2).
  destruct (find_id_some (id p) (p0 :: l)) as (q & Eq & Hq & Hqid).
  { apply list_elem_of_fmap. by exists p. }
  eexists _, q. rewrite run_done. cbv beta iota. rewrite Eq. split; [done |]. split; [done |]. rewrite Hqid. split.
  - intros r [-> | Hr]%elem_of_cons; [simpl in Hle; lia | by apply Hall].
  - apply (gauges_bump (id p) 1 (Some e)); [pose proof (Hg (id p)); lia | lia].
Qed.

(** A release gives a taken slot back. *)
Lemma lc_release_gauge i : 0 < g i → gauges t1 (bump g i (-1)) (lc_release prefix Up i t s).
Proof using Hg Ht.
  intros Hpos. unfold lc_release, client, RELEASE_LUA. rewrite run_get_gauge.
  rewrite (proj2 (Z.ltb_lt _ _)) by done. rewrite run_bind, run_redis_call. cbn [exec]. unfold incr_by.
  destruct (gauges_read i) as (dl & Er & Hdl). rewrite Er. simpl.
  destruct (Hg i) as [_ [[_ Hz] | (d & Hk & Hd)]]; [lia |].
  assert (dl = Some d) as ->.
  { unfold read_int, look in Er. rewrite Hk in Er. unfold live in Er. simpl in Er.
    rewrite (proj2 (Z.leb_le _ _)) in Er by lia. by injection Er. }
  apply (gauges_bump i (-1) None); lia.
Qed.
End At.

(** A history: selections from candidate sets, and releases. *)
Inductive conn_event := Selected (t : Z) (l : list P) | Released (t : Z) (providerId : string).

Definition event_time (e : conn_event) : Z := match e with Selected t _ | Released t _ => t end.

(** Run a history, keeping count of the requests in flight. *)
Fixpoint conn_run (l : list conn_event) (s : db) (inflight : string → Z) : db * (string → Z) :=
  match l with
  | [] => (s, inflight)
  | Selected t c :: l' =>
      let r := lc_select rnd prefix Up c t s in
      conn_run l' r.1 (match r.2 with Ok p => bump inflight (id p) 1 | Err _ => inflight end)
  | Released t i :: l' => conn_run l' (lc_release prefix Up i t s) (bump inflight i (-1))
  end.

(** Every release follows a selection of its provider. *)
Fixpoint balanced (l : list conn_event) (s : db) (inflight : string → Z) : Prop :=
  match l with
  | [] => True
  | Selected t c :: l' =>
      let r := lc_select rnd prefix Up c t s in
      c ≠ [] ∧ balanced l' r.1 (match r.2 with Ok p => bump inflight (id p) 1 | Err _ => inflight end)
  | Released t i :: l' =>
      0 < inflight i ∧ balanced l' (lc_release prefix Up i t s) (bump inflight i (-1))
  end.

Lemma conn_run_gauges t0 t1 l : t1 <= t0 + CONNECTION_TTL_MS → ∀ s g,
  gauges t1 g s → Forall (λ e, t0 <= event_time e <= t1) l → balanced l s g →
  gauges t1 (conn_run l s g).2 (conn_run l s g).1.
Proof using.
  intros Hspan. induction l as [|[t c | t i] l IH]; intros s g Hg Ht Hb; [done | |];
    apply Forall_cons in Ht as [Ht1 Ht]; destruct Hb as [Hc Hb]; cbn [conn_run].
  - destruct (lc_select_least t0 t1 t g s Ht1 Hspan Hg c Hc) as (s' & p & E & _ & _ & Hg').
    rewrite E in Hb |- *. cbn [fst snd] in Hb |- *. by apply IH.
  - apply IH; [| done | done]. by eapply lc_release_gauge.
Qed.
End LeastConnections.

(** Least connections counts the requests in flight. Over any history of
    selections and matching releases within the counters' lifetime (ten
    minutes), on a keyspace without connection counters, every provider's gauge
    is the number of its requests in flight at the end. *)
Theorem gauge_counts_inflight {P} `{BaseProvider P} rnd prefix t0 t1 (l : list conn_event) s :
  t0 <= t1 <= t0 + CONNECTION_TTL_MS → (∀ i, s !! redisKeys.lbConnections prefix i = None) →
  Forall (λ e, t0 <= event_time e <= t1) l → balanced rnd prefix l s (λ _, 0) →
  let r := conn_run rnd prefix l s (λ _, 0) in
  ∀ i, gauge prefix t1 r.1 i = Some (r.2 i).
Proof.
  intros Ht Hs Hl Hb r i.
  assert (Hg : gauges prefix t1 r.2 r.1).
  { apply (conn_run_gauges rnd prefix t0 t1 l ltac:(lia)); [|done | done].
    intros j. split; [done |]. left. by split. }
  destruct (gauges_read prefix t1 t1 t1 r.2 r.1 ltac:(lia) Hg i) as (dl & E & _).
  unfold gauge. by rewrite E.
Qed.

(** A selection goes to a candidate with the fewest requests in flight. *)
Theorem least_connections_picks_least {P} `{BaseProvider P} rnd prefix t1 t g s (l : list P) :
  t <= t1 <= t + CONNECTION_TTL_MS → gauges prefix t1 g s → l ≠ [] →
  ∃ s' p, lc_select rnd prefix Up l t s = (s', Ok p) ∧ p ∈ l ∧ ∀ q, q ∈ l → g (id p) <= g (id q).
Proof.
  intros Ht Hg Hl.
  destruct (lc_select_least rnd prefix t t1 t g s ltac:(lia) ltac:(lia) Hg l Hl) as (s' & p & E & Hp & Hm & _).
  by exists s', p.
Qed.

Definition sample_events : list conn_event :=
  [Selected 10 sample_providers; Selected 20 sample_providers; Released 30 "A"; Selected 40 sample_providers].

Lemma gauge_counts_inflight_witness :
  gauge "gw" 100 (conn_run (λ _, 0) "gw" sample_events ∅ (λ _, 0)).1 "B" =
    Some ((conn_run (λ _, 0) "gw" sample_events ∅ (λ _, 0)).2 "B"%string).
Proof.
  apply (gauge_counts_inflight (λ _, 0) "gw" 0 100 sample_events ∅).
  - unfold CONNECTION_TTL_MS. lia.
  - intros i. apply lookup_empty.
  - repeat constructor; simpl; lia.
  - split; [done |]. split; [done |]. split; [by vm_compute |]. by split.
Defined.

Lemma least_connections_picks_least_witness :
  ∃ s' p, lc_select (λ _, 0) "gw" Up sample_providers 10 ∅ = (s', Ok p) ∧ p ∈ sample_providers ∧
    ∀ q, q ∈ sample_providers → (λ _ : string, 0) (id p) <= (λ _ : string, 0) (id q).
Proof.
  apply (least_connections_picks_least (λ _, 0) "gw" 100 10 (λ _, 0) ∅ sample_providers).
  - unfold CONNECTION_TTL_MS. lia.
  - intros i. split; [done | by left].
  - done.
Defined.

(** *** Latency-based selection *)

Section Latency.
Context {P : Type} `{BaseProvider P}.
Variable prefix : string.

(** What MGET returns for a provider's average. *)
Definition ema_of (t : Z) (s : db) (p : P) : option scalar := get_scalar t s (ema_key prefix p).

Definition score_of (t : Z) (s : db) (p : P) : Q := score p (ema_of t s p).

Lemma best_score_max t s (l : list P) : ∀ b,
  let r := best_score l (map (ema_of t s) l) b (Some (score_of t s b)) in
  (score_of t s b <= score_of t s r)%Q ∧ ∀ p, p ∈ l → (score_of t s p <= score_of t s r)%Q.
Proof using.
  induction l as [|q l IH]; intros b; cbn [best_score map head tail coalesce].
  { split; [apply Qle_refl | by intros ? ?%elem_of_nil]. }
  fold (score_of t s q). destruct (Qle_bool (score_of t s q) (score_of t s b)) eqn:E; cbn [negb].
  - destruct (IH b) as [H1 H2]. apply Qle_bool_iff in E. split; [done |].
    intros p [-> | Hp]%elem_of_cons; [by eapply Qle_trans | by apply H2].
  - destruct (IH q) as [H1 H2].
    assert (score_of t s b <= score_of t s q)%Q.
    { apply Qlt_le_weak, Qnot_le_lt. intros Hle. apply Qle_bool_iff in Hle. congruence. }
    split; [by eapply Qle_trans |]. intros p [-> | Hp]%elem_of_cons; [done | by apply H2].
Qed.
End Latency.

(** Latency-based selection maximises the score: with Redis reachable,
    whatever the keyspace holds, the chosen candidate's weight over its guarded
    latency average is at least every candidate's. *)
Theorem latency_picks_best {P} `{BaseProvider P} rnd prefix t s (l : list P) :
  l ≠ [] →
  ∃ p, latency_select rnd prefix Up l t s = (s, Ok p) ∧ p ∈ l ∧
       ∀ q, q ∈ l → (score_of prefix t s q <= score_of prefix t s p)%Q.
Proof.
  intros Hl. destruct l as [|a l]; [done |].
  assert (E : latency_select rnd prefix Up (a :: l) t s =
    (s, Ok (best_score (a :: l) (map (ema_of prefix t s) (a :: l)) a None))).
  { unfold latency_select, client, mget. rewrite run_bind, run_redis_call. cbn [exec].
    cbv beta iota. rewrite run_done, map_map. done. }
  eexists; split; [exact E |]. cbn [best_score map head tail coalesce]. fold (score_of prefix t s a).
  destruct (best_score_max prefix t s l a) as [H1 H2].
  pose proof (best_score_in l (map (ema_of prefix t s) l) a (Some (score_of prefix t s a))) as Hin.
  split; [exact Hin |]. intros q [-> | Hq]%elem_of_cons; [done | by apply H2].
Qed.

(** The latency average moves from its old value q towards the sample x
    by the smoothing factor: the new value differs from x by (1 - alpha) times
    the old difference, hence lies between the two; without history it is the
    sample, and it is stored with a fresh lifetime of ten minutes. *)
Theorem ema_moves_towards_sample prefix alpha pid x t s :
  (0 <= alpha <= 1)%Q →
  let k := redisKeys.lbLatencyEma prefix pid in
  let s' := updateEma prefix alpha Up pid x t s in
  match get_scalar t s k with
  | Some v => ∀ q, to_q v = Some q →
      ∃ e, s' !! k = Some (Entry (VStr (SNum e)) (Some (t + EMA_TTL_MS))) ∧
           (e - x == (1 - alpha) * (q - x))%Q ∧ (Qmin q x <= e <= Qmax q x)%Q
  | None => look t s k = None → s' !! k = Some (Entry (VStr (SNum x)) (Some (t + EMA_TTL_MS)))
  end.
Proof.
  intros Ha k s'. unfold get_scalar, look_val.
  assert (Hrun : ∀ prev, exec (GET k) t s = (s, prev) →
    match prev with RNil => Some x | RBulk v => (λ p, alpha * x + (1 - alpha) * p)%Q <$> to_q v | _ => None end
      = Some (match prev with RNil => x | RBulk v => (alpha * x + (1 - alpha) * (to_q v ?? 0))%Q | _ => 0%Q end) →
    s' = <[k := Entry (VStr (SNum (match prev with RNil => x | RBulk v => (alpha * x + (1 - alpha) * (to_q v ?? 0))%Q
                                   | _ => 0%Q end))) (Some (t + EMA_TTL_MS))]> s).
  { intros prev E Hp. unfold s', updateEma, client, EMA_UPDATE_LUA. fold k.
    rewrite run_bind, run_redis_call, E. destruct prev as [|v| | | | | |]; try done; rewrite run_bind.
    destruct (to_q v) as [p|] eqn:Ep; [|done]. rewrite run_done, run_bind, run_redis_call. done. }
  destruct (look t s k) as [[[v| |] d]|] eqn:El; cbn [fmap option_fmap option_map e_val]; try done.
  - intros q Eq. rewrite (Hrun (RBulk v)); [| simpl; unfold look_val; by rewrite El | by rewrite Eq].
    rewrite Eq. cbn [coalesce]. eexists. split; [by rewrite lookup_insert_eq |]. split; [ring |].
    destruct (Qlt_le_dec q x) as [Hlt | Hle].
    + rewrite Q.min_l, Q.max_r by (by apply Qlt_le_weak). split; nra.
    + rewrite Q.min_r, Q.max_l by done. split; nra.
  - intros _. rewrite (Hrun RNil); [by rewrite lookup_insert_eq | simpl; unfold look_val; by rewrite El | done].
Qed.

Lemma latency_picks_best_witness :
  ∃ p, latency_select (λ _, 0) "gw" Up sample_providers 10 ∅ = (∅, Ok p) ∧ p ∈ sample_providers ∧
    ∀ q, q ∈ sample_providers → (score_of "gw" 10 ∅ q <= score_of "gw" 10 ∅ p)%Q.
Proof. apply (latency_picks_best (λ _, 0) "gw" 10 ∅ sample_providers). done. Defined.

Lemma ema_moves_towards_sample_witness :
  ∃ e, updateEma "gw" (3 # 10) Up "a" 30000 5 (<["gwlb:lat:a"%string := Entry (VStr (SInt 100)) None]> ∅)
         !! "gwlb:lat:a"%string = Some (Entry (VStr (SNum e)) (Some 600005)) ∧
       (e - 30000 == (1 - (3 # 10)) * (inject_Z 100 - 30000))%Q ∧ (Qmin (inject_Z 100) 30000 <= e <= Qmax (inject_Z 100) 30000)%Q.
Proof.
  assert (Ha : (0 <= 3 # 10 <= 1)%Q) by (by split).
  exact (ema_moves_towards_sample "gw" (3 # 10) "a" 30000 5
           (<["gwlb:lat:a"%string := Entry (VStr (SInt 100)) None]> ∅) Ha (inject_Z 100) eq_refl).
Defined.

(** The fingerprint that keys the rotation state depends on the set of
    candidates only, not on the order they are listed in. *)
Lemma candidate_set_key_order {P} `{BaseProvider P} sha256Hex locale_le
    `{!RelDecision locale_le, !Total locale_le, !Transitive locale_le, !AntiSymm (=) locale_le} (l l' : list P) :
  l ≡ₚ l' → candidateSetKey sha256Hex locale_le l = candidateSetKey sha256Hex locale_le l'.
Proof.
  intros Hp. unfold candidateSetKey. do 3 f_equal.
  apply (StronglySorted_unique locale_le); try apply (StronglySorted_merge_sort locale_le).
  rewrite !merge_sort_Permutation. by apply fmap_Permutation.
Qed.
