(* ===== verification/Json.v ===== *)
(** * JSON values

    JavaScript values as the code passes them around after [JSON.parse]: objects
    are ordered lists of fields, numbers are exact rationals (an idealisation of
    doubles), [undefined] is the absence of a value ([None]).  Property access,
    spread, deletion, [JSON.stringify] and string conversion. *)

From Stdlib Require Import ZArith Lia QArith String Ascii.
From stdpp Require Import base strings list.
From S2P Require Import Prelude Numerals.
Open Scope Z_scope.

Inductive json :=
| JNull
| JBool (b : bool)
| JNum (q : Q)
| JStr (s : string)
| JArr (l : list json)
| JObj (o : list (string * json)).

Abbreviation fields := (list (string * json)).

(** ** Objects *)

(** [o[k]]: the field's value, or undefined. *)
Fixpoint field (k : string) (o : fields) : option json :=
  match o with
  | [] => None
  | (k', v) :: o' => if String.eqb k k' then Some v else field k o'
  end.

(** [o[k] = v]: in place when the field exists, else appended. *)
Fixpoint set_field (k : string) (v : json) (o : fields) : fields :=
  match o with
  | [] => [(k, v)]
  | (k', v') :: o' => if String.eqb k k' then (k', v) :: o' else (k', v') :: set_field k v o'
  end.

(** [delete o[k]]. *)
Definition del_field (k : string) (o : fields) : fields :=
  List.filter (λ x, negb (String.eqb k x.1)) o.

(** [{ ...a, ...b }]. *)
Definition spread (a b : fields) : fields := foldl (λ o x, set_field x.1 x.2 o) a b.

(** An optional field: [...(v !== undefined ? { k: v } : {})]. *)
Definition opt_field (k : string) (v : option json) : fields :=
  match v with Some v => [(k, v)] | None => [] end.

Definition prop (k : string) (v : json) : option json :=
  match v with JObj o => field k o | _ => None end.

Definition as_string (v : option json) : option string :=
  match v with Some (JStr s) => Some s | _ => None end.
Definition as_num (v : option json) : option Q :=
  match v with Some (JNum q) => Some q | _ => None end.
Definition as_arr (v : option json) : option (list json) :=
  match v with Some (JArr l) => Some l | _ => None end.
Definition as_obj (v : option json) : option fields :=
  match v with Some (JObj o) => Some o | _ => None end.

(** [v ?? null] when a nullable value is written out. *)
Definition nullable (s : option string) : json := match s with Some s => JStr s | None => JNull end.

Definition jint (z : Z) : json := JNum (inject_Z z).

(** ** Strings *)

Definition quote : string := String "034"%char "".

(** The number of decimal places of a fraction with denominator [d], at most [fuel]. *)
Fixpoint places (fuel : nat) (k : Z) (d : Z) : Z :=
  match fuel with
  | O => k
  | S fuel' => if (10 ^ k) mod d =? 0 then k else places fuel' (k + 1) d
  end.

Fixpoint zeros (n : nat) : string := match n with O => "" | S n' => String "0" (zeros n') end.
Definition pad_left (n : nat) (s : string) : string := (zeros (n - String.length s) ++ s)%string.

(** [String(q)] for a number in fixed decimal notation. *)
Definition js_num (q : Q) : string :=
  let q := Qred q in
  let d := Zpos (Qden q) in
  if d =? 1 then dec (Qnum q)
  else
    let k := places 30 0 d in
    let m := Z.abs (Qnum q) * 10 ^ k / d in
    let sign := if Qnum q <? 0 then "-"%string else ""%string in
    (sign ++ dec (m / 10 ^ k) ++ "." ++
     pad_left (Z.to_nat k) (dec (m mod 10 ^ k)))%string.

Definition hex_digit (n : nat) : ascii :=
  ascii_of_nat (if (n <? 10)%nat then 48 + n else 87 + n).

(** A character inside a JSON string literal. *)
Definition escape_char (c : ascii) : string :=
  let n := nat_of_ascii c in
  if (n =? 34)%nat then String "\" quote
  else if (n =? 92)%nat then "\\"
  else if (n =? 8)%nat then "\b"
  else if (n =? 9)%nat then "\t"
  else if (n =? 10)%nat then "\n"
  else if (n =? 12)%nat then "\f"
  else if (n =? 13)%nat then "\r"
  else if (n <? 32)%nat then
    ("\u00" ++ String (hex_digit (n / 16)) (String (hex_digit (n mod 16)) ""))%string
  else String c "".

Fixpoint escape (s : string) : string :=
  match s with
  | EmptyString => EmptyString
  | String c s' => (escape_char c ++ escape s')%string
  end.

Definition json_string (s : string) : string := (quote ++ escape s ++ quote)%string.

(** [JSON.stringify]. *)
Fixpoint stringify (v : json) : string :=
  match v with
  | JNull => "null"
  | JBool b => if b then "true" else "false"
  | JNum q => js_num q
  | JStr s => json_string s
  | JArr l => ("[" ++ join "," (map stringify l) ++ "]")%string
  | JObj o =>
      ("{" ++ join "," (map (λ x, (json_string x.1 ++ ":" ++ stringify x.2)%string) o) ++ "}")%string
  end.

(** [String(v)], and the element conversion of [array.join]. *)
Fixpoint js_string (v : json) : string :=
  match v with
  | JNull => "null"
  | JBool b => if b then "true" else "false"
  | JNum q => js_num q
  | JStr s => s
  | JArr l => join "," (map (λ x, match x with JNull => ""%string | _ => js_string x end) l)
  | JObj _ => "[object Object]"
  end.
Definition join_elem (v : json) : string := match v with JNull => ""%string | _ => js_string v end.

(** ** Field lemmas *)

Section Fields.
Implicit Types (o : fields) (k : string).

Lemma field_set_eq k v o : field k (set_field k v o) = Some v.
Proof.
  induction o as [|[k' v'] o IH]; simpl; [by rewrite String.eqb_refl |].
  destruct (String.eqb k k') eqn:E; simpl; by rewrite E.
Qed.

Lemma field_set_ne k k' v o : k ≠ k' → field k' (set_field k v o) = field k' o.
Proof.
  intros Hne. induction o as [|[k2 v2] o IH]; simpl.
  - destruct (String.eqb_spec k' k); [congruence | done].
  - destruct (String.eqb_spec k k2) as [-> |]; simpl.
    + destruct (String.eqb_spec k' k2); [congruence | done].
    + by destruct (String.eqb k' k2).
Qed.

Lemma field_del_eq k o : field k (del_field k o) = None.
Proof.
  induction o as [|[k' v'] o IH]; simpl; [done |].
  destruct (String.eqb k k') eqn:E; simpl; [done | by rewrite E].
Qed.

Lemma field_del_ne k k' o : k ≠ k' → field k' (del_field k o) = field k' o.
Proof.
  intros Hne. induction o as [|[k2 v2] o IH]; simpl; [done |].
  destruct (String.eqb_spec k k2) as [-> |]; simpl.
  - by destruct (String.eqb_spec k' k2); [congruence |].
  - by destruct (String.eqb k' k2).
Qed.

Lemma field_app k o1 o2 : field k (o1 ++ o2)%list = match field k o1 with Some v => Some v | None => field k o2 end.
Proof. induction o1 as [|[k' v'] o1 IH]; simpl; [done |]. by destruct (String.eqb k k'). Qed.
End Fields.
#[export] Hint Rewrite field_set_eq field_del_eq : gateway.

(** ** Induction, and control characters *)

Section JsonInd.
Variable P : json → Prop.
Hypothesis HNull : P JNull.
Hypothesis HBool : ∀ b, P (JBool b).
Hypothesis HNum : ∀ q, P (JNum q).
Hypothesis HStr : ∀ s, P (JStr s).
Hypothesis HArr : ∀ l, (∀ x, x ∈ l → P x) → P (JArr l).
Hypothesis HObj : ∀ o, (∀ x, x ∈ o → P x.2) → P (JObj o).

Lemma json_ind_nested v : P v.
Proof using All.
  revert v. fix IH 1. intros [| b | q | s | l | o]; [done | done | done | done | apply HArr | apply HObj].
  - induction l as [|y l IHl]; intros x Hx; [destruct (proj1 (elem_of_nil x) Hx) |].
    apply elem_of_cons in Hx as [-> | Hx]; [apply IH | by apply IHl].
  - induction o as [|[k w] o IHo]; intros x Hx; [destruct (proj1 (elem_of_nil x) Hx) |].
    apply elem_of_cons in Hx as [-> | Hx]; [apply (IH w) | by apply IHo].
Qed.
End JsonInd.

Section Control.
Variable c : ascii.
Hypothesis control : (Nat.ltb (nat_of_ascii c) 32) = true.

Lemma no_char_app a b : no_char c (a ++ b)%string = no_char c a && no_char c b.
Proof using.
  induction a as [|x a IH]; [done |]. rewrite string_app_cons. cbn [no_char]. by rewrite IH, andb_assoc.
Qed.

Lemma no_char_visible x : (32 <= nat_of_ascii x)%nat → Ascii.eqb x c = false.
Proof using control. intros Hle. apply Ascii.eqb_neq. intros ->. apply Nat.ltb_lt in control. lia. Qed.

Lemma no_char_join sep l : no_char c sep = true → (∀ x, x ∈ l → no_char c x = true) → no_char c (join sep l) = true.
Proof using.
  intros Hs. induction l as [|x l IH]; intros Hl; [done |]. destruct l as [|y l]; [apply Hl; by left |].
  change (join sep (x :: y :: l)) with (x ++ sep ++ join sep (y :: l))%string. rewrite !no_char_app, Hs.
  rewrite (Hl x) by (by left). apply IH. intros z Hz. apply Hl. by right.
Qed.

Lemma no_char_zeros n : no_char c (zeros n) = true.
Proof using control. induction n; [done |]. cbn [zeros no_char]. rewrite no_char_visible by (vm_compute; lia). done. Qed.

Lemma no_char_js_num q : no_char c (js_num q) = true.
Proof using control.
  unfold js_num. cbv zeta. destruct (_ =? 1); [by apply no_control_dec |].
  rewrite !no_char_app. unfold pad_left. rewrite no_char_app, no_char_zeros, !no_control_dec by done.
  cbn [no_char]. rewrite !no_char_visible by (vm_compute; lia).
  destruct (_ <? 0); cbn [no_char]; [by rewrite no_char_visible by (vm_compute; lia) | done].
Qed.

Lemma no_char_escape_char x : no_char c (escape_char x) = true.
Proof using control.
  pose proof control as Hc.
  destruct x as [[] [] [] [] [] [] [] []]; vm_compute escape_char; cbn [no_char];
    rewrite ?no_char_visible by (vm_compute; lia); done.
Qed.

Lemma no_char_json_string s : no_char c (json_string s) = true.
Proof using control.
  unfold json_string. rewrite !no_char_app.
  assert (Hq : no_char c quote = true) by (cbn [quote no_char]; by rewrite no_char_visible by (vm_compute; lia)).
  rewrite Hq, andb_true_r. simpl. induction s as [|x s IH]; [done |]. cbn [escape].
  by rewrite no_char_app, no_char_escape_char, IH.
Qed.

(** [JSON.stringify] escapes every control character. *)
Lemma no_control_stringify v : no_char c (stringify v) = true.
Proof using control.
  induction v as [| b | q | s | l IH | o IH] using json_ind_nested; cbn [stringify].
  - cbn [no_char]. by rewrite !no_char_visible by (vm_compute; lia).
  - destruct b; cbn [no_char]; by rewrite !no_char_visible by (vm_compute; lia).
  - apply no_char_js_num.
  - apply no_char_json_string.
  - rewrite !no_char_app. cbn [no_char]. rewrite !no_char_visible by (vm_compute; lia).
    rewrite no_char_join; [done | cbn [no_char]; by rewrite no_char_visible by (vm_compute; lia) |].
    intros x (y & -> & Hy)%list_elem_of_fmap. by apply IH.
  - rewrite !no_char_app. cbn [no_char]. rewrite !no_char_visible by (vm_compute; lia).
    rewrite no_char_join; [done | cbn [no_char]; by rewrite no_char_visible by (vm_compute; lia) |].
    intros x (y & -> & Hy)%list_elem_of_fmap. rewrite !no_char_app, no_char_json_string, IH by done.
    cbn [no_char]. by rewrite no_char_visible by (vm_compute; lia).
Qed.
End Control.
