(* ===== verification/Errors.v ===== *)
(** * The gateway error taxonomy ([src/utils/errors.ts])

    [GatewayError] and its subclasses as one record with a [kind] that carries
    the subclass's own fields, the thrown values of JavaScript, the OpenAI error
    envelope, and the rendering of validation issues. *)

From Stdlib Require Import ZArith Lia QArith Qround String.
From stdpp Require Import base strings list.
From S2P Require Import Prelude Numerals Json.
Open Scope Z_scope.

Inductive OpenAIErrorType :=
| invalid_request_error | authentication_error | permission_error | not_found_error
| rate_limit_error | server_error | api_error.

#[export] Instance OpenAIErrorType_eq_dec : EqDecision OpenAIErrorType.
Proof. solve_decision. Defined.

Definition error_type_str (t : OpenAIErrorType) : string :=
  match t with
  | invalid_request_error => "invalid_request_error"
  | authentication_error => "authentication_error"
  | permission_error => "permission_error"
  | not_found_error => "not_found_error"
  | rate_limit_error => "rate_limit_error"
  | server_error => "server_error"
  | api_error => "api_error"
  end.

(** The options of the constructors; causes are for the logs only. *)
Record GatewayErrorOptions := {
  opt_code : option string;
  opt_param : option string;
  opt_retryable : option bool;
  opt_context : option fields
}.

Definition no_options : GatewayErrorOptions :=
  {| opt_code := None; opt_param := None; opt_retryable := None; opt_context := None |}.

(** The subclass, with the fields it adds. *)
Inductive error_kind :=
| KGateway
| KAuthentication
| KPermission
| KNotFound
| KValidation
| KPayloadTooLarge
| KRateLimit (retryAfterSeconds : Z)
| KProvider (providerId : option string)
| KUpstreamTimeout (providerId : option string)
| KCircuitOpen (providerId : string)
| KAllProvidersFailed (attempts : Z)
| KInternal
| KInsufficientQuota
| KServiceUnavailable.

Record GatewayError := {
  kind : error_kind;
  message : string;
  statusCode : Z;
  openAIType : OpenAIErrorType;
  code : option string;
  param : option string;
  retryable : bool;
  context : option fields
}.

(** The base constructor. *)
Definition mkGatewayError (k : error_kind) (message : string) (statusCode : Z)
    (openAIType : OpenAIErrorType) (o : GatewayErrorOptions) : GatewayError :=
  {| kind := k; message := message; statusCode := statusCode; openAIType := openAIType;
     code := opt_code o; param := opt_param o; retryable := opt_retryable o ?? false;
     context := opt_context o |}.

(** [{ code, retryable, ...options }]. *)
Definition or_else {A} (a b : option A) : option A := match a with Some _ => a | None => b end.
Definition with_defaults (code : string) (retryable : option bool) (o : GatewayErrorOptions)
    : GatewayErrorOptions :=
  {| opt_code := or_else (opt_code o) (Some code);
     opt_param := opt_param o;
     opt_retryable := or_else (opt_retryable o) retryable;
     opt_context := opt_context o |}.

Definition toOpenAIError (e : GatewayError) : json :=
  JObj [("error"%string, JObj [
    ("message"%string, JStr (message e));
    ("type"%string, JStr (error_type_str (openAIType e)));
    ("param"%string, nullable (param e));
    ("code"%string, nullable (code e))])].

(** ** Subclasses *)

Definition AuthenticationError (m : option string) (o : GatewayErrorOptions) : GatewayError :=
  mkGatewayError KAuthentication (m ?? "Invalid authentication credentials."%string) 401
    authentication_error (with_defaults "invalid_api_key" None o).

Definition PermissionError (m : option string) (o : GatewayErrorOptions) : GatewayError :=
  mkGatewayError KPermission (m ?? "You do not have permission to perform this action."%string) 403
    permission_error (with_defaults "permission_denied" None o).

Definition NotFoundError (m : option string) (o : GatewayErrorOptions) : GatewayError :=
  mkGatewayError KNotFound (m ?? "The requested resource was not found."%string) 404
    not_found_error (with_defaults "not_found" None o).

Definition MAX_ISSUES_IN_MESSAGE : nat := 3.

(** The parts and first parameter the loop over the issues collects. *)
Fixpoint issue_parts (issues : list json) (parts : list string) (param : option string)
    : list string * option string :=
  match issues with
  | [] => (parts, param)
  | issue :: rest =>
      let record := match issue with
                    | JObj o => Some o
                    | JArr _ => Some []
                    | _ => None
                    end in
      match record with
      | None => issue_parts rest parts param
      | Some o =>
          let path := match field "path" o with
                      | Some (JArr p) => join "." (map join_elem p)
                      | _ => ""%string
                      end in
          let message := as_string (field "message" o) ?? "invalid value"%string in
          let param := match param with
                       | Some p => Some p
                       | None => if String.eqb path "" then None else Some path
                       end in
          let part := if String.eqb path "" then message else (path ++ ": " ++ message)%string in
          issue_parts rest (parts ++ [part])%list param
      end
  end.

Definition summarizeIssues (issues : option json) : string * option string :=
  match issues with
  | Some (JArr (x :: l)) =>
      let issues := x :: l in
      let '(parts, param) := issue_parts (firstn MAX_ISSUES_IN_MESSAGE issues) [] None in
      let more := if (MAX_ISSUES_IN_MESSAGE <? length issues)%nat
                  then (" (+" ++ dec (Z.of_nat (length issues - MAX_ISSUES_IN_MESSAGE)) ++ " more)")%string
                  else ""%string in
      (if bool_decide (parts = []) then ""%string else (join "; " parts ++ more)%string, param)
  | _ => (""%string, None)
  end.

Definition ValidationError (m : option string) (o : GatewayErrorOptions) : GatewayError :=
  let m := m ?? "The request body is invalid."%string in
  let '(detail, param) := summarizeIssues (opt_context o ≫= field "issues") in
  mkGatewayError KValidation (if String.eqb detail "" then m else (m ++ " " ++ detail)%string) 422
    invalid_request_error
    {| opt_code := or_else (opt_code o) (Some "invalid_request"%string);
       opt_param := or_else (opt_param o) param;
       opt_retryable := opt_retryable o;
       opt_context := opt_context o |}.

Definition PayloadTooLargeError (m : option string) (o : GatewayErrorOptions) : GatewayError :=
  mkGatewayError KPayloadTooLarge (m ?? "Request body is too large."%string) 413
    invalid_request_error (with_defaults "payload_too_large" None o).

Definition RateLimitError (m : option string) (retryAfterSeconds : Q) (o : GatewayErrorOptions)
    : GatewayError :=
  mkGatewayError (KRateLimit (Z.max 1 (Qceiling retryAfterSeconds)))
    (m ?? "Rate limit exceeded."%string) 429 rate_limit_error
    (with_defaults "rate_limit_exceeded" (Some true) o).

Definition ProviderError (m : string) (status : Z) (providerId : option string)
    (o : GatewayErrorOptions) : GatewayError :=
  mkGatewayError (KProvider providerId) m status
    (if 500 <=? status then server_error else invalid_request_error)
    (with_defaults "provider_error" (Some ((500 <=? status) || (status =? 429))) o).

Definition UpstreamTimeoutError (providerId : option string) (o : GatewayErrorOptions) : GatewayError :=
  mkGatewayError (KUpstreamTimeout providerId) "The upstream provider timed out." 504 server_error
    (with_defaults "upstream_timeout" (Some true) o).

Definition CircuitOpenError (providerId : string) (o : GatewayErrorOptions) : GatewayError :=
  mkGatewayError (KCircuitOpen providerId)
    ("Provider " ++ providerId ++ " is temporarily unavailable (circuit open).") 503 server_error
    (with_defaults "circuit_open" (Some true) o).

Definition AllProvidersFailedError (attempts : Z) (o : GatewayErrorOptions) : GatewayError :=
  mkGatewayError (KAllProvidersFailed attempts)
    "All upstream providers are currently unavailable. Please retry shortly." 503 server_error
    (with_defaults "all_providers_failed" (Some true) o).

Definition InternalError (m : option string) (o : GatewayErrorOptions) : GatewayError :=
  mkGatewayError KInternal (m ?? "An unexpected internal error occurred."%string) 500 api_error
    (with_defaults "internal_error" None o).

Definition InsufficientQuotaError (m : option string) (o : GatewayErrorOptions) : GatewayError :=
  mkGatewayError KInsufficientQuota (m ?? "Monthly budget exceeded for this API key."%string) 429
    rate_limit_error (with_defaults "insufficient_quota" None o).

Definition ServiceUnavailableError (m : option string) (o : GatewayErrorOptions) : GatewayError :=
  mkGatewayError KServiceUnavailable (m ?? "The service is temporarily unavailable."%string) 503
    server_error (with_defaults "service_unavailable" (Some true) o).

(** ** Thrown values *)

(** What a JavaScript [throw] can carry: a gateway error, another [Error] with
    its own properties, a [RetryError], or a value that is no [Error]. *)
Inductive thrown :=
| TGateway (e : GatewayError)
| TError (name message : string) (props : fields)
| TRetry (attempts : Z) (lastError : thrown)
| TValue (v : json).

Definition retry_message (attempts : Z) : string :=
  ("Operation failed after " ++ dec attempts ++ " attempt(s).")%string.

Definition toErrorMessage (t : thrown) : string :=
  match t with
  | TGateway e => message e
  | TError _ m _ => m
  | TRetry n _ => retry_message n
  | TValue v => js_string v
  end.

(** [GatewayError.from]. *)
Definition from (t : thrown) : GatewayError :=
  match t with
  | TGateway e => e
  | TError name m _ =>
      InternalError (Some "An unexpected internal error occurred."%string)
        {| opt_code := None; opt_param := None; opt_retryable := None;
           opt_context := Some [("originalMessage"%string, JStr m); ("originalName"%string, JStr name)] |}
  | TRetry n _ =>
      InternalError (Some "An unexpected internal error occurred."%string)
        {| opt_code := None; opt_param := None; opt_retryable := None;
           opt_context := Some [("originalMessage"%string, JStr (retry_message n));
                                ("originalName"%string, JStr "RetryError"%string)] |}
  | TValue v =>
      InternalError (Some "An unexpected internal error occurred."%string)
        {| opt_code := None; opt_param := None; opt_retryable := None;
           opt_context := Some [("original"%string, JStr (js_string v))] |}
  end.
