(* ===== verification/ErrorHandler.v ===== *)
(** * Centralised error handling ([src/middleware/error-handler.ts])

    Normalisation of thrown values into gateway errors, the Fastify error and
    not-found handlers as functions to the reply they send, and what a client
    can learn from an unexpected error. *)

From Stdlib Require Import ZArith Lia QArith Qround String.
From stdpp Require Import base strings list.
From S2P Require Import Prelude Numerals Constants Json Errors.
Open Scope Z_scope.

(** The own properties of a thrown object, when it is one. *)
Definition thrown_props (t : thrown) : option fields :=
  match t with
  | TError _ _ props => Some props
  | TRetry n _ => Some [("attempts"%string, jint n)]
  | TValue (JObj o) => Some o
  | TValue (JArr _) => Some []
  | _ => None
  end.

Definition has_key (k : string) (o : fields) : bool :=
  match field k o with Some _ => true | None => false end.

Definition isFastifyError (t : thrown) : bool :=
  match thrown_props t with
  | Some o => has_key "code" o || has_key "statusCode" o || has_key "validation" o
  | None => false
  end.

(** [error.message] of a thrown value. *)
Definition message_prop (t : thrown) : option string :=
  match t with
  | TError _ m _ => Some m
  | TRetry n _ => Some (retry_message n)
  | TValue (JObj o) => as_string (field "message" o)
  | _ => None
  end.

Definition with_code (c : string) : GatewayErrorOptions :=
  {| opt_code := Some c; opt_param := None; opt_retryable := None; opt_context := None |}.

Definition normalizeError (t : thrown) : GatewayError :=
  match t with
  | TGateway e => e
  | _ =>
      if isFastifyError t then
        let o := thrown_props t ?? [] in
        let code := as_string (field "code" o) in
        let m := message_prop t in
        if bool_decide (code = Some "FST_ERR_CTP_BODY_TOO_LARGE"%string) then
          PayloadTooLargeError None no_options
        else if bool_decide (code = Some "FST_UNDER_PRESSURE"%string) then
          ServiceUnavailableError m no_options
        else
          match field "validation" o with
          | Some ((JBool _ | JNum _ | JStr _ | JArr _ | JObj _) as v) =>
              ValidationError (Some "Request failed schema validation."%string)
                {| opt_code := None; opt_param := None; opt_retryable := None;
                   opt_context := Some [("validation"%string, v)] |}
          | _ =>
              if match code with Some c => starts_with "FST_ERR_CTP" c | None => false end then
                mkGatewayError KGateway "Malformed request body." 400 invalid_request_error
                  (with_code "invalid_request")
              else
                match as_num (field "statusCode" o) with
                | Some q =>
                    if Qle_bool 400 q && negb (Qle_bool 500 q) then
                      mkGatewayError KGateway (m ?? ""%string) (Qfloor q) invalid_request_error
                        (with_code "invalid_request")
                    else from t
                | None => from t
                end
          end
      else from t
  end.

(** What a handler does to the reply. *)
Inductive reply_action :=
| EndSocket
| SendJson (status : Z) (headers : list (string * string)) (body : json).

Definition errorHandler (t : thrown) (headersSent : bool) : reply_action :=
  let e := normalizeError t in
  if headersSent then EndSocket
  else SendJson (statusCode e)
         (match kind e with
          | KRateLimit s => [(HEADERS.RETRY_AFTER, dec s)]
          | _ => []
          end)
         (toOpenAIError e).

Definition notFoundHandler (method url : string) : reply_action :=
  let e := NotFoundError (Some ("No route for " ++ method ++ " " ++ url ++ ".")%string) no_options in
  SendJson (statusCode e) [] (toOpenAIError e).

(** ** Theorems *)

(** An error with no sign of being a client error: not a gateway error, and no
    recognised Fastify code, validation result or 4xx status among its
    properties. *)
Definition unexpected (t : thrown) : Prop :=
  match t with TGateway _ => False | _ =>
    match thrown_props t with
    | None => True
    | Some o =>
        match as_string (field "code" o) with
        | Some c => starts_with "FST_" c = false
        | None => True
        end ∧
        (field "validation" o = None ∨ field "validation" o = Some JNull) ∧
        match as_num (field "statusCode" o) with
        | Some q => ¬ (400 <= q < 500)%Q
        | None => True
        end
    end
  end.

Definition internal_body : json :=
  JObj [("error"%string, JObj [
    ("message"%string, JStr "An unexpected internal error occurred."%string);
    ("type"%string, JStr "api_error"%string);
    ("param"%string, JNull);
    ("code"%string, JStr "internal_error"%string)])].

Lemma from_internal t : (∀ e, t ≠ TGateway e) →
  statusCode (from t) = 500 ∧ kind (from t) = KInternal ∧ toOpenAIError (from t) = internal_body.
Proof. intros Hne. destruct t as [e| | |]; [by destruct (Hne e) | done..]. Qed.

(** Nothing leaks. The reply to an unexpected error is the same constant
    500 envelope whatever the error's name, message or properties; only when
    the response has started is the socket ended instead. *)
Theorem unexpected_errors_redacted t headersSent :
  unexpected t →
  errorHandler t headersSent = if headersSent then EndSocket else SendJson 500 [] internal_body.
Proof.
  intros Hu. assert (Hf : (∀ e, t ≠ TGateway e)) by (by intros e ->).
  assert (Hn : normalizeError t = from t).
  { unfold normalizeError, isFastifyError. destruct t as [e| | |]; [by destruct (Hf e) | | done |].
    all: unfold unexpected in Hu; destruct (thrown_props _) as [o|] eqn:Eo; [|done];
      destruct Hu as (Hc & Hv & Hs); destruct (_ || _); [|done]; cbn [coalesce].
    all: assert (Hcode : bool_decide (as_string (field "code" o) = Some "FST_ERR_CTP_BODY_TOO_LARGE"%string) = false ∧
      bool_decide (as_string (field "code" o) = Some "FST_UNDER_PRESSURE"%string) = false ∧
      match as_string (field "code" o) with Some c => starts_with "FST_ERR_CTP" c | None => false end = false).
    1, 3: destruct (as_string (field "code" o)) as [c|]; [|done]; split_and!;
      [apply bool_decide_eq_false_2; by intros [= ->] | apply bool_decide_eq_false_2; by intros [= ->] |];
      destruct (starts_with "FST_ERR_CTP" c) eqn:E; [|done];
      apply (starts_with_prefix "FST_" "ERR_CTP" c) in E; congruence.
    all: destruct Hcode as (-> & -> & ->).
    all: destruct Hv as [-> | ->].
    all: destruct (as_num _) as [q|]; [|done].
    all: destruct (Qle_bool 400 q) eqn:E1; [|done].
    all: destruct (Qle_bool 500 q) eqn:E2; [done |].
    all: exfalso; apply Hs; apply Qle_bool_iff in E1; split; [done |]; apply Qnot_le_lt; intros H;
      apply Qle_bool_iff in H; congruence. }
  unfold errorHandler. rewrite Hn. destruct headersSent; [done |].
  destruct (from_internal t Hf) as (-> & -> & ->). done.
Qed.

Lemma unexpected_errors_redacted_witness :
  errorHandler (TError "TypeError" "secret path /etc/passwd" [("statusCode"%string, jint 503)]) false =
    SendJson 500 [] internal_body.
Proof.
  apply (unexpected_errors_redacted (TError "TypeError" "secret path /etc/passwd" [("statusCode"%string, jint 503)]) false).
  split; [done |]. split; [by left |]. simpl. intros [_ H]. by vm_compute in H.
Defined.
