(* ===== verification/Retry.v ===== *)
(** * Retries with exponential backoff and full jitter ([src/utils/retry.ts])

    [retry] as a loop over attempts that records the delays it sleeps; the
    operation, the jitter source and the abort signal are its environment. *)

From Stdlib Require Import ZArith Lia Lqa QArith Qround String.
From stdpp Require Import base strings list.
From S2P Require Import Prelude Numerals Json Errors.
Open Scope Z_scope.

Definition RETRYABLE_STATUS_CODES : list Z := [429; 500; 502; 503; 504].

Definition isRetryableStatusCode (status : Q) : bool :=
  existsb (λ c, Qeq_bool status (inject_Z c)) RETRYABLE_STATUS_CODES.

(** [abortError(signal)], given [signal.reason]. *)
Definition abortError (reason : thrown) : thrown :=
  match reason with
  | TValue _ => TError "AbortError" "The operation was aborted." []
  | e => e
  end.

Definition isAbortError (t : thrown) : bool :=
  match t with TError name _ _ => String.eqb name "AbortError" | _ => false end.

(** [record['statusCode'] ?? record['status']]. *)
Definition status_field (o : fields) : option json :=
  match field "statusCode" o with
  | Some JNull | None => field "status" o
  | v => v
  end.

Definition extractStatus (t : thrown) : option Q :=
  match t with
  | TGateway e => Some (inject_Z (statusCode e))
  | TError _ _ o | TValue (JObj o) => as_num (status_field o)
  | _ => None
  end.

Definition defaultIsRetryable (t : thrown) : bool :=
  if isAbortError t then false
  else match t with
       | TGateway e => retryable e
       | _ => match extractStatus t with
              | Some s => isRetryableStatusCode s
              | None => true
              end
       end.

(** The options, with the configuration's defaults filled in. *)
Record RetryOptions := {
  maxAttempts : Z;
  baseDelayMs : Z;
  maxDelayMs : Z;
  isRetryable : thrown → bool
}.

Section Retry.
Context {T : Type}.
Variable fn : Z → result thrown T.
Variable options : RetryOptions.
(** The fraction drawn before the sleep after an attempt. *)
Variable jitterFraction : Z → Q.
(** The reason of the signal when it is aborted at the start of an attempt, and
    when it aborts before the end of the sleep after an attempt. *)
Variable aborted_before aborted_during : Z → option thrown.

(** [Math.min(maxDelayMs, baseDelayMs * 2 ** (attempt - 1))]. *)
Definition exponentialCap (attempt : Z) : Z :=
  Z.min (maxDelayMs options) (baseDelayMs options * 2 ^ (attempt - 1)).

Definition delayMs (attempt : Z) : Z := Qfloor (jitterFraction attempt * inject_Z (exponentialCap attempt)).

(** The attempts made, the delays slept, and the outcome. *)
Record retry_run := Run { attempts_made : Z; delays : list Z; outcome : result thrown T }.

Fixpoint loop (fuel : nat) (attempt : Z) (lastError : thrown) (slept : list Z) : retry_run :=
  match fuel with
  | O => Run (attempt - 1) slept (Err (TRetry (maxAttempts options) lastError))
  | S fuel' =>
      match aborted_before attempt with
      | Some reason => Run (attempt - 1) slept (Err (abortError reason))
      | None =>
          match fn attempt with
          | Ok v => Run attempt slept (Ok v)
          | Err error =>
              if isAbortError error then Run attempt slept (Err error)
              else
                let canRetry := isRetryable options error && (attempt <? maxAttempts options) in
                if negb canRetry then
                  Run attempt slept (Err (if isRetryable options error then TRetry attempt error else error))
                else
                  let d := delayMs attempt in
                  match aborted_during attempt with
                  | Some reason => Run attempt (slept ++ [d]) (Err (abortError reason))
                  | None => loop fuel' (attempt + 1) error (slept ++ [d])
                  end
          end
      end
  end.

(** [attempt] runs from 1 to [maxAttempts]. *)
Definition retry : retry_run := loop (Z.to_nat (maxAttempts options)) 1 (TValue JNull) [].

(** What one attempt settles. *)
Definition final_outcome (n : Z) : result thrown T :=
  match fn n with
  | Ok v => Ok v
  | Err e =>
      if isAbortError e then Err e
      else if isRetryable options e then Err (TRetry n e) else Err e
  end.

Definition transient (n : Z) : Prop :=
  ∃ e, fn n = Err e ∧ isAbortError e = false ∧ isRetryable options e = true.

(** The sleeps after the first [n] attempts. *)
Definition sleeps (n : Z) : list Z := map delayMs (seqZ 1 n).

(** How a run of [n] attempts ends: with the settlement of the last, or aborted
    before the next, or during the sleep after the last. *)
Inductive ending : retry_run → Prop :=
| Settled n : 1 <= n → aborted_before n = None → (n < maxAttempts options → ¬ transient n) →
    ending (Run n (sleeps (n - 1)) (final_outcome n))
| AbortedBefore n reason : n < maxAttempts options → aborted_before (n + 1) = Some reason →
    (1 <= n → transient n ∧ aborted_during n = None) → ending (Run n (sleeps n) (Err (abortError reason)))
| AbortedDuring n reason : 1 <= n < maxAttempts options → aborted_before n = None → transient n →
    aborted_during n = Some reason → ending (Run n (sleeps n) (Err (abortError reason))).

Lemma sleeps_snoc n : 1 <= n → sleeps n = (sleeps (n - 1) ++ [delayMs n])%list.
Proof using.
  intros Hn. unfold sleeps. replace n with ((n - 1) + 1) at 1 by lia. rewrite seqZ_app, map_app by lia. simpl.
  by replace (1 + (n - 1)) with n by lia.
Qed.

Lemma loop_spec fuel : ∀ attempt last,
  1 <= attempt → Z.of_nat fuel = maxAttempts options - attempt + 1 → (0 < fuel)%nat →
  (1 < attempt → transient (attempt - 1) ∧ aborted_during (attempt - 1) = None) →
  let r := loop fuel attempt last (sleeps (attempt - 1)) in
  let n := attempts_made r in
  attempt - 1 <= n <= maxAttempts options ∧ ending r ∧
  (∀ k, attempt <= k < n → transient k ∧ aborted_during k = None) ∧ (∀ k, attempt <= k <= n → aborted_before k = None).
Proof using.
  induction fuel as [|fuel IH]; intros a last Ha Hf Hpos Hprev; [lia |].
  cbn [loop]. destruct (aborted_before a) as [reason|] eqn:Eb.
  { cbn. split; [lia |]. split; [| split; lia].
    apply AbortedBefore; [lia | by replace (a - 1 + 1) with a by lia | intros; apply Hprev; lia]. }
  assert (Hone : ∀ k, a <= k <= a → aborted_before k = None) by (intros k Hk; by replace k with a by lia).
  assert (Hstop : ∀ r, final_outcome a = r → (a < maxAttempts options → ¬ transient a) →
    let r := Run a (sleeps (a - 1)) r in let n := attempts_made r in
    a - 1 <= n <= maxAttempts options ∧ ending r ∧
    (∀ k, a <= k < n → transient k ∧ aborted_during k = None) ∧ (∀ k, a <= k <= n → aborted_before k = None)).
  { intros r <- Ht. cbn. split; [lia |]. split; [by apply Settled |]. split; [lia | done]. }
  unfold final_outcome in Hstop at 1. destruct (fn a) as [v|e] eqn:E.
  { apply Hstop; [done |]. intros _ (e & He & _). congruence. }
  destruct (isAbortError e) eqn:Eab.
  { apply Hstop; [done |]. intros _ (e' & He & Hx & _). congruence. }
  destruct (isRetryable options e) eqn:Er; cbn [andb].
  - destruct (a <? maxAttempts options) eqn:Elt; cbn [negb]; bool_props; [| by apply Hstop; [| lia]].
    assert (Ht : transient a) by (by exists e). rewrite <- sleeps_snoc by done.
    destruct (aborted_during a) as [reason|] eqn:Ed.
    + cbn. split; [lia |]. split; [by apply AbortedDuring |]. split; [lia | done].
    + specialize (IH (a + 1) e). replace (a + 1 - 1) with a in IH by lia.
      destruct (IH ltac:(lia) ltac:(lia) ltac:(lia) ltac:(done)) as (Hn & He & Htr & Hb).
      set (r := loop _ _ _ _) in *. split; [lia |]. split; [done |]. split; intros k Hk;
        (destruct (decide (k = a)) as [-> |]; [done |]); [apply Htr; lia | apply Hb; lia].
  - cbn [negb]. apply Hstop; [done |]. intros _ (e' & He & _ & Hx). congruence.
Qed.
End Retry.

(** C36: The outcome of [retry], whenever the signal aborts, if it does. Some
    number n of attempts up to [maxAttempts] is made; each but the last failed
    transiently and was slept after, and the signal was not aborted before any of
    them. The run ends in one of three ways: with the last attempt's value, its
    error verbatim when it is an abort or not retryable, or a [RetryError] around
    it otherwise, which happens before the attempts are used up only if it did not
    fail transiently; or with the signal's reason because the signal was aborted
    before the next attempt, so with no attempt at all if it was aborted from the
    start; or with that reason during the sleep after the last attempt. Each sleep
    lies between 0 and the capped exponential min(maxDelayMs, baseDelayMs *
    2^(k-1)). *)
Theorem retry_outcome {T} (fn : Z → result thrown T) options jitter before during :
  1 <= maxAttempts options → 0 <= baseDelayMs options → 0 <= maxDelayMs options →
  (∀ k, 0 <= jitter k < 1)%Q →
  let run := retry fn options jitter before during in
  let n := attempts_made run in
  0 <= n <= maxAttempts options ∧
  ending fn options jitter before during run ∧
  (∀ k, 1 <= k < n → transient fn options k ∧ during k = None) ∧ (∀ k, 1 <= k <= n → before k = None) ∧
  (∀ reason, before 1 = Some reason → run = Run 0 [] (Err (abortError reason))) ∧
  (∀ k, 1 <= k → 0 <= delayMs options jitter k <= exponentialCap options k).
Proof.
  intros Hm Hb Hx Hj run n.
  destruct (loop_spec fn options jitter before during (Z.to_nat (maxAttempts options)) 1 (TValue JNull)
    ltac:(lia) ltac:(lia) ltac:(lia) ltac:(lia)) as (Hn & He & Ht & Hab).
  split; [exact Hn |]. split; [exact He |]. split; [exact Ht |]. split; [exact Hab |]. split.
  - intros reason H1. unfold run, retry. destruct (Z.to_nat (maxAttempts options)) eqn:Ef; [lia |]. cbn [loop]. by rewrite H1.
  - intros k Hk. unfold delayMs. destruct (Hj k) as [Hj0 Hj1].
    assert (0 <= exponentialCap options k).
    { unfold exponentialCap. apply Z.min_glb; [done |]. apply Z.mul_nonneg_nonneg; [done |]. apply Z.pow_nonneg. lia. }
    assert (Hc : (0 <= inject_Z (exponentialCap options k))%Q) by (by rewrite <- (Zle_Qle 0)).
    split.
    + rewrite <- (Qfloor_Z 0). apply Qfloor_resp_le. apply Qmult_le_0_compat; [done | exact Hc].
    + rewrite <- (Qfloor_Z (exponentialCap options k)) at 2. apply Qfloor_resp_le. nra.
Qed.

Definition sample_options : RetryOptions :=
  {| maxAttempts := 3; baseDelayMs := 100; maxDelayMs := 150; isRetryable := defaultIsRetryable |}.
Definition sample_fn (n : Z) : result thrown Z :=
  if n =? 3 then Ok 7 else Err (TError "Error" "ECONNRESET" []).

(** A signal aborted during the second sleep: two attempts, and its reason. *)
Definition aborts_second_sleep (n : Z) : option thrown := if n =? 2 then Some (TError "TimeoutError" "late" []) else None.

Lemma retry_outcome_witness :
  ending sample_fn sample_options (λ _, 1 # 2) (λ _, None) aborts_second_sleep
    (retry sample_fn sample_options (λ _, 1 # 2) (λ _, None) aborts_second_sleep) ∧
  retry sample_fn sample_options (λ _, 1 # 2) (λ _, Some (TValue JNull)) (λ _, None) =
    Run 0 [] (Err (TError "AbortError" "The operation was aborted." [])).
Proof.
  assert (Hj : ∀ k : Z, (0 <= (λ _, 1 # 2) k < 1)%Q) by (intros k; split; by vm_compute).
  split.
  - apply (retry_outcome sample_fn sample_options (λ _, 1 # 2) (λ _, None) aborts_second_sleep); done.
  - destruct (retry_outcome sample_fn sample_options (λ _, 1 # 2) (λ _, Some (TValue JNull)) (λ _, None))
      as (_ & _ & _ & _ & H & _); [done.. |]. by apply (H (TValue JNull)).
Defined.

Example aborted_sample :
  retry sample_fn sample_options (λ _, 1 # 2) (λ _, None) aborts_second_sleep = Run 2 [50; 75] (Err (TError "TimeoutError" "late" [])).
Proof. reflexivity. Qed.

Example retry_sample :
  retry sample_fn sample_options (λ _, 1 # 2) (λ _, None) (λ _, None) = Run 3 [50; 75] (Ok 7).
Proof. reflexivity. Qed.
