(* ===== verification/Signals.v ===== *)
(** * Timers and abort signals ([clientAbortSignal] of [src/routes/http.ts], [delay] of [src/utils/retry.ts])

    The two small state machines behind cancellation: the signal that fires when
    the client goes away, and the sleep between two attempts. *)

From Stdlib Require Import ZArith Lia QArith String.
From stdpp Require Import base strings list.
From S2P Require Import Prelude Numerals Json Errors Retry LoadBalancer.
Open Scope Z_scope.

(** ** The client's disconnection *)

(** What happens to the socket of a response: its last byte is handed over, or it closes. *)
Inductive socket_event := Finish | Close.

Record socket := { writableFinished : bool; destroyed : bool }.
Definition open_socket : socket := {| writableFinished := false; destroyed := false |}.

(** Node closes a socket once, and finishes nothing after that. *)
Definition on_socket (s : socket) (e : socket_event) : socket :=
  match e with
  | Finish => if destroyed s then s else {| writableFinished := true; destroyed := false |}
  | Close => {| writableFinished := writableFinished s; destroyed := true |}
  end.

(** [clientAbortSignal]: whether the signal is aborted when it is made, and what
    its listener does to it. *)
Definition signal_made (s : socket) : bool := destroyed s && negb (writableFinished s).
Definition on_close (s : socket) (aborted : bool) (e : socket_event) : bool :=
  match e with
  | Close => if destroyed s then aborted else aborted || negb (writableFinished s)
  | Finish => aborted
  end.

Fixpoint watch (s : socket) (aborted : bool) (es : list socket_event) : bool :=
  match es with [] => aborted | e :: es => watch (on_socket s e) (on_close s aborted e) es end.

(** The signal after [before] it was made and [after] that. *)
Definition clientAbortSignal (before after : list socket_event) : bool :=
  let s := foldl on_socket open_socket before in watch s (signal_made s) after.

(** The client left before the response was finished. *)
Definition left_early (es : list socket_event) : bool :=
  match es with [] => false | Close :: _ => true | Finish :: _ => false end.

(** Once finished or closed, nothing changes any more. *)
Definition over (s : socket) : bool := destroyed s || writableFinished s.

Lemma over_step s e aborted : over s = true →
  over (on_socket s e) = true ∧ signal_made (on_socket s e) = signal_made s ∧ on_close s aborted e = aborted.
Proof. destruct s as [[] []], e; cbn; rewrite ?orb_false_r; by intros. Qed.

Lemma over_fold es s : over s = true → signal_made (foldl on_socket s es) = signal_made s ∧ over (foldl on_socket s es) = true.
Proof.
  revert s. induction es as [|e es IH]; intros s Hs; [done |]. destruct (over_step s e false Hs) as (H1 & H2 & _).
  cbn [foldl]. destruct (IH _ H1) as [-> ?]. by rewrite H2.
Qed.
Lemma over_watch es s aborted : over s = true → watch s aborted es = aborted.
Proof.
  revert s aborted. induction es as [|e es IH]; intros s aborted Hs; [done |]. destruct (over_step s e aborted Hs) as (H1 & _ & H2).
  cbn [watch]. rewrite H2. by apply IH.
Qed.

(** The signal fires exactly for a client that left early, whenever it is made. *)
Lemma client_abort_exact before after : clientAbortSignal before after = left_early (before ++ after).
Proof.
  unfold clientAbortSignal. destruct before as [|e before].
  - destruct after as [|[] after]; [done | |]; cbn; by rewrite over_watch.
  - assert (Ho : over (on_socket open_socket e) = true) by (by destruct e). cbn [foldl].
    destruct (over_fold before _ Ho) as [E H]. rewrite over_watch by done. rewrite E. by destruct e.
Qed.

(** ** The sleep between two attempts *)

(** [delay]: its timer, its listener on the signal, and how its promise settled. *)
Record sleep := { timer : bool; listening : bool; settled : option (result thrown unit) }.
Inductive sleep_event := TimerFires | SignalAborts (reason : thrown).

(** A promise settles once. *)
Definition settle_with (r : result thrown unit) (s : sleep) : sleep :=
  {| timer := false; listening := false; settled := match settled s with Some r' => Some r' | None => Some r end |}.

Definition delay (signal : bool) (aborted : option thrown) : sleep :=
  match aborted with
  | Some reason => {| timer := false; listening := false; settled := Some (Err (abortError reason)) |}
  | None => {| timer := true; listening := signal; settled := None |}
  end.

Definition sleep_step (s : sleep) (e : sleep_event) : sleep :=
  match e with
  | TimerFires => if timer s then settle_with (Ok tt) s else s
  | SignalAborts reason => if listening s then settle_with (Err (abortError reason)) s else s
  end.

(** What the first event that concerns a sleep with a signal makes of it. *)
Definition first_word (es : list sleep_event) : option (result thrown unit) :=
  match es with [] => None | TimerFires :: _ => Some (Ok tt) | SignalAborts reason :: _ => Some (Err (abortError reason)) end.

(** A settled sleep holds neither a timer nor a listener. *)
Definition released (s : sleep) : Prop := is_Some (settled s) → timer s = false ∧ listening s = false.

Lemma settled_stays s es : timer s = false → listening s = false → foldl sleep_step s es = s.
Proof. intros Ht Hl. induction es as [|[] es IH]; [done | |]; cbn [foldl sleep_step]; by rewrite ?Ht, ?Hl. Qed.

(** ** Jitter *)

(** A fraction of a million, drawn from the secure source. *)
Definition cryptoJitterFraction (secureRandomInt : Z → Z) : Q := (inject_Z (secureRandomInt 1000000%Z) / 1000000)%Q.

Lemma jitter_fraction rnd : random_ok rnd → (0 <= cryptoJitterFraction rnd)%Q ∧ (cryptoJitterFraction rnd < 1)%Q.
Proof.
  intros Hr. destruct (Hr 1000000 ltac:(lia)) as [H0 H1]. unfold cryptoJitterFraction. split.
  - apply Qle_shift_div_l; [done |]. rewrite Qmult_0_l. change 0%Q with (inject_Z 0). by rewrite <- Zle_Qle.
  - apply Qlt_shift_div_r; [done |]. rewrite Qmult_1_l. change 1000000%Q with (inject_Z 1000000). by rewrite <- Zlt_Qlt.
Qed.

(** ** Theorem *)

(** Cancellation is exact. The client's signal is aborted exactly when the socket
    closed before the response was finished, whether that was before or after the
    signal was made. A sleep ends with the first of its timer and its signal, at
    once if the signal was aborted already, later events change nothing, and an
    ended sleep leaves no timer running and no listener behind. The fraction of
    the backoff is in [0, 1), so a sleep is shorter than its cap. *)
Theorem cancellation_exact before after signal aborted es rnd :
  clientAbortSignal before after = left_early (before ++ after) ∧
  (let s := foldl sleep_step (delay signal aborted) es in
   settled s = match aborted with
               | Some reason => Some (Err (abortError reason))
               | None => first_word (if signal then es else List.filter (λ e, match e with TimerFires => true | _ => false end) es)
               end ∧ released s) ∧
  (random_ok rnd → ∀ (cap : Z), 0 < cap → 0 <= Qround.Qfloor (cryptoJitterFraction rnd * inject_Z cap) < cap).
Proof.
  split_and!.
  - apply client_abort_exact.
  - cbv zeta. destruct aborted as [reason|]; cbn [delay]; [by rewrite settled_stays; split |].
    induction es as [|[|reason] es IH]; [destruct signal; (split; [done | by intros [? ?]]) | |]; cbn [foldl sleep_step timer listening].
    + rewrite settled_stays by done. by destruct signal; split.
    + destruct signal; [rewrite settled_stays by done; by split | exact IH].
  - intros Hr cap Hc. destruct (jitter_fraction rnd Hr) as [H0 H1]. split.
    + change 0 with (Qround.Qfloor 0). apply Qround.Qfloor_resp_le, Qmult_le_0_compat; [done |]. change 0%Q with (inject_Z 0). rewrite <- Zle_Qle. lia.
    + rewrite Zlt_Qlt. eapply Qle_lt_trans; [apply Qround.Qfloor_le |]. rewrite <- (Qmult_1_l (inject_Z cap)) at 2.
      apply Qmult_lt_compat_r; [change 0%Q with (inject_Z 0); by rewrite <- Zlt_Qlt | done].
Qed.
