(* ===== verification/Types.v ===== *)
(** * The OpenAI wire protocol ([src/types/openai.ts])

    The request schemas as executable validators from JSON to typed requests
    (unknown keys are stripped, except where the schema passes them through),
    the JSON a typed request is sent upstream as, the response types, and the
    round trip between them. *)

From Stdlib Require Import ZArith Lia QArith Qround String.
From stdpp Require Import base strings list option.
From S2P Require Import Prelude Json.
Open Scope Z_scope.

(** ** Request types *)

Inductive ImageDetail := detail_auto | detail_low | detail_high.

Inductive ContentPart :=
| TextPart (text : string)
| ImagePart (url : string) (detail : option ImageDetail).

(** [messageContentSchema]; a string or parts. *)
Inductive MessageContent :=
| CText (s : string)
| CParts (l : list ContentPart).

(** Content of the roles that take text parts only. *)
Inductive TextContent :=
| TText (s : string)
| TParts (l : list string).

Record FunctionCall := { fc_name : string; fc_arguments : string }.
Record ToolCall := { tc_id : string; tc_function : FunctionCall }.
Record ToolDefinition := {
  td_name : string; td_description : option string; td_parameters : option fields
}.
Inductive ToolChoice := choice_none | choice_auto | choice_required | choice_function (name : string).

Inductive ChatMessage :=
| SystemMessage (content : TextContent) (name : option string)
| UserMessage (content : MessageContent) (name : option string)
| AssistantMessage (content : option (option TextContent)) (* undefined, null or content *)
    (name : option string) (tool_calls : option (list ToolCall))
| ToolMessage (content : TextContent) (tool_call_id : string).

Definition role (m : ChatMessage) : string :=
  match m with
  | SystemMessage _ _ => "system"
  | UserMessage _ _ => "user"
  | AssistantMessage _ _ _ => "assistant"
  | ToolMessage _ _ => "tool"
  end.

Inductive Stop := StopOne (s : string) | StopMany (l : list string).
Inductive FormatType := fmt_text | fmt_json_object | fmt_json_schema.

Record ChatCompletionRequest := {
  model : string;
  messages : list ChatMessage;
  temperature : option Q;
  top_p : option Q;
  n : option Z;
  stream : option bool;
  stream_options : option (option bool); (* include_usage *)
  stop : option Stop;
  max_tokens : option Z;
  max_completion_tokens : option Z;
  presence_penalty : option Q;
  frequency_penalty : option Q;
  logit_bias : option (list (string * Q));
  user : option string;
  seed : option Z;
  tools : option (list ToolDefinition);
  tool_choice : option ToolChoice;
  response_format : option (FormatType * fields);
  extra : fields (* passed through *)
}.

(** ** Validators *)

(** [z.number().int()]. *)
Definition to_int (q : Q) : option Z := if Qeq_bool q (inject_Z (Qfloor q)) then Some (Qfloor q) else None.

Definition p_string (v : json) : option string := match v with JStr s => Some s | _ => None end.
Definition p_bool (v : json) : option bool := match v with JBool b => Some b | _ => None end.
Definition p_num (v : json) : option Q := match v with JNum q => Some q | _ => None end.
Definition p_range (lo hi : Q) (v : json) : option Q :=
  q ← p_num v; guard (Qle_bool lo q && Qle_bool q hi = true);; Some q.
Definition p_int (v : json) : option Z := p_num v ≫= to_int.
Definition p_int_range (lo : Z) (hi : option Z) (v : json) : option Z :=
  z ← p_int v; guard ((lo <=? z) && match hi with Some h => z <=? h | None => true end = true);; Some z.
Definition p_string_len (lo hi : nat) (v : json) : option string :=
  s ← p_string v; guard (lo <= String.length s <= hi)%nat;; Some s.
Definition p_array {A} (p : json → option A) (v : json) : option (list A) :=
  match v with JArr l => mapM p l | _ => None end.
Definition p_record {A} (p : json → option A) (v : json) : option (list (string * A)) :=
  match v with JObj o => mapM (λ x, y ← p x.2; Some (x.1, y)) o | _ => None end.

(** A required field, and an optional one. *)
Definition req {A} (k : string) (p : json → option A) (o : fields) : option A := field k o ≫= p.
Definition opt {A} (k : string) (p : json → option A) (o : fields) : option (option A) :=
  match field k o with Some v => Some <$> p v | None => Some None end.
(** [.nullable().optional()]. *)
Definition nopt {A} (k : string) (p : json → option A) (o : fields) : option (option (option A)) :=
  match field k o with
  | Some JNull => Some (Some None)
  | Some v => (λ a, Some (Some a)) <$> p v
  | None => Some None
  end.
Definition literal (k s : string) (o : fields) : option unit :=
  match field k o with Some (JStr t) => if String.eqb t s then Some tt else None | _ => None end.
Definition p_obj {A} (p : fields → option A) (v : json) : option A :=
  match v with JObj o => p o | _ => None end.

Definition textContentPartSchema (o : fields) : option string :=
  literal "type" "text" o;; req "text" p_string o.

Definition p_detail (v : json) : option ImageDetail :=
  match v with
  | JStr "auto" => Some detail_auto
  | JStr "low" => Some detail_low
  | JStr "high" => Some detail_high
  | _ => None
  end.

Definition imageContentPartSchema (o : fields) : option (string * option ImageDetail) :=
  literal "type" "image_url" o;;
  req "image_url" (p_obj (λ i,
    url ← req "url" p_string i; guard (url ≠ ""%string);;
    detail ← opt "detail" p_detail i; Some (url, detail))) o.

Definition contentPartSchema : json → option ContentPart :=
  p_obj (λ o,
    match field "type" o with
    | Some (JStr "text") => TextPart <$> textContentPartSchema o
    | Some (JStr "image_url") => (λ x, ImagePart x.1 x.2) <$> imageContentPartSchema o
    | _ => None
    end).

Definition messageContentSchema (v : json) : option MessageContent :=
  match v with
  | JStr s => Some (CText s)
  | JArr l => CParts <$> mapM contentPartSchema l
  | _ => None
  end.

Definition textMessageContent (v : json) : option TextContent :=
  match v with
  | JStr s => Some (TText s)
  | JArr l => TParts <$> mapM (p_obj textContentPartSchema) l
  | _ => None
  end.

Definition functionCallSchema (o : fields) : option FunctionCall :=
  name ← req "name" p_string o; arguments ← req "arguments" p_string o;
  Some {| fc_name := name; fc_arguments := arguments |}.

Definition toolCallSchema (o : fields) : option ToolCall :=
  id ← req "id" p_string o; literal "type" "function" o;;
  f ← req "function" (p_obj functionCallSchema) o;
  Some {| tc_id := id; tc_function := f |}.

Definition toolDefinitionSchema (o : fields) : option ToolDefinition :=
  literal "type" "function" o;;
  req "function" (p_obj (λ f,
    name ← req "name" p_string f; guard (name ≠ ""%string);;
    description ← opt "description" p_string f;
    parameters ← opt "parameters" (p_obj Some) f;
    Some {| td_name := name; td_description := description; td_parameters := parameters |})) o.

Definition toolChoiceSchema (v : json) : option ToolChoice :=
  match v with
  | JStr "none" => Some choice_none
  | JStr "auto" => Some choice_auto
  | JStr "required" => Some choice_required
  | JObj o =>
      literal "type" "function" o;;
      choice_function <$> req "function" (p_obj (req "name" p_string)) o
  | _ => None
  end.

Definition systemMessageSchema (o : fields) : option ChatMessage :=
  content ← req "content" textMessageContent o; name ← opt "name" p_string o;
  Some (SystemMessage content name).
Definition userMessageSchema (o : fields) : option ChatMessage :=
  content ← req "content" messageContentSchema o; name ← opt "name" p_string o;
  Some (UserMessage content name).
Definition assistantMessageSchema (o : fields) : option ChatMessage :=
  content ← nopt "content" textMessageContent o; name ← opt "name" p_string o;
  tool_calls ← opt "tool_calls" (p_array (p_obj toolCallSchema)) o;
  Some (AssistantMessage content name tool_calls).
Definition toolMessageSchema (o : fields) : option ChatMessage :=
  content ← req "content" textMessageContent o; id ← req "tool_call_id" p_string o;
  Some (ToolMessage content id).

Definition chatMessageSchema : json → option ChatMessage :=
  p_obj (λ o,
    match field "role" o with
    | Some (JStr "system") => systemMessageSchema o
    | Some (JStr "user") => userMessageSchema o
    | Some (JStr "assistant") => assistantMessageSchema o
    | Some (JStr "tool") => toolMessageSchema o
    | _ => None
    end).

Definition p_stop (v : json) : option Stop :=
  match v with
  | JStr s => Some (StopOne s)
  | JArr l => ss ← mapM p_string l; guard (length ss <= 4)%nat;; Some (StopMany ss)
  | _ => None
  end.

Definition p_format_type (v : json) : option FormatType :=
  match v with
  | JStr "text" => Some fmt_text
  | JStr "json_object" => Some fmt_json_object
  | JStr "json_schema" => Some fmt_json_schema
  | _ => None
  end.

Definition known_keys : list string :=
  ["model"; "messages"; "temperature"; "top_p"; "n"; "stream"; "stream_options"; "stop"; "max_tokens";
   "max_completion_tokens"; "presence_penalty"; "frequency_penalty"; "logit_bias"; "user"; "seed";
   "tools"; "tool_choice"; "response_format"]%string.

(** The fields outside [keys], in order ([.passthrough()]). *)
Definition known (keys : list string) (k : string) : bool := existsb (String.eqb k) keys.
Definition rest_of (keys : list string) (o : fields) : fields :=
  List.filter (λ x, negb (known keys x.1)) o.

Definition chatCompletionRequestSchema (v : json) : option ChatCompletionRequest :=
  p_obj (λ o,
    model ← req "model" (p_string_len 1 256) o;
    messages ← req "messages" (p_array chatMessageSchema) o; guard (messages ≠ []);;
    temperature ← opt "temperature" (p_range 0 2) o;
    top_p ← opt "top_p" (p_range 0 1) o;
    n ← opt "n" (p_int_range 1 (Some 128)) o;
    stream ← opt "stream" p_bool o;
    stream_options ← opt "stream_options" (p_obj (opt "include_usage" p_bool)) o;
    stop ← opt "stop" p_stop o;
    max_tokens ← opt "max_tokens" (p_int_range 1 None) o;
    max_completion_tokens ← opt "max_completion_tokens" (p_int_range 1 None) o;
    presence_penalty ← opt "presence_penalty" (p_range (-2) 2) o;
    frequency_penalty ← opt "frequency_penalty" (p_range (-2) 2) o;
    logit_bias ← opt "logit_bias" (p_record p_num) o;
    user ← opt "user" (p_string_len 0 256) o;
    seed ← opt "seed" p_int o;
    tools ← opt "tools" (p_array (p_obj toolDefinitionSchema)) o;
    tool_choice ← opt "tool_choice" toolChoiceSchema o;
    response_format ← opt "response_format" (p_obj (λ f,
      t ← req "type" p_format_type f; Some (t, rest_of ["type"%string] f))) o;
    Some {| model := model; messages := messages; temperature := temperature; top_p := top_p; n := n;
            stream := stream; stream_options := stream_options; stop := stop; max_tokens := max_tokens;
            max_completion_tokens := max_completion_tokens; presence_penalty := presence_penalty;
            frequency_penalty := frequency_penalty; logit_bias := logit_bias; user := user; seed := seed;
            tools := tools; tool_choice := tool_choice; response_format := response_format;
            extra := rest_of known_keys o |}) v.

(** ** Embedding requests *)

Inductive EmbeddingInput :=
| InText (s : string)
| InTexts (l : list string)
| InTokens (l : list Z)
| InTokenLists (l : list (list Z)).

Record EmbeddingRequest := {
  e_model : string;
  e_input : EmbeddingInput;
  e_encoding_format : option string;
  e_dimensions : option Z;
  e_user : option string;
  e_extra : fields
}.

Definition nonempty {A} (l : list A) : option (list A) := match l with [] => None | _ => Some l end.

(** The union of the four shapes of [input], tried in order. *)
Definition p_embedding_input (v : json) : option EmbeddingInput :=
  match v with
  | JStr s => Some (InText s)
  | JArr l =>
      match mapM p_string l ≫= nonempty, mapM p_int l ≫= nonempty,
            mapM (λ x, p_array p_int x ≫= nonempty) l ≫= nonempty with
      | Some ss, _, _ => Some (InTexts ss)
      | None, Some zs, _ => Some (InTokens zs)
      | None, None, Some ls => Some (InTokenLists ls)
      | None, None, None => None
      end
  | _ => None
  end.

Definition p_encoding (v : json) : option string :=
  match v with JStr "float" => Some "float"%string | JStr "base64" => Some "base64"%string | _ => None end.

Definition embedding_keys : list string := ["model"; "input"; "encoding_format"; "dimensions"; "user"]%string.

Definition embeddingRequestSchema (v : json) : option EmbeddingRequest :=
  p_obj (λ o,
    model ← req "model" (p_string_len 1 256) o;
    input ← req "input" p_embedding_input o;
    encoding_format ← opt "encoding_format" p_encoding o;
    dimensions ← opt "dimensions" (p_int_range 1 None) o;
    user ← opt "user" (p_string_len 0 256) o;
    Some {| e_model := model; e_input := input; e_encoding_format := encoding_format;
            e_dimensions := dimensions; e_user := user; e_extra := rest_of embedding_keys o |}) v.

(** ** Response types *)

Record CompletionUsage := { prompt_tokens : Q; completion_tokens : Q; total_tokens : Q }.

Inductive FinishReason := fr_stop | fr_length | fr_tool_calls | fr_content_filter.

Record ChatCompletionResponseMessage := {
  rm_content : option string; rm_tool_calls : option (list ToolCall)
}.

Record ChatCompletionChoice := {
  ch_index : Z; ch_message : ChatCompletionResponseMessage; ch_finish_reason : option FinishReason
}.

Record ChatCompletionResponse := {
  r_id : string; r_created : Q; r_model : string; r_choices : list ChatCompletionChoice;
  r_usage : CompletionUsage; r_system_fingerprint : option string
}.

Record EmbeddingResponse := {
  er_data : list (Z * json); er_model : string; er_prompt_tokens : Q; er_total_tokens : Q
}.

Definition finish_reason_str (f : FinishReason) : string :=
  match f with
  | fr_stop => "stop" | fr_length => "length" | fr_tool_calls => "tool_calls"
  | fr_content_filter => "content_filter"
  end.

Definition usage_json (u : CompletionUsage) : json :=
  JObj [("prompt_tokens"%string, JNum (prompt_tokens u));
        ("completion_tokens"%string, JNum (completion_tokens u));
        ("total_tokens"%string, JNum (total_tokens u))].

(** ** Requests as JSON *)

Definition detail_json (d : ImageDetail) : json :=
  JStr match d with detail_auto => "auto" | detail_low => "low" | detail_high => "high" end.

Definition text_part_json (s : string) : json :=
  JObj [("type"%string, JStr "text"%string); ("text"%string, JStr s)].

Definition part_json (p : ContentPart) : json :=
  match p with
  | TextPart s => text_part_json s
  | ImagePart url d =>
      JObj [("type"%string, JStr "image_url"%string);
            ("image_url"%string, JObj (("url"%string, JStr url) :: opt_field "detail" (detail_json <$> d)))]
  end.

Definition content_json (c : MessageContent) : json :=
  match c with CText s => JStr s | CParts l => JArr (map part_json l) end.
Definition text_content_json (c : TextContent) : json :=
  match c with TText s => JStr s | TParts l => JArr (map text_part_json l) end.

Definition function_call_json (f : FunctionCall) : json :=
  JObj [("name"%string, JStr (fc_name f)); ("arguments"%string, JStr (fc_arguments f))].
Definition tool_call_json (t : ToolCall) : json :=
  JObj [("id"%string, JStr (tc_id t)); ("type"%string, JStr "function"%string);
        ("function"%string, function_call_json (tc_function t))].
Definition tool_definition_json (t : ToolDefinition) : json :=
  JObj [("type"%string, JStr "function"%string);
        ("function"%string, JObj (("name"%string, JStr (td_name t)) ::
           opt_field "description" (JStr <$> td_description t) ++
           opt_field "parameters" (JObj <$> td_parameters t))%list)].
Definition tool_choice_json (c : ToolChoice) : json :=
  match c with
  | choice_none => JStr "none"
  | choice_auto => JStr "auto"
  | choice_required => JStr "required"
  | choice_function name =>
      JObj [("type"%string, JStr "function"%string);
            ("function"%string, JObj [("name"%string, JStr name)])]
  end.

Definition message_json (m : ChatMessage) : json :=
  JObj (("role"%string, JStr (role m)) ::
    match m with
    | SystemMessage c name =>
        ("content"%string, text_content_json c) :: opt_field "name" (JStr <$> name)
    | UserMessage c name => ("content"%string, content_json c) :: opt_field "name" (JStr <$> name)
    | AssistantMessage c name calls =>
        opt_field "content" ((λ c, match c with Some c => text_content_json c | None => JNull end) <$> c) ++
        opt_field "name" (JStr <$> name) ++
        opt_field "tool_calls" ((λ l, JArr (map tool_call_json l)) <$> calls)
    | ToolMessage c id => [("content"%string, text_content_json c); ("tool_call_id"%string, JStr id)]
    end)%list.

Definition stop_json (s : Stop) : json :=
  match s with StopOne s => JStr s | StopMany l => JArr (map JStr l) end.
Definition format_type_json (t : FormatType) : json :=
  JStr match t with
       | fmt_text => "text" | fmt_json_object => "json_object" | fmt_json_schema => "json_schema"
       end.

(** The fields of a request, in the order the schema lists them. *)
Definition request_fields (r : ChatCompletionRequest) : fields :=
  (("model"%string, JStr (model r)) ::
   ("messages"%string, JArr (map message_json (messages r))) ::
   opt_field "temperature" (JNum <$> temperature r) ++
   opt_field "top_p" (JNum <$> top_p r) ++
   opt_field "n" (jint <$> n r) ++
   opt_field "stream" (JBool <$> stream r) ++
   opt_field "stream_options" ((λ u, JObj (opt_field "include_usage" (JBool <$> u))) <$> stream_options r) ++
   opt_field "stop" (stop_json <$> stop r) ++
   opt_field "max_tokens" (jint <$> max_tokens r) ++
   opt_field "max_completion_tokens" (jint <$> max_completion_tokens r) ++
   opt_field "presence_penalty" (JNum <$> presence_penalty r) ++
   opt_field "frequency_penalty" (JNum <$> frequency_penalty r) ++
   opt_field "logit_bias" ((λ l, JObj (map (λ x, (x.1, JNum x.2)) l)) <$> logit_bias r) ++
   opt_field "user" (JStr <$> user r) ++
   opt_field "seed" (jint <$> seed r) ++
   opt_field "tools" ((λ l, JArr (map tool_definition_json l)) <$> tools r) ++
   opt_field "tool_choice" (tool_choice_json <$> tool_choice r) ++
   opt_field "response_format" ((λ f, JObj (("type"%string, format_type_json f.1) :: f.2)) <$> response_format r) ++
   extra r)%list.

(** ** Validation and serialisation are inverse *)

Lemma mapM_map_some {A B} (f : A → B) (p : B → option A) l :
  (∀ x, x ∈ l → p (f x) = Some x) → mapM p (map f l) = Some l.
Proof.
  induction l as [|x l IH]; intros H; [done |]. simpl. rewrite H by (by left). simpl.
  rewrite IH; [done |]. intros y Hy. apply H. by right.
Qed.

Lemma mapM_map_to {A B C} (f : A → B) (p : B → option C) (g : A → C) l :
  (∀ x, p (f x) = Some (g x)) → mapM p (map f l) = Some (map g l).
Proof. intros H. induction l as [|x l IH]; [done |]. simpl. by rewrite H; simpl; rewrite IH. Qed.

Lemma mapM_mono_all {A B} (p : A → option B) (P : B → Prop) l l' :
  (∀ x y, p x = Some y → P y) → mapM p l = Some l' → ∀ y, y ∈ l' → P y.
Proof.
  intros Hp E y Hy. apply mapM_Some_1 in E. induction E as [|x z l l' Hx E IH]; [by apply elem_of_nil in Hy |].
  apply elem_of_cons in Hy as [-> | Hy]; [by apply (Hp x) | by apply IH].
Qed.

Lemma to_int_of_Z z : to_int (inject_Z z) = Some z.
Proof. unfold to_int. rewrite Qfloor_Z, (proj2 (Qeq_bool_iff _ _)); done. Qed.
Lemma to_int_spec q z : to_int q = Some z ↔ (q == inject_Z z)%Q.
Proof.
  unfold to_int. destruct (Qeq_bool q (inject_Z (Qfloor q))) eqn:E; split.
  - intros [= <-]. by apply Qeq_bool_iff.
  - intros H. f_equal. by rewrite (Qfloor_comp _ _ H), Qfloor_Z.
  - done.
  - intros H. apply Qeq_bool_neq in E. destruct E. by rewrite (Qfloor_comp _ _ H), Qfloor_Z.
Qed.
Lemma p_int_jint z : p_int (jint z) = Some z.
Proof. apply to_int_of_Z. Qed.

Lemma field_opt k k' v o :
  field k (opt_field k' v ++ o)%list =
  if String.eqb k k' then match v with Some x => Some x | None => field k o end else field k o.
Proof. destruct v; simpl; by destruct (String.eqb k k'). Qed.

Lemma filter_opt keys k v o : known keys k = true →
  rest_of keys (opt_field k v ++ o)%list = rest_of keys o.
Proof. intros Hk. destruct v; simpl; by rewrite ?Hk. Qed.

Lemma filter_known keys k v o : known keys k = true → rest_of keys ((k, v) :: o) = rest_of keys o.
Proof. intros Hk. simpl. by rewrite Hk. Qed.

(** The fields a schema leaves alone. *)
Definition fresh_fields (keys : list string) (o : fields) : Prop := rest_of keys o = o.

Lemma rest_of_idem keys o : fresh_fields keys (rest_of keys o).
Proof.
  unfold fresh_fields, rest_of. induction o as [|x o IH]; [done |]. simpl.
  destruct (negb (known keys x.1)) eqn:E; simpl; [by rewrite E, IH | done].
Qed.

Lemma field_fresh keys k o : fresh_fields keys o → known keys k = true → field k o = None.
Proof.
  unfold fresh_fields, rest_of. intros Hf Hk.
  assert (Hall : ∀ x, x ∈ o → known keys x.1 = false).
  { intros x Hx. rewrite <- Hf in Hx. apply list_elem_of_In, filter_In in Hx as [_ Hx]. by apply negb_true_iff. }
  clear Hf. induction o as [|[k' v] o IH]; [done |]. simpl. destruct (String.eqb_spec k k') as [-> |].
  - specialize (Hall (k', v) ltac:(by left)). simpl in Hall. congruence.
  - apply IH. intros x Hx. apply Hall. by right.
Qed.

(** Round trips of the parts. *)
Lemma text_part_roundtrip s : p_obj textContentPartSchema (text_part_json s) = Some s.
Proof. done. Qed.

Definition part_ok (p : ContentPart) : Prop := match p with ImagePart url _ => url ≠ ""%string | _ => True end.

Lemma part_roundtrip p : part_ok p → contentPartSchema (part_json p) = Some p.
Proof.
  destruct p as [s | url d]; [done |]. simpl. intros Hu.
  unfold contentPartSchema, imageContentPartSchema, req. simpl. rewrite option_guard_True by done.
  by destruct d as [[]|].
Qed.

Definition content_ok (c : MessageContent) : Prop :=
  match c with CParts l => ∀ p, p ∈ l → part_ok p | _ => True end.

Lemma content_roundtrip c : content_ok c → messageContentSchema (content_json c) = Some c.
Proof.
  destruct c as [s | l]; [done |]. simpl. intros Hl. rewrite mapM_map_some; [done |].
  intros p Hp. by apply part_roundtrip, Hl.
Qed.

Lemma text_content_roundtrip c : textMessageContent (text_content_json c) = Some c.
Proof. destruct c as [s | l]; [done |]. simpl. by rewrite mapM_map_some. Qed.

Lemma tool_call_roundtrip t : p_obj toolCallSchema (tool_call_json t) = Some t.
Proof. by destruct t as [i [a b]]. Qed.

Lemma tool_calls_roundtrip l : p_array (p_obj toolCallSchema) (JArr (map tool_call_json l)) = Some l.
Proof. simpl. apply mapM_map_some. intros. apply tool_call_roundtrip. Qed.

Lemma tool_definition_roundtrip t : td_name t ≠ ""%string →
  p_obj toolDefinitionSchema (tool_definition_json t) = Some t.
Proof.
  destruct t as [name d p]. simpl. intros Hn. unfold toolDefinitionSchema, req. simpl.
  rewrite option_guard_True by done. by destruct d, p.
Qed.

Lemma tool_choice_roundtrip c : toolChoiceSchema (tool_choice_json c) = Some c.
Proof. by destruct c. Qed.

Definition message_ok (m : ChatMessage) : Prop :=
  match m with UserMessage c _ => content_ok c | _ => True end.

Lemma message_roundtrip m : message_ok m → chatMessageSchema (message_json m) = Some m.
Proof.
  destruct m as [c name | c name | c name calls | c i]; intros Hm; simpl in Hm;
    cbn [message_json chatMessageSchema p_obj role].
  - cbn. unfold systemMessageSchema, req, opt. cbn. rewrite text_content_roundtrip. by destruct name.
  - cbn. unfold userMessageSchema, req, opt. cbn. rewrite content_roundtrip by done. by destruct name.
  - cbn. unfold assistantMessageSchema, opt, nopt. cbn. rewrite !field_opt.
    cbn [String.eqb Ascii.eqb Bool.eqb].
    assert (Hc : ∀ o, field "content" o = None →
      match match ((λ c, match c with Some c => text_content_json c | None => JNull end) <$> c) with
            | Some x => Some x | None => field "content" o end with
      | Some JNull => Some (Some None)
      | Some v => (λ a, Some (Some a)) <$> textMessageContent v
      | None => Some None end = Some c).
    { intros o Ho. destruct c as [[c|]|]; simpl; [| done | by rewrite Ho].
      pose proof (text_content_roundtrip c) as E. destruct (text_content_json c) eqn:E'; simpl in *; try done; by rewrite E. }
    rewrite Hc by (by destruct name, calls). cbn.
    destruct name as [s|], calls as [l|]; cbn; try done; by rewrite mapM_map_some by (intros; apply tool_call_roundtrip).
  - cbn. unfold toolMessageSchema, req. cbn. by rewrite text_content_roundtrip.
Qed.

(** [stable p f]: what the validator [p] accepts is accepted again, unchanged,
    when it is written back by [f]. *)
Definition stable {A} (p : json → option A) (f : A → json) : Prop :=
  ∀ v y, p v = Some y → p (f y) = Some y.

Lemma stable_array {A} (p : json → option A) f : stable p f → stable (p_array p) (λ l, JArr (map f l)).
Proof.
  intros Hs v l E. destruct v as [| | | |vs|]; try done. simpl in *. apply mapM_map_some.
  exact (mapM_mono_all p (λ y, p (f y) = Some y) vs l (λ x y, Hs x y) E).
Qed.

Lemma stable_strlen lo hi : stable (p_string_len lo hi) JStr.
Proof.
  intros v s E. destruct v as [| | |t| |]; try done. unfold p_string_len in *. cbn [p_string] in *. simpl in E |- *.
  case_guard as Hg; [|done]. injection E as ->. by rewrite option_guard_True.
Qed.

Lemma stable_range lo hi : stable (p_range lo hi) JNum.
Proof.
  intros v q E. destruct v as [| |q'| | |]; try done. unfold p_range in *. simpl in E |- *.
  case_guard as Hg; [|done]. injection E as ->. by rewrite option_guard_True.
Qed.

Lemma stable_int : stable p_int jint.
Proof. intros v z _. apply p_int_jint. Qed.

Lemma stable_int_range lo hi : stable (p_int_range lo hi) jint.
Proof.
  intros v z E. unfold p_int_range in *. rewrite p_int_jint. destruct (p_int v) as [z'|]; [|done].
  simpl in E |- *. case_guard as Hg; [|done]. injection E as ->. by rewrite option_guard_True.
Qed.

Lemma stable_bool : stable p_bool JBool.
Proof. by intros [] y E. Qed.

Lemma stable_stop : stable p_stop stop_json.
Proof.
  intros v s E. destruct v as [| | |t|l|]; try done; simpl in E; [by simplify_eq |].
  destruct (mapM p_string l) as [ss|] eqn:El; [|done]. simpl in E. case_guard; [|done]. simplify_eq/=.
  rewrite mapM_map_some by done. simpl. by rewrite option_guard_True.
Qed.

Lemma stable_logit_bias : stable (p_record p_num) (λ l, JObj (map (λ x, (x.1, JNum x.2)) l)).
Proof. intros v l _. simpl. apply mapM_map_some. by intros []. Qed.

Lemma stable_stream_options :
  stable (p_obj (opt "include_usage" p_bool)) (λ u, JObj (opt_field "include_usage" (JBool <$> u))).
Proof. intros v [b|] _; done. Qed.

Lemma stable_tool_choice : stable toolChoiceSchema tool_choice_json.
Proof. intros v c _. apply tool_choice_roundtrip. Qed.

Lemma tool_definition_named v t : p_obj toolDefinitionSchema v = Some t → td_name t ≠ ""%string.
Proof.
  destruct v as [| | | | |o]; try done. cbn [p_obj]. unfold toolDefinitionSchema.
  destruct (literal "type" "function" o); [|done]. simpl. unfold req at 1. destruct (field "function" o) as [[| | | | |f]|]; try done.
  simpl. destruct (req "name" p_string f) as [nm|]; [|done]. simpl. case_guard as Hg; [|done]. simpl.
  destruct (opt "description" p_string f); [|done]. simpl. destruct (opt "parameters" (p_obj Some) f); [|done].
  simpl. by intros [= <-].
Qed.

Lemma stable_tools : stable (p_array (p_obj toolDefinitionSchema)) (λ l, JArr (map tool_definition_json l)).
Proof.
  apply stable_array. intros v t E. by eapply tool_definition_roundtrip, tool_definition_named.
Qed.

Lemma part_parse_ok v p : contentPartSchema v = Some p → part_ok p.
Proof.
  destruct p as [|url d]; [done |]. destruct v as [| | | | |o]; try done. unfold contentPartSchema. cbn [p_obj].
  destruct (field "type" o) as [[| | |s| |]|]; try done.
  repeat (destruct s as [|[[] [] [] [] [] [] [] []] s]; try done).
  - unfold imageContentPartSchema. destruct (literal _ _ _); [|done]. simpl. unfold req at 1.
    destruct (field "image_url" o) as [[| | | | |i]|]; try done. simpl.
    destruct (req "url" p_string i) as [url'|]; [|done]. simpl. case_guard as Hg; [|done]. simpl.
    destruct (opt "detail" p_detail i); [|done]. by intros [= <- <-].
  - by destruct (textContentPartSchema o).
Qed.

Lemma message_parse_ok v m : chatMessageSchema v = Some m → message_ok m.
Proof.
  destruct m as [|c nm| |]; try done. destruct v as [| | | | |o]; try done. unfold chatMessageSchema. cbn [p_obj].
  destruct (field "role" o) as [[| | |s| |]|]; try done.
  repeat (destruct s as [|[[] [] [] [] [] [] [] []] s]; try done).
  all: try (unfold systemMessageSchema; destruct (req "content" textMessageContent o); [|done]; simpl;
    by destruct (opt "name" p_string o)).
  all: try (unfold assistantMessageSchema; destruct (nopt "content" textMessageContent o); [|done]; simpl;
    destruct (opt "name" p_string o); [|done]; simpl; by destruct (opt "tool_calls" _ o)).
  all: try (unfold toolMessageSchema; destruct (req "content" textMessageContent o); [|done]; simpl;
    by destruct (req "tool_call_id" p_string o)).
  unfold userMessageSchema, req. destruct (field "content" o) as [v|]; [|done]. simpl.
  destruct (messageContentSchema v) as [c'|] eqn:E; [|done]. simpl. destruct (opt _ _ _); [|done].
  intros [= -> ->]. destruct v as [| | |s|l|]; try done; simpl in E; [by simplify_eq |].
  destruct (mapM contentPartSchema l) as [ps|] eqn:El; [|done]. simplify_eq/=.
  exact (mapM_mono_all contentPartSchema part_ok l ps part_parse_ok El).
Qed.

Lemma stable_messages : stable (p_array chatMessageSchema) (λ l, JArr (map message_json l)).
Proof. apply stable_array. intros v m E. by eapply message_roundtrip, message_parse_ok. Qed.

Lemma stable_format :
  stable (p_obj (λ f, t ← req "type" p_format_type f; Some (t, rest_of ["type"%string] f)))
         (λ f, JObj (("type"%string, format_type_json f.1) :: f.2)).
Proof.
  intros v [t fs] E. destruct v as [| | | | |o]; try done. cbn [p_obj] in E |- *.
  destruct (req "type" p_format_type o) as [t'|]; [|done]. simpl in E. injection E as -> <-.
  assert (Ht : req "type" p_format_type (("type"%string, format_type_json t) :: rest_of ["type"%string] o) = Some t)
    by (by destruct t).
  cbn [fst snd]. rewrite Ht. simpl. do 2 f_equal. apply rest_of_idem.
Qed.

(** Reading an optional field back. *)
Lemma opt_stable {A} k (p : json → option A) f o o' ov :
  stable p f → opt k p o = Some ov → field k o' = f <$> ov → opt k p o' = Some ov.
Proof.
  intros Hs E Hf. unfold opt in *. rewrite Hf. destruct ov as [y|]; simpl; [|done].
  destruct (field k o) as [v|]; [|done]. destruct (p v) as [y'|] eqn:Ep; [|done].
  simplify_eq/=. by rewrite (Hs v y Ep).
Qed.

Lemma req_stable {A} k (p : json → option A) f o o' y :
  stable p f → req k p o = Some y → field k o' = Some (f y) → req k p o' = Some y.
Proof.
  intros Hs E Hf. unfold req in *. rewrite Hf. simpl. destruct (field k o) as [v|]; [|done]. by apply (Hs v).
Qed.

Section RequestFields.
Variable r : ChatCompletionRequest.
Hypothesis extra_fresh : fresh_fields known_keys (extra r).

Ltac find_field :=
  unfold request_fields; cbn [field String.eqb Ascii.eqb Bool.eqb];
  repeat (rewrite field_opt; cbn [String.eqb Ascii.eqb Bool.eqb]);
  first [ done | rewrite (field_fresh known_keys) by done; by case_match ].

Lemma request_field_lookups :
  field "model" (request_fields r) = Some (JStr (model r)) ∧
  field "messages" (request_fields r) = Some (JArr (map message_json (messages r))) ∧
  field "temperature" (request_fields r) = JNum <$> temperature r ∧
  field "top_p" (request_fields r) = JNum <$> top_p r ∧
  field "n" (request_fields r) = jint <$> n r ∧
  field "stream" (request_fields r) = JBool <$> stream r ∧
  field "stream_options" (request_fields r) =
    (λ u, JObj (opt_field "include_usage" (JBool <$> u))) <$> stream_options r ∧
  field "stop" (request_fields r) = stop_json <$> stop r ∧
  field "max_tokens" (request_fields r) = jint <$> max_tokens r ∧
  field "max_completion_tokens" (request_fields r) = jint <$> max_completion_tokens r ∧
  field "presence_penalty" (request_fields r) = JNum <$> presence_penalty r ∧
  field "frequency_penalty" (request_fields r) = JNum <$> frequency_penalty r ∧
  field "logit_bias" (request_fields r) = (λ l, JObj (map (λ x, (x.1, JNum x.2)) l)) <$> logit_bias r ∧
  field "user" (request_fields r) = JStr <$> user r ∧
  field "seed" (request_fields r) = jint <$> seed r ∧
  field "tools" (request_fields r) = (λ l, JArr (map tool_definition_json l)) <$> tools r ∧
  field "tool_choice" (request_fields r) = tool_choice_json <$> tool_choice r ∧
  field "response_format" (request_fields r) =
    (λ f, JObj (("type"%string, format_type_json f.1) :: f.2)) <$> response_format r.
Proof using extra_fresh. split_and!; find_field. Qed.

Lemma request_fields_extra : rest_of known_keys (request_fields r) = extra r.
Proof using extra_fresh.
  unfold request_fields. rewrite !filter_known by done. repeat rewrite filter_opt by done. done.
Qed.
End RequestFields.

Ltac read_back H S F := rewrite (opt_stable _ _ _ _ _ _ S H F); cbn [mbind option_bind].

(** What the gateway accepts validates again, to the same typed request, after
    it has been written back: no bound, default or unknown parameter is lost or
    changed on the way through. *)
Lemma validated_again v r :
  chatCompletionRequestSchema v = Some r →
  chatCompletionRequestSchema (JObj (request_fields r)) = Some r.
Proof.
  intros E. destruct v as [| | | | |o]; try done. unfold chatCompletionRequestSchema in *. cbn [p_obj] in *.
  repeat (apply bind_Some in E as (?x & ?E & E)). injection E as <-.
  match goal with |- context [request_fields ?r] => set (r0 := r) end.
  destruct (request_field_lookups r0 (rest_of_idem known_keys o)) as
    (F1 & F2 & F3 & F4 & F5 & F6 & F7 & F8 & F9 & F10 & F11 & F12 & F13 & F14 & F15 & F16 & F17 & F18).
  rewrite (req_stable _ _ _ _ _ _ (stable_strlen 1 256) E0 F1); cbn [mbind option_bind].
  rewrite (req_stable _ _ _ _ _ _ stable_messages E1 F2); cbn [mbind option_bind].
  rewrite E2. cbn [mbind option_bind].
  read_back E3 (stable_range 0 2) F3. read_back E4 (stable_range 0 1) F4.
  read_back E5 (stable_int_range 1 (Some 128)) F5. read_back E6 stable_bool F6.
  read_back E7 stable_stream_options F7. read_back E8 stable_stop F8.
  read_back E9 (stable_int_range 1 None) F9. read_back E10 (stable_int_range 1 None) F10.
  read_back E11 (stable_range (-2) 2) F11. read_back E12 (stable_range (-2) 2) F12.
  read_back E13 stable_logit_bias F13. read_back E14 (stable_strlen 0 256) F14.
  read_back E15 stable_int F15. read_back E16 stable_tools F16.
  read_back E17 stable_tool_choice F17. read_back E18 stable_format F18.
  f_equal. rewrite (request_fields_extra r0 (rest_of_idem known_keys o)). done.
Qed.


Definition sample_request : json :=
  JObj [("model"%string, JStr "gpt-4o"%string);
        ("messages"%string, JArr [JObj [("role"%string, JStr "user"%string); ("content"%string, JStr "hi"%string)]]);
        ("temperature"%string, JNum (1 # 2)); ("vendor"%string, JBool true)].


(** Validation sees an object through its named fields and the others' order. *)
Lemma schema_ext o o' :
  (∀ k, known known_keys k = true → field k o = field k o') → rest_of known_keys o = rest_of known_keys o' →
  chatCompletionRequestSchema (JObj o) = chatCompletionRequestSchema (JObj o').
Proof.
  intros Hf Hr. unfold chatCompletionRequestSchema. cbn [p_obj].
  unfold req, opt. rewrite Hr. by rewrite !Hf by done.
Qed.

(** What every accepted request satisfies. *)
Lemma accepted_messages v r : chatCompletionRequestSchema v = Some r → Forall message_ok (messages r).
Proof.
  destruct v as [| | | | |o]; try done. unfold chatCompletionRequestSchema. cbn [p_obj]. intros E.
  repeat (apply bind_Some in E as (?x & ?E & E)). injection E as <-. cbn [messages].
  unfold req in E1. destruct (field "messages" o) as [[| | | |l|]|]; try done. simpl in E1.
  apply list.Forall_forall. intros m Hm. exact (mapM_mono_all _ message_ok _ _ message_parse_ok E1 m Hm).
Qed.

Lemma accepted_tools v r : chatCompletionRequestSchema v = Some r →
  match tools r with Some l => Forall (λ t, td_name t ≠ ""%string) l | None => True end.
Proof.
  destruct v as [| | | | |o]; try done. unfold chatCompletionRequestSchema. cbn [p_obj]. intros E.
  repeat (apply bind_Some in E as (?x & ?E & E)). injection E as <-. cbn [tools].
  match goal with H : opt "tools" _ o = Some ?t |- _ => destruct t as [ts|]; [| done]; rename H into Ht end.
  unfold opt in Ht. destruct (field "tools" o) as [[| | | |l|]|]; try done.
  cbn [p_array] in Ht. destruct (mapM _ l) as [ts'|] eqn:El; [| done]. injection Ht as ->.
  apply list.Forall_forall. intros t Ht. exact (mapM_mono_all _ (λ t, td_name t ≠ ""%string) _ _ tool_definition_named El t Ht).
Qed.

Lemma tools_roundtrip l : Forall (λ t, td_name t ≠ ""%string) l →
  p_array (p_obj toolDefinitionSchema) (JArr (map tool_definition_json l)) = Some l.
Proof.
  intros H. apply mapM_map_some. intros t Ht. apply tool_definition_roundtrip. rewrite list.Forall_forall in H. by apply H.
Qed.
