(* ===== verification/Crypto.v ===== *)
(** * Cryptographic primitives ([src/utils/crypto.ts])

    The versioned envelope around AES-256-GCM, decryption under the current and
    the previous master key, API key generation, and the wrappers of Node's
    hashing, comparison and random source, which are parameters.  A string is
    its UTF-8 bytes. *)

From Stdlib Require Import ZArith Lia QArith Qround String Ascii.
From stdpp Require Import base strings list option.
From S2P Require Import Prelude Numerals Bytes Json Errors Types.
Open Scope Z_scope.

Definition ENVELOPE_VERSION : string := "v1".
Definition ALGORITHM : string := "aes-256-gcm".
Definition IV_BYTES : nat := 12.
Definition AUTH_TAG_BYTES : nat := 16.
Definition MASTER_KEY_BYTES : nat := 32.
Definition API_KEY_RANDOM_BYTES : nat := 16.

Definition CryptoError (message : string) : thrown := TError "CryptoError" message [].

Definition utf8 (s : string) : Buffer := list_byte_of_string s.
Definition of_utf8 (b : Buffer) : string := string_of_list_byte b.

Definition nat_str (n : nat) : string := dec (Z.of_nat n).

Definition assertKeyLength (key : Buffer) : result thrown unit :=
  if (length key =? MASTER_KEY_BYTES)%nat then Ok tt
  else Err (CryptoError ("Key must be " ++ nat_str MASTER_KEY_BYTES ++ " bytes for " ++ ALGORITHM ++ ".")).

(** The constants computed when the module loads. *)
Definition MASTER_KEY (ENCRYPTION_KEY : string) : result thrown Buffer :=
  let key := of_hex ENCRYPTION_KEY in
  if (length key =? MASTER_KEY_BYTES)%nat then Ok key
  else Err (CryptoError ("ENCRYPTION_KEY must decode to " ++ nat_str MASTER_KEY_BYTES ++ " bytes, got " ++
                         nat_str (length key) ++ ".")).
Definition PREVIOUS_MASTER_KEY (ENCRYPTION_KEY_PREVIOUS : option string) : option Buffer :=
  of_hex <$> ENCRYPTION_KEY_PREVIOUS.

(** AES-256-GCM: sealing under a key and an IV gives a ciphertext and a tag;
    opening gives the plaintext, or fails when the tag does not verify. *)
Class Cipher := {
  seal : Buffer → Buffer → Buffer → Buffer * Buffer;
  unseal : Buffer → Buffer → Buffer → Buffer → option Buffer
}.

(** What authenticated encryption promises of keys and IVs of its lengths. *)
Class LawfulCipher `{Cipher} := {
  tag_length key iv plain : length (seal key iv plain).2 = AUTH_TAG_BYTES;
  unseal_seal key iv plain :
    length key = MASTER_KEY_BYTES → length iv = IV_BYTES →
    unseal key iv (seal key iv plain).2 (seal key iv plain).1 = Some plain
}.

Section Crypto.
Context `{Cipher}.

(** [encrypt], with the IV that [randomBytes] returned. *)
Definition encrypt (iv : Buffer) (plaintext : string) (key : Buffer) : result thrown string :=
  let! _ := assertKeyLength key in
  let '(ciphertext, authTag) := seal key iv (utf8 plaintext) in
  Ok (join "." [ENVELOPE_VERSION; to_base64url iv; to_base64url authTag; to_base64url ciphertext]).

Definition malformed (m : string) : thrown := CryptoError ("Malformed ciphertext envelope: " ++ m).
Definition decryption_failed : thrown := CryptoError "Decryption failed: wrong key or tampered ciphertext.".

Definition decryptWithKey (envelope : string) (key : Buffer) : result thrown string :=
  let! _ := assertKeyLength key in
  match split_on "." envelope with
  | [version; ivB64; tagB64; ctB64] =>
      if negb (String.eqb version ENVELOPE_VERSION)
      then Err (CryptoError ("Unsupported ciphertext version: " ++ version ++ "."))
      else
        let iv := of_base64url ivB64 in
        let authTag := of_base64url tagB64 in
        let ciphertext := of_base64url ctB64 in
        if negb ((length iv =? IV_BYTES)%nat && (length authTag =? AUTH_TAG_BYTES)%nat)
        then Err (malformed "bad IV or auth tag length.")
        else match unseal key iv authTag ciphertext with
             | Some plain => Ok (of_utf8 plain)
             | None => Err decryption_failed
             end
  | _ => Err (malformed "expected 4 segments.")
  end.

(** The [catch] of [decryptWithKeys]: rethrow what no other key can fix. *)
Definition fatal (e : thrown) : bool :=
  match e with
  | TError "CryptoError" m _ => negb (starts_with "Decryption failed" m)
  | _ => false
  end.

Fixpoint decrypt_loop (envelope : string) (keys : list Buffer) (lastError : option thrown) : result thrown string :=
  match keys with
  | [] => Err (match lastError with
               | Some (TValue _) | None => CryptoError "Decryption failed."
               | Some e => e
               end)
  | candidate :: keys' =>
      match decryptWithKey envelope candidate with
      | Ok s => Ok s
      | Err e => if fatal e then Err e else decrypt_loop envelope keys' (Some e)
      end
  end.
Definition decryptWithKeys (envelope : string) (keys : list Buffer) : result thrown string :=
  decrypt_loop envelope keys None.

Definition decrypt (master : Buffer) (previous : option Buffer) (envelope : string) (key : option Buffer)
    : result thrown string :=
  match key with
  | Some key => decryptWithKey envelope key
  | None => decryptWithKeys envelope (master :: option_list previous)
  end.
End Crypto.

(** ** Hashing, keys, comparison, randomness *)

Section Hashing.
(** SHA-256 of a string's bytes; [crypto.timingSafeEqual]; [crypto.randomInt]. *)
Variable sha256 : Buffer → Buffer.
Variable randomInt : Z → Z.

Definition sha256Hex (input : string) : string := to_hex (sha256 (utf8 input)).
Definition hashApiKey (rawKey : string) : string := sha256Hex rawKey.

(** With the bytes that [randomBytes] returned. *)
Definition generateApiKey (random : Buffer) : string * string :=
  let raw := ("gw-" ++ to_hex random)%string in (raw, hashApiKey raw).
Definition generateMasterKey (random : Buffer) : string := to_hex random.

(** Node's comparison throws on buffers of different lengths. *)
Definition nodeTimingSafeEqual (a b : Buffer) : result thrown bool :=
  if (length a =? length b)%nat then Ok (bool_decide (a = b))
  else Err (TError "RangeError" "Input buffers must have the same byte length" []).

Definition timingSafeEqual (a b : string) : result thrown bool :=
  nodeTimingSafeEqual (sha256 (utf8 a)) (sha256 (utf8 b)).

Definition secureRandomInt (maxExclusive : Q) : result thrown Z :=
  match to_int maxExclusive with
  | Some m => if m <? 1 then Err (CryptoError "secureRandomInt requires a positive integer bound.") else Ok (randomInt m)
  | None => Err (CryptoError "secureRandomInt requires a positive integer bound.")
  end.
End Hashing.

(** ** Envelopes *)

Lemma utf8_roundtrip s : of_utf8 (utf8 s) = s.
Proof.
  unfold of_utf8, utf8, string_of_list_byte, list_byte_of_string. rewrite map_map.
  rewrite (map_ext _ id) by apply ascii_of_byte_of_ascii. by rewrite map_id, string_of_list_ascii_of_string.
Qed.

Section Envelopes.
Context `{C : Cipher} `{L : !LawfulCipher}.

Definition envelope (key iv : Buffer) (plaintext : string) : string :=
  join "." [ENVELOPE_VERSION; to_base64url iv; to_base64url (seal key iv (utf8 plaintext)).2;
            to_base64url (seal key iv (utf8 plaintext)).1].

Lemma encrypt_envelope key iv plaintext : length key = MASTER_KEY_BYTES →
  encrypt iv plaintext key = Ok (envelope key iv plaintext).
Proof using.
  intros Hk. unfold encrypt, assertKeyLength, envelope. rewrite Hk. simpl. by destruct (seal key iv (utf8 plaintext)).
Qed.

Lemma envelope_segments key iv plaintext :
  split_on "." (envelope key iv plaintext) =
    [ENVELOPE_VERSION; to_base64url iv; to_base64url (seal key iv (utf8 plaintext)).2;
     to_base64url (seal key iv (utf8 plaintext)).1].
Proof using.
  unfold envelope. set (t := to_base64url _.2). set (c := to_base64url _.1).
  change (join "." [ENVELOPE_VERSION; to_base64url iv; t; c]) with
    (ENVELOPE_VERSION ++ String "." (to_base64url iv ++ String "." (t ++ String "." c)))%string.
  rewrite split_on_app by done. rewrite split_on_app by apply to_base64url_no_dot.
  rewrite split_on_app by apply to_base64url_no_dot. by rewrite split_on_no_char by apply to_base64url_no_dot.
Qed.

(** Decrypting an envelope is opening its contents. *)
Lemma decrypt_envelope key key' iv plaintext : length key = MASTER_KEY_BYTES → length iv = IV_BYTES →
  decryptWithKey (envelope key' iv plaintext) key =
    match unseal key iv (seal key' iv (utf8 plaintext)).2 (seal key' iv (utf8 plaintext)).1 with
    | Some plain => Ok (of_utf8 plain)
    | None => Err decryption_failed
    end.
Proof using L.
  intros Hk Hi. unfold decryptWithKey, assertKeyLength. rewrite Hk. cbn [res_bind]. rewrite Nat.eqb_refl. cbn [res_bind].
  rewrite envelope_segments, !of_to_base64url, Hi, tag_length. done.
Qed.

Lemma decrypt_own key iv plaintext : length key = MASTER_KEY_BYTES → length iv = IV_BYTES →
  decryptWithKey (envelope key iv plaintext) key = Ok plaintext.
Proof using L. intros Hk Hi. by rewrite decrypt_envelope, unseal_seal, utf8_roundtrip. Qed.
End Envelopes.

(** C30: A stored credential can be read back, across a key rotation. Under keys
    of the right length, [encrypt] succeeds; its envelope decrypts to the very
    plaintext with its own key, and with the configured keys while its key is
    the current one, or the previous one and the current key's authentication
    fails on it. *)
Theorem envelope_roundtrip `{LawfulCipher} master previous key iv plaintext :
  length master = MASTER_KEY_BYTES → length iv = IV_BYTES → length key = MASTER_KEY_BYTES →
  key = master ∨ previous = Some key ∧ unseal master iv (seal key iv (utf8 plaintext)).2 (seal key iv (utf8 plaintext)).1 = None →
  ∃ text, encrypt iv plaintext key = Ok text ∧
    decrypt master previous text (Some key) = Ok plaintext ∧
    decrypt master previous text None = Ok plaintext.
Proof.
  intros Hm Hi Hk Hcase. exists (envelope key iv plaintext).
  split; [by apply encrypt_envelope |]. split; [by apply decrypt_own |].
  unfold decrypt, decryptWithKeys. cbn [decrypt_loop].
  destruct Hcase as [-> | [-> Hfail]]; [by rewrite decrypt_own |].
  rewrite decrypt_envelope, Hfail by done. change (fatal decryption_failed) with false.
  change (option_list (Some key)) with [key]. cbn [decrypt_loop]. by rewrite decrypt_own.
Qed.

(** A toy authenticated cipher: the tag is the key's first sixteen bytes, the
    ciphertext the plaintext. *)
#[export] Instance toy_cipher : Cipher := {
  seal key iv plain := (plain, resize AUTH_TAG_BYTES Byte.x00 key);
  unseal key iv tag ct := if bool_decide (tag = resize AUTH_TAG_BYTES Byte.x00 key) then Some ct else None
}.
#[export] Instance toy_lawful : LawfulCipher.
Proof. split; intros; [apply length_resize |]. simpl. by rewrite bool_decide_true. Qed.

Definition key_of (b : Byte.byte) : Buffer := replicate MASTER_KEY_BYTES b.
Definition iv_of (b : Byte.byte) : Buffer := replicate IV_BYTES b.

Lemma envelope_roundtrip_witness :
  ∃ text, encrypt (iv_of Byte.x07) "sk-secret" (key_of Byte.x01) = Ok text ∧
    decrypt (key_of Byte.x02) (Some (key_of Byte.x01)) text (Some (key_of Byte.x01)) = Ok "sk-secret"%string ∧
    decrypt (key_of Byte.x02) (Some (key_of Byte.x01)) text None = Ok "sk-secret"%string.
Proof.
  apply (envelope_roundtrip (key_of Byte.x02) (Some (key_of Byte.x01)) (key_of Byte.x01) (iv_of Byte.x07) "sk-secret");
    [reflexivity | reflexivity | reflexivity |]. right. split; vm_compute; reflexivity.
Defined.

(** ** Which key decrypts *)

Lemma decrypt_error_fatal `{Cipher} text key e :
  decryptWithKey text key = Err e → e = decryption_failed ∨ fatal e = true.
Proof.
  unfold decryptWithKey, assertKeyLength. destruct (_ =? _)%nat; cbn [res_bind]; [| by intros [= <-]; right].
  destruct (split_on "." text) as [|v [|i [|t [|c [|]]]]]; try (by intros [= <-]; right).
  destruct (negb _); [by intros [= <-]; right |]. destruct (negb _); [by intros [= <-]; right |].
  destruct (unseal _ _ _ _); [done |]. by intros [= <-]; left.
Qed.

(** The outcome of trying keys in turn. *)
Definition tried `{Cipher} (text : string) (keys : list Buffer) (r : result thrown string) : Prop :=
  ∃ pre post, keys = (pre ++ post)%list ∧ Forall (λ k, decryptWithKey text k = Err decryption_failed) pre ∧
    match r, post with
    | Ok s, k :: _ => decryptWithKey text k = Ok s
    | Err e, k :: _ => decryptWithKey text k = Err e ∧ fatal e = true
    | Err e, [] => e = match keys with [] => CryptoError "Decryption failed." | _ => decryption_failed end
    | Ok _, [] => False
    end.

(** Decryption fails closed and fails fast. Keys are tried in order; the
    result is that of the first key whose authentication succeeds, and a key is
    passed over only on an authentication failure. A malformed envelope, an
    unknown version, a wrong IV, tag or key length is reported at the first key
    that meets it, and no other key is tried. *)
Theorem decrypt_first_key `{Cipher} text keys : tried text keys (decryptWithKeys text keys).
Proof.
  unfold decryptWithKeys, tried.
  enough (Hgo : ∀ last, last = None ∨ last = Some decryption_failed →
    ∃ pre post, keys = (pre ++ post)%list ∧ Forall (λ k, decryptWithKey text k = Err decryption_failed) pre ∧
      match decrypt_loop text keys last, post with
      | Ok s, k :: _ => decryptWithKey text k = Ok s
      | Err e, k :: _ => decryptWithKey text k = Err e ∧ fatal e = true
      | Err e, [] => e = match keys, last with [], None => CryptoError "Decryption failed." | _, _ => decryption_failed end
      | Ok _, [] => False
      end).
  { destruct (Hgo None) as (pre & post & E & Hpre & Hm); [by left |]. exists pre, post. split_and!; [done | done |].
    by destruct (decrypt_loop text keys None), post, keys. }
  induction keys as [|k keys IH]; intros last Hl.
  - exists [], []. split_and!; [done | constructor |]. by destruct Hl as [-> | ->].
  - cbn [decrypt_loop]. destruct (decryptWithKey text k) as [s | e] eqn:Ek.
    + exists [], (k :: keys). split; [done |]. split; [constructor | done].
    + destruct (decrypt_error_fatal text k e Ek) as [-> | Hf].
      * change (fatal decryption_failed) with false. cbv iota.
        destruct (IH (Some decryption_failed)) as (pre & post & -> & Hpre & Hm); [by right |].
        exists (k :: pre), post. split_and!; [done | by constructor |].
        destruct (decrypt_loop _ _ _), post; try done. rewrite Hm. by destruct (pre ++ [])%list.
      * rewrite Hf. exists [], (k :: keys). split; [done |]. split; [constructor | by split].
Qed.

Example decrypt_first_key_cases :
  decryptWithKeys "junk" [key_of Byte.x02; key_of Byte.x01] = Err (malformed "expected 4 segments.") ∧
  decryptWithKeys "v2.a.b.c" [key_of Byte.x02] = Err (CryptoError "Unsupported ciphertext version: v2.") ∧
  decryptWithKeys (envelope (key_of Byte.x01) (iv_of Byte.x07) "sk") [key_of Byte.x02; key_of Byte.x01] = Ok "sk"%string ∧
  decryptWithKeys (envelope (key_of Byte.x01) (iv_of Byte.x07) "sk") [key_of Byte.x02] = Err decryption_failed.
Proof. by vm_compute. Qed.

(** A generated key: the prefix and 32 hexadecimal digits. *)
Lemma api_key_shape sha256 random : length random = API_KEY_RANDOM_BYTES →
  starts_with "gw-" (generateApiKey sha256 random).1 = true ∧
  String.length (generateApiKey sha256 random).1 = 35%nat ∧
  of_hex (to_hex random) = random ∧
  (generateApiKey sha256 random).2 = hashApiKey sha256 (generateApiKey sha256 random).1.
Proof.
  intros Hr. unfold generateApiKey. cbn [fst snd]. split_and!; [apply starts_with_app | | apply of_to_hex | done].
  by rewrite string_app_length, to_hex_length, Hr.
Qed.
