(* ===== verification/Tokens.v ===== *)
(** * Token counting ([src/utils/tokens.ts])

    The exact counter is the third-party tokenizer, a parameter; the heuristic
    counter, and the structure-aware count over chat messages both share. *)

From Stdlib Require Import ZArith Lia QArith String.
From stdpp Require Import base strings list sets.
From S2P Require Import Prelude Json Types.
Open Scope Z_scope.

Definition TOKENS_PER_MESSAGE : Z := 3.
Definition TOKENS_PER_NAME : Z := 1.
Definition TOKENS_REPLY_PRIMER : Z := 3.
Definition IMAGE_TOKEN_COST : Z := 85.
Definition CHARS_PER_TOKEN : Z := 4.

Inductive TiktokenEncoding := o200k_base | cl100k_base.

Definition encodingForModel (m : string) : TiktokenEncoding :=
  let id := to_lower m in
  if starts_with "gpt-4o" id || starts_with "o1" id || starts_with "o3" id || starts_with "o4" id
     || includes "o200k" id
  then o200k_base else cl100k_base.

Definition isOpenAITokenizable (m : string) : bool :=
  let id := to_lower m in
  starts_with "gpt-" id || starts_with "o1" id || starts_with "o3" id || starts_with "o4" id
  || starts_with "text-embedding-3" id || starts_with "text-embedding-ada" id.

Definition approximateTextTokens (text : string) : Z :=
  if (String.length text =? 0)%nat then 0
  else ceil_div (Z.of_nat (String.length text)) CHARS_PER_TOKEN.

(** [countContent] on the content shapes of the four roles. *)
Definition countContent (content : MessageContent) (count : string → Z) : Z :=
  match content with
  | CText s => count s
  | CParts l => sum_by (λ p, match p with TextPart s => count s | ImagePart _ _ => IMAGE_TOKEN_COST end) l
  end.

Definition countTextContent (content : TextContent) (count : string → Z) : Z :=
  match content with TText s => count s | TParts l => sum_by count l end.

Definition countMessage (count : string → Z) (m : ChatMessage) : Z :=
  TOKENS_PER_MESSAGE + count (role m) +
  (match m with
   | SystemMessage c _ | ToolMessage c _ | AssistantMessage (Some (Some c)) _ _ => countTextContent c count
   | UserMessage c _ => countContent c count
   | AssistantMessage _ _ _ => 0
   end) +
  (match m with
   | SystemMessage _ (Some name) | UserMessage _ (Some name) | AssistantMessage _ (Some name) _ =>
       TOKENS_PER_NAME + count name
   | _ => 0
   end) +
  (match m with
   | AssistantMessage _ _ (Some calls) =>
       sum_by (λ c, count (fc_name (tc_function c)) + count (fc_arguments (tc_function c))) calls
   | _ => 0
   end) +
  (match m with ToolMessage _ id => count id | _ => 0 end).

Definition countChat (messages : list ChatMessage) (count : string → Z) : Z :=
  foldl (λ total m, total + countMessage count m) 0 messages + TOKENS_REPLY_PRIMER.

(** ** The encoders

    [encoderCache] is a module variable; [get_encoding] constructs a WASM object,
    whose memory is never given back, so the state also counts what was
    constructed. *)

#[export] Instance TiktokenEncoding_eq_dec : EqDecision TiktokenEncoding.
Proof. solve_decision. Defined.

Section Encoders.
Context {Tiktoken : Type}.
Variable get_encoding : TiktokenEncoding → Tiktoken.
(** [encoder.encode(text, [], [])]. *)
Variable encode : Tiktoken → string → list Z.

Record encoders := { encoderCache : list (TiktokenEncoding * Tiktoken); constructed : list TiktokenEncoding }.
Definition no_encoders : encoders := {| encoderCache := []; constructed := [] |}.

Definition encodePlain (encoder : Tiktoken) (text : string) : Z := Z.of_nat (length (encode encoder text)).

Fixpoint cache_get (e : TiktokenEncoding) (l : list (TiktokenEncoding * Tiktoken)) : option Tiktoken :=
  match l with [] => None | (e', t) :: l => if decide (e' = e) then Some t else cache_get e l end.

Definition getEncoder (e : TiktokenEncoding) (s : encoders) : encoders * Tiktoken :=
  match cache_get e (encoderCache s) with
  | Some cached => (s, cached)
  | None =>
      let encoder := get_encoding e in
      ({| encoderCache := (e, encoder) :: encoderCache s; constructed := constructed s ++ [e] |}, encoder)
  end.

(** [countTextTokens] as it runs, on the module's cache. *)
Definition count_cached (text m : string) (s : encoders) : encoders * Z :=
  let '(s, encoder) := getEncoder (encodingForModel m) s in (s, encodePlain encoder text).

(** The cache holds what [get_encoding] makes, for the encodings it was asked
    for, each once. *)
Record encoders_ok (s : encoders) : Prop := {
  cached_made : ∀ e t, cache_get e (encoderCache s) = Some t → t = get_encoding e;
  cached_iff : ∀ e, e ∈ constructed s ↔ is_Some (cache_get e (encoderCache s));
  made_once : NoDup (constructed s) }.

Lemma no_encoders_ok : encoders_ok no_encoders.
Proof. split; cbn; [done | | constructor]. intros e. rewrite elem_of_nil, <- not_eq_None_Some. naive_solver. Qed.

Lemma getEncoder_ok e s : encoders_ok s →
  encoders_ok (getEncoder e s).1 ∧ (getEncoder e s).2 = get_encoding e ∧ e ∈ constructed (getEncoder e s).1.
Proof.
  intros [Hm Hi Ho]. unfold getEncoder. destruct (cache_get e _) as [t|] eqn:E; cbn.
  - split; [by split |]. split; [by apply Hm |]. apply Hi. by rewrite E.
  - split; [| split; [done | by apply elem_of_app; right; apply list_elem_of_singleton]]. split; cbn.
    + intros e' t. case_decide as He; [subst e'; by intros [= <-] | apply Hm].
    + intros e'. rewrite elem_of_app, list_elem_of_singleton, Hi. case_decide as He.
      * split; intros _; [done | by right].
      * split; [by intros [?|?]; [| congruence] | by left].
    + apply NoDup_app. split; [done |]. split; [| apply NoDup_singleton].
      intros x Hx. rewrite list_elem_of_singleton. intros ->. apply Hi in Hx. rewrite E in Hx. by destruct Hx.
Qed.

Lemma count_cached_all texts : ∀ s, encoders_ok s →
  let step := λ st (x : string * string), let '(s, out) := st in let '(s, n) := count_cached x.1 x.2 s in (s, out ++ [n]) in
  ∀ out, let '(s', ns) := foldl step (s, out) texts in
  encoders_ok s' ∧ ns = out ++ map (λ x, encodePlain (get_encoding (encodingForModel x.2)) x.1) texts.
Proof.
  induction texts as [|x texts IH]; intros s Hs step out; cbn [foldl map]; [by rewrite app_nil_r |].
  destruct (getEncoder_ok (encodingForModel x.2) s Hs) as (H1 & H2 & _). unfold step at 2, count_cached.
  destruct (getEncoder _ s) as [s1 t]. cbn [fst snd] in *. subst t.
  specialize (IH s1 H1 (out ++ [encodePlain (get_encoding (encodingForModel x.2)) x.1])). fold step in IH |- *.
  destruct (foldl step _ texts) as [s2 ns]. destruct IH as [? ->]. split; [done |]. by rewrite <- app_assoc.
Qed.

(** Counting on the cache, over any sequence of texts and models, gives the
    counts of encoders made afresh, and constructs each of the two encoders at
    most once for the life of the process. *)
Theorem encoders_cached texts :
  let '(s, ns) := foldl (λ st (x : string * string),
    let '(s, out) := st in let '(s, n) := count_cached x.1 x.2 s in (s, out ++ [n])) (no_encoders, []) texts in
  ns = map (λ x, encodePlain (get_encoding (encodingForModel x.2)) x.1) texts ∧
  NoDup (constructed s) ∧ (length (constructed s) <= 2)%nat.
Proof.
  pose proof (count_cached_all texts no_encoders no_encoders_ok []) as H. cbv zeta in H.
  destruct (foldl _ _ texts) as [s ns]. destruct H as [[_ _ Ho] ->]. split; [done |]. split; [done |].
  assert (Hs : constructed s ⊆ [o200k_base; cl100k_base]) by (intros [] _; set_solver).
  by apply (submseteq_length _ [o200k_base; cl100k_base]), NoDup_submseteq.
Qed.
End Encoders.

Section Counting.
(** [encoder.encode(text, [], []).length]. *)
Variable encoded_length : TiktokenEncoding → string → Z.

Definition countTextTokens (text m : string) : Z := encoded_length (encodingForModel m) text.

Definition count_for (m : string) : string → Z :=
  if isOpenAITokenizable m then encoded_length (encodingForModel m) else approximateTextTokens.

Definition countChatTokens (messages : list ChatMessage) (m : string) : Z :=
  countChat messages (count_for m).

Definition countEmbeddingTokens (input : EmbeddingInput) (m : string) : Z :=
  let countOne := λ text, if isOpenAITokenizable m then countTextTokens text m else approximateTextTokens text in
  match input with
  | InText s => countOne s
  | InTexts l => foldl (λ total s, total + countOne s) 0 l
  | InTokens l => foldl (λ total _, total + 1) 0 l
  | InTokenLists l => foldl (λ total x, total + Z.of_nat (length x)) 0 l
  end.
End Counting.

(** ** Lemmas *)

Lemma countChat_sum ms count : countChat ms count = sum_by (countMessage count) ms + TOKENS_REPLY_PRIMER.
Proof.
  unfold countChat. assert (∀ z, foldl (λ t m, t + countMessage count m) z ms = z + sum_by (countMessage count) ms) as ->; [|lia].
  induction ms as [|m ms IH]; intros z; [simpl; lia |]. cbn [foldl]. rewrite IH, sum_by_cons. lia.
Qed.

Lemma countMessage_lower count m : (∀ s, 0 <= count s) → TOKENS_PER_MESSAGE <= countMessage count m.
Proof.
  intros Hc. unfold countMessage. pose proof (Hc (role m)).
  assert (0 <= IMAGE_TOKEN_COST) by (unfold IMAGE_TOKEN_COST; lia).
  assert (Ht : ∀ c, 0 <= countTextContent c count).
  { intros [s|l]; simpl; [apply Hc | by apply sum_by_nonneg]. }
  assert (Hm : ∀ c, 0 <= countContent c count).
  { intros [s|l]; simpl; [apply Hc | apply sum_by_nonneg]. intros [s|u d] _; [apply Hc | done]. }
  assert (Hk : ∀ l : list ToolCall, 0 <= sum_by (λ c, count (fc_name (tc_function c)) + count (fc_arguments (tc_function c))) l).
  { intros l. apply sum_by_nonneg. intros c _. pose proof (Hc (fc_name (tc_function c))). pose proof (Hc (fc_arguments (tc_function c))). lia. }
  assert (0 <= TOKENS_PER_NAME) by (unfold TOKENS_PER_NAME; lia).
  repeat match goal with |- context [countTextContent ?c _] => pose proof (Ht c); generalize dependent (countTextContent c count); intros end.
  destruct m as [c [nm|]|c [nm|]|[[c|]|] [nm|] [l|]|c i];
    try pose proof (Ht c); try pose proof (Hm c); try pose proof (Hc nm); try pose proof (Hk l); try pose proof (Hc i); lia.
Qed.

Lemma approximate_nonneg s : 0 <= approximateTextTokens s.
Proof.
  unfold approximateTextTokens. destruct (_ =? _)%nat eqn:E; [done |]. apply Nat.eqb_neq in E.
  pose proof (ceil_div_pos (Z.of_nat (String.length s)) CHARS_PER_TOKEN). unfold CHARS_PER_TOKEN in *. lia.
Qed.

Lemma countChatTokens_lower enc ms m : (∀ e s, 0 <= enc e s) →
  TOKENS_PER_MESSAGE * Z.of_nat (length ms) + TOKENS_REPLY_PRIMER <= countChatTokens enc ms m.
Proof.
  intros He. unfold countChatTokens. rewrite countChat_sum.
  assert (Hc : ∀ s, 0 <= count_for enc m s).
  { intros s. unfold count_for. destruct (isOpenAITokenizable m); [apply He | apply approximate_nonneg]. }
  induction ms as [|x ms IH]; [done |]. rewrite sum_by_cons. cbn [length].
  pose proof (countMessage_lower (count_for enc m) x Hc). lia.
Qed.

Lemma countChatTokens_nonneg enc ms m : (∀ e s, 0 <= enc e s) → 0 <= countChatTokens enc ms m.
Proof.
  intros He. pose proof (countChatTokens_lower enc ms m He). unfold TOKENS_PER_MESSAGE, TOKENS_REPLY_PRIMER in *. lia.
Qed.

(** Chat token counts are additive: the count of a concatenated
    conversation is the sum of the counts of its parts less one reply primer,
    it does not depend on the order of the messages, and every message costs at
    least its structural overhead, for the exact and the heuristic counter
    alike. *)
Theorem chat_tokens_additive enc ms ms' m :
  (∀ e s, 0 <= enc e s) →
  countChatTokens enc (ms ++ ms')%list m + TOKENS_REPLY_PRIMER =
    countChatTokens enc ms m + countChatTokens enc ms' m ∧
  countChatTokens enc (ms ++ ms')%list m = countChatTokens enc (ms' ++ ms)%list m ∧
  TOKENS_PER_MESSAGE * Z.of_nat (length ms) + TOKENS_REPLY_PRIMER <= countChatTokens enc ms m.
Proof.
  intros He. unfold countChatTokens. rewrite !countChat_sum, !sum_by_app.
  split; [lia |]. split; [lia |].
  pose proof (countChatTokens_lower enc ms m He) as H. unfold countChatTokens in H. by rewrite countChat_sum in H.
Qed.

Lemma chat_tokens_additive_witness :
  countChatTokens (λ _ s, Z.of_nat (String.length s))
    ([UserMessage (CText "hello world") None] ++ [SystemMessage (TText "hi") None])%list "claude" + 3 = 10 + 9.
Proof.
  refine (eq_trans (proj1 (chat_tokens_additive (λ _ s, Z.of_nat (String.length s))
    [UserMessage (CText "hello world") None] [SystemMessage (TText "hi") None] "claude" _)) _).
  - intros. lia.
  - reflexivity.
Defined.
