(* ===== verification/Stream.v ===== *)
(** * Server-sent events ([src/utils/stream.ts])

    The incremental parser of an upstream byte stream as the loop of
    [parseSSEStream] over the pieces the reader delivers, the chunk
    constructors, and the frames sent to the client. *)

From Stdlib Require Import ZArith Lia QArith String Ascii.
From stdpp Require Import base strings list.
From S2P Require Import Prelude Numerals Constants Json Types.
Open Scope Z_scope.

Definition nl : ascii := "010"%char.
Definition cr : ascii := "013"%char.

(** ** Parsing *)

Record SSEEvent := { event : option string; data : string }.

(** [line.endsWith('\r') ? line.slice(0, -1) : line]. *)
Fixpoint stripTrailingCR (line : string) : string :=
  match line with
  | EmptyString => EmptyString
  | String c EmptyString => if Ascii.eqb c cr then EmptyString else line
  | String c line' => String c (stripTrailingCR line')
  end.

(** The text before and after the first [c] ([indexOf] and two [slice]s). *)
Fixpoint split_at (c : ascii) (s : string) : option (string * string) :=
  match s with
  | EmptyString => None
  | String d s' =>
      if Ascii.eqb d c then Some (EmptyString, s')
      else match split_at c s' with
           | Some (a, b) => Some (String d a, b)
           | None => None
           end
  end.

Definition parseField (line : string) : string * string :=
  match split_at ":"%char line with
  | None => (line, ""%string)
  | Some (field, value) =>
      (field, match value with String " " v => v | v => v end)
  end.

(** The variables of the parser: the pending line, data lines and event name. *)
Record parser := Parser {
  buffer : string; dataLines : list string; eventName : option string
}.

Definition start : parser := Parser "" [] None.

Definition flush (p : parser) : parser * option SSEEvent :=
  if bool_decide (dataLines p = []) && bool_decide (eventName p = None) then (p, None)
  else (Parser (buffer p) [] None,
        Some {| event := eventName p; data := join (String nl "") (dataLines p) |}).

Definition processLine (rawLine : string) (p : parser) : parser * option SSEEvent :=
  let line := stripTrailingCR rawLine in
  if String.eqb line "" then flush p
  else if starts_with ":" line then (p, None)
  else
    let '(field, fieldValue) := parseField line in
    if String.eqb field "data" then
      (Parser (buffer p) (dataLines p ++ [fieldValue])%list (eventName p), None)
    else if String.eqb field "event" then (Parser (buffer p) (dataLines p) (Some fieldValue), None)
    else (p, None).

Definition emit (e : option SSEEvent) (es : list SSEEvent) : list SSEEvent :=
  match e with Some e => e :: es | None => es end.

(** The inner [while]: consume the complete lines of the buffer. *)
Fixpoint drain (fuel : nat) (p : parser) : parser * list SSEEvent :=
  match fuel with
  | O => (p, [])
  | S fuel' =>
      match split_at nl (buffer p) with
      | None => (p, [])
      | Some (line, rest) =>
          let '(p1, e) := processLine line (Parser rest (dataLines p) (eventName p)) in
          let '(p2, es) := drain fuel' p1 in
          (p2, emit e es)
      end
  end.

Section Parse.
(** The streaming [TextDecoder]: its state, one [decode] call, and the final
    [decode()] that flushes it. *)
Context {D : Type} (new_decoder : D) (decode : D → list Byte.byte → D * string) (decode_end : D → string).

(** One [reader.read()] that delivered [value]. *)
Definition feed (value : list Byte.byte) (s : D * parser) : (D * parser) * list SSEEvent :=
  let '(d, text) := decode s.1 value in
  let b := (buffer s.2 ++ text)%string in
  let '(p, es) := drain (S (String.length b)) (Parser b (dataLines s.2) (eventName s.2)) in
  ((d, p), es).

Fixpoint feed_all (reads : list (list Byte.byte)) (s : D * parser) : (D * parser) * list SSEEvent :=
  match reads with
  | [] => (s, [])
  | value :: reads' =>
      let '(s1, es) := feed value s in
      let '(s2, es') := feed_all reads' s1 in
      (s2, es ++ es')%list
  end.

(** The whole generator: the reads until [done], the decoder's rest as a last
    line, and the event still pending. *)
Definition parseSSEStream (reads : list (list Byte.byte)) : list SSEEvent :=
  let '((d, p), es) := feed_all reads (new_decoder, start) in
  let b := (buffer p ++ decode_end d)%string in
  let p := Parser b (dataLines p) (eventName p) in
  let '(p, e1) := if String.eqb b "" then (p, None) else processLine b p in
  let '(p, e2) := flush p in
  (es ++ emit e1 (emit e2 []))%list.

Definition iterateSSEData (reads : list (list Byte.byte)) : list string :=
  map data (parseSSEStream reads).
End Parse.

(** ** Chunks *)

(** [`chatcmpl-${randomUUID().replace(/-/g, '')}`]. *)
Fixpoint strip_dashes (s : string) : string :=
  match s with
  | EmptyString => EmptyString
  | String c s' => if Ascii.eqb c "-" then strip_dashes s' else String c (strip_dashes s')
  end.
Definition createCompletionId (uuid : string) : string := ("chatcmpl-" ++ strip_dashes uuid)%string.

Definition nowUnixSeconds (nowMs : Z) : Z := nowMs / 1000.

Definition chunk_head (id : string) (created : Z) (model : string) (choices : json) : fields :=
  [("id"%string, JStr id); ("object"%string, JStr "chat.completion.chunk"%string);
   ("created"%string, jint created); ("model"%string, JStr model); ("choices"%string, choices)].

Definition chunk_choice (delta : fields) (finish : json) : json :=
  JArr [JObj [("index"%string, jint 0); ("delta"%string, JObj delta); ("finish_reason"%string, finish);
              ("logprobs"%string, JNull)]].

Definition makeRoleChunk (id : string) (created : Z) (model : string) : json :=
  JObj (chunk_head id created model (chunk_choice [("role"%string, JStr "assistant"%string)] JNull)).

Definition makeContentChunk (id : string) (created : Z) (model content : string) : json :=
  JObj (chunk_head id created model (chunk_choice [("content"%string, JStr content)] JNull)).

Definition makeToolCallChunk (id : string) (created : Z) (model : string) (toolCall : json) : json :=
  JObj (chunk_head id created model (chunk_choice [("tool_calls"%string, JArr [toolCall])] JNull)).

Definition makeFinishChunk (id : string) (created : Z) (model : string) (finishReason : FinishReason) : json :=
  JObj (chunk_head id created model (chunk_choice [] (JStr (finish_reason_str finishReason)))).

Definition makeUsageChunk (id : string) (created : Z) (model : string) (usage : CompletionUsage) : json :=
  JObj (chunk_head id created model (JArr []) ++ [("usage"%string, usage_json usage)])%list.

(** ** Frames *)

Definition serializeSSE (payload : json) : string :=
  (SSE.DATA_PREFIX ++ stringify payload ++ SSE.EVENT_DELIMITER)%string.

Definition SSE_DONE_FRAME : string := (SSE.DATA_PREFIX ++ SSE.DONE ++ SSE.EVENT_DELIMITER)%string.

(** ** The parser against the text it receives *)

(** The complete lines of a text, and what follows the last newline. *)
Fixpoint lines_of (s : string) : list string * string :=
  match s with
  | EmptyString => ([], EmptyString)
  | String c s' =>
      let '(ls, r) := lines_of s' in
      if Ascii.eqb c nl then (EmptyString :: ls, r)
      else match ls with
           | [] => ([], String c r)
           | l :: ls' => (String c l :: ls', r)
           end
  end.

(** Process whole lines; the pending line is not involved. *)
Fixpoint process_lines (ls : list string) (p : parser) : parser * list SSEEvent :=
  match ls with
  | [] => (p, [])
  | l :: ls' =>
      let '(p1, e) := processLine l p in
      let '(p2, es) := process_lines ls' p1 in
      (p2, emit e es)
  end.

(** The events of a text, without any streaming. *)
Definition sse_events (text : string) : list SSEEvent :=
  let '(ls, r) := lines_of text in
  let '(p, es) := process_lines ls start in
  let '(p, e1) := if String.eqb r "" then (p, None) else processLine r p in
  let '(p, e2) := flush p in
  (es ++ emit e1 (emit e2 []))%list.

Definition with_buffer (b : string) (p : parser) : parser := Parser b (dataLines p) (eventName p).

Lemma flush_buffer b p : flush (with_buffer b p) = (with_buffer b (flush p).1, (flush p).2).
Proof. unfold flush. simpl. by destruct (_ && _). Qed.

Lemma processLine_buffer b l p :
  processLine l (with_buffer b p) = (with_buffer b (processLine l p).1, (processLine l p).2).
Proof.
  unfold processLine. destruct (String.eqb _ ""); [apply flush_buffer |].
  destruct (starts_with ":" _); [done |]. destruct (parseField _) as [f v].
  destruct (String.eqb f "data"); [done |]. by destruct (String.eqb f "event").
Qed.

Lemma process_lines_buffer b ls : ∀ p,
  process_lines ls (with_buffer b p) = (with_buffer b (process_lines ls p).1, (process_lines ls p).2).
Proof.
  induction ls as [|l ls IH]; intros p; [done |]. cbn [process_lines]. rewrite processLine_buffer.
  destruct (processLine l p) as [p1 e]. cbn [fst snd]. rewrite IH. by destruct (process_lines ls p1).
Qed.

Lemma emit_app e es es' : (emit e es ++ es')%list = emit e (es ++ es')%list.
Proof. by destruct e. Qed.

Lemma process_lines_app ls ls' p :
  process_lines (ls ++ ls')%list p =
    let '(p1, es) := process_lines ls p in let '(p2, es') := process_lines ls' p1 in (p2, es ++ es')%list.
Proof.
  revert p. induction ls as [|l ls IH]; intros p; cbn [app process_lines]; [by destruct (process_lines ls' p) |].
  destruct (processLine l p) as [p1 e]. rewrite IH.
  destruct (process_lines ls p1) as [p2 es]. destruct (process_lines ls' p2) as [p3 es']. by rewrite emit_app.
Qed.

Lemma split_at_lines s :
  match split_at nl s with
  | None => lines_of s = ([], s)
  | Some (a, b) => lines_of s = (a :: (lines_of b).1, (lines_of b).2) ∧ (String.length b < String.length s)%nat
  end.
Proof.
  induction s as [|c s IH]; [done |]. cbn [split_at lines_of].
  destruct (Ascii.eqb c nl) eqn:E.
  - destruct (lines_of s) as [ls r]. split; [done | simpl; lia].
  - destruct (split_at nl s) as [[a b]|]; [destruct IH as [-> Hl] | rewrite IH]; [split; [done | simpl; lia] | done].
Qed.

Lemma drain_lines fuel : ∀ p, (String.length (buffer p) < fuel)%nat →
  drain fuel p = (with_buffer (lines_of (buffer p)).2 (process_lines (lines_of (buffer p)).1 p).1,
                  (process_lines (lines_of (buffer p)).1 p).2).
Proof.
  induction fuel as [|fuel IH]; intros [b dl ev] Hf; [lia |]. cbn [drain buffer] in *.
  pose proof (split_at_lines b) as Hs. destruct (split_at nl b) as [[a r]|].
  - destruct Hs as [-> Hl]. cbn [dataLines eventName fst snd process_lines].
    change (Parser r dl ev) with (with_buffer r (Parser b dl ev)). rewrite processLine_buffer.
    destruct (processLine a (Parser b dl ev)) as [p1 e]. cbn [fst snd].
    rewrite IH by (simpl; lia). cbn [with_buffer buffer]. rewrite process_lines_buffer.
    by destruct (process_lines (lines_of r).1 p1) as [p2 es].
  - by rewrite Hs.
Qed.

Lemma lines_of_app a b :
  lines_of (a ++ b)%string = ((lines_of a).1 ++ (lines_of ((lines_of a).2 ++ b)%string).1,
                              (lines_of ((lines_of a).2 ++ b)%string).2)%list.
Proof.
  induction a as [|c a IH]; [change ("" ++ b)%string with b; cbn [lines_of fst snd app]; change ("" ++ b)%string with b; by destruct (lines_of b) |]. rewrite string_app_cons. cbn [lines_of]. rewrite IH.
  destruct (lines_of a) as [la ra]. cbn [fst snd].
  destruct (Ascii.eqb c nl) eqn:E; [done |].
  destruct la as [|l la]; cbn [fst snd app]; [|done].
  rewrite string_app_cons. cbn [lines_of]. rewrite E. by destruct (lines_of (ra ++ b)%string) as [[|x xs] r].
Qed.

Lemma lines_of_no_newline s : no_char nl s = true → lines_of s = ([], s).
Proof.
  induction s as [|c s IH]; [done |]. cbn [no_char lines_of]. intros [Hc Hs]%andb_true_iff.
  apply negb_true_iff in Hc. by rewrite IH, Hc.
Qed.

Lemma lines_of_rest s : no_char nl (lines_of s).2 = true.
Proof.
  induction s as [|c s IH]; [done |]. cbn [lines_of]. destruct (lines_of s) as [[|l ls] r]; cbn [snd] in *;
    destruct (Ascii.eqb c nl) eqn:E; try done. cbn [no_char snd]. by rewrite E.
Qed.

(** What a streaming decoder promises: it decodes the bytes of two reads as it
    decodes them in one, and its flush (a replacement character or nothing)
    holds no newline. *)
Class DecoderLaws {D} (decode : D → list Byte.byte → D * string) (decode_end : D → string) : Prop := {
  decode_nil : ∀ d, decode d [] = (d, ""%string);
  decode_app : ∀ d a b, decode d (a ++ b)%list =
    ((decode (decode d a).1 b).1, ((decode d a).2 ++ (decode (decode d a).1 b).2)%string);
  decode_end_no_newline : ∀ d, no_char nl (decode_end d) = true
}.

Section Chunking.
Context {D : Type} (d0 : D) (decode : D → list Byte.byte → D * string) (decode_end : D → string).
Context `{!DecoderLaws decode decode_end}.

(** The text of a byte sequence. *)
Definition text_of (bytes : list Byte.byte) : string :=
  ((decode d0 bytes).2 ++ decode_end (decode d0 bytes).1)%string.

Lemma feed_all_lines reads : ∀ d p,
  lines_of (buffer p) = ([], buffer p) →
  let t := (buffer p ++ (decode d (concat reads)).2)%string in
  feed_all decode reads (d, p) =
    (((decode d (concat reads)).1, with_buffer (lines_of t).2 (process_lines (lines_of t).1 p).1),
     (process_lines (lines_of t).1 p).2).
Proof using DecoderLaws0.
  induction reads as [|v reads IH]; intros d p Hp.
  - cbn [feed_all concat]. rewrite decode_nil. cbn [fst snd]. rewrite string_app_empty_r, Hp. by destruct p.
  - cbn [feed_all concat]. rewrite decode_app. cbn [fst snd]. unfold feed. cbn [fst snd].
    destruct (decode d v) as [d1 t1]. cbn [fst snd]. rewrite drain_lines by (cbn [buffer]; lia). cbn [buffer].
    change (Parser ?b (dataLines p) (eventName p)) with (with_buffer b p). rewrite process_lines_buffer. cbn [fst snd].
    set (b := (buffer p ++ t1)%string). rewrite IH.
    + cbn [with_buffer buffer fst snd]. set (t2 := (decode d1 (concat reads)).2).
      change (Parser (lines_of b).2 ?x ?y) with (with_buffer (lines_of b).2 (Parser b x y)).
      assert (Hl : lines_of (buffer p ++ (t1 ++ t2))%string =
        ((lines_of b).1 ++ (lines_of ((lines_of b).2 ++ t2)%string).1, (lines_of ((lines_of b).2 ++ t2)%string).2)%list).
      { rewrite <- string_app_assoc. apply lines_of_app. }
      rewrite Hl. cbn [fst snd]. rewrite process_lines_app.
      destruct (process_lines (lines_of b).1 p) as [p1 es]. cbn [fst snd with_buffer dataLines eventName].
      change (Parser b (dataLines p1) (eventName p1)) with (with_buffer b p1).
      change (with_buffer ?x (with_buffer b p1)) with (with_buffer x p1).
      rewrite process_lines_buffer. destruct (process_lines _ p1) as [p2 es']. done.
    + cbn [with_buffer buffer]. apply lines_of_no_newline, lines_of_rest.
Qed.
End Chunking.

(** The events of a sequence of reads are those of the text they decode to. *)
Lemma parse_as_text {D} (d0 : D) decode decode_end `{!DecoderLaws decode decode_end} reads :
  parseSSEStream d0 decode decode_end reads = sse_events (text_of d0 decode decode_end (concat reads)).
Proof.
  unfold parseSSEStream, sse_events, text_of.
  rewrite (feed_all_lines decode decode_end reads d0 start eq_refl). cbn [start buffer].
  change ("" ++ ?x)%string with x.
  set (t := (decode d0 (concat reads)).2). set (e := decode_end _).
  rewrite lines_of_app. destruct (lines_of t) as [ls r] eqn:El. cbn [fst snd with_buffer buffer dataLines eventName].
  assert (Hr : no_char nl (r ++ e)%string = true).
  { rewrite no_char_app. pose proof (lines_of_rest t) as H. rewrite El in H. cbn [snd] in H.
    unfold e. by rewrite H, (decode_end_no_newline (decode := decode)). }
  rewrite (lines_of_no_newline _ Hr). cbn [fst snd]. rewrite app_nil_r.
  destruct (process_lines ls start) as [p es]. cbn [fst snd].
  change (Parser (r ++ e)%string (dataLines p) (eventName p)) with (with_buffer (r ++ e)%string p).
  destruct (String.eqb (r ++ e)%string ""); [| rewrite processLine_buffer; destruct (processLine _ p) as [p1 e1]; cbn [fst snd]];
    rewrite flush_buffer; by destruct (flush _) as [p2 e2].
Qed.

(** C28: Parsing does not depend on how the network cuts the stream. With any
    decoder that streams consistently, two sequences of reads that deliver the
    same bytes give the same events, namely those of the decoded text taken as
    a whole: an event split inside a line or inside a character comes out as if
    it had been read at once. *)
Theorem sse_parse_any_chunking {D} (d0 : D) decode decode_end `{!DecoderLaws decode decode_end} reads reads' :
  concat reads = concat reads' →
  parseSSEStream d0 decode decode_end reads = parseSSEStream d0 decode decode_end reads' ∧
  parseSSEStream d0 decode decode_end reads = sse_events (text_of d0 decode decode_end (concat reads')).
Proof. intros E. by rewrite !parse_as_text, E. Qed.

(** A decoder for ASCII text. *)
Definition ascii_decode (d : unit) (bytes : list Byte.byte) : unit * string := (d, string_of_list_byte bytes).
#[export] Instance ascii_decoder_laws : DecoderLaws ascii_decode (λ _, ""%string).
Proof.
  split; [done | | done]. intros d a b. unfold ascii_decode. simpl. f_equal.
  unfold string_of_list_byte. rewrite List.map_app. generalize (List.map ascii_of_byte a). intros l.
  induction l as [|c l IH]; [done |]. cbn [app string_of_list_ascii]. by rewrite IH, string_app_cons.
Qed.

Lemma sse_parse_any_chunking_witness :
  let bytes := list_byte_of_string ("data: a" ++ String nl "data: b" ++ String nl (String nl "")) in
  parseSSEStream tt ascii_decode (λ _, ""%string) (map (λ b, [b]) bytes) =
    parseSSEStream tt ascii_decode (λ _, ""%string) [bytes] ∧
  parseSSEStream tt ascii_decode (λ _, ""%string) (map (λ b, [b]) bytes) =
    [{| event := None; data := ("a" ++ String nl "b")%string |}].
Proof.
  apply (sse_parse_any_chunking tt ascii_decode (λ _, ""%string)
    (map (λ b, [b]) (list_byte_of_string ("data: a" ++ String nl "data: b" ++ String nl (String nl ""))))
    [list_byte_of_string ("data: a" ++ String nl "data: b" ++ String nl (String nl ""))]).
  reflexivity.
Defined.

(** ** Frames read back *)

Lemma lines_of_line a b : no_char nl a = true →
  lines_of (a ++ String nl b)%string = (a :: (lines_of b).1, (lines_of b).2).
Proof.
  induction a as [|c a IH]; intros Ha.
  - change ("" ++ String nl b)%string with (String nl b). cbn [lines_of]. by destruct (lines_of b).
  - cbn [no_char] in Ha. apply andb_true_iff in Ha as [Hc Ha]. apply negb_true_iff in Hc.
    rewrite string_app_cons. cbn [lines_of]. by rewrite (IH Ha), Hc.
Qed.

Lemma stripTrailingCR_id s : no_char cr s = true → stripTrailingCR s = s.
Proof.
  induction s as [|c s IH]; [done |]. cbn [no_char]. intros [Hc Hs]%andb_true_iff. apply negb_true_iff in Hc.
  change (stripTrailingCR (String c s)) with
    (match s with EmptyString => if Ascii.eqb c cr then EmptyString else String c s | _ => String c (stripTrailingCR s) end).
  destruct s; [by rewrite Hc | by rewrite (IH Hs)].
Qed.

(** One [data:] frame: its line, and the blank line that closes it. *)
Definition frame (x : string) : string := (SSE.DATA_PREFIX ++ x ++ SSE.EVENT_DELIMITER)%string.

Definition frameable (x : string) : Prop := no_char nl x = true ∧ no_char cr x = true.

Lemma data_prefix x : (SSE.DATA_PREFIX ++ x)%string =
  String "d" (String "a" (String "t" (String "a" (String ":" (String " " x))))).
Proof. unfold SSE.DATA_PREFIX. by rewrite !string_app_cons. Qed.

Lemma process_data_line x p : frameable x →
  processLine (SSE.DATA_PREFIX ++ x) p =
    (Parser (buffer p) (dataLines p ++ [x])%list (eventName p), None).
Proof.
  intros [_ Hcr]. unfold processLine. rewrite stripTrailingCR_id by (rewrite data_prefix; exact Hcr).
  by rewrite data_prefix.
Qed.

Lemma process_frames xs b : Forall frameable xs →
  process_lines (concat (map (λ x, [(SSE.DATA_PREFIX ++ x)%string; ""%string]) xs)) (Parser b [] None) =
    (Parser b [] None, map (λ x, {| event := None; data := x |}) xs).
Proof.
  induction xs as [|x xs IH]; intros Hf; [done |]. apply Forall_cons in Hf as [Hx Hf].
  cbn [map concat app process_lines]. rewrite process_data_line by done. cbn [buffer dataLines eventName app].
  change (processLine "" (Parser b [x] None)) with (Parser b [] None, Some {| event := None; data := x |}).
  cbv beta iota. rewrite (IH Hf). done.
Qed.

Lemma lines_of_frames xs : Forall frameable xs →
  lines_of (foldr (λ x t, frame x ++ t)%string ""%string xs) =
    (concat (map (λ x, [(SSE.DATA_PREFIX ++ x)%string; ""%string]) xs), ""%string).
Proof.
  induction xs as [|x xs IH]; intros Hf; [done |]. apply Forall_cons in Hf as [[Hx _] Hf].
  cbn [foldr map concat app]. unfold frame at 1. rewrite string_app_assoc, string_app_assoc.
  rewrite <- (string_app_assoc SSE.DATA_PREFIX). unfold SSE.EVENT_DELIMITER at 1. rewrite !string_app_cons.
  change "010"%char with nl. rewrite lines_of_line by (rewrite no_char_app; by rewrite Hx).
  cbn [lines_of fst snd]. change ("" ++ ?t)%string with t. rewrite (IH Hf). done.
Qed.

Lemma frameable_json v : frameable (stringify v).
Proof. split; by apply no_control_stringify. Qed.

(** The body of a gateway stream: its chunks, then the terminal sentinel. *)
Definition stream_body (payloads : list json) : string :=
  (foldr (λ v t, serializeSSE v ++ t) "" payloads ++ SSE_DONE_FRAME)%string.

(** The events of a gateway stream. *)
Lemma frames_events {D} (d0 : D) decode decode_end `{!DecoderLaws decode decode_end} reads payloads :
  text_of d0 decode decode_end (concat reads) = stream_body payloads →
  parseSSEStream d0 decode decode_end reads =
    map (λ x, {| event := None; data := x |}) (map stringify payloads ++ [SSE.DONE])%list.
Proof.
  intros Ht. rewrite (parse_as_text d0 decode decode_end), Ht.
  set (xs := (map stringify payloads ++ [SSE.DONE])%list).
  assert (Hx : Forall frameable xs).
  { apply Forall_app. split; [| by repeat constructor].
    apply Forall_forall. intros x (v & -> & _)%list_elem_of_fmap. apply frameable_json. }
  assert (Hb : stream_body payloads = foldr (λ x t, frame x ++ t)%string ""%string xs).
  { unfold stream_body, xs. clear. induction payloads as [|v vs IH]; [done |].
    cbn [foldr map app]. by rewrite string_app_assoc, IH. }
  rewrite Hb. unfold sse_events. rewrite lines_of_frames by done. unfold start. rewrite process_frames by done.
  simpl. by rewrite app_nil_r.
Qed.

(** What the gateway streams is read back exactly. However the network cuts
    the frames of a stream, parsing them yields one event per payload, in
    order, whose data is the payload's JSON text, and then [DONE]: no JSON text
    can break out of its frame. *)
Theorem sse_frames_roundtrip {D} (d0 : D) decode decode_end `{!DecoderLaws decode decode_end} reads payloads :
  text_of d0 decode decode_end (concat reads) = stream_body payloads →
  iterateSSEData d0 decode decode_end reads = (map stringify payloads ++ [SSE.DONE])%list.
Proof.
  intros Ht. unfold iterateSSEData. rewrite (frames_events d0 decode decode_end reads payloads Ht), map_map.
  apply map_id.
Qed.

Lemma sse_frames_roundtrip_witness :
  iterateSSEData tt ascii_decode (λ _, ""%string)
    [list_byte_of_string (stream_body [JObj [("text"%string, JStr (String nl "x"))]])] =
    [stringify (JObj [("text"%string, JStr (String nl "x"))]); SSE.DONE].
Proof.
  apply (sse_frames_roundtrip tt ascii_decode (λ _, ""%string)
    [list_byte_of_string (stream_body [JObj [("text"%string, JStr (String nl "x"))]])]
    [JObj [("text"%string, JStr (String nl "x"))]]).
  reflexivity.
Defined.
