(* ===== verification/Provider.v ===== *)
(** * The provider abstraction ([src/providers/base.ts])

    Provider configurations and model metadata, and the HTTP machinery the
    adapters share: classification of transport failures and of upstream
    statuses into the error taxonomy, body parsing and URL joining. *)

From Stdlib Require Import ZArith Lia QArith String Ascii.
From stdpp Require Import base gmap strings list.
From S2P Require Import Prelude Numerals Constants Json Errors Types.
Open Scope Z_scope.

Record ProviderModelInfo := {
  modelId : string;
  displayName : option string;
  contextWindow : option Z;
  maxOutputTokens : option Z;
  inputPricePer1k : option Q;
  outputPricePer1k : option Q;
  supportsStreaming : bool;
  supportsTools : bool;
  supportsVision : bool
}.

(** A provider is its configuration; [models] is keyed by model id, in
    insertion order. *)
Record ProviderInstanceConfig := {
  p_id : string;
  p_name : string;
  adapterType : AdapterType;
  baseUrl : string;
  p_apiKey : string;
  timeoutMs : Z;
  p_weight : Z;
  p_priority : Z;
  models : list (string * ProviderModelInfo)
}.

Fixpoint assoc {A} (k : string) (l : list (string * A)) : option A :=
  match l with
  | [] => None
  | (k', v) :: l' => if String.eqb k k' then Some v else assoc k l'
  end.

Definition getModel (p : ProviderInstanceConfig) (m : string) : option ProviderModelInfo := assoc m (models p).
Definition hasModel (p : ProviderInstanceConfig) (m : string) : bool :=
  match getModel p m with Some _ => true | None => false end.
Definition listProviderModels (p : ProviderInstanceConfig) : list ProviderModelInfo := map snd (models p).

(** ** Helpers *)

Definition slash : ascii := "/"%char.

Fixpoint strip_leading (c : ascii) (s : string) : string :=
  match s with
  | String d s' => if Ascii.eqb d c then strip_leading c s' else s
  | EmptyString => EmptyString
  end.

Fixpoint strip_trailing (c : ascii) (s : string) : string :=
  match s with
  | EmptyString => EmptyString
  | String d s' =>
      match strip_trailing c s' with
      | EmptyString => if Ascii.eqb d c then EmptyString else String d EmptyString
      | r => String d r
      end
  end.

Definition joinUrl (base path : string) : string :=
  (strip_trailing slash base ++ "/" ++ strip_leading slash path)%string.

Definition truncate (value : string) (max : nat) : string :=
  if (max <? String.length value)%nat then (String.substring 0 max value ++ "…")%string else value.

Section Http.
(** [JSON.parse], or [None] when it throws. *)
Variable JSON_parse : string → option json.

Definition MAX_MESSAGE : nat := 500.

(** The message in a parsed error body, if it has one. *)
Definition body_message (v : json) : option string :=
  match v with
  | JObj record =>
      match field "error" record with
      | Some (JStr s) => Some s
      | Some (JObj e) =>
          match field "message" e with
          | Some (JStr s) => Some s
          | _ => as_string (field "message" record)
          end
      | _ => as_string (field "message" record)
      end
  | _ => None
  end.

Definition extractProviderMessage (bodyText : string) : string :=
  if String.eqb bodyText "" then "(empty body)"%string
  else match JSON_parse bodyText ≫= body_message with
       | Some m => truncate m MAX_MESSAGE
       | None => truncate bodyText MAX_MESSAGE
       end.

Definition GATEWAY_SIDE_UPSTREAM_STATUSES : list Z := [401; 402; 403; 404].

Definition provider_status (status : Z) : option fields := Some [("providerStatus"%string, jint status)].

Definition mapHttpError (cfg : ProviderInstanceConfig) (status : Z) (bodyText : string) : GatewayError :=
  if status =? 408 then UpstreamTimeoutError (Some (p_id cfg)) no_options
  else
    let detail := extractProviderMessage bodyText in
    if existsb (Z.eqb status) GATEWAY_SIDE_UPSTREAM_STATUSES then
      ProviderError ("Provider " ++ p_name cfg ++ " rejected the gateway's request with " ++ dec status
                     ++ ": " ++ detail)%string 502 (Some (p_id cfg))
        {| opt_code := None; opt_param := None; opt_retryable := Some true;
           opt_context := provider_status status |}
    else
      ProviderError ("Provider " ++ p_name cfg ++ " returned " ++ dec status ++ ": " ++ detail)%string
        status (Some (p_id cfg))
        {| opt_code := None; opt_param := None; opt_retryable := None;
           opt_context := provider_status status |}.

(** An upstream response: its status and its body, if there is one; reading the
    body to its end gives a text, or the error it breaks off with (the exchange's
    timeout included). *)
Record Response := { status : Z; body : option (result thrown string) }.

(** [response.text()]. *)
Definition text (r : Response) : result thrown string := body r ?? Ok ""%string.

(** [response.ok]. *)
Definition ok (r : Response) : bool := (200 <=? status r) && (status r <=? 299).

(** How [fetch] can end: a response, or an error, with the state of the two
    signals when it is thrown. *)
Inductive fetch_outcome :=
| Responded (r : Response)
| FetchFailed (error : thrown) (timedOut callerAborted : bool).

Definition retryable_option : GatewayErrorOptions :=
  {| opt_code := None; opt_param := None; opt_retryable := Some true; opt_context := None |}.

Definition upstreamFetch (cfg : ProviderInstanceConfig) (o : fetch_outcome) : result thrown Response :=
  match o with
  | Responded r => Ok r
  | FetchFailed error timedOut callerAborted =>
      if timedOut then Err (TGateway (UpstreamTimeoutError (Some (p_id cfg)) no_options))
      else if callerAborted then Err error
      else Err (TGateway (ProviderError
             ("Network error calling provider " ++ p_name cfg ++ ": " ++ toErrorMessage error)%string
             502 (Some (p_id cfg)) retryable_option))
  end.

Definition readJson (cfg : ProviderInstanceConfig) (r : Response) : result thrown json :=
  let! text := text r in
  match JSON_parse text with
  | Some v => Ok v
  | None => Err (TGateway (ProviderError ("Provider " ++ p_name cfg ++ " returned non-JSON body.")%string
                             502 (Some (p_id cfg)) retryable_option))
  end.

Definition ensureOk (cfg : ProviderInstanceConfig) (r : Response) : result thrown Response :=
  if ok r then Ok r
  else Err (TGateway (mapHttpError cfg (status r) match text r with Ok bodyText => bodyText | Err _ => ""%string end)).

(** [fetch], then [ensureOk]: the path of every upstream call. *)
Definition exchange (cfg : ProviderInstanceConfig) (o : fetch_outcome) : result thrown Response :=
  let! r := upstreamFetch cfg o in ensureOk cfg r.
End Http.

(** ** Theorems *)

(** The failover rule's classes of a failed exchange: the caller's own abort is
    passed on; every other error is a gateway error that is retryable unless it
    is a plain client status (a 4xx other than 401-404, 408 and 429, or a status
    below 400), and a rejection of the gateway's own credentials, billing or
    model mapping (401-404) never reaches the client as such. *)
Definition classified (o : fetch_outcome) (error : thrown) : Prop :=
  match error with
  | TGateway e =>
      (∃ t a, o = FetchFailed (TGateway e) t a ∧ t = false ∧ a = true) ∨
      (retryable e = true ∧ 500 <= statusCode e ∨
       ∃ r, o = Responded r ∧ statusCode e = status r ∧ ¬ 401 <= status r <= 404 ∧
            status r ≠ 408 ∧ (retryable e = true ↔ 500 <= status r ∨ status r = 429))
  | _ => ∃ t, o = FetchFailed error t true ∧ t = false
  end.

Lemma exchange_cases JSON_parse cfg o :
  match exchange JSON_parse cfg o with
  | Ok r => o = Responded r ∧ 200 <= status r <= 299
  | Err error => classified o error
  end.
Proof.
  unfold exchange, upstreamFetch. destruct o as [r | error [] []]; cbn [res_bind].
  - unfold ensureOk, ok. destruct (_ && _) eqn:E; bool_props; [by split |].
    right. unfold mapHttpError. destruct (status r =? 408) eqn:E8; bool_props; [by left; simpl |].
    unfold GATEWAY_SIDE_UPSTREAM_STATUSES. cbn [existsb].
    destruct (status r =? 401) eqn:E1, (status r =? 402) eqn:E2, (status r =? 403) eqn:E3, (status r =? 404) eqn:E4;
      cbn [orb]; bool_props; try (left; by split).
    right. exists r. split; [done |]. split; [done |]. split; [lia |]. split; [lia |]. simpl.
    destruct (500 <=? status r) eqn:E5, (status r =? 429) eqn:E6; bool_props; simpl; split; intros; try done; lia.
  - right. left. done.
  - right. left. done.
  - destruct error; simpl; first [left; by do 2 eexists | by eexists].
  - right. left. done.
Qed.
