(* ===== verification/Adapter.v ===== *)
(** * What the provider adapters share

    The request an adapter sends, the environment it runs in, the readers of
    unchecked upstream JSON each adapter repeats, and the loop of a streaming
    adapter: a step per server-sent event over the adapter's local variables. *)

From Stdlib Require Import ZArith Lia QArith Qround String Ascii.
From stdpp Require Import base strings list.
From S2P Require Import Prelude Numerals Constants Json Errors Types Stream Provider.
Open Scope Z_scope.

(** The [fetch] arguments that vary: the URL, the headers and the body text. *)
Record HttpRequest := { url : string; req_headers : list (string * string); req_body : string }.

(** A POST of a JSON body to a path of the provider. *)
Definition post (cfg : ProviderInstanceConfig) (hs : list (string * string)) (path : string) (body : fields) : HttpRequest :=
  {| url := joinUrl (baseUrl cfg) path; req_headers := hs; req_body := stringify (JObj body) |}.

(** A streamed reply: how [fetch] ended, and what the body's reader delivers,
    up to the error that breaks it off if one does. *)
Record StreamReply := {
  reply : fetch_outcome;
  reads : list (list Byte.byte);
  broken : option thrown
}.

(** What a consumer of the generator gets: its chunks, and the error after them. *)
Record streamed := Streamed { chunks : list json; failure : option thrown }.

(** ** Reading unchecked JSON *)

(** [isRecord(v)]: objects, and arrays, which have no field of any name the
    adapters read. *)
Definition record_of (v : json) : option fields :=
  match v with JObj o => Some o | JArr _ => Some [] | _ => None end.
Definition isRecord (v : json) : bool := match record_of v with Some _ => true | None => false end.

(** [isRecord(o[k]) ? o[k] : undefined]. *)
Definition record_at (k : string) (o : fields) : option fields := field k o ≫= record_of.

(** [typeof o[k] === 'string' ? o[k] : undefined], and [readNumber]. *)
Definition string_at (k : string) (o : fields) : option string := as_string (field k o).
Definition readNumber (v : option json) : option Q := as_num v.

(** [v ?? {}]. *)
Definition input_or_empty (v : option json) : json :=
  match v with None | Some JNull => JObj [] | Some v => v end.

(** [firstElement]. *)
Definition firstElement (v : option json) : option json :=
  match v with Some (JArr (x :: _)) => Some x | _ => None end.

(** [toNumberArray]: the numbers of an array. *)
Definition toNumberArray (v : option json) : json :=
  JArr match v with
       | Some (JArr l) => List.filter (λ x, match x with JNum _ => true | _ => false end) l
       | _ => []
       end.

(** [embeddingInputToStrings]: a list of token ids is a text per id. *)
Definition embeddingInputToStrings (input : EmbeddingInput) : list string :=
  match input with
  | InText s => [s]
  | InTexts l => l
  | InTokens l => map dec l
  | InTokenLists l => map (λ x, join " " (map dec x)) l
  end.

(** [flattenText] on the content of the roles that take text parts. *)
Definition flattenText (content : option TextContent) : string :=
  match content with
  | None => ""
  | Some (TText s) => s
  | Some (TParts l) => foldl (λ out text, (out ++ text)%string) ""%string l
  end.

(** [request.stream_options?.include_usage === true]. *)
Definition wantUsage (request : ChatCompletionRequest) : bool :=
  match stream_options request with Some (Some true) => true | _ => false end.

Definition p_count (v : json) : option Q :=
  q ← p_num v; z ← to_int q; guard (0 <= z);; Some q.

(** [z.literal(s).optional()]. *)
Definition opt_literal (k s : string) (o : fields) : option unit :=
  match field k o with Some _ => literal k s o | None => Some tt end.

Section Adapter.
(** [JSON.parse], or [None] when it throws. *)
Variable JSON_parse : string → option json.
(** The streaming [TextDecoder]. *)
Context {D : Type} (new_decoder : D) (decode : D → list Byte.byte → D * string) (decode_end : D → string).

Definition safeJsonParse (value : string) : json := JSON_parse value ?? JObj [].

(** An adapter's own [ProviderError]s. *)
Definition shape_error (cfg : ProviderInstanceConfig) (message : string) (issues : option json) : thrown :=
  TGateway (ProviderError message 502 (Some (p_id cfg))
    {| opt_code := None; opt_param := None; opt_retryable := Some true;
       opt_context := (λ i, [("issues"%string, i)]) <$> issues |}).

(** [upstreamFetch], [ensureOk], [readJson]. *)
Definition fetch_json (cfg : ProviderInstanceConfig) (o : fetch_outcome) : result thrown json :=
  let! r := exchange JSON_parse cfg o in readJson JSON_parse cfg r.

(** The events of a body, and the error its reader throws after them. *)
Definition body_events (r : StreamReply) : list SSEEvent * option thrown :=
  match broken r with
  | None => (parseSSEStream new_decoder decode decode_end (reads r), None)
  | Some e => ((feed_all decode (reads r) (new_decoder, start)).2, Some e)
  end.

(** How one event leaves the loop of a generator. *)
Inductive verdict := Continue | Return | Raise (e : thrown).

(** [for await (const event of events) step], then [finish]. *)
Fixpoint drive {S} (step : S → SSEEvent → S * list json * verdict) (finish : S → list json)
    (s : S) (es : list SSEEvent) (err : option thrown) : streamed :=
  match es with
  | [] => match err with None => Streamed (finish s) None | Some e => Streamed [] (Some e) end
  | e :: es' =>
      let '(s1, out, v) := step s e in
      match v with
      | Continue => let r := drive step finish s1 es' err in Streamed (out ++ chunks r) (failure r)
      | Return => Streamed out None
      | Raise x => Streamed out (Some x)
      end
  end.

(** A streaming call: the response's headers, an empty body, the loop. *)
Definition open_body {S} (cfg : ProviderInstanceConfig) (empty_message : string)
    (step : S → SSEEvent → S * list json * verdict) (finish : S → list json) (s : S) (r : StreamReply) : streamed :=
  match exchange JSON_parse cfg (reply r) with
  | Err e => Streamed [] (Some e)
  | Ok response =>
      match body response with
      | None => Streamed [] (Some (shape_error cfg empty_message None))
      | Some _ => let '(es, err) := body_events r in drive step finish s es err
      end
  end.
End Adapter.

(** ** The loop *)

Section Loop.
Context {S : Type} (step : S → SSEEvent → S * list json * verdict) (finish : S → list json).

(** Events the loop passes through: from a state, with what they emit. *)
Inductive goes : S → list SSEEvent → list json → S → Prop :=
| goes_nil s : goes s [] [] s
| goes_cons s e es s1 out out' s2 :
    step s e = (s1, out, Continue) → goes s1 es out' s2 → goes s (e :: es) (out ++ out') s2.

Lemma goes_one s e s1 out : step s e = (s1, out, Continue) → goes s [e] out s1.
Proof. intros H. rewrite <- (app_nil_r out). econstructor; [exact H | constructor]. Qed.

Lemma goes_skip s e es s1 out s2 : step s e = (s1, [], Continue) → goes s1 es out s2 → goes s (e :: es) out s2.
Proof. intros H1 H2. by apply (goes_cons s e es s1 [] out). Qed.
Lemma goes_emit s e es s1 c out s2 :
  step s e = (s1, [c], Continue) → goes s1 es out s2 → goes s (e :: es) (c :: out) s2.
Proof. intros H1 H2. by apply (goes_cons s e es s1 [c] out). Qed.

Lemma goes_app s es out s1 es' out' s2 :
  goes s es out s1 → goes s1 es' out' s2 → goes s (es ++ es') (out ++ out') s2.
Proof.
  induction 1 as [| s e es s1 o o' s3 E H IH]; intros H2; [done |]. rewrite <- app_assoc. econstructor; [exact E |]. by apply IH.
Qed.

Lemma drive_goes s es out s1 es' err : goes s es out s1 →
  drive step finish s (es ++ es') err =
  Streamed (out ++ chunks (drive step finish s1 es' err)) (failure (drive step finish s1 es' err)).
Proof.
  induction 1 as [s | s e es s1 o o' s2 E H IH]; [simpl; by destruct (drive _ _ s es' err) |].
  cbn [app drive]. rewrite E, IH. cbn [chunks failure]. by rewrite app_assoc.
Qed.

(** A loop emits as it reads: what it has emitted when its events break off
    is the beginning of what it emits for any continuation. *)
Lemma drive_incremental s es es' err e :
  chunks (drive step finish s es (Some e)) `prefix_of` chunks (drive step finish s (es ++ es') err).
Proof.
  revert s. induction es as [|x es IH]; intros s; [apply prefix_nil |]. cbn [app drive].
  destruct (step s x) as [[s1 out] []]; cbn [chunks]; [by apply prefix_app | done | done].
Qed.

(** What every step emits, and the end emits, the generator emits. *)
Lemma drive_forall (P : json → Prop) s es err :
  (∀ s e, Forall P (step s e).1.2) → (∀ s, Forall P (finish s)) →
  Forall P (chunks (drive step finish s es err)).
Proof.
  intros Hs Hf. revert s. induction es as [|e es IH]; intros s; cbn [drive].
  - destruct err; [by constructor | apply Hf].
  - specialize (Hs s e). destruct (step s e) as [[s1 out] []]; cbn [fst snd chunks] in *; [| done | done].
    by apply Forall_app.
Qed.
End Loop.

(** ** Well-typed replies *)

Definition is_count (q : Q) : Prop := ∃ z, to_int q = Some z ∧ 0 <= z.

(** What OpenAI's reply type asks of the value beyond its shape. *)
Definition well_typed (r : ChatCompletionResponse) : Prop :=
  r_choices r ≠ [] ∧ Forall (λ c, is_Some (ch_finish_reason c)) (r_choices r) ∧
  is_count (prompt_tokens (r_usage r)) ∧ is_count (completion_tokens (r_usage r)) ∧
  is_count (total_tokens (r_usage r)).

Lemma p_count_spec v q : p_count v = Some q ↔ v = JNum q ∧ is_count q.
Proof.
  unfold p_count, is_count. destruct v as [| |q'| | |]; simpl; try (split; [done | by intros [? _]]).
  destruct (to_int q') as [z|] eqn:E; simpl.
  - case_guard as Hg; simpl; (split; [intros [= <-] | intros [[= <-] (z' & E' & Hz)]; simplify_eq]); eauto; done.
  - split; [done |]. intros [[= <-] (z & E' & _)]. simplify_eq.
Qed.

Lemma count_nonneg z : 0 <= z → is_count (inject_Z z).
Proof. intros Hz. exists z. by rewrite to_int_of_Z. Qed.
Lemma is_count_add a b : is_count a → is_count b → is_count (a + b).
Proof.
  intros (x & Hx%to_int_spec & ?) (y & Hy%to_int_spec & ?). exists (x + y). split; [| lia].
  apply to_int_spec. by rewrite Hx, Hy, inject_Z_plus.
Qed.


(** An upstream for the examples. *)
Definition sample_cfg : ProviderInstanceConfig :=
  {| p_id := "p1"; p_name := "upstream"; adapterType := openai; baseUrl := "https://example.test/v1/"; p_apiKey := "sk";
     timeoutMs := 1000; p_weight := 1; p_priority := 1; models := [] |}.
