(* ===== verification/Copies.v ===== *)
(** * The helpers the Gemini and Cohere adapters repeat

    [providers/gemini.ts] and [providers/cohere.ts] each carry their own copy of
    the readers that [Adapter] states once.  Here the copies are written as the
    loops and tests of their files, over the same request types and JSON values,
    with the theorem that they compute what [Adapter] says, so that the two
    adapter files may use [Adapter]'s. *)

From Stdlib Require Import ZArith QArith String.
From stdpp Require Import base strings list.
From S2P Require Import Prelude Numerals Json Types Adapter.
Open Scope Z_scope.

(** [ChatMessage['content']], whatever the role: absent or null, a string, or
    parts of either kind. *)
Definition message_content : Type := option MessageContent.

(** A loop [for (const item of items) out.push(...)]. *)
Definition push_each {A B} (f : A → B) (items : list A) (out : list B) : list B := foldl (λ out item, (out ++ [f item])%list) out items.

(** An element of [EmbeddingRequest['input']] when it is an array. *)
Inductive input_item := ItemText (s : string) | ItemToken (n : Z) | ItemTokens (l : list Z).
Definition items_of (input : EmbeddingInput) : list input_item :=
  match input with
  | InText s => [ItemText s]
  | InTexts l => map ItemText l
  | InTokens l => map ItemToken l
  | InTokenLists l => map ItemTokens l
  end.

(** ** [providers/gemini.ts] *)

Definition gemini_flattenText (content : message_content) : string :=
  match content with
  | None => ""
  | Some (CText s) => s
  | Some (CParts l) =>
      foldl (λ out part, match part with TextPart text => (out ++ text)%string | ImagePart _ _ => out end) ""%string l
  end.

Definition gemini_inputItemToString (item : input_item) : string :=
  match item with ItemText s => s | ItemToken n => dec n | ItemTokens l => join " " (map dec l) end.

Definition gemini_embeddingInputToStrings (input : EmbeddingInput) : list string :=
  match input with
  | InText s => [s]
  | InTexts _ | InTokens _ | InTokenLists _ => push_each gemini_inputItemToString (items_of input) []
  end.

(** [typeof value === 'object' && value !== null]; [None] is [undefined]. *)
Definition gemini_isRecord (v : option json) : bool :=
  match v with Some (JObj _) | Some (JArr _) => true | _ => false end.

Definition gemini_asRecord (v : option json) : json := if gemini_isRecord v then v ?? JNull else JObj [].

Definition gemini_firstElement (v : option json) : option json :=
  match v with Some (JArr l) => l !! 0%nat | _ => None end.

(** A number parsed from JSON is finite. *)
Definition gemini_readNumber (v : option json) : option Q :=
  match v with Some (JNum q) => Some q | _ => None end.

Definition gemini_isNumber (v : json) : bool := match v with JNum _ => true | _ => false end.
Definition gemini_toNumberArray (v : option json) : list json :=
  match v with Some (JArr l) => List.filter gemini_isNumber l | _ => [] end.

Definition gemini_safeJsonParse (JSON_parse : string → option json) (value : string) : json :=
  match JSON_parse value with Some v => v | None => JObj [] end.


(** ** [providers/cohere.ts] *)

Definition cohere_flattenText (content : message_content) : string :=
  match content with
  | None => ""
  | Some (CText s) => s
  | Some (CParts l) =>
      foldl (λ out part, match part with TextPart text => (out ++ text)%string | ImagePart _ _ => out end) ""%string l
  end.

Definition cohere_inputItemToString (item : input_item) : string :=
  match item with ItemText s => s | ItemToken n => dec n | ItemTokens l => join " " (map dec l) end.

Definition cohere_embeddingInputToStrings (input : EmbeddingInput) : list string :=
  match input with
  | InText s => [s]
  | InTexts _ | InTokens _ | InTokenLists _ => push_each cohere_inputItemToString (items_of input) []
  end.

Definition cohere_isRecord (v : option json) : bool :=
  match v with Some (JObj _) | Some (JArr _) => true | _ => false end.

Definition cohere_firstElement (v : option json) : option json :=
  match v with Some (JArr l) => l !! 0%nat | _ => None end.

Definition cohere_readNumber (v : option json) : option Q :=
  match v with Some (JNum q) => Some q | _ => None end.

Definition cohere_isNumber (v : json) : bool := match v with JNum _ => true | _ => false end.
Definition cohere_toNumberArray (v : option json) : list json :=
  match v with Some (JArr l) => List.filter cohere_isNumber l | _ => [] end.

Definition cohere_safeJsonParse (JSON_parse : string → option json) (value : string) : json :=
  match JSON_parse value with Some v => v | None => JObj [] end.


(** Text-only content as content. *)
Definition widen (content : TextContent) : MessageContent :=
  match content with TText s => CText s | TParts l => CParts (map TextPart l) end.

Lemma push_each_map {A B} (f : A → B) items out : push_each f items out = (out ++ map f items)%list.
Proof.
  revert out. induction items as [|x items IH]; intros out; unfold push_each; simpl; [by rewrite app_nil_r |].
  fold (push_each f items (out ++ [f x])%list). by rewrite IH, <- app_assoc.
Qed.

Lemma flatten_texts l out :
  foldl (λ out part, match part with TextPart text => (out ++ text)%string | ImagePart _ _ => out end) out (map TextPart l) =
  foldl (λ out text, (out ++ text)%string) out l.
Proof. revert out. by induction l as [|x l IH]; intros out; simpl. Qed.

(** Images contribute nothing, wherever they stand. *)
Lemma flatten_skips_images l : gemini_flattenText (Some (CParts l)) = gemini_flattenText (Some (CParts (List.filter (λ p, match p with TextPart _ => true | _ => false end) l))).
Proof. simpl. generalize ""%string. by induction l as [|[t|u d] l IH]; intros out; simpl. Qed.

Lemma input_strings_of input : push_each gemini_inputItemToString (items_of input) [] = embeddingInputToStrings input.
Proof. rewrite push_each_map. by destruct input; simpl; rewrite ?map_map, ?map_id. Qed.

(** The two copies agree with [Adapter]'s readers: on text content (the roles
    for which the adapters flatten), on every embedding input, and on every
    JSON value. *)
Theorem copies_agree (JSON_parse : string → option json) (content : option TextContent) (input : EmbeddingInput) (v : option json) (value : string) :
  (gemini_flattenText (widen <$> content) = flattenText content ∧ cohere_flattenText (widen <$> content) = flattenText content) ∧
  (gemini_embeddingInputToStrings input = embeddingInputToStrings input ∧ cohere_embeddingInputToStrings input = embeddingInputToStrings input) ∧
  (gemini_isRecord v = from_option isRecord false v ∧ cohere_isRecord v = from_option isRecord false v) ∧
  (gemini_firstElement v = firstElement v ∧ cohere_firstElement v = firstElement v) ∧
  (gemini_readNumber v = readNumber v ∧ cohere_readNumber v = readNumber v) ∧
  (JArr (gemini_toNumberArray v) = toNumberArray v ∧ JArr (cohere_toNumberArray v) = toNumberArray v) ∧
  (gemini_safeJsonParse JSON_parse value = safeJsonParse JSON_parse value ∧
   cohere_safeJsonParse JSON_parse value = safeJsonParse JSON_parse value).
Proof.
  assert (Hflat : gemini_flattenText (widen <$> content) = flattenText content)
    by (destruct content as [[s|l]|]; [done | apply flatten_texts | done]).
  assert (Hin : gemini_embeddingInputToStrings input = embeddingInputToStrings input)
    by (destruct input; [done | apply (input_strings_of (InTexts _)) | apply (input_strings_of (InTokens _))
                         | apply (input_strings_of (InTokenLists _))]).
  split_and!; try done; destruct v as [[]|]; try done; by destruct l.
Qed.
