(* ===== verification/Values.v ===== *)
(** * JavaScript values where a number is declared

    The numbers of the language, [Number(s)], and what a variable that TypeScript
    declares a number holds when its value was read from unchecked JSON: the
    conversions and the arithmetic the code applies to it. *)

From Stdlib Require Import ZArith Lia QArith Qround String Ascii.
From stdpp Require Import base strings list option.
From S2P Require Import Prelude Numerals Bytes Json Stream.
Open Scope Z_scope.

(** ** Numbers from strings *)

Inductive js_number := NaN | Infinity (negative : bool) | Finite (q : Q).

Definition is_space (c : ascii) : bool :=
  let n := nat_of_ascii c in (n =? 32)%nat || ((9 <=? n) && (n <=? 13))%nat.
Fixpoint trim_start (s : string) : string :=
  match s with String c s' => if is_space c then trim_start s' else s | EmptyString => s end.
Fixpoint trim_end (s : string) : string :=
  match s with
  | EmptyString => EmptyString
  | String c s' =>
      match trim_end s' with
      | EmptyString => if is_space c then EmptyString else String c EmptyString
      | r => String c r
      end
  end.

Fixpoint digits_from (base acc : Z) (s : string) : option Z :=
  match s with
  | EmptyString => Some acc
  | String c s' =>
      d ← hex_rank c; if d <? base then digits_from base (acc * base + d) s' else None
  end.
Definition digits (base : Z) (s : string) : option Z := if String.eqb s "" then None else digits_from base 0 s.

(** An optional sign, and what follows it. *)
Definition signed (s : string) : bool * string :=
  match s with
  | String "+" s' => (false, s')
  | String "-" s' => (true, s')
  | _ => (false, s)
  end.

Definition power10 (e : Z) : Q := if 0 <=? e then inject_Z (10 ^ e) else (1 / inject_Z (10 ^ (- e)))%Q.

(** The digits around the point, and the exponent. *)
Definition mantissa (s : string) : option Q :=
  match split_at "." s with
  | None => inject_Z <$> digits 10 s
  | Some (a, b) =>
      if String.eqb a "" && String.eqb b "" then None
      else z ← digits_from 10 0 (a ++ b); Some (inject_Z z / inject_Z (10 ^ Z.of_nat (String.length b)))%Q
  end.
Definition exponent (s : string) : option Z :=
  let '(neg, d) := signed s in (λ z, if (neg : bool) then - z else z) <$> digits 10 d.
Definition decimal (s : string) : option Q :=
  match split_at "e" s with
  | None => mantissa s
  | Some (m, e) => q ← mantissa m; z ← exponent e; Some (q * power10 z)%Q
  end.

(** [Number(s)] on a string. *)
Definition to_number (s : string) : js_number :=
  let s := trim_end (trim_start s) in
  let num := λ o : option Q, match o with Some q => Finite q | None => NaN end in
  if String.eqb s "" then Finite 0
  else match to_lower (substring 0 2 s) with
       | "0x"%string => num (inject_Z <$> digits 16 (substring 2 (String.length s) s))
       | "0o"%string => num (inject_Z <$> digits 8 (substring 2 (String.length s) s))
       | "0b"%string => num (inject_Z <$> digits 2 (substring 2 (String.length s) s))
       | _ =>
           let '(neg, u) := signed s in
           if String.eqb u "Infinity" then Infinity neg
           else num ((λ q, if (neg : bool) then (- q)%Q else q) <$> decimal (to_lower u))
       end.

Example to_number_cases :
  map to_number [""; " 42 "; "0.25"; "1e3"; "-5."; "0x1F"; "abc"; "."; "-Infinity"; "1_000"]%string =
  [Finite 0; Finite 42; Finite (25 # 100); Finite 1000; Finite (-5); Finite 31; NaN; NaN; Infinity true; NaN].
Proof. by vm_compute. Qed.

(** ** Arithmetic *)

Definition js_add (a b : js_number) : js_number :=
  match a, b with
  | Finite p, Finite q => Finite (p + q)
  | NaN, _ | _, NaN => NaN
  | Infinity x, Infinity y => if Bool.eqb x y then Infinity x else NaN
  | Infinity x, Finite _ | Finite _, Infinity x => Infinity x
  end.

(** A product with a finite number. *)
Definition js_scale (a : js_number) (q : Q) : js_number :=
  match a with
  | Finite p => Finite (p * q)
  | NaN => NaN
  | Infinity x => match (q ?= 0)%Q with Eq => NaN | Gt => Infinity x | Lt => Infinity (negb x) end
  end.

(** [0 < n]. *)
Definition js_positive (n : js_number) : bool :=
  match n with NaN => false | Infinity neg => negb neg | Finite q => negb (Qle_bool q 0) end.

Definition num_string (n : js_number) : string :=
  match n with
  | NaN => "NaN" | Infinity false => "Infinity" | Infinity true => "-Infinity" | Finite q => js_num q
  end.

(** ** Values *)

(** A number, or another JSON value, [None] being undefined. *)
Inductive js_value := Num (n : js_number) | Other (v : option json).

Coercion Finite : Q >-> js_number.
Coercion Num : js_number >-> js_value.

(** The value of a property of unchecked JSON. *)
Definition value_of (v : option json) : js_value :=
  match v with Some (JNum q) => Num (Finite q) | _ => Other v end.

(** ToNumber, and ToString. *)
Definition ToNumber (v : js_value) : js_number :=
  match v with
  | Num n => n
  | Other None => NaN
  | Other (Some j) =>
      match j with
      | JNull => Finite 0
      | JBool b => Finite (if b then 1 else 0)
      | JNum q => Finite q
      | JStr s => to_number s
      | JArr _ | JObj _ => to_number (js_string j)
      end
  end.
Definition ToString (v : js_value) : string :=
  match v with Num n => num_string n | Other None => "undefined" | Other (Some j) => js_string j end.

(** Whether [+] concatenates. *)
Definition stringy (v : js_value) : bool :=
  match v with Other (Some (JStr _ | JArr _ | JObj _)) => true | _ => false end.

(** [a + b]. *)
Definition js_plus (a b : js_value) : js_value :=
  if stringy a || stringy b then Other (Some (JStr (ToString a ++ ToString b)))
  else Num (js_add (ToNumber a) (ToNumber b)).

Example plus_cases :
  map (λ x, js_plus x.1 x.2)
    [(Num (Finite 1), Num (Finite 2)); (Other None, Num (Finite 2)); (Other (Some JNull), Num (Finite 2));
     (Other (Some (JStr "")), Num (Finite 2)); (Other (Some (JArr [JNum 7])), Other None)] =
  [Num (Finite 3); Num NaN; Num (Finite 2); Other (Some (JStr "2")); Other (Some (JStr "7undefined"))].
Proof. reflexivity. Qed.
