(* ===== verification/CostTracker.v ===== *)
(** * Cost tracking and spend control ([src/services/cost-tracker.ts])

    Prices, the monthly spend counter in the shared store with its fail-open
    budget gate, and the bounded queue of background log writes. *)

From Stdlib Require Import ZArith Lia Lqa QArith String.
From stdpp Require Import base gmap strings list fin_maps.
From S2P Require Import Prelude Redis Numerals Json Values Provider.
Open Scope Z_scope.

Record RequestLogEntry := {
  log_apiKeyId : option string;
  log_providerId : option string;
  log_modelId : option string;
  log_promptTokens : option js_value;
  log_completionTokens : option js_value;
  log_totalTokens : option js_value;
  log_costUsd : option js_number;
  log_latencyMs : option Q;
  log_statusCode : option Z;
  log_cacheHit : bool;
  log_failoverCount : Z;
  log_errorMessage : option string
}.

Definition MAX_PENDING_LOG_WRITES : nat := 1000.
Definition SPEND_TTL_SECONDS : Z := 40 * 24 * 60 * 60.

(** ** Prices *)

(** The division and the products convert a count that is no number. *)
Definition estimateCost (m : option ProviderModelInfo) (promptTokens completionTokens : js_value) : js_number :=
  let inputPrice := (m ≫= inputPricePer1k) ?? 0%Q in
  let outputPrice := (m ≫= outputPricePer1k) ?? 0%Q in
  js_add (js_scale (js_scale (ToNumber promptTokens) (1 # 1000)) inputPrice)
         (js_scale (js_scale (ToNumber completionTokens) (1 # 1000)) outputPrice).

(** ** The log queue *)

(** The writes in flight, what reached the database, and the counts of
    entries dropped at the bound and of writes that failed. *)
Record queue := Queue {
  pendingWrites : list RequestLogEntry;
  persisted : list RequestLogEntry;
  dropped : Z;
  failed : Z
}.

Definition enqueueRequest (entry : RequestLogEntry) (q : queue) : queue :=
  if (MAX_PENDING_LOG_WRITES <=? length (pendingWrites q))%nat
  then Queue (pendingWrites q) (persisted q) (dropped q + 1) (failed q)
  else Queue (pendingWrites q ++ [entry])%list (persisted q) (dropped q) (failed q).

(** [recordRequest]: the insert succeeds, or its failure is logged. *)
Definition recordRequest (inserted : bool) (entry : RequestLogEntry) (q : queue) : queue :=
  if inserted then Queue (pendingWrites q) (persisted q ++ [entry])%list (dropped q) (failed q)
  else Queue (pendingWrites q) (persisted q) (dropped q) (failed q + 1).

(** The [i]-th write in flight settles. *)
Definition settle (i : nat) (inserted : bool) (q : queue) : queue :=
  match pendingWrites q !! i with
  | Some entry =>
      recordRequest inserted entry (Queue (delete i (pendingWrites q)) (persisted q) (dropped q) (failed q))
  | None => q
  end.

(** [flush]: every write in flight settles, in order. *)
Fixpoint flush_writes (fuel : nat) (inserted : nat → bool) (q : queue) : queue :=
  match fuel with
  | O => q
  | S fuel' => flush_writes fuel' inserted (settle 0 (inserted fuel') q)
  end.
Definition flush (inserted : nat → bool) (q : queue) : queue :=
  flush_writes (length (pendingWrites q)) inserted q.

Inductive queue_op := Enqueue (e : RequestLogEntry) | Settle (i : nat) (inserted : bool).
Definition queue_step (q : queue) (o : queue_op) : queue :=
  match o with Enqueue e => enqueueRequest e q | Settle i b => settle i b q end.

Definition empty_queue : queue := Queue [] [] 0 0.
Definition is_enqueue (o : queue_op) : bool := match o with Enqueue _ => true | _ => false end.

(** ** The month of an instant *)

(** Days since 1970-01-01 to year and month, as [Date.prototype.toISOString]
    has them (the proleptic Gregorian calendar). *)
Definition civil_month (days : Z) : Z * Z :=
  let z := days + 719468 in
  let era := z / 146097 in
  let doe := z mod 146097 in
  let yoe := (doe - doe / 1460 + doe / 36524 - doe / 146096) / 365 in
  let doy := doe - (365 * yoe + yoe / 4 - yoe / 100) in
  let mp := (5 * doy + 2) / 153 in
  let m := if mp <? 10 then mp + 3 else mp - 9 in
  (yoe + era * 400 + (if m <=? 2 then 1 else 0), m).

Definition MS_PER_DAY : Z := 86400000.
Definition month_of (nowMs : Z) : Z * Z := civil_month (nowMs / MS_PER_DAY).

(** [new Date(nowMs).toISOString().slice(0, 7)], for years 0 to 9999. *)
Definition yearMonth (nowMs : Z) : string :=
  (pad_left 4 (dec (month_of nowMs).1) ++ "-" ++ pad_left 2 (dec (month_of nowMs).2))%string.

Example month_of_2024_02_29 : yearMonth 1709164800000 = "2024-02"%string.
Proof. reflexivity. Qed.
Example month_of_2000_03_01 : yearMonth 951868800000 = "2000-03"%string.
Proof. reflexivity. Qed.
Example month_of_1999_12_31 : yearMonth 946684799999 = "1999-12"%string.
Proof. reflexivity. Qed.

(** ** The spend counter *)

Section Spend.
Variable REDIS_KEY_PREFIX : string.

Definition spendKey (apiKeyId : string) (nowMs : Z) : string :=
  (REDIS_KEY_PREFIX ++ "spend:" ++ apiKeyId ++ ":" ++ yearMonth nowMs)%string.

(** EXPIRE takes seconds. *)
Definition EXPIRE (k : string) (seconds : Z) : cmd := PEXPIRE k (seconds * 1000).

(** [addSpend]; [f1] and [f2] are the fates of its two commands, and a failed
    first command skips the second.  Redis refuses an increment that is not a
    finite number. *)
Definition addSpend (f1 f2 : fault) (apiKeyId : string) (costUsd : js_number) (nowMs : Z) (s : db) : db :=
  match costUsd with
  | Finite costUsd =>
      if Qle_bool costUsd 0 then s
      else
        let key := spendKey apiKeyId nowMs in
        match client f1 (redis_call (INCRBYFLOAT key costUsd)) nowMs s with
        | (s1, Ok _) => (client f2 (redis_call (EXPIRE key SPEND_TTL_SECONDS)) nowMs s1).1
        | (s1, Err _) => s1
        end
  | NaN | Infinity _ => s
  end.

(** [getMonthlySpendUsd]: [None] is [NaN]. *)
Definition getMonthlySpendUsd (f : fault) (apiKeyId : string) (nowMs : Z) (s : db) : option Q :=
  match client f (redis_call (GET (spendKey apiKeyId nowMs))) nowMs s with
  | (_, Ok (RBulk v)) => to_q v
  | (_, Ok _) => Some 0%Q
  | (_, Err _) => Some 0%Q
  end.

Definition isOverBudget (f : fault) (apiKeyId : string) (monthlyBudgetUsd : option Q) (nowMs : Z) (s : db) : bool :=
  match monthlyBudgetUsd with
  | None => false
  | Some budget =>
      match getMonthlySpendUsd f apiKeyId nowMs s with
      | Some spend => Qle_bool budget spend
      | None => false
      end
  end.

(** A month's charges: time and cost. *)
Fixpoint addSpends (apiKeyId : string) (charges : list (Z * Q)) (s : db) : db :=
  match charges with
  | [] => s
  | (t, c) :: rest => addSpends apiKeyId rest (addSpend Up Up apiKeyId c t s)
  end.
End Spend.

(** What the positive charges sum to. *)
Fixpoint total_spend (charges : list (Z * Q)) : Q :=
  match charges with
  | [] => 0
  | (_, c) :: rest => (if Qle_bool c 0 then 0 else c) + total_spend rest
  end.

(** ** Lemmas *)

(** The day of the (March-based) year lies within the year. *)
Lemma day_of_year_bounds doe : 0 <= doe < 146097 →
  let yoe := (doe - doe / 1460 + doe / 36524 - doe / 146096) / 365 in
  0 <= yoe <= 399 ∧ 0 <= doe - (365 * yoe + yoe / 4 - yoe / 100) <= 365.
Proof.
  intros Hd. cbv zeta.
  assert (Hdiv : ∀ x b, 0 < b → b * (x / b) <= x < b * (x / b) + b).
  { intros x b Hb. pose proof (Z.div_mod x b ltac:(lia)). pose proof (Z.mod_pos_bound x b Hb). lia. }
  pose proof (Hdiv doe 1460 eq_refl) as Ha. pose proof (Hdiv doe 36524 eq_refl) as Hb.
  pose proof (Hdiv doe 146096 eq_refl) as Hc.
  set (a := doe / 1460) in *. set (b := doe / 36524) in *. set (c := doe / 146096) in *.
  pose proof (Hdiv (doe - a + b - c) 365 eq_refl) as Hy. set (y := (doe - a + b - c) / 365) in *.
  pose proof (Hdiv y 4 eq_refl) as H4. pose proof (Hdiv y 100 eq_refl) as H100.
  set (q4 := y / 4) in *. set (q100 := y / 100) in *. clearbody a b c y q4 q100. clear Hdiv.
  assert (0 <= y <= 399) by lia. split; [done |].
  assert (c = 0 ∨ c = 1) as [-> | ->] by lia;
    assert (b = 0 ∨ b = 1 ∨ b = 2 ∨ b = 3 ∨ b = 4) as [-> | [-> | [-> | [-> | ->]]]] by lia;
    assert (q100 = 0 ∨ q100 = 1 ∨ q100 = 2 ∨ q100 = 3) as [-> | [-> | [-> | ->]]] by lia; lia.
Qed.

(** Two days of one month are at most 30 days apart. *)
Lemma civil_month_span d d' : civil_month d = civil_month d' → - 30 <= d - d' <= 30.
Proof.
  unfold civil_month. cbv zeta. set (z := d + 719468). set (z' := d' + 719468).
  pose proof (Z.mod_pos_bound z 146097 eq_refl) as Hd. pose proof (Z.mod_pos_bound z' 146097 eq_refl) as Hd'.
  pose proof (Z.div_mod z 146097 ltac:(lia)) as Hz. pose proof (Z.div_mod z' 146097 ltac:(lia)) as Hz'.
  destruct (day_of_year_bounds _ Hd) as [Hy Hdoy]. destruct (day_of_year_bounds _ Hd') as [Hy' Hdoy'].
  set (doe := z mod 146097) in *. set (doe' := z' mod 146097) in *.
  set (yoe := (doe - doe / 1460 + doe / 36524 - doe / 146096) / 365) in *.
  set (yoe' := (doe' - doe' / 1460 + doe' / 36524 - doe' / 146096) / 365) in *.
  set (doy := doe - (365 * yoe + yoe / 4 - yoe / 100)) in *.
  set (doy' := doe' - (365 * yoe' + yoe' / 4 - yoe' / 100)) in *.
  pose proof (Z.div_mod (5 * doy + 2) 153 ltac:(lia)) as H1. pose proof (Z.mod_pos_bound (5 * doy + 2) 153 eq_refl).
  pose proof (Z.div_mod (5 * doy' + 2) 153 ltac:(lia)) as H2. pose proof (Z.mod_pos_bound (5 * doy' + 2) 153 eq_refl).
  set (mp := (5 * doy + 2) / 153) in *. set (mp' := (5 * doy' + 2) / 153) in *.
  intros [= Hyear Hm].
  assert (Hmp : mp = mp').
  { clear Hyear. destruct (mp <? 10) eqn:E1, (mp' <? 10) eqn:E2; bool_props; lia. }
  rewrite Hmp in Hyear, H1. assert (yoe = yoe' ∧ z / 146097 = z' / 146097) as [Hyo He] by lia.
  assert (doy - doy' = doe - doe') by (unfold doy, doy'; rewrite Hyo; lia).
  assert (z - z' = doe - doe') by (rewrite Hz, Hz', He; unfold doe, doe'; lia). lia.
Qed.

Lemma month_span t t' : month_of t = month_of t' → - 31 * MS_PER_DAY < t - t' < 31 * MS_PER_DAY.
Proof.
  intros H. apply civil_month_span in H. unfold MS_PER_DAY in *.
  pose proof (Z.div_mod t 86400000 ltac:(lia)). pose proof (Z.mod_pos_bound t 86400000 eq_refl).
  pose proof (Z.div_mod t' 86400000 ltac:(lia)). pose proof (Z.mod_pos_bound t' 86400000 eq_refl). lia.
Qed.

Lemma yearMonth_month t t' : month_of t = month_of t' → yearMonth t = yearMonth t'.
Proof. unfold yearMonth. by intros ->. Qed.

(** *** The counter *)

Section Counter.
Variables prefix apiKeyId : string.
Variable m : Z * Z.

(** The counter of month [m] holds [q] (nothing when there was no charge), and
    outlives every instant of the month. *)
Definition spent (k : string) (q : Q) (s : db) : Prop :=
  (s !! k = None ∧ (q == 0)%Q) ∨
  ∃ v d, s !! k = Some (Entry (VStr (SNum v)) (Some d)) ∧ (v == q)%Q ∧ ∀ t, month_of t = m → t <= d.

Lemma spent_equiv k q q' s : (q == q')%Q → spent k q s → spent k q' s.
Proof.
  intros E [[H1 H2] | (v & d & H1 & H2 & H3)]; [left; split; [done | by rewrite <- E] | right; exists v, d].
  split; [done |]. split; [by rewrite H2 | done].
Qed.

Lemma addSpend_spent t c q s :
  month_of t = m → let k := spendKey prefix apiKeyId t in
  spent k q s → spent k (q + (if Qle_bool c 0 then 0 else c)) (addSpend prefix Up Up apiKeyId c t s).
Proof.
  intros Ht k Hs. unfold addSpend. destruct (Qle_bool c 0) eqn:Ec.
  { eapply spent_equiv; [| exact Hs]. ring. }
  fold k. cbn [client].
  assert (Hrun : ∃ v dl, exec (INCRBYFLOAT k c) t s = (<[k := Entry (VStr (SNum v)) dl]> s, RBulk (SNum v)) ∧
    (v == q + c)%Q ∧ ∀ d, dl = Some d → t <= d).
  { destruct Hs as [[Hk Hq] | (v & d & Hk & Hv & Hd)]; simpl; unfold look; rewrite Hk.
    - exists c, None. split; [done |]. split; [rewrite Hq; ring | done].
    - unfold live. simpl. rewrite (proj2 (Z.leb_le _ _)) by (by apply Hd).
      exists (v + c)%Q, (Some d). split; [done |]. split; [by rewrite Hv |]. intros ? [= <-]. by apply Hd. }
  destruct Hrun as (v & dl & E & Hv & Hl). rewrite run_redis_call, E. cbv beta iota.
  rewrite run_redis_call. unfold EXPIRE. cbn [exec]. rewrite look_insert_eq.
  assert (live t (Entry (VStr (SNum v)) dl) = true) as ->.
  { unfold live. simpl. destruct dl as [d|]; [|done]. apply Z.leb_le. by apply Hl. }
  cbv beta iota. cbn [fst e_val]. right. exists v, (t + SPEND_TTL_SECONDS * 1000).
  split; [by rewrite lookup_insert_eq |]. split; [done |]. intros t' Ht'.
  pose proof (month_span t' t ltac:(congruence)). unfold MS_PER_DAY, SPEND_TTL_SECONDS in *. lia.
Qed.

Lemma addSpends_spent charges : ∀ k q s,
  Forall (λ x : Z * Q, month_of x.1 = m ∧ spendKey prefix apiKeyId x.1 = k) charges → spent k q s →
  spent k (q + total_spend charges) (addSpends prefix apiKeyId charges s).
Proof.
  induction charges as [|[t c] l IH]; intros k q s Hf Hs; cbn [addSpends total_spend].
  { eapply spent_equiv; [| exact Hs]. ring. }
  apply Forall_cons in Hf as [[Ht Hk] Hf]. simpl in Ht, Hk. subst k.
  eapply spent_equiv; [| apply IH; [exact Hf | by apply addSpend_spent]]. ring.
Qed.

Lemma read_spent t q s : month_of t = m → spent (spendKey prefix apiKeyId t) q s →
  ∃ v, getMonthlySpendUsd prefix Up apiKeyId t s = Some v ∧ (v == q)%Q.
Proof.
  intros Ht Hs. unfold getMonthlySpendUsd, client. rewrite run_redis_call. cbn [exec]. unfold look_val, look.
  destruct Hs as [[Hk Hq] | (v & d & Hk & Hv & Hd)]; rewrite Hk.
  - exists 0%Q. by rewrite Hq.
  - unfold live. simpl. rewrite (proj2 (Z.leb_le _ _)) by (by apply Hd). by exists v.
Qed.
End Counter.

(** ** Theorems *)

(** C34: The spend counter is exact for the month. With the store reachable,
    after any charges of one key within a calendar month, read back at any
    instant of that month, the month-to-date spend is the sum of the positive
    charges (the counter never expires within its month), and the budget gate
    closes exactly when that sum has reached the budget. *)
Theorem monthly_spend_exact prefix apiKeyId charges t s budget :
  s !! spendKey prefix apiKeyId t = None →
  Forall (λ x : Z * Q, month_of x.1 = month_of t) charges →
  let s' := addSpends prefix apiKeyId charges s in
  (∃ v, getMonthlySpendUsd prefix Up apiKeyId t s' = Some v ∧ (v == total_spend charges)%Q) ∧
  (isOverBudget prefix Up apiKeyId (Some budget) t s' = true ↔ (budget <= total_spend charges)%Q).
Proof.
  intros Hs Hf s'.
  assert (Hsp : spent (month_of t) (spendKey prefix apiKeyId t) (total_spend charges) s').
  { eapply spent_equiv; [| eapply (addSpends_spent prefix apiKeyId (month_of t) charges _ 0)].
    - ring.
    - eapply Forall_impl; [exact Hf |]. intros [u c] E. simpl in *. split; [done |].
      unfold spendKey. by rewrite (yearMonth_month u t E).
    - left. by split. }
  destruct (read_spent prefix apiKeyId (month_of t) t _ s' eq_refl Hsp) as (v & E & Hv).
  split; [by exists v |]. unfold isOverBudget. rewrite E, Qle_bool_iff. by rewrite Hv.
Qed.

Lemma monthly_spend_exact_witness :
  (∃ v, getMonthlySpendUsd "gw:" Up "k" 1709164800000
          (addSpends "gw:" "k" [(1706745600000, 1 # 2); (1708000000000, 1 # 4)] ∅) = Some v ∧
        (v == total_spend [(1706745600000%Z, 1 # 2); (1708000000000%Z, 1 # 4)])%Q) ∧
  (isOverBudget "gw:" Up "k" (Some (3 # 4)) 1709164800000
     (addSpends "gw:" "k" [(1706745600000, 1 # 2); (1708000000000, 1 # 4)] ∅) = true ↔
   (3 # 4 <= total_spend [(1706745600000%Z, 1 # 2); (1708000000000%Z, 1 # 4)])%Q).
Proof.
  apply (monthly_spend_exact "gw:" "k" [(1706745600000, 1 # 2); (1708000000000, 1 # 4)] 1709164800000 ∅ (3 # 4));
    [done | by repeat constructor].
Defined.

(** The log queue is bounded and accounts for every entry: over any history
    of enqueued entries and settled writes at most [MAX_PENDING_LOG_WRITES]
    writes are in flight, and the entries enqueued are exactly those in flight,
    persisted, failed and dropped. *)
Theorem log_queue_accounts ops :
  let q := foldl queue_step empty_queue ops in
  (length (pendingWrites q) <= MAX_PENDING_LOG_WRITES)%nat ∧
  Z.of_nat (length (List.filter is_enqueue ops)) =
    Z.of_nat (length (pendingWrites q)) + Z.of_nat (length (persisted q)) + failed q + dropped q ∧
  pendingWrites (flush (λ _, true) q) = [].
Proof.
  assert (Hflush : ∀ n b q, length (pendingWrites q) = n → pendingWrites (flush_writes n b q) = []).
  { induction n as [|n IH]; intros b q Hn; [by apply nil_length_inv |]. cbn [flush_writes]. apply IH.
    unfold settle. destruct (pendingWrites q) as [|e l]; [done |]. simpl. destruct (b n); simpl in *; lia. }
  assert (Hgen : ∀ ops q, (length (pendingWrites q) <= MAX_PENDING_LOG_WRITES)%nat →
    let q' := foldl queue_step q ops in
    (length (pendingWrites q') <= MAX_PENDING_LOG_WRITES)%nat ∧
    Z.of_nat (length (List.filter is_enqueue ops)) +
      (Z.of_nat (length (pendingWrites q)) + Z.of_nat (length (persisted q)) + failed q + dropped q) =
    Z.of_nat (length (pendingWrites q')) + Z.of_nat (length (persisted q')) + failed q' + dropped q').
  { clear. induction ops as [|o ops IH]; intros q Hq; [split; [done | simpl; lia] |].
    assert (Hstep : (length (pendingWrites (queue_step q o)) <= MAX_PENDING_LOG_WRITES)%nat ∧
      Z.of_nat (length (pendingWrites (queue_step q o))) + Z.of_nat (length (persisted (queue_step q o))) +
        failed (queue_step q o) + dropped (queue_step q o) =
      Z.of_nat (length (pendingWrites q)) + Z.of_nat (length (persisted q)) + failed q + dropped q +
        (if is_enqueue o then 1 else 0)).
    { destruct o as [e | i b]; cbn [queue_step is_enqueue].
      - unfold enqueueRequest. destruct (_ <=? _)%nat eqn:E; cbn [pendingWrites persisted dropped failed]; [lia |].
        apply Nat.leb_gt in E. rewrite length_app. cbn [length]. lia.
      - unfold settle. destruct (pendingWrites q !! i) as [e|] eqn:E; [|lia].
        pose proof (length_delete (pendingWrites q) i ltac:(by eexists)) as Hl.
        assert (0 < length (pendingWrites q))%nat by (apply lookup_lt_Some in E; lia).
        unfold recordRequest. destruct b; cbn [pendingWrites persisted dropped failed];
          rewrite ?length_app, Hl; cbn [length]; lia. }
    destruct Hstep as [H1 H2]. destruct (IH _ H1) as [I1 I2]. split; [exact I1 |].
    cbn [List.filter foldl]. destruct (is_enqueue o); cbn [length] in *; lia. }
  cbv zeta. destruct (Hgen ops empty_queue) as [H1 H2]; [simpl; lia |].
  split; [done |]. split; [simpl in H2 |- *; lia |]. by apply Hflush.
Qed.
