(* ===== verification/Registry.v ===== *)
(** * The provider registry ([src/providers/registry.ts])

    Loading database rows into providers and the model index, resolution of
    requested models through the alias table, the catalogue, and the refresh
    protocol with its de-duplication and back-off. *)

From Stdlib Require Import ZArith Lia QArith String.
From stdpp Require Import base strings list.
From S2P Require Import Prelude Numerals Constants Json Errors Provider.
Open Scope Z_scope.

Definition REFRESH_RETRY_MS : Z := 5000.

Definition MODEL_ALIASES : list (string * string) :=
  [("gpt-4", "gpt-4o"); ("gpt-4-turbo", "gpt-4o"); ("gpt-3.5-turbo", "gpt-4o-mini");
   ("claude-3-opus", "claude-opus-4"); ("claude-3-sonnet", "claude-sonnet-4");
   ("gemini-pro", "gemini-1.5-pro")]%string.

Record ModelCandidate := { c_provider : ProviderInstanceConfig; c_model : ProviderModelInfo }.

Record ModelResolution := { canonicalModel : string; candidates : list ModelCandidate }.

(** The rows of the query; a numeric column is its numeral. *)
Record model_row := {
  m_modelId : string; m_displayName : option string; m_contextWindow : option Z;
  m_maxOutputTokens : option Z; m_inputPricePer1k : option string; m_outputPricePer1k : option string;
  m_supportsStreaming : bool; m_supportsTools : bool; m_supportsVision : bool
}.

Record provider_row := {
  row_id : string; row_name : string; row_adapterType : AdapterType; row_baseUrl : string;
  row_encryptedApiKey : string; row_timeoutMs : Z; row_weight : Z; row_priority : Z;
  row_models : list model_row
}.

(** ** Ordered maps *)

(** [map.set(k, v)]: in place when the key is present, else at the end. *)
Fixpoint map_set {A} (k : string) (v : A) (l : list (string * A)) : list (string * A) :=
  match l with
  | [] => [(k, v)]
  | (k', v') :: l' => if String.eqb k k' then (k', v) :: l' else (k', v') :: map_set k v l'
  end.

(** [list.sort((a, b) => a.priority - b.priority)]: stable. *)
Definition prio (c : ModelCandidate) : Z := p_priority (c_provider c).

Fixpoint insert_candidate (c : ModelCandidate) (l : list ModelCandidate) : list ModelCandidate :=
  match l with
  | [] => [c]
  | d :: l' => if prio c <=? prio d then c :: d :: l' else d :: insert_candidate c l'
  end.
Definition sort_candidates (l : list ModelCandidate) : list ModelCandidate := foldr insert_candidate [] l.

(** ** Loading *)

Definition parseNumeric (value : option string) : option Q := value ≫= parse_decimal.

Definition model_info (m : model_row) : ProviderModelInfo :=
  {| modelId := m_modelId m; displayName := m_displayName m; contextWindow := m_contextWindow m;
     maxOutputTokens := m_maxOutputTokens m; inputPricePer1k := parseNumeric (m_inputPricePer1k m);
     outputPricePer1k := parseNumeric (m_outputPricePer1k m); supportsStreaming := m_supportsStreaming m;
     supportsTools := m_supportsTools m; supportsVision := m_supportsVision m |}.

Definition row_infos (row : provider_row) : list (string * ProviderModelInfo) :=
  foldl (λ l m, map_set (m_modelId m) (model_info m) l) [] (row_models row).

Record snapshot := Snapshot {
  providersById : list (string * ProviderInstanceConfig);
  candidatesByModel : list (string * list ModelCandidate)
}.

Section Registry.
(** [decrypt]: the credential, or the error it throws. *)
Variable decrypt : string → result thrown string.

(** The configuration of a row whose credential decrypts. *)
Definition row_provider (row : provider_row) (apiKey : string) : ProviderInstanceConfig :=
  {| p_id := row_id row; p_name := row_name row; adapterType := row_adapterType row;
     baseUrl := row_baseUrl row; p_apiKey := apiKey; timeoutMs := row_timeoutMs row;
     p_weight := row_weight row; p_priority := row_priority row; models := row_infos row |}.

Definition add_candidate (p : ProviderInstanceConfig) (byModel : list (string * list ModelCandidate))
    (x : string * ProviderModelInfo) : list (string * list ModelCandidate) :=
  let list := assoc (modelId x.2) byModel ?? [] in
  map_set (modelId x.2) (list ++ [{| c_provider := p; c_model := x.2 |}])%list byModel.

Definition load_row (s : snapshot) (row : provider_row) : snapshot :=
  match decrypt (row_encryptedApiKey row) with
  | Ok apiKey =>
      let p := row_provider row apiKey in
      Snapshot (map_set (row_id row) p (providersById s))
               (foldl (add_candidate p) (candidatesByModel s) (models p))
  | Err _ => s
  end.

Definition load_rows (rows : list provider_row) : snapshot :=
  let s := foldl load_row (Snapshot [] []) rows in
  Snapshot (providersById s) (map (λ x, (x.1, sort_candidates x.2)) (candidatesByModel s)).
End Registry.

(** ** Resolution *)

Definition resolveCandidates (s : snapshot) (requestedModel : string) : ModelResolution :=
  match assoc requestedModel (candidatesByModel s) with
  | Some (c :: l) => {| canonicalModel := requestedModel; candidates := c :: l |}
  | _ =>
      match assoc requestedModel MODEL_ALIASES with
      | Some alias =>
          match assoc alias (candidatesByModel s) with
          | Some (c :: l) => {| canonicalModel := alias; candidates := c :: l |}
          | _ => {| canonicalModel := requestedModel; candidates := [] |}
          end
      | None => {| canonicalModel := requestedModel; candidates := [] |}
      end
  end.

Definition getProvider (s : snapshot) (i : string) : option ProviderInstanceConfig := assoc i (providersById s).
Definition allProviders (s : snapshot) : list ProviderInstanceConfig := map snd (providersById s).

Definition registry_hasModel (s : snapshot) (m : string) : bool :=
  negb (bool_decide (length (candidates (resolveCandidates s m)) = O)).

(** An entry of [GET /v1/models]; [object] is ["model"] and [created] is 0. *)
Record ModelObject := { mo_id : string; mo_owned_by : AdapterType }.

Section Catalogue.
(** [String.prototype.localeCompare], of the host's collation. *)
Variable localeCompare : string → string → Z.

Fixpoint insert_model (x : ModelObject) (l : list ModelObject) : list ModelObject :=
  match l with
  | [] => [x]
  | y :: l' => if localeCompare (mo_id x) (mo_id y) <=? 0 then x :: y :: l' else y :: insert_model x l'
  end.

Definition catalogue_entries (s : snapshot) : list ModelObject :=
  omap (λ x, match x.2 with
             | first :: _ => Some {| mo_id := x.1; mo_owned_by := adapterType (c_provider first) |}
             | [] => None
             end) (candidatesByModel s).

Definition listModels (s : snapshot) : list ModelObject := foldr insert_model [] (catalogue_entries s).
End Catalogue.

(** ** The refresh protocol *)

(** [loadedAtMs] and whether a load is in flight ([inflight]). *)
Record registry_state := RegistryState { snap : snapshot; loadedAtMs : Z; inflight : bool }.

Inductive arrival := Served | Joined | StartedLoad.

(** A request reaches [refreshIfStale] at [now]: it is served from the snapshot,
    waits for the load in flight, or starts one. *)
Definition refresh_arrive (ttlSeconds now : Z) (s : registry_state) : registry_state * arrival :=
  let ageMs := now - loadedAtMs s in
  if negb (loadedAtMs s =? 0) && (ageMs <? ttlSeconds * 1000) then (s, Served)
  else if inflight s then (s, Joined)
  else (RegistryState (snap s) (loadedAtMs s) true, StartedLoad).

(** The load in flight ends at [now], with a snapshot or an error; the waiting
    requests fail only when there is no snapshot to serve. *)
Definition refresh_finish (ttlSeconds now : Z) (r : result thrown snapshot) (s : registry_state)
    : registry_state * result thrown unit :=
  match r with
  | Ok snap' => (RegistryState snap' now false, Ok tt)
  | Err e =>
      if loadedAtMs s =? 0 then (RegistryState (snap s) (loadedAtMs s) false, Err e)
      else (RegistryState (snap s) (now - ttlSeconds * 1000 + REFRESH_RETRY_MS) false, Ok tt)
  end.

(** ** Lemmas *)

Lemma assoc_map_set_eq {A} k (v : A) l : assoc k (map_set k v l) = Some v.
Proof.
  induction l as [|[k' v'] l IH]; simpl; [by rewrite String.eqb_refl |].
  destruct (String.eqb k k') eqn:E; simpl; by rewrite E.
Qed.

Lemma assoc_map_set_ne {A} k k' (v : A) l : k ≠ k' → assoc k' (map_set k v l) = assoc k' l.
Proof.
  intros Hne. induction l as [|[k2 v2] l IH]; simpl.
  - destruct (String.eqb_spec k' k); [congruence | done].
  - destruct (String.eqb_spec k k2) as [-> |]; simpl.
    + destruct (String.eqb_spec k' k2); [congruence | done].
    + by destruct (String.eqb k' k2).
Qed.

Lemma insert_candidate_perm c l : insert_candidate c l ≡ₚ c :: l.
Proof.
  induction l as [|d l IH]; simpl; [done |]. destruct (_ <=? _); [done |].
  rewrite IH. apply Permutation_swap.
Qed.

Lemma sort_candidates_perm l : sort_candidates l ≡ₚ l.
Proof. induction l as [|c l IH]; [done |]. simpl. by rewrite insert_candidate_perm, IH. Qed.

(** Ascending priority. *)
Fixpoint by_priority (l : list ModelCandidate) : Prop :=
  match l with
  | [] => True
  | c :: l' => (∀ d, d ∈ l' → prio c <= prio d) ∧ by_priority l'
  end.

Lemma insert_by_priority c l : by_priority l → by_priority (insert_candidate c l).
Proof.
  induction l as [|d l IH]; simpl; [intros _; split; [by intros ? ?%elem_of_nil | done] |].
  intros [Hd Hl]. destruct (prio c <=? prio d) eqn:E; bool_props; simpl.
  - split; [| by split]. intros x [-> | Hx]%elem_of_cons; [done |]. specialize (Hd x Hx). lia.
  - split; [| by apply IH]. intros x Hx. rewrite insert_candidate_perm in Hx.
    apply elem_of_cons in Hx as [-> | Hx]; [lia | by apply Hd].
Qed.

Lemma sort_by_priority l : by_priority (sort_candidates l).
Proof. induction l as [|c l IH]; [done |]. by apply insert_by_priority. Qed.

Lemma assoc_map {A B} (f : A → B) k l : assoc k (map (λ x, (x.1, f x.2)) l) = f <$> assoc k l.
Proof. induction l as [|[k' v] l IH]; [done |]. simpl. by destruct (String.eqb k k'). Qed.

(** A map built by [map_set] holds, under each key, a value set for it. *)
Lemma map_set_in {A} k (v : A) l x : x ∈ map_set k v l → x = (k, v) ∨ x ∈ l.
Proof.
  induction l as [|[k' v'] l IH]; simpl.
  - intros [-> | Hx]%elem_of_cons; [by left | by apply elem_of_nil in Hx].
  - destruct (String.eqb_spec k k') as [-> |]; intros [-> | Hx]%elem_of_cons.
    + by left.
    + right. by right.
    + right. by left.
    + destruct (IH Hx) as [-> | Hx']; [by left | right; by right].
Qed.

Lemma assoc_in {A} k (v : A) l : assoc k l = Some v → (k, v) ∈ l.
Proof.
  induction l as [|[k' v'] l IH]; [done |]. simpl. destruct (String.eqb_spec k k') as [-> |].
  - intros [= ->]. by left.
  - intros E. right. by apply IH.
Qed.

Lemma in_assoc {A} k (l : list (string * A)) : k ∈ map fst l → is_Some (assoc k l).
Proof.
  induction l as [|[k' v] l IH]; simpl; [by intros ?%elem_of_nil |].
  destruct (String.eqb_spec k k') as [-> |]; [by eexists |].
  intros [-> | Hk]%elem_of_cons; [done | by apply IH].
Qed.

Lemma row_infos_keys row k info : (k, info) ∈ row_infos row → k = modelId info.
Proof.
  unfold row_infos. assert (Hgen : ∀ ms l, (∀ k i, (k, i) ∈ l → k = modelId i) →
    ∀ k i, (k, i) ∈ foldl (λ l m, map_set (m_modelId m) (model_info m) l) l ms → k = modelId i).
  { clear. induction ms as [|m ms IH]; intros l Hl; [done |]. cbn [foldl]. apply IH.
    intros k i [[= -> ->] | Hx]%map_set_in; [done | by apply Hl]. }
  apply Hgen. by intros ? ? ?%elem_of_nil.
Qed.

Section Load.
Variable decrypt : string → result thrown string.

(** The providers that load: rows whose credential decrypts. *)
Definition loads (rows : list provider_row) (p : ProviderInstanceConfig) : Prop :=
  ∃ row apiKey, row ∈ rows ∧ decrypt (row_encryptedApiKey row) = Ok apiKey ∧ p = row_provider row apiKey.

(** The candidates of model [m] in the index are the loaded providers with [m]. *)
Definition index_ok (rows : list provider_row) (idx : list (string * list ModelCandidate)) : Prop :=
  ∀ m c, c ∈ (assoc m idx ?? []) ↔
    loads rows (c_provider c) ∧ (m, c_model c) ∈ models (c_provider c).

Lemma add_candidates_index p infos : ∀ idx m c,
  (∀ k i, (k, i) ∈ infos → k = modelId i) →
  c ∈ (assoc m (foldl (add_candidate p) idx infos) ?? []) ↔
  c ∈ (assoc m idx ?? []) ∨ (c_provider c = p ∧ (m, c_model c) ∈ infos).
Proof using.
  induction infos as [|[k i] infos IH]; intros idx m c Hk; cbn [foldl].
  { split; [by left | intros [? | [_ ?%elem_of_nil]]; done]. }
  rewrite IH by (intros; apply Hk; by right). unfold add_candidate at 1. cbn [snd].
  pose proof (Hk k i ltac:(by left)) as ->.
  destruct (decide (modelId i = m)) as [E | Hne].
  - rewrite E, assoc_map_set_eq. cbn [coalesce]. rewrite elem_of_app, list_elem_of_singleton, elem_of_cons.
    split.
    + intros [[? | ->] | [? ?]]; [by left | right; split; [done | by left] | right; split; [done | by right]].
    + intros [? | [<- [[= <-] | ?]]]; [by left; left | left; right; by destruct c | by right].
  - rewrite assoc_map_set_ne by done. rewrite elem_of_cons. split.
    + intros [? | [? ?]]; [by left | right; split; [done | by right]].
    + intros [? | [? [[= E' _] | ?]]]; [by left | by symmetry in E' | by right].
Qed.

Lemma load_rows_index rows : index_ok rows (candidatesByModel (load_rows decrypt rows)).
Proof using.
  assert (Hgen : ∀ rest dn s, index_ok dn (candidatesByModel s) →
    index_ok (dn ++ rest)%list (candidatesByModel (foldl (load_row decrypt) s rest))).
  { induction rest as [|row rest IH]; intros dn s Hs; [by rewrite app_nil_r |].
    cbn [foldl]. rewrite cons_middle, app_assoc.
    apply IH. intros m c. unfold load_row. destruct (decrypt (row_encryptedApiKey row)) as [k|e] eqn:E.
    - cbn [candidatesByModel]. rewrite add_candidates_index by (apply row_infos_keys).
      rewrite (Hs m c). unfold loads. split.
      + intros [[(r & a & Hr & Ha & ->) Hm] | [-> Hm]].
        * split; [| done]. exists r, a. split; [apply elem_of_app; by left | done].
        * split; [| done]. exists row, k. split; [apply elem_of_app; right; by left | done].
      + intros [(r & a & [Hr | Hr]%elem_of_app & Ha & Hc) Hm].
        * left. split; [by exists r, a | done].
        * apply list_elem_of_singleton in Hr as ->. right. rewrite E in Ha. injection Ha as ->.
          split; [done |]. by rewrite Hc in Hm.
    - rewrite (Hs m c). unfold loads. split; intros [(r & a & Hr & Ha & Hc) Hm]; (split; [| done]).
      + exists r, a. split; [apply elem_of_app; by left | done].
      + apply elem_of_app in Hr as [Hr | ->%list_elem_of_singleton]; [by exists r, a | congruence]. }
  intros m c. unfold load_rows. cbn [candidatesByModel]. rewrite assoc_map.
  specialize (Hgen rows [] (Snapshot [] []) ltac:(intros m' c'; split; [by intros ?%elem_of_nil | intros [(r & a & Hr & _) _]; by apply elem_of_nil in Hr])).
  rewrite <- (Hgen m c). destruct (assoc m _) as [l|]; simpl; [| done]. by rewrite sort_candidates_perm.
Qed.

Lemma load_rows_sorted rows m l :
  assoc m (candidatesByModel (load_rows decrypt rows)) = Some l → by_priority l.
Proof using.
  unfold load_rows. cbn [candidatesByModel]. rewrite assoc_map.
  destruct (assoc m _) as [l'|]; simpl; [|done]. intros [= <-]. apply sort_by_priority.
Qed.

(** Candidates are loaded providers with the canonical model; and a loaded
    provider is a candidate for each of its models. *)
Lemma candidate_loads rows m c : let r := resolveCandidates (load_rows decrypt rows) m in
  c ∈ candidates r → loads rows (c_provider c) ∧ (canonicalModel r, c_model c) ∈ models (c_provider c).
Proof using.
  pose proof (load_rows_index rows) as Hidx. cbv zeta. unfold resolveCandidates.
  assert (Hno : ∀ x : ModelCandidate, x ∉ []) by (intros x; apply not_elem_of_nil).
  repeat case_match; cbn [candidates canonicalModel]; intros Hc; try (by destruct (Hno c)); apply Hidx;
    match goal with H : assoc _ _ = _ |- _ => by rewrite H end.
Qed.

Lemma loads_candidate rows p k i : loads rows p → (k, i) ∈ models p →
  let r := resolveCandidates (load_rows decrypt rows) k in
  canonicalModel r = k ∧ {| c_provider := p; c_model := i |} ∈ candidates r.
Proof using.
  intros Hp Hi. pose proof (proj2 (load_rows_index rows k {| c_provider := p; c_model := i |}) (conj Hp Hi)) as Hc.
  unfold resolveCandidates. destruct (assoc k _) as [[|c0 l0]|]; [by apply elem_of_nil in Hc | done | by apply elem_of_nil in Hc].
Qed.

(** Which entry of the index answers a request. *)
Lemma resolved rows m : let r := resolveCandidates (load_rows decrypt rows) m in
  let offers k c := loads rows (c_provider c) ∧ (k, c_model c) ∈ models (c_provider c) in
  (candidates r = (assoc (canonicalModel r) (candidatesByModel (load_rows decrypt rows)) ?? []) ∧
   ((canonicalModel r = m ∧ ∃ c, offers m c) ∨
    (assoc m MODEL_ALIASES = Some (canonicalModel r) ∧ (∀ c, ¬ offers m c) ∧ ∃ c, offers (canonicalModel r) c))) ∨
  (candidates r = [] ∧ canonicalModel r = m ∧ (∀ c, ¬ offers m c) ∧ ∀ a c, assoc m MODEL_ALIASES = Some a → ¬ offers a c).
Proof using.
  cbv zeta. pose proof (load_rows_index rows) as Hidx. unfold resolveCandidates.
  set (idx := candidatesByModel (load_rows decrypt rows)) in *.
  assert (Hsome : ∀ k c l, assoc k idx = Some (c :: l) → loads rows (c_provider c) ∧ (k, c_model c) ∈ models (c_provider c))
    by (intros k c l E; apply Hidx; rewrite E; by left).
  assert (Hnone : ∀ k, (assoc k idx ?? []) = [] → ∀ c, ¬ (loads rows (c_provider c) ∧ (k, c_model c) ∈ models (c_provider c)))
    by (intros k E c Hc%Hidx; rewrite E in Hc; by apply elem_of_nil in Hc).
  destruct (assoc m idx) as [[|c l]|] eqn:Em; [| left; cbn [candidates canonicalModel]; rewrite Em; split; [done |]; left; split; [done |]; by eauto |];
    (pose proof (Hnone m ltac:(by rewrite Em)) as Hm; destruct (assoc m MODEL_ALIASES) as [a|]; [| by right];
     destruct (assoc a idx) as [[|c l]|] eqn:Ea; cbn [candidates canonicalModel];
     [ right; split_and!; try done; intros ? ? [= <-]; apply Hnone; by rewrite Ea
     | left; rewrite Ea; split; [done |]; right; split_and!; try done; by eauto
     | right; split_and!; try done; intros ? ? [= <-]; apply Hnone; by rewrite Ea ]).
Qed.

Lemma map_set_nodup {A} k (v : A) l : NoDup (map fst l) → NoDup (map fst (map_set k v l)).
Proof using.
  induction l as [|[k' v'] l IH]; simpl; [by intros; apply NoDup_singleton |]. intros [Hi Hn]%NoDup_cons.
  destruct (String.eqb_spec k k') as [-> | Hne]; simpl; [by apply NoDup_cons |]. apply NoDup_cons. split; [| by apply IH].
  intros (x & E & Hx)%list_elem_of_In%in_map_iff. apply list_elem_of_In, map_set_in in Hx as [-> | Hx]; [by simpl in E |].
  apply Hi, list_elem_of_In, in_map_iff. exists x. split; [done | by apply list_elem_of_In].
Qed.

Lemma row_infos_nodup row : NoDup (map fst (row_infos row)).
Proof using.
  unfold row_infos. assert (H : NoDup (map fst ([] : list (string * ProviderModelInfo)))) by constructor. revert H.
  generalize ([] : list (string * ProviderModelInfo)). induction (row_models row) as [|x l IH]; intros acc H; [done |].
  cbn [foldl]. by apply IH, map_set_nodup.
Qed.

(** A row adds one candidate to each of its models. *)
Lemma add_candidates_once p infos : ∀ idx m,
  (∀ k i, (k, i) ∈ infos → k = modelId i) → NoDup (map fst infos) →
  (assoc m (foldl (add_candidate p) idx infos) ?? []) =
  ((assoc m idx ?? []) ++ match assoc m infos with Some i => [{| c_provider := p; c_model := i |}] | None => [] end)%list.
Proof using.
  induction infos as [|[k i] infos IH]; intros idx m Hk Hnd; cbn [foldl]; [by rewrite app_nil_r |].
  cbn [map fst] in Hnd. apply NoDup_cons in Hnd as [Hni Hnd].
  rewrite IH by (first [done | intros; apply Hk; by right]). pose proof (Hk k i ltac:(by left)) as ->. unfold add_candidate. cbn [snd assoc].
  destruct (String.eqb_spec m (modelId i)) as [-> | Hne].
  - rewrite assoc_map_set_eq. cbn [coalesce]. rewrite <- app_assoc. f_equal.
    destruct (assoc (modelId i) infos) as [i'|] eqn:E; [| done]. apply assoc_in in E.
    destruct Hni. apply list_elem_of_In, in_map_iff. exists (modelId i, i'). split; [done | by apply list_elem_of_In].
  - by rewrite assoc_map_set_ne.
Qed.

Lemma load_rows_nodup rows m : NoDup (map row_id rows) →
  NoDup (map (λ c, p_id (c_provider c)) (assoc m (candidatesByModel (load_rows decrypt rows)) ?? [])).
Proof using.
  assert (Hgen : ∀ rest s, NoDup (map row_id rest) →
    NoDup (map (λ c, p_id (c_provider c)) (assoc m (candidatesByModel s) ?? [])) →
    (∀ c, c ∈ (assoc m (candidatesByModel s) ?? []) → p_id (c_provider c) ∉ map row_id rest) →
    NoDup (map (λ c, p_id (c_provider c)) (assoc m (candidatesByModel (foldl (load_row decrypt) s rest)) ?? []))).
  { induction rest as [|row rest IH]; intros s Hr Hn Hd; [done |]. cbn [foldl map] in *. apply NoDup_cons in Hr as [Hi Hr].
    apply IH; [done | |]; unfold load_row; destruct (decrypt (row_encryptedApiKey row)) as [k|e]; cbn [candidatesByModel];
      try done; try rewrite add_candidates_once by (first [apply row_infos_keys | apply row_infos_nodup]).
    - rewrite map_app. apply NoDup_app. split; [done |]. change (models (row_provider row k)) with (row_infos row); destruct (assoc m (row_infos row)); cbn; [| split; [| constructor]; by intros ? _ ?%elem_of_nil].
      split; [| apply NoDup_singleton]. intros x (c & <- & Hc)%list_elem_of_In%in_map_iff. rewrite list_elem_of_singleton. intros E.
      destruct (Hd c); [by apply list_elem_of_In |]. rewrite E. by left.
    - intros c [Hc | Hc]%elem_of_app.
      + intros Hx. destruct (Hd c Hc). by right.
      + change (models (row_provider row k)) with (row_infos row) in Hc. destruct (assoc m (row_infos row)); [| by apply elem_of_nil in Hc]. by apply list_elem_of_singleton in Hc as ->.
    - intros c Hc Hx. destruct (Hd c Hc). by right. }
  intros Hr. unfold load_rows. cbn [candidatesByModel]. rewrite assoc_map.
  specialize (Hgen rows (Snapshot [] []) Hr ltac:(constructor) ltac:(intros c Hc; by apply elem_of_nil in Hc)).
  destruct (assoc m _) as [l|]; cbn in *; [| constructor]. by rewrite sort_candidates_perm.
Qed.
End Load.

(** ** Theorems *)

(** C35: Resolution is sound and complete over the database rows. Whatever rows
    the registry loaded, the candidates for a requested model are exactly the
    loadable providers (credential decrypts) that serve its canonical model, with
    the settings each has for it, through an alias or not, in ascending priority,
    and each provider once when the rows have distinct ids. The canonical model
    is the alias of the id exactly when no loadable provider serves the id and
    some serves its alias; otherwise it is the id itself. *)
Theorem resolution_sound_complete decrypt rows m :
  let r := resolveCandidates (load_rows decrypt rows) m in
  let offers k c := loads decrypt rows (c_provider c) ∧ (k, c_model c) ∈ models (c_provider c) in
  (∀ c, c ∈ candidates r ↔ offers (canonicalModel r) c) ∧
  by_priority (candidates r) ∧
  (NoDup (map row_id rows) → NoDup (map (λ c, p_id (c_provider c)) (candidates r))) ∧
  ((assoc m MODEL_ALIASES = Some (canonicalModel r) ∧ (∀ c, ¬ offers m c) ∧ ∃ c, offers (canonicalModel r) c) ∨
   (canonicalModel r = m ∧ ((∃ c, offers m c) ∨ ∀ a c, assoc m MODEL_ALIASES = Some a → ¬ offers a c))).
Proof.
  cbv zeta. pose proof (load_rows_index decrypt rows) as Hidx. split_and!.
  - intros c. split; [apply candidate_loads |]. destruct (resolved decrypt rows m) as [[E _] | (E & -> & Hm & _)].
    + rewrite E. intros Hc. by apply Hidx.
    + intros Hc. by destruct (Hm c).
  - destruct (resolved decrypt rows m) as [[E _] | (-> & _)]; [| done].
    rewrite E. destruct (assoc _ _) as [l|] eqn:El; [by eapply (load_rows_sorted decrypt rows) | done].
  - intros Hnd. destruct (resolved decrypt rows m) as [[E _] | (-> & _)]; [| constructor]. rewrite E. by apply load_rows_nodup.
  - destruct (resolved decrypt rows m) as [[_ H] | (_ & E & Hm & Ha)]; [| right; by auto].
    destruct H as [(E & c & Hc) | (Ea & Hm & c & Hc)]; [right | left; by eauto]. rewrite E in *. split; [done |]. left. by exists c.
Qed.

(** Refreshes neither stampede nor hammer the database. A load starts only
    when none is in flight; a successful load serves every request for the
    configured lifetime; and after a failed one the last good snapshot is kept
    and served, without any load, for [REFRESH_RETRY_MS]. *)
Theorem registry_refresh ttl now s r :
  1 <= now → loadedAtMs s ≠ 0 → inflight s = true → now - ttl * 1000 + REFRESH_RETRY_MS ≠ 0 →
  (∀ t, (refresh_arrive ttl t s).2 ≠ StartedLoad) ∧
  let s' := (refresh_finish ttl now r s).1 in
  (refresh_finish ttl now r s).2 = Ok tt ∧ inflight s' = false ∧
  match r with
  | Ok snap' => snap s' = snap' ∧ ∀ t, now <= t < now + ttl * 1000 → refresh_arrive ttl t s' = (s', Served)
  | Err _ => snap s' = snap s ∧
      ∀ t, (t < now + REFRESH_RETRY_MS → refresh_arrive ttl t s' = (s', Served)) ∧
           (now + REFRESH_RETRY_MS <= t → (refresh_arrive ttl t s').2 = StartedLoad)
  end.
Proof.
  intros Hn Hl Hi Hz. split.
  { intros t. unfold refresh_arrive. rewrite Hi. by destruct (_ && _). }
  unfold refresh_finish, refresh_arrive. destruct r as [snap' | e].
  - cbn. split; [done |]. split; [done |]. split; [done |]. intros t Ht.
    rewrite (proj2 (Z.eqb_neq _ _)) by lia. rewrite (proj2 (Z.ltb_lt _ _)) by lia. done.
  - rewrite (proj2 (Z.eqb_neq _ _) Hl). cbn. split; [done |]. split; [done |]. split; [done |].
    intros t. rewrite (proj2 (Z.eqb_neq _ _) Hz). split; intros Ht.
    + by rewrite (proj2 (Z.ltb_lt _ _)) by lia.
    + by rewrite (proj2 (Z.ltb_ge _ _)) by lia.
Qed.

Lemma registry_refresh_witness :
  let s := RegistryState (Snapshot [] []) 1000000 true in
  snap (refresh_finish 60 2000000 (Err (TValue JNull)) s).1 = Snapshot [] [].
Proof.
  apply (registry_refresh 60 2000000 (RegistryState (Snapshot [] []) 1000000 true) (Err (TValue JNull)));
    [lia | done | done | done].
Defined.
