(* ===== verification/Cache.v ===== *)
(** * The semantic response cache ([src/cache/index.ts])

    Eligibility, the canonical key, lookup, storage, invalidation, flush and
    statistics over the shared store. *)

From Stdlib Require Import ZArith Lia QArith String Ascii.
From stdpp Require Import base gmap strings list fin_maps.
From S2P Require Import Prelude Redis Numerals Constants Json Types.
Open Scope Z_scope.

(** ** Responses as JSON *)

Definition choice_json (c : ChatCompletionChoice) : json :=
  JObj [("index"%string, jint (ch_index c));
        ("message"%string, JObj (("role"%string, JStr "assistant") ::
           ("content"%string, nullable (rm_content (ch_message c))) ::
           opt_field "tool_calls" ((λ l, JArr (map tool_call_json l)) <$> rm_tool_calls (ch_message c))));
        ("finish_reason"%string, nullable (finish_reason_str <$> ch_finish_reason c));
        ("logprobs"%string, JNull)].

Definition response_json (r : ChatCompletionResponse) : json :=
  JObj ([("id"%string, JStr (r_id r)); ("object"%string, JStr "chat.completion");
         ("created"%string, JNum (r_created r)); ("model"%string, JStr (r_model r));
         ("choices"%string, JArr (map choice_json (r_choices r)));
         ("usage"%string, usage_json (r_usage r))] ++
        opt_field "system_fingerprint" (JStr <$> r_system_fingerprint r))%list.

(** The cast [as ChatCompletionResponse]: a value is read at the type's
    fields; what is not there reads as an empty value. *)
Definition str_at (k : string) (o : fields) : string := as_string (field k o) ?? ""%string.
Definition int_at (k : string) (o : fields) : Z := (as_num (field k o) ≫= to_int) ?? 0.
Definition num_at (k : string) (o : fields) : Q := as_num (field k o) ?? 0%Q.
Definition obj_at (k : string) (o : fields) : fields := as_obj (field k o) ?? [].
Definition arr_at (k : string) (o : fields) : list json := as_arr (field k o) ?? [].
Definition fields_of (v : json) : fields := match v with JObj o => o | _ => [] end.

Definition read_finish (o : fields) : option FinishReason :=
  match field "finish_reason" o with
  | Some (JStr "stop") => Some fr_stop
  | Some (JStr "length") => Some fr_length
  | Some (JStr "tool_calls") => Some fr_tool_calls
  | Some (JStr "content_filter") => Some fr_content_filter
  | _ => None
  end.

Definition read_tool_call (v : json) : ToolCall :=
  let f := obj_at "function" (fields_of v) in
  {| tc_id := str_at "id" (fields_of v);
     tc_function := {| fc_name := str_at "name" f; fc_arguments := str_at "arguments" f |} |}.

Definition read_choice (v : json) : ChatCompletionChoice :=
  let o := fields_of v in
  let m := obj_at "message" o in
  {| ch_index := int_at "index" o;
     ch_message := {| rm_content := as_string (field "content" m);
                      rm_tool_calls := map read_tool_call <$> as_arr (field "tool_calls" m) |};
     ch_finish_reason := read_finish o |}.

Definition response_of_json (v : json) : ChatCompletionResponse :=
  let o := fields_of v in
  let u := obj_at "usage" o in
  {| r_id := str_at "id" o; r_created := num_at "created" o; r_model := str_at "model" o;
     r_choices := map read_choice (arr_at "choices" o);
     r_usage := {| prompt_tokens := num_at "prompt_tokens" u;
                   completion_tokens := num_at "completion_tokens" u;
                   total_tokens := num_at "total_tokens" u |};
     r_system_fingerprint := as_string (field "system_fingerprint" o) |}.

(** ** Canonical serialisation *)

Section Canonical.
(** [String.prototype.localeCompare]. *)
Variable localeCompare : string → string → Z.

Fixpoint insert_key (x : string * json) (l : fields) : fields :=
  match l with
  | [] => [x]
  | y :: l' => if localeCompare x.1 y.1 <=? 0 then x :: y :: l' else y :: insert_key x l'
  end.
Definition sort_keys (l : fields) : fields := foldr insert_key [] l.

Fixpoint sortValue (value : json) : json :=
  match value with
  | JArr l => JArr (map sortValue l)
  | JObj o => JObj (sort_keys (map (λ x, (x.1, sortValue x.2)) o))
  | _ => value
  end.

Definition canonicalStringify (value : json) : string := stringify (sortValue value).
End Canonical.

Record CacheConfig := {
  CACHE_ENABLED : bool;
  CACHE_DEFAULT_TTL_SECONDS : Z;
  CACHE_MAX_VALUE_BYTES : Z;
  CACHE_KEY_PREFIX : string (* REDIS_KEY_PREFIX *)
}.

Record CacheStats := { hits : Q; misses : Q; hitRate : Q; entries : Z }.

Section Cache.
Variable localeCompare : string → string → Z.
Variable sha256Hex : string → string.
(** [JSON.parse], or [None] when it throws. *)
Variable JSON_parse : string → option json.
Variable config : CacheConfig.
Abbreviation prefix := (CACHE_KEY_PREFIX config).

Definition isEligible (request : ChatCompletionRequest) : bool :=
  CACHE_ENABLED config &&
  match temperature request with Some t => Qeq_bool t 0 | None => false end &&
  negb (match stream request with Some true => true | _ => false end) &&
  match tools request with Some (_ :: _) => false | _ => true end &&
  match seed request with Some _ => true | None => false end.

(** [v ?? null], written out. *)
Definition or_null {A} (f : A → json) (v : option A) : json := match v with Some a => f a | None => JNull end.

Definition key_object (request : ChatCompletionRequest) : json :=
  JObj [("model"%string, JStr (model request));
        ("messages"%string, JArr (map message_json (messages request)));
        ("top_p"%string, or_null JNum (top_p request));
        ("max_tokens"%string, or_null jint (match max_tokens request with Some t => Some t | None => max_completion_tokens request end));
        ("seed"%string, or_null jint (seed request));
        ("stop"%string, or_null stop_json (stop request));
        ("n"%string, or_null jint (n request));
        ("presence_penalty"%string, or_null JNum (presence_penalty request));
        ("frequency_penalty"%string, or_null JNum (frequency_penalty request));
        ("logit_bias"%string, or_null (λ l, JObj (map (λ x, (x.1, JNum x.2)) l)) (logit_bias request));
        ("response_format"%string,
           or_null (λ f, JObj (("type"%string, format_type_json f.1) :: f.2)) (response_format request))].

Definition computeKey (request : ChatCompletionRequest) : string :=
  sha256Hex (canonicalStringify localeCompare (key_object request)).

Definition entry_key (request : ChatCompletionRequest) : string :=
  redisKeys.cacheEntry prefix (computeKey request).

Definition statKey (name : string) : string := (prefix ++ "cstats:" ++ name)%string.

Definition bumpStat (f : fault) (name : string) (now : Z) (s : db) : db :=
  (client f (redis_call (INCR (statKey name))) now s).1.

(** The text of a reply. *)
Definition scalar_text (v : scalar) : string :=
  match v with SStr s => s | SInt z => dec z | SNum q => js_num q end.

(** [get]; [f1] and [f2] are the fates of its two commands. *)
Definition get (f1 f2 : fault) (request : ChatCompletionRequest) (now : Z) (s : db)
    : db * option ChatCompletionResponse :=
  match client f1 (redis_call (GET (entry_key request))) now s with
  | (s1, Ok (RBulk raw)) =>
      match JSON_parse (scalar_text raw) with
      | Some JNull => (bumpStat f2 "hits" now s1, None)
      | Some parsed => (bumpStat f2 "hits" now s1, Some (response_of_json parsed))
      | None => (s1, None)
      end
  | (s1, Ok _) => (bumpStat f2 "misses" now s1, None)
  | (s1, Err _) => (s1, None)
  end.

Definition set (f : fault) (request : ChatCompletionRequest) (response : ChatCompletionResponse)
    (ttlSeconds : Z) (now : Z) (s : db) : db :=
  let payload := stringify (response_json response) in
  if CACHE_MAX_VALUE_BYTES config <? Z.of_nat (String.length payload) then s
  else (client f (redis_call (SET (entry_key request) (SStr payload) (Some (ttlSeconds * 1000)))) now s).1.

Definition invalidate (f : fault) (request : ChatCompletionRequest) (now : Z) (s : db) : db :=
  (client f (redis_call (DEL [entry_key request])) now s).1.

(** One turn of the SCAN loop: the page, or [None] when SCAN fails, and the
    fate of the DEL that follows. *)
Definition page : Type := option (list string) * fault.

Fixpoint flush_pages (pages : list page) (removed : Z) (now : Z) (s : db) : db * Z :=
  match pages with
  | [] => (s, removed)
  | (None, _) :: _ => (s, removed)
  | (Some [], _) :: rest => flush_pages rest removed now s
  | (Some batch, f) :: rest =>
      match client f (redis_call (DEL batch)) now s with
      | (s1, Ok (RInteger k)) => flush_pages rest (removed + k) now s1
      | (s1, _) => (s1, removed)
      end
  end.
Definition flush (pages : list page) (now : Z) (s : db) : db * Z := flush_pages pages 0 now s.

Definition stat_value (v : option scalar) : Q := (v ≫= to_q) ?? 0%Q.

Definition getStats (f : fault) (pages : list (list string)) (now : Z) (s : db) : result string CacheStats :=
  match (client f (redis_call (MGET [statKey "hits"; statKey "misses"])) now s).2 with
  | Ok (RMulti [h; m]) =>
      let hits := stat_value h in
      let misses := stat_value m in
      let total := (hits + misses)%Q in
      Ok {| hits := hits; misses := misses;
            hitRate := if Qle_bool total 0 then 0%Q else (hits / total)%Q;
            entries := sum_by (λ p, Z.of_nat (length p)) pages |}
  | Ok _ => Err "unexpected reply"%string
  | Err e => Err e
  end.
End Cache.

(** ** Lemmas *)

Lemma int_at_jint k z o : int_at k ((k, jint z) :: o) = z.
Proof. unfold int_at. simpl. rewrite String.eqb_refl. simpl. by rewrite to_int_of_Z. Qed.

Lemma map_id_on {A} (f : A → json) (g : json → A) l : (∀ x, g (f x) = x) → map g (map f l) = l.
Proof. intros H. rewrite map_map. rewrite <- (map_id l) at 2. by apply map_ext. Qed.

Lemma read_choice_json c : read_choice (choice_json c) = c.
Proof.
  destruct c as [i [ct tc] fr]. unfold read_choice, choice_json, int_at, obj_at, read_finish. simpl.
  rewrite to_int_of_Z. destruct ct; simpl; (destruct tc as [l|]; simpl;
    [rewrite map_id_on by (by intros [? [? ?]]) |]); by destruct fr as [[]|].
Qed.

(** The cast is the identity on what the code serialises. *)
Lemma response_of_response_json r : response_of_json (response_json r) = r.
Proof.
  destruct r as [i cr m cs [p c t] fp]. unfold response_of_json, response_json, str_at, num_at, obj_at, arr_at.
  simpl. rewrite map_id_on by apply read_choice_json. by destruct fp.
Qed.

(** What the collation of keys must satisfy: it orders them. *)
Class Collation (cmp : string → string → Z) := {
  coll_total a b : cmp a b <= 0 ∨ cmp b a <= 0;
  coll_trans a b c : cmp a b <= 0 → cmp b c <= 0 → cmp a c <= 0;
  coll_antisym a b : cmp a b <= 0 → cmp b a <= 0 → a = b
}.

(** Equal up to the order of the fields of objects, at any depth. *)
Inductive same_json : json → json → Prop :=
| same_refl v : same_json v v
| same_arr l l' : Forall2 same_json l l' → same_json (JArr l) (JArr l')
| same_obj o o' o'' : Forall2 (λ x y, x.1 = y.1 ∧ same_json x.2 y.2) o o' → o' ≡ₚ o'' →
    NoDup (map fst o) → same_json (JObj o) (JObj o'').

Section Sorting.
Context (cmp : string → string → Z) `{!Collation cmp}.

Lemma insert_key_comm x y l : x.1 ≠ y.1 → insert_key cmp x (insert_key cmp y l) = insert_key cmp y (insert_key cmp x l).
Proof.
  intros Hne.
  assert (Hxy : (cmp x.1 y.1 <= 0 ∧ 0 < cmp y.1 x.1) ∨ (0 < cmp x.1 y.1 ∧ cmp y.1 x.1 <= 0)).
  { destruct (Z.le_gt_cases (cmp x.1 y.1) 0) as [H1 | H1], (Z.le_gt_cases (cmp y.1 x.1) 0) as [H2 | H2];
      [by destruct Hne; apply coll_antisym | by left | by right |]. destruct (coll_total x.1 y.1); lia. }
  induction l as [|z l IH]; cbn [insert_key].
  - destruct Hxy as [[H1 H2] | [H1 H2]]; rewrite (proj2 (Z.leb_le _ _) ltac:(eassumption)),
      (proj2 (Z.leb_gt _ _) ltac:(eassumption)); done.
  - pose proof (coll_trans x.1 y.1 z.1). pose proof (coll_trans y.1 x.1 z.1).
    pose proof (coll_total x.1 z.1). pose proof (coll_total y.1 z.1).
    destruct (cmp y.1 z.1 <=? 0) eqn:Ey, (cmp x.1 z.1 <=? 0) eqn:Ex; cbn [insert_key]; bool_props;
      rewrite ?Ex, ?Ey; repeat match goal with
      | |- context [?a <=? 0] => destruct (a <=? 0) eqn:?; bool_props; try lia
      end; try done; by rewrite IH.
Qed.

Lemma sort_keys_perm (l l' : fields) : l ≡ₚ l' → NoDup (map fst l) → sort_keys cmp l = sort_keys cmp l'.
Proof.
  induction 1 as [| x l l' Hp IH | x y l | l l' l'' Hp IH Hp' IH']; intros Hnd; [done | | |].
  - simpl. rewrite IH; [done |]. by apply NoDup_cons in Hnd as [_ Hnd].
  - simpl. apply insert_key_comm. simpl in Hnd. apply NoDup_cons in Hnd as [Hx _].
    intros E. apply Hx. rewrite E. by left.
  - rewrite IH by done. apply IH'. by rewrite <- Hp.
Qed.

Lemma sortValue_same v w : same_json v w → sortValue cmp v = sortValue cmp w.
Proof.
  revert v w. fix IH 3. intros v w [u | l l' Hl | o o' o'' Ho Hp Hnd]; [done | |].
  - simpl. f_equal. induction Hl as [|x y l l' Hx _ IHl]; [done |]. simpl. f_equal; [by apply IH | apply IHl].
  - simpl. f_equal.
    assert (E : map (λ x, (x.1, sortValue cmp x.2)) o = map (λ x, (x.1, sortValue cmp x.2)) o').
    { clear Hp Hnd. induction Ho as [|x y o o' [Hk Hx] _ IHo]; [done |]. simpl. f_equal; [| apply IHo].
      rewrite Hk. f_equal. by apply IH. }
    rewrite E. apply sort_keys_perm; [by apply Permutation_map |].
    rewrite <- E, map_map. simpl. exact Hnd.
Qed.
End Sorting.

Lemma entry_key_ne_stat sha localeCompare config req name :
  entry_key localeCompare sha config req ≠ statKey config name.
Proof.
  unfold entry_key, redisKeys.cacheEntry, statKey. rewrite keys_same_prefix.
  by apply append_prefix_ne.
Qed.

Lemma bumpStat_frame config f name now s k : k ≠ statKey config name → bumpStat config f name now s !! k = s !! k.
Proof.
  intros Hk. unfold bumpStat, client. destruct f; simpl; [| done |];
    rewrite run_redis_call; cbn [exec]; unfold incr_by; destruct (read_int _ _ _) as [[z d]|]; simpl; try done;
    by rewrite lookup_insert_ne by congruence.
Qed.

Section CacheLemmas.
Context (localeCompare : string → string → Z) (sha256Hex : string → string)
  (JSON_parse : string → option json) (config : CacheConfig).
Abbreviation ekey := (entry_key localeCompare sha256Hex config).
Abbreviation cget := (get localeCompare sha256Hex JSON_parse config).
Abbreviation cset := (set localeCompare sha256Hex config).

(** What a lookup answers depends on the request's entry only. *)
Definition answer (e : option rval) : option ChatCompletionResponse :=
  match e with
  | Some (VStr raw) =>
      match JSON_parse (scalar_text raw) with
      | Some JNull | None => None
      | Some parsed => Some (response_of_json parsed)
      end
  | _ => None
  end.

Lemma answer_stored r : JSON_parse (stringify (response_json r)) = Some (response_json r) →
  answer (Some (VStr (SStr (stringify (response_json r))))) = Some r.
Proof using. intros Hp. unfold answer. cbn [scalar_text]. rewrite Hp.
  transitivity (Some (response_of_json (response_json r))); [done | by rewrite response_of_response_json]. Qed.

Lemma get_answer f2 req now s : (cget Up f2 req now s).2 = answer (look_val now s (ekey req)).
Proof using.
  unfold get, client. rewrite run_redis_call. cbn [exec].
  destruct (look_val _ _ _) as [[raw | l | h]|]; cbn; try done.
  by destruct (JSON_parse _) as [[]|].
Qed.

Lemma get_entry f1 f2 req now s k : k ≠ statKey config "hits" → k ≠ statKey config "misses" →
  (cget f1 f2 req now s).1 !! k = s !! k.
Proof using.
  intros Hh Hm. unfold get, client. destruct f1; [| done |]; rewrite run_redis_call; cbn [exec].
  - destruct (look_val _ _ _) as [[raw | l | h]|]; cbn; try done; [| by apply bumpStat_frame].
    destruct (JSON_parse _) as [[]|]; cbn; try done; by apply bumpStat_frame.
  - by destruct (look_val _ _ _) as [[raw | l | h]|].
Qed.

Lemma gets_entry (lookups : list (fault * fault * (ChatCompletionRequest * Z))) k : ∀ s,
  k ≠ statKey config "hits" → k ≠ statKey config "misses" →
  foldl (λ x l, (cget l.1.1 l.1.2 l.2.1 l.2.2 x).1) s lookups !! k = s !! k.
Proof using.
  induction lookups as [|l ls IH]; intros s Hh Hm; [done |]. cbn [foldl]. by rewrite IH, get_entry.
Qed.

Lemma set_up req r ttl now s :
  Z.of_nat (String.length (stringify (response_json r))) <= CACHE_MAX_VALUE_BYTES config →
  cset Up req r ttl now s =
  <[ekey req := Entry (VStr (SStr (stringify (response_json r)))) (Some (now + ttl * 1000))]> s.
Proof using.
  intros Hl. unfold set, client. rewrite (proj2 (Z.ltb_ge _ _)) by lia.
  by rewrite run_redis_call.
Qed.

Lemma entry_key_inj req req' : ekey req = ekey req' →
  computeKey localeCompare sha256Hex req = computeKey localeCompare sha256Hex req'.
Proof using. unfold entry_key, redisKeys.cacheEntry. intros E. by apply (inj _), (inj _) in E. Qed.
End CacheLemmas.

(** The keys SCAN's pattern matches. *)
Definition is_cache_key (config : CacheConfig) (k : string) : bool :=
  starts_with (CACHE_KEY_PREFIX config ++ "cache:") k.

Lemma flush_all_pages (pages : list (list string)) : ∀ removed now s,
  let '(s', n) := flush_pages (map (λ p, (Some p, Up)) pages) removed now s in
  (∀ k, s' !! k = if decide (k ∈ concat pages) then None else s !! k).
Proof.
  assert (Hdel : ∀ ks (s : db) k, foldl (λ s k, delete k s) s ks !! k = if decide (k ∈ ks) then None else s !! k).
  { induction ks as [|k' ks IH]; intros s k; simpl; [done |]. rewrite IH.
    destruct (decide (k ∈ ks)), (decide (k ∈ k' :: ks)); try done.
    - exfalso. by apply n, list_elem_of_further.
    - rewrite lookup_delete. apply elem_of_cons in e as [-> | ?]; [by rewrite decide_True | done].
    - rewrite lookup_delete_ne; [done |]. intros ->. apply n0. by left. }
  induction pages as [|[|k0 p] pages IH]; intros removed now s; cbn [map flush_pages concat].
  - intros k. by rewrite decide_False by apply not_elem_of_nil.
  - apply IH.
  - unfold client. rewrite run_redis_call. cbn [exec]. set (s1 := foldl _ s _).
    specialize (IH (removed + Z.of_nat (length (filter (λ k, is_Some (look now s k)) (k0 :: p)))) now s1).
    destruct (flush_pages _ _ _ _) as [s' n]. intros k. rewrite IH. unfold s1. rewrite Hdel.
    destruct (decide (k ∈ concat pages)) as [Hc | Hc].
    + by rewrite decide_True by (apply elem_of_app; by right).
    + destruct (decide (k ∈ k0 :: p)) as [Hk | Hk].
      * by rewrite decide_True by (apply elem_of_app; by left).
      * rewrite decide_False; [done |]. intros [?|?]%elem_of_app; done.
Qed.

(** ** Theorems *)

(** C32: A cached reply is exactly the reply that was stored. Storing a response
    within the size cap and looking its request up again, any number of
    lookups later, gives it back until its lifetime ends and a miss
    afterwards, leaves every request with another key as it was, and an
    unreachable store is a miss that changes nothing. *)
Theorem cache_roundtrip localeCompare sha256Hex JSON_parse config req r ttl t s :
  Z.of_nat (String.length (stringify (response_json r))) <= CACHE_MAX_VALUE_BYTES config →
  JSON_parse (stringify (response_json r)) = Some (response_json r) →
  let get := get localeCompare sha256Hex JSON_parse config in
  let s' := set localeCompare sha256Hex config Up req r ttl t s in
  (∀ lookups t' f,
    let s'' := foldl (λ x l, (get l.1.1 l.1.2 l.2.1 l.2.2 x).1) s' lookups in
    (get Up f req t' s'').2 = if t' <=? t + ttl * 1000 then Some r else None) ∧
  (∀ req' t' f, computeKey localeCompare sha256Hex req' ≠ computeKey localeCompare sha256Hex req →
    (get Up f req' t' s').2 = (get Up f req' t' s).2) ∧
  (∀ req' t' f, get Down f req' t' s' = (s', None)).
Proof.
  intros Hl Hp g s'. unfold s', g. clear s' g. rewrite set_up by done.
  set (k := entry_key localeCompare sha256Hex config req).
  split; [| split; [| done]].
  - intros lookups t' f. cbv zeta. rewrite get_answer.
    unfold look_val, look. rewrite gets_entry by apply entry_key_ne_stat. fold k. rewrite lookup_insert_eq.
    unfold live. cbn [e_deadline]. destruct (t' <=? _); [by apply answer_stored | done].
  - intros req' t' f Hne. rewrite !get_answer. unfold look_val, look. rewrite lookup_insert_ne; [done |].
    intros E. apply Hne. symmetry. by apply (entry_key_inj _ _ _ _ _ E).
Qed.

(** A small response, and a collation and a parser that know it. *)
Definition sample_response : ChatCompletionResponse :=
  {| r_id := "chatcmpl-1"; r_created := 1700000000; r_model := "gpt-4o";
     r_choices := [{| ch_index := 0; ch_message := {| rm_content := Some "hi"%string; rm_tool_calls := None |};
                      ch_finish_reason := Some fr_stop |}];
     r_usage := {| prompt_tokens := 3; completion_tokens := 1; total_tokens := 4 |};
     r_system_fingerprint := None |}.
Definition sample_cache : CacheConfig :=
  {| CACHE_ENABLED := true; CACHE_DEFAULT_TTL_SECONDS := 300; CACHE_MAX_VALUE_BYTES := 4096; CACHE_KEY_PREFIX := "gw:" |}.
Definition leb_compare (a b : string) : Z := if String.leb a b then (if String.eqb a b then 0 else -1) else 1.
Definition known_parse (text : string) : option json :=
  if String.eqb text (stringify (response_json sample_response)) then Some (response_json sample_response) else None.

Definition sample_chat (temperature seed : Z) (bias : list (string * Q)) (extra : fields) : ChatCompletionRequest :=
  {| model := "gpt-4o"; messages := [UserMessage (CText "hello") None]; temperature := Some (inject_Z temperature);
     top_p := None; n := None; stream := None; stream_options := None; stop := None; max_tokens := None;
     max_completion_tokens := None; presence_penalty := None; frequency_penalty := None;
     logit_bias := Some bias; user := None; seed := Some seed; tools := None; tool_choice := None;
     response_format := None; extra := extra |}.

Lemma cache_roundtrip_witness :
  (get leb_compare (λ s, s) known_parse sample_cache Up Up (sample_chat 0 7 [] []) 200000
     (set leb_compare (λ s, s) sample_cache Up (sample_chat 0 7 [] []) sample_response 300 0 ∅)).2
  = Some sample_response.
Proof.
  refine (proj1 (cache_roundtrip leb_compare (λ s, s) known_parse sample_cache (sample_chat 0 7 [] [])
    sample_response 300 0 ∅ _ _) [] 200000 Up); [by vm_compute | by vm_compute].
Defined.

Lemma string_leb_trans a : ∀ b c, String.leb a b = true → String.leb b c = true → String.leb a c = true.
Proof.
  unfold String.leb. induction a as [|x a IH]; intros [|y b] [|z c]; simpl; try done.
  specialize (IH b c). unfold Ascii.compare.
  destruct (N.compare_spec (N_of_ascii x) (N_of_ascii y)), (N.compare_spec (N_of_ascii y) (N_of_ascii z)),
    (N.compare_spec (N_of_ascii x) (N_of_ascii z)); try done; try lia.
Qed.

#[export] Instance leb_compare_collation : Collation leb_compare.
Proof.
  assert (Hle : ∀ a b, leb_compare a b <= 0 ↔ String.leb a b = true).
  { intros a b. unfold leb_compare. destruct (String.leb a b), (String.eqb a b); split; intros; try done; lia. }
  split; intros; rewrite ?Hle in *.
  - destruct (String.leb a b) eqn:E; [by left | right]. by destruct (String.leb_total a b); congruence.
  - by eapply string_leb_trans.
  - by apply String.leb_antisym.
Qed.

(** A request with another [logit_bias] and other passed-through fields. *)
Definition vary (bias : option (list (string * Q))) (ex : fields) (u : option string) (r : ChatCompletionRequest)
    : ChatCompletionRequest :=
  {| model := model r; messages := messages r; temperature := temperature r; top_p := top_p r; n := n r;
     stream := stream r; stream_options := stream_options r; stop := stop r; max_tokens := max_tokens r;
     max_completion_tokens := max_completion_tokens r; presence_penalty := presence_penalty r;
     frequency_penalty := frequency_penalty r; logit_bias := bias; user := u; seed := seed r;
     tools := tools r; tool_choice := tool_choice r; response_format := response_format r; extra := ex |}.

Lemma Forall2_refl_on {A} (R : A → A → Prop) l : (∀ x, R x x) → Forall2 R l l.
Proof. intros H. induction l; by constructor. Qed.

Lemma key_object_vary r bias bias' ex u : logit_bias r = Some bias → bias ≡ₚ bias' → NoDup (map fst bias) →
  same_json (key_object r) (key_object (vary (Some bias') ex u r)).
Proof.
  intros Hb Hp Hnd. unfold key_object, vary. cbn [logit_bias model messages]. rewrite Hb.
  eapply same_obj; [| reflexivity | repeat (constructor; [by compute_done || set_solver |]); constructor].
  repeat (constructor; [by split; [| apply same_refl] |]).
  constructor; [split; [done |] |]; [| repeat (constructor; [by split; [| apply same_refl] |]); constructor].
  simpl. eapply same_obj; [by apply Forall2_refl_on; intros; split; [| apply same_refl] | | by rewrite map_map].
  by apply Permutation_map.
Qed.

(** The cache key is canonical, and sees only its own fields. Objects that
    differ only in the order of their fields, at any depth, have the same
    canonical text, so requests whose key objects do have the same key; in
    particular the order of [logit_bias], the [user] and every passed-through
    field leave eligibility and key as they are. *)
Theorem cache_key_canonical localeCompare sha256Hex config r bias bias' ex u :
  Collation localeCompare →
  logit_bias r = Some bias → bias ≡ₚ bias' → NoDup (map fst bias) →
  (∀ v w, same_json v w → canonicalStringify localeCompare v = canonicalStringify localeCompare w) ∧
  computeKey localeCompare sha256Hex (vary (Some bias') ex u r) = computeKey localeCompare sha256Hex r ∧
  isEligible config (vary (Some bias') ex u r) = isEligible config r.
Proof.
  intros Hc Hb Hp Hnd.
  assert (Hs : ∀ v w, same_json v w → canonicalStringify localeCompare v = canonicalStringify localeCompare w)
    by (intros v w Hvw; unfold canonicalStringify; by rewrite (sortValue_same localeCompare v w Hvw)).
  split; [exact Hs |]. split; [| done]. unfold computeKey. f_equal. symmetry. apply Hs. by eapply key_object_vary.
Qed.

Lemma cache_key_canonical_witness :
  let r := sample_chat 0 7 [("50256"%string, -100 # 1); ("11"%string, 1 # 1)] [] in
  let r' := vary (Some [("11"%string, 1 # 1); ("50256"%string, -100 # 1)]) [("logprobs"%string, JBool true)] None r in
  computeKey leb_compare (λ s, s) r' = computeKey leb_compare (λ s, s) r ∧
  isEligible sample_cache r' = isEligible sample_cache r.
Proof.
  apply (cache_key_canonical leb_compare (λ s, s) sample_cache
    (sample_chat 0 7 [("50256"%string, -100 # 1); ("11"%string, 1 # 1)] [])
    [("50256"%string, -100 # 1); ("11"%string, 1 # 1)]);
    [apply _ | done | apply Permutation_swap | by apply (bool_decide_unpack _); vm_compute].
Defined.

(** A flush removes every cached reply and nothing else. When SCAN has
    returned every key under the cache pattern, in whatever pages, and only
    such keys, after the flush no request has a cached reply, and the
    statistics counters and all other keys are untouched. *)
Theorem cache_flush_scope localeCompare sha256Hex JSON_parse config pages now s :
  (∀ k, is_Some (s !! k) → is_cache_key config k = true → k ∈ concat pages) →
  (∀ k, k ∈ concat pages → is_cache_key config k = true) →
  let s' := (flush (map (λ p, (Some p, Up)) pages) now s).1 in
  (∀ f req t, (get localeCompare sha256Hex JSON_parse config Up f req t s').2 = None) ∧
  (∀ k, is_cache_key config k = false → s' !! k = s !! k) ∧
  (∀ name, s' !! statKey config name = s !! statKey config name).
Proof.
  intros Hall Honly s'. pose proof (flush_all_pages pages 0 now s) as Hf. unfold s', flush.
  destruct (flush_pages _ _ _ _) as [s1 n]. simpl.
  assert (Hkeep : ∀ k, is_cache_key config k = false → s1 !! k = s !! k).
  { intros k Hk. rewrite Hf, decide_False; [done |]. intros Hin. by rewrite (Honly k Hin) in Hk. }
  split; [| split; [done |]].
  - intros f req t. rewrite get_answer. unfold look_val, look. rewrite Hf.
    set (k := entry_key localeCompare sha256Hex config req).
    destruct (decide (k ∈ concat pages)) as [? | Hn]; [done |].
    destruct (s !! k) as [e|] eqn:E; [| done]. destruct Hn. apply Hall; [by eexists |].
    unfold is_cache_key, k, entry_key, redisKeys.cacheEntry. rewrite <- string_app_assoc. apply starts_with_app.
  - intros name. apply Hkeep. unfold is_cache_key, statKey. by rewrite starts_with_cancel.
Qed.

Definition sample_store : db :=
  <[redisKeys.cacheEntry "gw:" "abc" := Entry (VStr (SStr "{}")) None]>
    (<["gw:cstats:hits"%string := Entry (VStr (SInt 4)) None]> ∅).

Lemma cache_flush_scope_witness :
  (flush (map (λ p, (Some p, Up)) [[]; [redisKeys.cacheEntry "gw:" "abc"]]) 0 sample_store).1
    !! statKey sample_cache "hits" = Some (Entry (VStr (SInt 4)) None).
Proof.
  refine (proj2 (proj2 (cache_flush_scope leb_compare (λ s, s) known_parse sample_cache
    [[]; [redisKeys.cacheEntry "gw:" "abc"]] 0 sample_store _ _)) "hits"%string).
  - intros k [e He] Hk. unfold sample_store in He. apply lookup_insert_Some in He as [[<- _] | [_ He]]; [by left |].
    apply lookup_insert_Some in He as [[<- _] | [_ He]]; [by vm_compute in Hk | by rewrite lookup_empty in He].
  - intros k [-> | Hk]%elem_of_cons; [done | by apply elem_of_nil in Hk].
Defined.
