(* ===== verification/Auth.v ===== *)
(** * API-key authentication ([src/auth/middleware.ts])

    Extraction of the key from the headers, validation against the table of
    keys through the cache with its sliding lifetime, and invalidation. *)

From Stdlib Require Import ZArith Lia QArith String Ascii.
From stdpp Require Import base gmap strings list fin_maps.
From S2P Require Import Prelude Redis Numerals Constants Json Errors Types CostTracker Cache.
Open Scope Z_scope.

Record GatewayContext := {
  apiKeyId : string;
  ownerId : option string;
  ctx_name : option string;
  rpmLimit : Z;
  tpmLimit : Z;
  monthlyBudgetUsd : option Q;
  allowedModels : option (list string);
  expiresAtMs : option Z
}.

(** ** Headers *)

(** The white space [String.prototype.trim] removes, within ASCII. *)
Definition is_space (c : ascii) : bool :=
  let n := nat_of_ascii c in ((9 <=? n)%nat && (n <=? 13)%nat) || (n =? 32)%nat.

Fixpoint trim_start (s : string) : string :=
  match s with String c s' => if is_space c then trim_start s' else s | EmptyString => EmptyString end.
Fixpoint trim_end (s : string) : string :=
  match s with
  | EmptyString => EmptyString
  | String c s' =>
      match trim_end s' with
      | EmptyString => if is_space c then EmptyString else String c EmptyString
      | r => String c r
      end
  end.
Definition trim (s : string) : string := trim_end (trim_start s).

Definition slice (start : nat) (s : string) : string := String.substring start (String.length s - start) s.

Record headers := { h_authorization : option string; h_x_api_key : option string }.

Definition extractApiKey (h : headers) : option string :=
  let apiKey := match h_x_api_key h with
                | Some k => if String.eqb k "" then None else Some (trim k)
                | None => None
                end in
  match h_authorization h with
  | Some auth =>
      if starts_with "bearer " (to_lower auth) then
        let token := trim (slice 7 auth) in
        if String.eqb token "" then None else Some token
      else apiKey
  | None => apiKey
  end.

(** ** The table of keys *)

(** A row; the budget is the numeral of the numeric column. *)
Record api_key_row := {
  k_id : string; k_keyHash : string; k_ownerId : option string; k_name : option string;
  k_rpmLimit : Z; k_tpmLimit : Z; k_monthlyBudgetUsd : option string;
  k_allowedModels : option (list string); k_isActive : bool; k_expiresAt : option Z
}.

Definition context_of (row : api_key_row) : GatewayContext :=
  {| apiKeyId := k_id row; ownerId := k_ownerId row; ctx_name := k_name row;
     rpmLimit := k_rpmLimit row; tpmLimit := k_tpmLimit row;
     monthlyBudgetUsd := k_monthlyBudgetUsd row ≫= parse_decimal;
     allowedModels := k_allowedModels row; expiresAtMs := k_expiresAt row |}.

(** ** The cached form *)

Definition context_json (c : GatewayContext) : json :=
  JObj [("apiKeyId"%string, JStr (apiKeyId c)); ("ownerId"%string, nullable (ownerId c));
        ("name"%string, nullable (ctx_name c)); ("rpmLimit"%string, jint (rpmLimit c));
        ("tpmLimit"%string, jint (tpmLimit c)); ("monthlyBudgetUsd"%string, or_null JNum (monthlyBudgetUsd c));
        ("allowedModels"%string, or_null (λ l, JArr (map JStr l)) (allowedModels c));
        ("expiresAtMs"%string, or_null jint (expiresAtMs c))].

(** The cast [as GatewayContext]. *)
Definition context_of_json (v : json) : GatewayContext :=
  let o := fields_of v in
  {| apiKeyId := str_at "apiKeyId" o; ownerId := as_string (field "ownerId" o);
     ctx_name := as_string (field "name" o); rpmLimit := int_at "rpmLimit" o; tpmLimit := int_at "tpmLimit" o;
     monthlyBudgetUsd := as_num (field "monthlyBudgetUsd" o);
     allowedModels := map (λ v, as_string (Some v) ?? ""%string) <$> as_arr (field "allowedModels" o);
     expiresAtMs := as_num (field "expiresAtMs" o) ≫= to_int |}.

Section Auth.
Variable hashApiKey : string → string.
(** [JSON.parse], or [None] when it throws. *)
Variable JSON_parse : string → option json.
Variable REDIS_KEY_PREFIX : string.
Variable AUTH_CACHE_TTL_SECONDS : Z.

Definition expired (expiresAt : option Z) (now : Z) : bool :=
  match expiresAt with Some e => e <=? now | None => false end.

Definition unauthorized (m : string) : thrown := TGateway (AuthenticationError (Some m) no_options).

(** The fast path: the context to return, if there is one; any failure falls
    through.  [f1] and [f2] are the fates of its two commands. *)
Definition cached_context (f1 f2 : fault) (cacheKey : string) (now : Z) (s : db) : db * option GatewayContext :=
  match client f1 (redis_call (GET cacheKey)) now s with
  | (s1, Ok (RBulk cached)) =>
      match JSON_parse (scalar_text cached) with
      | None | Some JNull => (s1, None)
      | Some v =>
          let context := context_of_json v in
          if expired (expiresAtMs context) now then
            ((client f2 (redis_call (DEL [cacheKey])) now s1).1, None)
          else
            match client f2 (redis_call (EXPIRE cacheKey AUTH_CACHE_TTL_SECONDS)) now s1 with
            | (s2, Ok _) => (s2, Some context)
            | (s2, Err _) => (s2, None)
            end
      end
  | (s1, _) => (s1, None)
  end.

(** [findFirst] on the active keys; the query itself can fail. *)
Definition find_key (table : result thrown (list api_key_row)) (keyHash : string) : result thrown (option api_key_row) :=
  let! rows := table in
  Ok (List.find (λ row, String.eqb (k_keyHash row) keyHash && k_isActive row) rows).

Definition authenticateKey (f1 f2 f3 : fault) (table : result thrown (list api_key_row)) (rawKey : string)
    (now : Z) (s : db) : db * result thrown GatewayContext :=
  let keyHash := hashApiKey rawKey in
  let cacheKey := redisKeys.authKey REDIS_KEY_PREFIX keyHash in
  match cached_context f1 f2 cacheKey now s with
  | (s1, Some context) => (s1, Ok context)
  | (s1, None) =>
      match find_key table keyHash with
      | Err e => (s1, Err e)
      | Ok None => (s1, Err (unauthorized "Invalid API key."))
      | Ok (Some row) =>
          if expired (k_expiresAt row) now then (s1, Err (unauthorized "API key has expired."))
          else
            let context := context_of row in
            ((client f3 (redis_call (SET cacheKey (SStr (stringify (context_json context)))
                (Some (AUTH_CACHE_TTL_SECONDS * 1000)))) now s1).1, Ok context)
      end
  end.

Definition invalidateAuthCache (f : fault) (keyHash : string) (now : Z) (s : db) : db :=
  (client f (redis_call (DEL [redisKeys.authKey REDIS_KEY_PREFIX keyHash])) now s).1.

Definition authPreHandler (f1 f2 f3 : fault) (table : result thrown (list api_key_row)) (h : headers)
    (now : Z) (s : db) : db * result thrown GatewayContext :=
  match extractApiKey h with
  | None => (s, Err (unauthorized "Missing API key. Provide a Bearer token or x-api-key header."))
  | Some rawKey => authenticateKey f1 f2 f3 table rawKey now s
  end.
End Auth.

(** ** Lemmas *)

Lemma context_of_context_json c : context_of_json (context_json c) = c.
Proof.
  destruct c as [i ow nm rpm tpm b al ex]. unfold context_of_json, context_json, str_at, int_at. simpl.
  rewrite !to_int_of_Z. destruct ow, nm, b, al as [l|], ex; simpl; rewrite ?to_int_of_Z, ?map_id_on by done; done.
Qed.

Section AuthLemmas.
Context (hashApiKey : string → string) (JSON_parse : string → option json) (prefix : string) (ttl : Z).
Abbreviation key h := (redisKeys.authKey prefix h).

(** The rows the table has ever held. *)
Context (history : list api_key_row).
Hypothesis parses : ∀ row, row ∈ history →
  JSON_parse (stringify (context_json (context_of row))) = Some (context_json (context_of row)).

(** What a cached entry under the hash [h] holds. *)
Definition entry_ok (h : string) (e : entry) : Prop :=
  ∃ row, row ∈ history ∧ k_keyHash row = h ∧
    e_val e = VStr (SStr (stringify (context_json (context_of row)))).

Definition cache_ok (s : db) : Prop := ∀ h e, s !! key h = Some e → entry_ok h e.

Lemma auth_key_inj h h' : key h = key h' → h = h'.
Proof using. unfold redisKeys.authKey. intros E. by apply (inj _), (inj _) in E. Qed.

Lemma cache_ok_delete s k : cache_ok s → cache_ok (delete k s).
Proof using. intros Hs h e [_ He]%lookup_delete_Some. by apply Hs. Qed.

Lemma cache_ok_insert s h e : cache_ok s → entry_ok h e → cache_ok (<[key h := e]> s).
Proof using.
  intros Hs He h' e' [[E ->] | [_ He']]%lookup_insert_Some; [by apply auth_key_inj in E as -> | by apply Hs].
Qed.

Lemma cache_ok_del f k now s : cache_ok s → cache_ok (client f (redis_call (DEL [k])) now s).1.
Proof using. intros Hs. unfold client. destruct f; [| exact Hs |]; rewrite run_redis_call; by apply cache_ok_delete. Qed.

Lemma cache_ok_expire f h sec now s : cache_ok s → cache_ok (client f (redis_call (EXPIRE (key h) sec)) now s).1.
Proof using.
  intros Hs. assert (Hr : cache_ok (exec (EXPIRE (key h) sec) now s).1).
  { unfold EXPIRE. cbn [exec]. destruct (look now s (key h)) as [e|] eqn:E; [| done]. apply cache_ok_insert; [done |].
    assert (Hk : s !! key h = Some e) by (unfold look in E; destruct (s !! key h) as [e'|]; [by destruct (live now e'); simplify_eq | done]).
    destruct (Hs _ _ Hk) as (row & ? & ? & ?). by exists row. }
  unfold client. destruct f; [| exact Hs |]; rewrite run_redis_call; destruct (exec _ now s) as [s' []]; done.
Qed.

Lemma look_entry now s k v : look_val now s k = Some v → ∃ e, s !! k = Some e ∧ e_val e = v.
Proof using.
  unfold look_val, look. destruct (s !! k) as [e|]; [| done]. destruct (live now e); [| done].
  simpl. intros [= <-]. by exists e.
Qed.

(** The fast path gives the context of a row with the hash that has not
    expired, and keeps the invariant. *)
Lemma cached_context_ok f1 f2 h now s : cache_ok s →
  let '(s1, r) := cached_context JSON_parse ttl f1 f2 (key h) now s in
  cache_ok s1 ∧
  match r with
  | Some c => ∃ row, row ∈ history ∧ k_keyHash row = h ∧ c = context_of row ∧ expired (k_expiresAt row) now = false
  | None => True
  end.
Proof using parses.
  intros Hs. unfold cached_context. destruct (client_get f1 (key h) now s) as (r & -> & E).
  destruct r as [[| raw | | | | | |]|]; try done.
  apply look_entry in E as (e & He & Hv). destruct (Hs h e He) as (row & Hin & Hh & Hrow).
  assert (raw = SStr (stringify (context_json (context_of row)))) as -> by congruence.
  cbn [scalar_text]. rewrite parses by done.
  destruct (context_json (context_of row)) as [| | | | |o] eqn:Ev; try done.
  rewrite <- Ev, context_of_context_json. cbn [expiresAtMs context_of].
  destruct (expired (k_expiresAt row) now) eqn:Ee.
  - split; [by apply cache_ok_del | done].
  - pose proof (cache_ok_expire f2 h ttl now s Hs) as Hx.
    destruct (client f2 _ now s) as [s2 [r|r]]; (split; [exact Hx |]); [by exists row | done].
Qed.
End AuthLemmas.

(** ** Theorems *)

(** C22: Authentication is sound, cache or not. Whatever fails in the store, as
    long as its entries were written by authentication, a context that is
    returned is that of a row whose hash is the presented key's and which has
    not expired at that instant (the sliding cache lifetime never outlives the
    expiry); when the cache had no answer the row is an active one of the
    table; every rejection is a 401 or the database's own error; and the
    entries stay as authentication writes them. *)
Theorem auth_sound hashApiKey JSON_parse prefix ttl history f1 f2 f3 table rawKey now s :
  (∀ row, row ∈ history →
    JSON_parse (stringify (context_json (context_of row))) = Some (context_json (context_of row))) →
  (∀ rows row, table = Ok rows → row ∈ rows → row ∈ history) →
  cache_ok prefix history s →
  let '(s', r) := authenticateKey hashApiKey JSON_parse prefix ttl f1 f2 f3 table rawKey now s in
  cache_ok prefix history s' ∧
  match r with
  | Ok ctx => ∃ row, row ∈ history ∧ k_keyHash row = hashApiKey rawKey ∧ ctx = context_of row ∧
      expired (k_expiresAt row) now = false ∧
      (s !! redisKeys.authKey prefix (hashApiKey rawKey) = None →
       k_isActive row = true ∧ ∃ rows, table = Ok rows ∧ row ∈ rows)
  | Err (TGateway e) => statusCode e = 401 ∨ table = Err (TGateway e)
  | Err e => table = Err e
  end.
Proof.
  intros Hp Ht Hs. unfold authenticateKey. set (h := hashApiKey rawKey).
  pose proof (cached_context_ok JSON_parse prefix ttl history Hp f1 f2 h now s Hs) as Hc.
  assert (Hmiss : s !! redisKeys.authKey prefix h = None →
    (cached_context JSON_parse ttl f1 f2 (redisKeys.authKey prefix h) now s).2 = None).
  { intros Hn. unfold cached_context. destruct (client_get f1 (redisKeys.authKey prefix h) now s) as (r & -> & E).
    destruct r as [[| raw | | | | | |]|]; try done. unfold look_val, look in E. by rewrite Hn in E. }
  destruct (cached_context _ _ _ _ _ _ _) as [s1 [c|]].
  - destruct Hc as [Hs1 (row & Hin & Hh & -> & He)]. split; [done |]. exists row. do 4 (split; [done |]).
    intros Hn. by specialize (Hmiss Hn).
  - destruct Hc as [Hs1 _]. unfold find_key. destruct table as [rows | e] eqn:Et; cbn [res_bind].
    2: { split; [done |]. destruct e; [by right | done | done | done]. }
    destruct (List.find _ rows) as [row|] eqn:Ef; [| by split; [| left]].
    apply List.find_some in Ef as [Hr Hb]. apply andb_true_iff in Hb as [Hh%String.eqb_eq Ha].
    apply list_elem_of_In in Hr. destruct (expired (k_expiresAt row) now) eqn:Ee; [by split; [| left] |].
    split; [| by exists row; split_and!; [eapply Ht | | | | eauto]].
    assert (Hi : entry_ok history h (Entry (VStr (SStr (stringify (context_json (context_of row))))) (Some (now + ttl * 1000))))
      by (exists row; split_and!; [by eapply Ht | done | done]).
    unfold client. destruct f3; [| done |]; rewrite run_redis_call; by apply cache_ok_insert.
Qed.

(** Revocation is immediate. Once a key's row is inactive and its cached
    context invalidated, the key is rejected with 401, whatever else the cache
    held and whatever then fails in the store. *)
Theorem revocation_immediate hashApiKey JSON_parse prefix ttl f1 f2 f3 rows rawKey t now s :
  (∀ row, row ∈ rows → k_keyHash row = hashApiKey rawKey → k_isActive row = false) →
  (authenticateKey hashApiKey JSON_parse prefix ttl f1 f2 f3 (Ok rows) rawKey now
     (invalidateAuthCache prefix Up (hashApiKey rawKey) t s)).2
  = Err (unauthorized "Invalid API key.").
Proof.
  intros Hr. unfold authenticateKey, cached_context, invalidateAuthCache. cbn [client]. set (h := hashApiKey rawKey).
  rewrite run_redis_call. cbn [exec fst foldl]. set (s1 := delete _ s).
  destruct (client_get f1 (redisKeys.authKey prefix h) now s1) as (r & -> & E).
  assert (Hn : look_val now s1 (redisKeys.authKey prefix h) = None)
    by (unfold look_val, look, s1; by rewrite lookup_delete_eq).
  assert (Hf : List.find (λ row, String.eqb (k_keyHash row) h && k_isActive row) rows = None).
  { destruct (List.find _ rows) as [row|] eqn:Ef; [| done]. apply List.find_some in Ef as [Hin Hb].
    apply andb_true_iff in Hb as [Hh%String.eqb_eq Ha]. apply list_elem_of_In in Hin. by rewrite (Hr row) in Ha. }
  rewrite Hn in E. unfold find_key. cbn [res_bind]. rewrite Hf. by destruct r as [[| raw | | | | | |]|].
Qed.

Definition sample_row (active : bool) : api_key_row :=
  {| k_id := "key-1"; k_keyHash := "h"; k_ownerId := None; k_name := Some "ci"%string; k_rpmLimit := 60;
     k_tpmLimit := 1000; k_monthlyBudgetUsd := Some "12.50"%string; k_allowedModels := Some ["gpt-4o"%string];
     k_isActive := active; k_expiresAt := Some 5000 |}.
Definition sample_parse (text : string) : option json :=
  let v := context_json (context_of (sample_row true)) in
  if String.eqb text (stringify v) then Some v else None.

Lemma auth_sound_witness :
  cache_ok "gw:" [sample_row true]
    (authenticateKey (λ _, "h"%string) sample_parse "gw:" 60 Up Lost Up (Ok [sample_row true]) "gw-1" 4000 ∅).1.
Proof.
  pose proof (auth_sound (λ _, "h"%string) sample_parse "gw:" 60 [sample_row true] Up Lost Up (Ok [sample_row true]) "gw-1" 4000 ∅) as H.
  destruct (authenticateKey _ _ _ _ _ _ _ _ _ _ _) as [s' r]. refine (proj1 (H _ _ _)).
  - intros row [-> | ?%elem_of_nil]%elem_of_cons; [by vm_compute | done].
  - by intros rows row [= <-].
  - intros h e He. by rewrite lookup_empty in He.
Defined.

Lemma revocation_immediate_witness :
  (authenticateKey (λ _, "h"%string) sample_parse "gw:" 60 Up Up Up (Ok [sample_row false]) "gw-1" 4000
     (invalidateAuthCache "gw:" Up "h" 3000
        (authenticateKey (λ _, "h"%string) sample_parse "gw:" 60 Up Up Up (Ok [sample_row true]) "gw-1" 2000 ∅).1)).2
  = Err (unauthorized "Invalid API key.").
Proof.
  apply (revocation_immediate (λ _, "h"%string) sample_parse "gw:" 60 Up Up Up [sample_row false] "gw-1" 3000 4000).
  by intros row [-> | ?%elem_of_nil]%elem_of_cons.
Defined.
