(* ===== verification/Router.v ===== *)
(** * The gateway router ([src/services/router.ts])

    The request lifecycle: resolution and authorisation, the cache, the budget
    gate, failover over the candidate providers with the circuit breaker and the
    load balancer, streaming, and the accounting of what was served.  The
    dependencies are a record of operations on an abstract world; a computation
    returns the new world, the trace of the calls and metrics it made, and how
    it ended. *)

From Stdlib Require Import ZArith Lia QArith String.
From stdpp Require Import base gmap strings list.
From S2P Require Import Prelude Numerals Constants CircuitBreaker LoadBalancer Json Errors Types Provider Values CostTracker.
From S2P Require Import Registry Cache Auth.
Open Scope Z_scope.

Abbreviation Provider := ProviderInstanceConfig.
Abbreviation chunk := json.

#[export] Instance provider_base : BaseProvider Provider := { id := p_id; weight := p_weight }.

Record RouterMeta := {
  meta_provider : option string;
  meta_providerId : option string;
  meta_model : string;
  meta_cacheStatus : CacheStatus;
  meta_latencyMs : Q;
  meta_failoverCount : Z
}.

(** ** The trace *)

Inductive outcome_label := success | error.
Inductive error_label := circuit_open | client_error | upstream_error.
Inductive direction := prompt | completion.

Inductive metric :=
| providerErrors (provider : string) (kind : error_label)
| failovers
| providerRequests (provider model : string) (outcome : outcome_label)
| providerDuration (provider model : string) (seconds : Q)
| tokens_total (provider model : string) (d : direction) (count : js_value)
| cost_total (provider model : string) (usd : js_number)
| ttfb (provider model : string) (seconds : Q)
| cacheEvent (s : CacheStatus)
| rateLimited (reason : string).

Inductive event :=
| Authenticated
| RateChecked (apiKeyId : string)
| Refreshed
| CacheGet
| CacheSet
| BudgetChecked (apiKeyId : string)
| Selected (providerId : string)
| Acquired (providerId : string)
| Called (providerId : string)
| BreakerSuccess (providerId : string)
| BreakerFailure (providerId : string)
| BreakerRelease (providerId : string)
| BalancerSuccess (providerId : string) (latencyMs : Z)
| BalancerFailure (providerId : string)
| SlotReleased (providerId : string)
| Spent (apiKeyId : string) (costUsd : js_number)
| Logged (entry : RequestLogEntry)
| Metric (m : metric).

(** ** Chunks *)

(** A chunk is what the adapter yields, cast to its type: reading a property of
    [null] throws, a missing one is undefined. *)
Definition null_read (k : string) : thrown :=
  TError "TypeError" ("Cannot read properties of null (reading '" ++ k ++ "')") [].
Definition member (k : string) (c : chunk) : result thrown (option json) :=
  match c with JNull => Err (null_read k) | _ => Ok (prop k c) end.

Definition countDeltaTokens (c : chunk) : result thrown Z :=
  let! choices := member "choices" c in
  let choice := match choices with
                | Some (JArr l) => List.hd_error l
                | Some (JObj o) => field "0" o
                | _ => None
                end in
  Ok match (choice ≫= prop "delta") ≫= prop "content" with
     | Some (JStr content) =>
         let length := Z.of_nat (String.length content) in
         if 0 <? length then Z.max 1 ((length + 2) / 4) else 0
     | _ => 0
     end.

(** [choices.length === 0]. *)
Definition length_zero (choices : json) : result thrown bool :=
  match choices with
  | JNull => Err (null_read "length")
  | JArr l => Ok (length l =? 0)%nat
  | JStr s => Ok (String.eqb s "")
  | JObj o => Ok match field "length" o with Some (JNum n) => Qeq_bool n 0 | _ => false end
  | _ => Ok false
  end.

(** [chunk.usage !== null && chunk.usage !== undefined], and the value. *)
Definition chunk_usage (c : chunk) : result thrown (option json) :=
  let! u := member "usage" c in Ok match u with Some JNull | None => None | Some u => Some u end.

Definition isUsageOnlyChunk (c : chunk) : result thrown bool :=
  let! choices := member "choices" c in
  let! no_choices := match choices with None => Ok true | Some l => length_zero l end in
  if no_choices then
    let! u := chunk_usage c in Ok match u with Some _ => true | None => false end
  else Ok false.

(** The running counts of a stream: estimates, then what the provider reported
    under the names of the counts, whatever it is. *)
Record counts := Counts { promptTokens : js_value; completionTokens : js_value; usageFromStream : bool }.

Definition applyUsage (c : chunk) (a : counts) : result thrown counts :=
  let! u := chunk_usage c in
  Ok match u with
     | Some u => Counts (value_of (prop "prompt_tokens" u)) (value_of (prop "completion_tokens" u)) true
     | None => a
     end.

(** ** Computations *)

(** How a computation ends; [Diverge] is a loop that outran its fuel. *)
Inductive ending (A : Type) := Ret (a : A) | Throw (e : thrown) | Diverge.
Arguments Ret {A} a.
Arguments Throw {A} e.
Arguments Diverge {A}.

Definition M (W A : Type) : Type := W → W * list event * ending A.

Section Monad.
Context {W : Type}.

Definition ret {A} (a : A) : M W A := λ w, (w, [], Ret a).
Definition throw {A} (e : thrown) : M W A := λ w, (w, [], Throw e).
Definition diverge {A} : M W A := λ w, (w, [], Diverge).
Definition tell (e : event) : M W unit := λ w, (w, [e], Ret tt).

Definition mbind_ {A B} (m : M W A) (f : A → M W B) : M W B := λ w,
  match m w with
  | (w1, t1, Ret a) => let '(w2, t2, r) := f a w1 in (w2, (t1 ++ t2)%list, r)
  | (w1, t1, Throw e) => (w1, t1, Throw e)
  | (w1, t1, Diverge) => (w1, t1, Diverge)
  end.

(** [try { m } catch (e) { h(e) }]. *)
Definition try_catch {A} (m : M W A) (h : thrown → M W A) : M W A := λ w,
  match m w with
  | (w1, t1, Throw e) => let '(w2, t2, r) := h e w1 in (w2, (t1 ++ t2)%list, r)
  | x => x
  end.

(** [try { m } finally { f }]. *)
Definition try_finally {A} (m : M W A) (f : M W unit) : M W A := λ w,
  match m w with
  | (w1, t1, Diverge) => (w1, t1, Diverge)
  | (w1, t1, r1) =>
      match f w1 with
      | (w2, t2, Ret _) => (w2, (t1 ++ t2)%list, r1)
      | (w2, t2, Throw e) => (w2, (t1 ++ t2)%list, Throw e)
      | (w2, t2, Diverge) => (w2, (t1 ++ t2)%list, Diverge)
      end
  end.

(** A call of a dependency, traced: one that can fail, one that cannot. *)
Definition call {A} (e : event) (op : W → W * result thrown A) : M W A := λ w,
  let '(w1, r) := op w in (w1, [e], match r with Ok a => Ret a | Err x => Throw x end).
Definition act {A} (e : event) (op : W → W * A) : M W A := λ w,
  let '(w1, a) := op w in (w1, [e], Ret a).
Definition do_ (e : event) (op : W → W) : M W unit := λ w, (op w, [e], Ret tt).
Definition reads {A} (f : W → A) : M W A := λ w, (w, [], Ret (f w)).
End Monad.

Notation "'let?' x := m 'in' k" := (mbind_ m (λ x, k))
  (at level 10, x pattern, m at level 100, k at level 200) : gateway_scope.
Notation "'then?' m 'in' k" := (mbind_ m (λ _, k))
  (at level 10, m at level 100, k at level 200) : gateway_scope.

(** An upstream stream: what each [next()] does to the world, and gives. *)
Inductive upstream (W : Type) :=
| UDone (step : W → W)
| UThrow (step : W → W) (e : thrown)
| UChunk (step : W → W) (c : chunk) (rest : upstream W).
Arguments UDone {W} step.
Arguments UThrow {W} step e.
Arguments UChunk {W} step c rest.

(** [iterator.next()]: the value, and the iterator afterwards. *)
Definition next {W} (it : upstream W) (w : W) : W * result thrown (option chunk * upstream W) :=
  match it with
  | UDone step => (step w, Ok (None, UDone (λ w, w)))
  | UThrow step e => (step w, Err e)
  | UChunk step c rest => (step w, Ok (Some c, rest))
  end.

(** [RouterDeps], with the providers' own methods, the clock, and the error
    that prom-client's [Counter.inc] throws when it refuses an amount. *)
Record RouterDeps (W : Type) := {
  refreshIfStale : W → W * result thrown unit;
  registry_snapshot : W → snapshot;
  lb_select : list Provider → W → W * result thrown Provider;
  lb_recordSuccess : string → Z → W → W;
  lb_recordFailure : string → W → W;
  lb_release : string → W → W;
  cb_acquire : string → W → W * result thrown CircuitDecision;
  cb_recordSuccess : string → W → W * result thrown unit;
  cb_recordFailure : string → W → W * result thrown unit;
  cb_release : string → W → W * result thrown unit;
  cache_isEligible : ChatCompletionRequest → bool;
  cache_get : ChatCompletionRequest → W → W * option ChatCompletionResponse;
  cache_set : ChatCompletionRequest → ChatCompletionResponse → W → W;
  ct_isOverBudget : string → option Q → W → W * bool;
  ct_addSpend : string → js_number → W → W;
  ct_enqueueRequest : RequestLogEntry → W → W;
  provider_chat : Provider → ChatCompletionRequest → W → W * result thrown ChatCompletionResponse;
  provider_chatStream : Provider → ChatCompletionRequest → W → upstream W;
  provider_embed : Provider → EmbeddingRequest → W → W * result thrown EmbeddingResponse;
  provider_countTokens : Provider → list ChatMessage → string → Z;
  date_now : W → Z;
  counter_inc : js_value → option thrown
}.
Arguments refreshIfStale {W}. Arguments registry_snapshot {W}. Arguments lb_select {W}.
Arguments lb_recordSuccess {W}. Arguments lb_recordFailure {W}. Arguments lb_release {W}.
Arguments cb_acquire {W}. Arguments cb_recordSuccess {W}. Arguments cb_recordFailure {W}. Arguments cb_release {W}.
Arguments cache_isEligible {W}. Arguments cache_get {W}. Arguments cache_set {W}.
Arguments ct_isOverBudget {W}. Arguments ct_addSpend {W}. Arguments ct_enqueueRequest {W}.
Arguments provider_chat {W}. Arguments provider_chatStream {W}. Arguments provider_embed {W}.
Arguments provider_countTokens {W}. Arguments date_now {W}. Arguments counter_inc {W}.

Record RouteOptions := { bypassCache : bool }.

(** ** The router *)

Section Router.
Context {W : Type} (deps : RouterDeps W).

Definition metric_ (m : metric) : M W unit := tell (Metric m).

Definition not_found (requested : string) : thrown :=
  TGateway (NotFoundError (Some ("The model '" ++ requested ++ "' does not exist or is not available.")%string)
    {| opt_code := None; opt_param := Some "model"%string; opt_retryable := None; opt_context := None |}).
Definition not_permitted (requested : string) : thrown :=
  TGateway (PermissionError (Some ("API key is not permitted to use model '" ++ requested ++ "'.")%string)
    {| opt_code := None; opt_param := Some "model"%string; opt_retryable := None; opt_context := None |}).

(** Whether the key's allow-list admits the model. *)
Definition permitted (context : GatewayContext) (requested canonical : string) : bool :=
  match allowedModels context with
  | None | Some [] => true
  | Some allowed => existsb (String.eqb requested) allowed || existsb (String.eqb canonical) allowed
  end.

Definition authorizeModel (context : GatewayContext) (requested canonical : string) : M W unit :=
  if permitted context requested canonical then ret tt else throw (not_permitted requested).

Definition resolveAndAuthorize (requested : string) (context : GatewayContext) : M W ModelResolution :=
  let? snap := reads (registry_snapshot deps) in
  let resolution := resolveCandidates snap requested in
  if bool_decide (candidates resolution = []) then throw (not_found requested)
  else then? authorizeModel context requested (canonicalModel resolution) in ret resolution.

Definition enforceBudget (context : GatewayContext) : M W unit :=
  let? over := act (BudgetChecked (apiKeyId context))
                   (ct_isOverBudget deps (apiKeyId context) (monthlyBudgetUsd context)) in
  if (over : bool) then throw (TGateway (InsufficientQuotaError None no_options)) else ret tt.

(** [swallowBreakerError]. *)
Definition swallow (m : M W unit) : M W unit := try_catch m (λ _, ret tt).

Definition release_slot (provider : Provider) : M W unit :=
  do_ (SlotReleased (p_id provider)) (lb_release deps (p_id provider)).

(** The [catch] branch around one provider call: an error to rethrow, or
    [None] to fail over. *)
Definition on_failure {A} (provider : Provider) (e : thrown) : M W (option A) :=
  let gwError := from e in
  if negb (retryable gwError) then
    then? metric_ (providerErrors (p_name provider) client_error) in
    then? swallow (call (BreakerRelease (p_id provider)) (cb_release deps (p_id provider))) in
    throw (TGateway gwError)
  else
    then? swallow (call (BreakerFailure (p_id provider)) (cb_recordFailure deps (p_id provider))) in
    then? do_ (BalancerFailure (p_id provider)) (lb_recordFailure deps (p_id provider)) in
    then? metric_ (providerErrors (p_name provider) upstream_error) in
    then? metric_ failovers in
    ret None.

(** One provider that the breaker admits: [Some v] is the success. *)
Definition attempt {A} (f : Provider → W → W * result thrown A) (provider : Provider) : M W (option A) :=
  try_finally
    (try_catch
      (let? value := call (Called (p_id provider)) (f provider) in
       then? swallow (call (BreakerSuccess (p_id provider)) (cb_recordSuccess deps (p_id provider))) in
       ret (Some value))
      (on_failure provider))
    (release_slot provider).

Definition acquire (provider : Provider) : M W CircuitDecision :=
  try_catch (call (Acquired (p_id provider)) (cb_acquire deps (p_id provider)))
    (λ _, ret {| cd_state := circuit_state_str CLOSED; cd_allowed := true |}).

Definition others (provider : Provider) (l : list Provider) : list Provider :=
  List.filter (λ p, negb (String.eqb (p_id p) (p_id provider))) l.

(** [lb_select], traced with the provider it picks. *)
Definition select_provider (l : list Provider) : M W Provider := λ w,
  match lb_select deps l w with
  | (w1, Ok p) => (w1, [Selected (p_id p)], Ret p)
  | (w1, Err e) => (w1, [], Throw e)
  end.

(** The [while] loop, with fuel. *)
Fixpoint failover_loop {A} (fuel : nat) (f : Provider → W → W * result thrown A)
    (remaining : list Provider) (attempts : Z) : M W (Provider * A * Z) :=
  if bool_decide (remaining = []) then throw (TGateway (AllProvidersFailedError attempts no_options))
  else
    match fuel with
    | O => diverge
    | S fuel' =>
        let? provider := select_provider remaining in
        let remaining := others provider remaining in
        let? decision := acquire provider in
        if negb (cd_allowed decision) then
          then? metric_ (providerErrors (p_name provider) circuit_open) in
          then? release_slot provider in
          failover_loop fuel' f remaining attempts
        else
          let attempts := attempts + 1 in
          let? r := attempt f provider in
          match r with
          | Some value => ret (provider, value, attempts - 1)
          | None => failover_loop fuel' f remaining attempts
          end
    end.

Definition runFailover {A} (candidates : list ModelCandidate) (f : Provider → W → W * result thrown A)
    : M W (Provider * A * Z) :=
  let remaining := map c_provider candidates in
  failover_loop (length remaining) f remaining 0.

(** A counter increased by an amount, unless prom-client refuses it. *)
Definition inc_by (amount : js_value) (m : metric) : M W unit :=
  match counter_inc deps amount with Some e => throw e | None => metric_ m end.

Definition recordProviderMetrics (provider : Provider) (model : string) (latencyMs : Z)
    (prompt_tokens completion_tokens : js_value) (cost : js_number) (o : outcome_label) : M W unit :=
  then? metric_ (providerRequests (p_name provider) model o) in
  then? metric_ (providerDuration (p_name provider) model (inject_Z latencyMs / 1000)%Q) in
  then? inc_by prompt_tokens (tokens_total (p_name provider) model prompt prompt_tokens) in
  then? inc_by completion_tokens (tokens_total (p_name provider) model completion completion_tokens) in
  then? (if js_positive cost then inc_by cost (cost_total (p_name provider) model cost) else ret tt) in
  do_ (BalancerSuccess (p_id provider) latencyMs) (lb_recordSuccess deps (p_id provider) latencyMs).

Definition addSpend_ (apiKeyId : string) (cost : js_number) : M W unit :=
  do_ (Spent apiKeyId cost) (ct_addSpend deps apiKeyId cost).
Definition enqueue (entry : RequestLogEntry) : M W unit := do_ (Logged entry) (ct_enqueueRequest deps entry).

(** The log entry of a request a provider served. *)
Definition served_entry (context : GatewayContext) (provider : Provider) (model : string)
    (promptTokens completionTokens totalTokens : js_value) (cost : js_number) (latencyMs statusCode failoverCount : Z)
    (errorMessage : option string) : RequestLogEntry :=
  {| log_apiKeyId := Some (apiKeyId context); log_providerId := Some (p_id provider); log_modelId := Some model;
     log_promptTokens := Some promptTokens; log_completionTokens := Some completionTokens;
     log_totalTokens := Some totalTokens; log_costUsd := Some cost; log_latencyMs := Some (inject_Z latencyMs);
     log_statusCode := Some statusCode; log_cacheHit := false; log_failoverCount := failoverCount;
     log_errorMessage := errorMessage |}.

(** A call timed with the clock. *)
Definition timed {A} (op : W → W * result thrown A) (w : W) : W * result thrown (A * Z) :=
  let start := date_now deps w in
  match op w with
  | (w1, Ok a) => (w1, Ok (a, date_now deps w1 - start))
  | (w1, Err e) => (w1, Err e)
  end.

Definition with_model (request : ChatCompletionRequest) (m : string) : ChatCompletionRequest :=
  {| model := m; messages := messages request; temperature := temperature request; top_p := top_p request;
     n := n request; stream := stream request; stream_options := stream_options request; stop := stop request;
     max_tokens := max_tokens request; max_completion_tokens := max_completion_tokens request;
     presence_penalty := presence_penalty request; frequency_penalty := frequency_penalty request;
     logit_bias := logit_bias request; user := user request; seed := seed request; tools := tools request;
     tool_choice := tool_choice request; response_format := response_format request; extra := extra request |}.

(** ** Chat completions *)

(** The reply from the cache, logged at no cost. *)
Definition cached_result (context : GatewayContext) (m : string) (cached : ChatCompletionResponse)
    : M W (ChatCompletionResponse * RouterMeta) :=
  then? metric_ (cacheEvent HIT) in
  then? enqueue
    {| log_apiKeyId := Some (apiKeyId context); log_providerId := None; log_modelId := Some m;
       log_promptTokens := Some (prompt_tokens (r_usage cached) : js_value);
       log_completionTokens := Some (completion_tokens (r_usage cached) : js_value);
       log_totalTokens := Some (total_tokens (r_usage cached) : js_value); log_costUsd := Some (0%Q : js_number);
       log_latencyMs := Some 0%Q; log_statusCode := Some 200; log_cacheHit := true;
       log_failoverCount := 0; log_errorMessage := None |} in
  ret (cached, {| meta_provider := None; meta_providerId := None; meta_model := m; meta_cacheStatus := HIT;
                  meta_latencyMs := 0%Q; meta_failoverCount := 0 |}).

(** From the budget gate on: the part of [chatCompletion] after the cache. *)
Definition serve_chat (request : ChatCompletionRequest) (context : GatewayContext) (options : RouteOptions)
    (resolution : ModelResolution) (eligible : bool) : M W (ChatCompletionResponse * RouterMeta) :=
  let m := canonicalModel resolution in
  then? enforceBudget context in
  let upstreamRequest := with_model request m in
  let? (provider, (response, latencyMs), failoverCount) :=
    runFailover (candidates resolution) (λ p, timed (provider_chat deps p upstreamRequest)) in
  let cost := estimateCost (getModel provider m) (prompt_tokens (r_usage response))
                (completion_tokens (r_usage response)) in
  then? recordProviderMetrics provider m latencyMs (prompt_tokens (r_usage response))
          (completion_tokens (r_usage response)) cost success in
  then? addSpend_ (apiKeyId context) cost in
  then? enqueue (served_entry context provider m (prompt_tokens (r_usage response))
          (completion_tokens (r_usage response)) (total_tokens (r_usage response)) cost latencyMs 200
          failoverCount None) in
  let cacheable := eligible && negb (bypassCache options) in
  let cacheStatus := if cacheable then MISS else SKIP in
  then? (if cacheable then do_ CacheSet (cache_set deps request response) else ret tt) in
  then? metric_ (cacheEvent cacheStatus) in
  ret (response, {| meta_provider := Some (p_name provider); meta_providerId := Some (p_id provider);
                    meta_model := m; meta_cacheStatus := cacheStatus; meta_latencyMs := inject_Z latencyMs;
                    meta_failoverCount := failoverCount |}).

Definition chatCompletion (request : ChatCompletionRequest) (context : GatewayContext) (options : RouteOptions)
    : M W (ChatCompletionResponse * RouterMeta) :=
  then? call Refreshed (refreshIfStale deps) in
  let? resolution := resolveAndAuthorize (model request) context in
  let eligible := cache_isEligible deps request in
  if eligible && bypassCache options then
    then? metric_ (cacheEvent BYPASS) in
    serve_chat request context options resolution eligible
  else if (eligible : bool) then
    let? hit := act CacheGet (cache_get deps request) in
    match hit with
    | Some cached => cached_result context (canonicalModel resolution) cached
    | None => serve_chat request context options resolution eligible
    end
  else serve_chat request context options resolution eligible.

(** ** Streaming *)

Definition with_stream_usage (request : ChatCompletionRequest) (m : string) : ChatCompletionRequest :=
  {| model := m; messages := messages request; temperature := temperature request; top_p := top_p request;
     n := n request; stream := Some true; stream_options := Some (Some true); stop := stop request;
     max_tokens := max_tokens request; max_completion_tokens := max_completion_tokens request;
     presence_penalty := presence_penalty request; frequency_penalty := frequency_penalty request;
     logit_bias := logit_bias request; user := user request; seed := seed request; tools := tools request;
     tool_choice := tool_choice request; response_format := response_format request; extra := extra request |}.

(** [request.stream_options?.include_usage === true]. *)
Definition clientWantsUsage (request : ChatCompletionRequest) : bool :=
  match stream_options request with Some (Some true) => true | _ => false end.

(** How the body of the generator stops: the upstream is done, it or the reading
    of a chunk threw, or the consumer called [return()] at a [yield]. *)
Inductive stopped := Exhausted | Errored (e : thrown) | Returned.

(** The consumer's remaining pulls: [None] reads to the end. *)
Definition pulled_one (demand : option nat) : option nat := Nat.pred <$> demand.

Definition forwards (wants : bool) (c : chunk) : result thrown bool :=
  if wants then Ok true else let! only := isUsageOnlyChunk c in Ok (negb only).

(** What the loop does with a chunk before its [yield]: the counts, and whether
    it is passed on, unless reading it throws. *)
Definition read_chunk (wants : bool) (c : chunk) (a : counts) : counts * result thrown bool :=
  let counted :=
    let! a := if usageFromStream a then Ok a
              else let! n := countDeltaTokens c in
                   Ok (Counts (promptTokens a) (js_plus (completionTokens a) (inject_Z n)) (usageFromStream a)) in
    applyUsage c a in
  match counted with Err e => (a, Err e) | Ok a => (a, forwards wants c) end.

(** The [for (;;)] loop: the chunks yielded, the counts, and how it stopped.
    After a [yield] that satisfies the consumer it calls [return()]. *)
Fixpoint pump (wants : bool) (it : upstream W) (a : counts) (demand : option nat) (w : W)
    : W * list chunk * counts * stopped :=
  match it with
  | UDone step => (step w, [], a, Exhausted)
  | UThrow step e => (step w, [], a, Errored e)
  | UChunk step c rest =>
      let w := step w in
      match read_chunk wants c a with
      | (a, Err e) => (w, [], a, Errored e)
      | (a, Ok true) =>
          match pulled_one demand with
          | Some O => (w, [c], a, Returned)
          | d => let '(w', out, a', st) := pump wants rest a d w in (w', c :: out, a', st)
          end
      | (a, Ok false) => pump wants rest a demand w
      end
  end.

(** The [try] body: the first chunk, then the loop. *)
Definition stream_body (wants : bool) (first : option chunk) (rest : upstream W) (a : counts)
    (demand : option nat) (w : W) : W * list chunk * counts * stopped :=
  match first with
  | Some c =>
      match read_chunk wants c a with
      | (a, Err e) => (w, [], a, Errored e)
      | (a, Ok true) =>
          match pulled_one demand with
          | Some O => (w, [c], a, Returned)
          | d => let '(w', out, a', st) := pump wants rest a d w in (w', c :: out, a', st)
          end
      | (a, Ok false) => pump wants rest a demand w
      end
  | None => pump wants rest a demand w
  end.

(** The [finally] block: metrics, spend and log from the final counts. *)
Definition stream_account (context : GatewayContext) (provider : Provider) (m : string) (start failoverCount : Z)
    (a : counts) (errored : bool) : M W unit :=
  let? now := reads (date_now deps) in
  let latencyMs := now - start in
  let cost := estimateCost (getModel provider m) (promptTokens a) (completionTokens a) in
  then? recordProviderMetrics provider m latencyMs (promptTokens a) (completionTokens a) cost
          (if errored then error else success) in
  then? addSpend_ (apiKeyId context) cost in
  enqueue (served_entry context provider m (promptTokens a) (completionTokens a)
    (js_plus (promptTokens a) (completionTokens a)) cost latencyMs (if errored then 502 else 200) failoverCount
    (if errored then Some "stream interrupted"%string else None)).

Definition is_errored (st : stopped) : bool := match st with Errored _ => true | _ => false end.

(** The generator [stream] as a consumer that makes [demand] pulls sees it: the
    chunks and the error it gets, that of the [finally] block before that of
    the body.  A generator that is returned before the first pull never runs. *)
Definition run_stream (request : ChatCompletionRequest) (context : GatewayContext) (provider : Provider)
    (m : string) (first : option chunk) (rest : upstream W) (start failoverCount : Z) (demand : option nat)
    : M W (list chunk * option thrown) := λ w,
  match demand with
  | Some O => (w, [], Ret ([], None))
  | _ =>
      let promptTokens := inject_Z (provider_countTokens deps provider (messages request) m) in
      let '(w1, out, a, st) :=
        stream_body (clientWantsUsage request) first rest (Counts promptTokens 0%Q false) demand w in
      try_catch
        (then? stream_account context provider m start failoverCount a (is_errored st) in
         ret (out, match st with Errored e => Some e | _ => None end))
        (λ e, ret (out, Some e)) w1
  end.

(** Opening the stream on one provider: up to its first chunk. *)
Definition open_stream (request : ChatCompletionRequest) (provider : Provider) (w : W)
    : W * result thrown (option chunk * upstream W * Z) :=
  let start := date_now deps w in
  match next (provider_chatStream deps provider request w) w with
  | (w1, Ok (first, rest)) => (w1, Ok (first, rest, start))
  | (w1, Err e) => (w1, Err e)
  end.

Definition prepareStream (request : ChatCompletionRequest) (context : GatewayContext)
    : M W (RouterMeta * (option nat → M W (list chunk * option thrown))) :=
  then? call Refreshed (refreshIfStale deps) in
  let? resolution := resolveAndAuthorize (model request) context in
  then? enforceBudget context in
  let m := canonicalModel resolution in
  let upstreamRequest := with_stream_usage request m in
  let? (provider, (first, rest, start), failoverCount) :=
    runFailover (candidates resolution) (open_stream upstreamRequest) in
  let? now := reads (date_now deps) in
  let ttfbSeconds := (inject_Z (now - start) / 1000)%Q in
  then? metric_ (ttfb (p_name provider) m ttfbSeconds) in
  then? metric_ (cacheEvent SKIP) in
  ret ({| meta_provider := Some (p_name provider); meta_providerId := Some (p_id provider); meta_model := m;
          meta_cacheStatus := SKIP; meta_latencyMs := (ttfbSeconds * 1000)%Q;
          meta_failoverCount := failoverCount |},
       run_stream request context provider m first rest start failoverCount).

(** ** Embeddings *)

Definition with_embedding_model (request : EmbeddingRequest) (m : string) : EmbeddingRequest :=
  {| e_model := m; e_input := e_input request; e_encoding_format := e_encoding_format request;
     e_dimensions := e_dimensions request; e_user := e_user request; e_extra := e_extra request |}.

Definition embeddings (request : EmbeddingRequest) (context : GatewayContext) : M W (EmbeddingResponse * RouterMeta) :=
  then? call Refreshed (refreshIfStale deps) in
  let? resolution := resolveAndAuthorize (e_model request) context in
  then? enforceBudget context in
  let m := canonicalModel resolution in
  let upstreamRequest := with_embedding_model request m in
  let? (provider, (response, latencyMs), failoverCount) :=
    runFailover (candidates resolution) (λ p, timed (provider_embed deps p upstreamRequest)) in
  let promptTokens := er_prompt_tokens response in
  let cost := estimateCost (getModel provider m) promptTokens 0%Q in
  then? recordProviderMetrics provider m latencyMs promptTokens 0%Q cost success in
  then? addSpend_ (apiKeyId context) cost in
  then? enqueue (served_entry context provider m promptTokens 0%Q (er_total_tokens response) cost latencyMs 200
          failoverCount None) in
  ret (response, {| meta_provider := Some (p_name provider); meta_providerId := Some (p_id provider);
                    meta_model := m; meta_cacheStatus := SKIP; meta_latencyMs := inject_Z latencyMs;
                    meta_failoverCount := failoverCount |}).
End Router.

(** ** What a failover did *)

(** One turn of the loop: the breaker refused the provider, the provider failed
    and was passed on, it rejected the request for good, or it served it. *)
Inductive visit := Skipped (p : Provider) | FailedOver (p : Provider) | Rejected (p : Provider) | Served (p : Provider).

Definition visited (v : visit) : Provider :=
  match v with Skipped p | FailedOver p | Rejected p | Served p => p end.
Definition passed_on (v : visit) : Prop := match v with Skipped _ | FailedOver _ => True | _ => False end.
Definition is_failure (v : visit) : bool := match v with FailedOver _ => true | _ => false end.
Definition failures_in (vs : list visit) : Z := Z.of_nat (length (List.filter is_failure vs)).

(** The calls and metrics of a turn: every selected provider is asked of the
    breaker first and has its slot released last; a called provider gets
    exactly one verdict. *)
Definition visit_trace (v : visit) : list event :=
  let i := p_id (visited v) in
  let nm := p_name (visited v) in
  Selected i :: Acquired i ::
  (match v with
   | Skipped _ => [Metric (providerErrors nm circuit_open)]
   | FailedOver _ => [Called i; BreakerFailure i; BalancerFailure i;
                      Metric (providerErrors nm upstream_error); Metric failovers]
   | Rejected _ => [Called i; Metric (providerErrors nm client_error); BreakerRelease i]
   | Served _ => [Called i; BreakerSuccess i]
   end ++ [SlotReleased i])%list.

Definition visits_trace (vs : list visit) : list event := concat (map visit_trace vs).

(** What the router needs of the load balancer. *)
Class LawfulBalancer {W} (deps : RouterDeps W) := {
  select_candidate l w : l ≠ [] → ∃ w' p, lb_select deps l w = (w', Ok p) ∧ p ∈ l
}.

Section Failover.
Context {W : Type} (deps : RouterDeps W).

Lemma swallow_ok (e : event) op w : ∃ w', swallow (W := W) (call e op) w = (w', [e], Ret tt).
Proof using.
  unfold swallow, try_catch, call, ret. destruct (op w) as [w' [[]|x]]; [by exists w' |]. by exists w'.
Qed.

Lemma acquire_ok p w : ∃ w' d, acquire deps p w = (w', [Acquired (p_id p)], Ret d).
Proof using.
  unfold acquire, try_catch, call, ret. destruct (cb_acquire deps (p_id p) w) as [w' [d|x]]; by eexists _, _.
Qed.

(** A provider call gets exactly one verdict, and its slot back. *)
Lemma attempt_cases {A} (f : Provider → W → W * result thrown A) p w :
  ∃ w', match f p w with
  | (_, Ok v) => attempt deps f p w = (w', tail (tail (visit_trace (Served p))), Ret (Some v))
  | (_, Err e) =>
      if retryable (from e)
      then attempt deps f p w = (w', tail (tail (visit_trace (FailedOver p))), Ret None)
      else attempt deps f p w = (w', tail (tail (visit_trace (Rejected p))), Throw (TGateway (from e)))
  end.
Proof using.
  unfold attempt, try_finally, try_catch, mbind_. destruct (f p w) as [w1 [v|e]] eqn:E.
  - assert (call (Called (p_id p)) (f p) w = (w1, [Called (p_id p)], Ret v)) as -> by (unfold call; by rewrite E).
    destruct (swallow_ok (BreakerSuccess (p_id p)) (cb_recordSuccess deps (p_id p)) w1) as [w2 ->].
    eexists. reflexivity.
  - assert (call (Called (p_id p)) (f p) w = (w1, [Called (p_id p)], Throw e)) as -> by (unfold call; by rewrite E).
    unfold on_failure. destruct (retryable (from e)); cbn [negb]; unfold mbind_, metric_, tell; cbv beta.
    + destruct (swallow_ok (BreakerFailure (p_id p)) (cb_recordFailure deps (p_id p)) w1) as [w2 ->].
      eexists. reflexivity.
    + destruct (swallow_ok (BreakerRelease (p_id p)) (cb_release deps (p_id p)) w1) as [w2 ->].
      eexists. reflexivity.
Qed.

Lemma others_length p l : p ∈ l → (length (others p l) < length l)%nat.
Proof using.
  unfold others. induction l as [|q l IH]; [by intros ?%elem_of_nil |]. intros Hin. simpl.
  assert (Hle : (length (List.filter (λ q, negb (String.eqb (p_id q) (p_id p))) l) <= length l)%nat)
    by (clear; induction l as [|x l IH]; simpl; [lia | destruct (negb _); simpl; lia]).
  destruct (String.eqb_spec (p_id q) (p_id p)) as [E | Hne]; simpl; [lia |].
  apply elem_of_cons in Hin as [-> | Hin]; [done |]. specialize (IH Hin). lia.
Qed.

Lemma elem_of_others p q l : q ∈ others p l ↔ q ∈ l ∧ p_id q ≠ p_id p.
Proof using.
  unfold others. rewrite !list_elem_of_In, filter_In, negb_true_iff, String.eqb_neq. done.
Qed.
(** The turns and the ending of a failover over [remaining], after [attempts]
    earlier failed calls. *)
Definition failover_spec {A} (f : Provider → W → W * result thrown A) (remaining : list Provider)
    (attempts : Z) (vs : list visit) (r : ending (Provider * A * Z)) : Prop :=
  NoDup (map (λ v, p_id (visited v)) vs) ∧ (∀ v, v ∈ vs → visited v ∈ remaining) ∧
  match r with
  | Ret (p, value, failoverCount) => ∃ vs0, vs = (vs0 ++ [Served p])%list ∧ Forall passed_on vs0 ∧
      failoverCount = attempts + failures_in vs0 ∧ ∃ w1 w2, f p w1 = (w2, Ok value)
  | Throw e =>
      (∃ vs0 p w1 w2 e', vs = (vs0 ++ [Rejected p])%list ∧ Forall passed_on vs0 ∧ f p w1 = (w2, Err e') ∧
         e = TGateway (from e') ∧ retryable (from e') = false) ∨
      (Forall passed_on vs ∧ e = TGateway (AllProvidersFailedError (attempts + failures_in vs) no_options) ∧
       ∀ p, p ∈ remaining → p_id p ∈ map (λ v, p_id (visited v)) vs)
  | Diverge => False
  end.

(** A turn that passes on, then the rest. *)
Lemma failover_spec_cons {A} (f : Provider → W → W * result thrown A) p remaining attempts v vs r :
  visited v = p → passed_on v → p ∈ remaining →
  failover_spec f (others p remaining) (attempts + (if is_failure v then 1 else 0)) vs r →
  failover_spec f remaining attempts (v :: vs) r.
Proof using.
  intros <- Hv Hp (Hnd & Hin & Hr).
  assert (Hc : ∀ l, failures_in (v :: l) = (if is_failure v then 1 else 0) + failures_in l).
  { intros l. unfold failures_in. cbn [List.filter]. destruct (is_failure v); cbn [length]; lia. }
  split; [| split].
  - simpl. apply NoDup_cons. split; [| done]. intros (v' & E & Hv')%list_elem_of_In%in_map_iff.
    apply list_elem_of_In, Hin, elem_of_others in Hv' as [_ Hne]. by apply Hne.
  - intros v' [-> | Hv']%elem_of_cons; [done |]. by apply Hin, elem_of_others in Hv' as [? _].
  - destruct r as [[[q value] k] | e |]; [| | done].
    + destruct Hr as (vs0 & -> & Hf & -> & Hw). exists (v :: vs0). split_and!; [done | by constructor | rewrite Hc; lia | done].
    + destruct Hr as [(vs0 & q & w1 & w2 & e' & -> & Hf & Hr) | (Hf & -> & Hall)].
      * left. exists (v :: vs0), q, w1, w2, e'. split_and!; [done | by constructor | apply Hr | apply Hr | apply Hr].
      * right. split_and!; [by constructor | rewrite Hc; do 2 f_equal; lia |].
        intros q Hq. simpl. destruct (decide (p_id q = p_id (visited v))) as [-> | Hne]; [by left |].
        right. apply Hall, elem_of_others. by split.
Qed.

Context `{!LawfulBalancer deps}.

Lemma failover_loop_visits {A} (f : Provider → W → W * result thrown A) : ∀ fuel remaining attempts w,
  (length remaining <= fuel)%nat → ∃ w' vs r,
    failover_loop deps fuel f remaining attempts w = (w', visits_trace vs, r) ∧
    failover_spec f remaining attempts vs r.
Proof using All.
  induction fuel as [|fuel IH]; intros remaining attempts w Hf; cbn [failover_loop]; case_bool_decide as Hr;
    try (by destruct remaining; simpl in *; lia || done).
  1, 2: exists w, [], (Throw (TGateway (AllProvidersFailedError attempts no_options))); split; [done |]; subst remaining;
    split; [by constructor |]; split; [by intros ? ?%elem_of_nil |]; right; split; [by constructor |];
    split; [by rewrite Z.add_0_r | by intros ? ?%elem_of_nil].
  destruct (select_candidate remaining w Hr) as (w1 & p & Hs & Hp). unfold mbind_, select_provider. rewrite Hs.
  assert (Hl : (length (others p remaining) <= fuel)%nat) by (pose proof (others_length p remaining Hp); lia).
  destruct (acquire_ok p w1) as (w2 & d & ->). destruct (cd_allowed d); cbn [negb].
  2: { unfold metric_, tell, release_slot, do_.
       destruct (IH (others p remaining) attempts (lb_release deps (p_id p) w2) Hl) as (w' & vs & r & -> & Hspec).
       exists w', (Skipped p :: vs), r. split; [done |]. eapply failover_spec_cons; [done | done | done |].
       simpl. by rewrite Z.add_0_r. }
  destruct (attempt_cases f p w2) as [w3 Hc]. destruct (f p w2) as [w2' [value|e]] eqn:Ef.
  - rewrite Hc. exists w3, [Served p], (Ret (p, value, attempts + 1 - 1)). split; [done |]. split; [by apply NoDup_singleton |].
    split; [by intros v ->%list_elem_of_singleton |]. exists []. split_and!; [done | by constructor | | by exists w2, w2'].
    unfold failures_in. simpl. lia.
  - destruct (retryable (from e)) eqn:Er; rewrite Hc.
    + destruct (IH (others p remaining) (attempts + 1) w3 Hl) as (w' & vs & r & -> & Hspec).
      exists w', (FailedOver p :: vs), r. split; [done |]. by eapply failover_spec_cons.
    + exists w3, [Rejected p], (Throw (TGateway (from e))). split; [done |]. split; [by apply NoDup_singleton |].
      split; [by intros v ->%list_elem_of_singleton |]. left. exists [], p, w2, w2', e. by split_and!.
Qed.

Lemma runFailover_visits {A} candidates (f : Provider → W → W * result thrown A) w : ∃ w' vs r,
  runFailover deps candidates f w = (w', visits_trace vs, r) ∧
  failover_spec f (map c_provider candidates) 0 vs r.
Proof using All. by apply failover_loop_visits. Qed.
End Failover.

(** ** Reading a trace *)

Definition spends (t : list event) : list (string * js_number) :=
  omap (λ e, match e with Spent k c => Some (k, c) | _ => None end) t.
Definition logs (t : list event) : list RequestLogEntry :=
  omap (λ e, match e with Logged l => Some l | _ => None end) t.
Definition calls (t : list event) : list string :=
  omap (λ e, match e with Called i => Some i | _ => None end) t.
Definition stores (t : list event) : nat :=
  length (List.filter (λ e, match e with CacheSet => true | _ => false end) t).

(** A trace that neither charges, logs nor stores. *)
Definition silent (t : list event) : Prop := spends t = [] ∧ logs t = [] ∧ stores t = O.

Lemma silent_app t1 t2 : silent t1 → silent t2 → silent (t1 ++ t2).
Proof.
  intros (S1 & L1 & C1) (S2 & L2 & C2). unfold silent, spends, logs, stores in *.
  by rewrite !omap_app, List.filter_app, length_app, S1, L1, C1, S2, L2, C2.
Qed.

Lemma spends_app t1 t2 : spends (t1 ++ t2) = (spends t1 ++ spends t2)%list.
Proof. apply omap_app. Qed.
Lemma logs_app t1 t2 : logs (t1 ++ t2) = (logs t1 ++ logs t2)%list.
Proof. apply omap_app. Qed.
Lemma calls_app t1 t2 : calls (t1 ++ t2) = (calls t1 ++ calls t2)%list.
Proof. apply omap_app. Qed.
Lemma stores_app t1 t2 : stores (t1 ++ t2) = (stores t1 + stores t2)%nat.
Proof. unfold stores. by rewrite List.filter_app, length_app. Qed.

Lemma silent_visits vs : silent (visits_trace vs).
Proof. induction vs as [|[] vs IH]; [done |..]; unfold visits_trace; cbn [map concat]; by apply silent_app. Qed.

Lemma elem_of_calls i t : i ∈ calls t ↔ Called i ∈ t.
Proof.
  unfold calls. rewrite list_elem_of_omap. split; [| by eexists].
  by intros ([] & Hx & [= ->]).
Qed.

Lemma calls_visits i vs : Called i ∈ visits_trace vs → ∃ v, v ∈ vs ∧ p_id (visited v) = i.
Proof.
  rewrite <- elem_of_calls. induction vs as [|v vs IH]; [by intros ?%elem_of_nil |].
  unfold visits_trace. cbn [map concat]. rewrite calls_app, elem_of_app. intros [H | H].
  - exists v. split; [by left |]. destruct v; cbn in H; try (by apply elem_of_nil in H);
      by apply list_elem_of_singleton in H as ->.
  - destruct (IH H) as (v' & ? & ?). exists v'. split; [by right | done].
Qed.

(** The trace of [recordProviderMetrics]. *)
Definition metrics_trace (provider : Provider) (m : string) (latencyMs : Z) (pt ct : js_value) (cost : js_number)
    (o : outcome_label) : list event :=
  ([Metric (providerRequests (p_name provider) m o);
    Metric (providerDuration (p_name provider) m (inject_Z latencyMs / 1000)%Q);
    Metric (tokens_total (p_name provider) m prompt pt);
    Metric (tokens_total (p_name provider) m completion ct)] ++
   (if js_positive cost then [Metric (cost_total (p_name provider) m cost)] else []) ++
   [BalancerSuccess (p_id provider) latencyMs])%list.

Section Steps.
Context {W : Type} (deps : RouterDeps W).

(** The error of the first amount that prom-client refuses, and the metrics
    before it. *)
Definition refused (pt ct : js_value) (cost : js_number) : option thrown :=
  match counter_inc deps pt, counter_inc deps ct with
  | Some e, _ => Some e
  | None, Some e => Some e
  | None, None => if js_positive cost then counter_inc deps cost else None
  end.
Definition refused_trace (provider : Provider) (m : string) (latencyMs : Z) (pt ct : js_value) (o : outcome_label) : list event :=
  Metric (providerRequests (p_name provider) m o) ::
  Metric (providerDuration (p_name provider) m (inject_Z latencyMs / 1000)%Q) ::
  match counter_inc deps pt with
  | Some _ => []
  | None =>
      Metric (tokens_total (p_name provider) m prompt pt) ::
      match counter_inc deps ct with
      | Some _ => []
      | None => [Metric (tokens_total (p_name provider) m completion ct)]
      end
  end.

Lemma metrics_run p m l pt ct c o w :
  recordProviderMetrics deps p m l pt ct c o w =
  match refused pt ct c with
  | None => (lb_recordSuccess deps (p_id p) l w, metrics_trace p m l pt ct c o, Ret tt)
  | Some e => (w, refused_trace p m l pt ct o, Throw e)
  end.
Proof using.
  unfold recordProviderMetrics, inc_by, refused, refused_trace, metrics_trace, metric_, tell, do_, throw, mbind_.
  destruct (counter_inc deps pt); [done |]. destruct (counter_inc deps ct); [done |].
  destruct (js_positive c); [| done]. by destruct (counter_inc deps c).
Qed.

Lemma metrics_told p m l pt ct c o w : refused pt ct c = None →
  recordProviderMetrics deps p m l pt ct c o w = (lb_recordSuccess deps (p_id p) l w, metrics_trace p m l pt ct c o, Ret tt).
Proof using. intros E. by rewrite metrics_run, E. Qed.
Lemma metrics_refused p m l pt ct c o w e : refused pt ct c = Some e →
  recordProviderMetrics deps p m l pt ct c o w = (w, refused_trace p m l pt ct o, Throw e).
Proof using. intros E. by rewrite metrics_run, E. Qed.

Lemma resolve_run requested ctx w :
  resolveAndAuthorize deps requested ctx w =
  let res := resolveCandidates (registry_snapshot deps w) requested in
  (w, [], if bool_decide (candidates res = []) then Throw (not_found requested)
          else if permitted ctx requested (canonicalModel res) then Ret res else Throw (not_permitted requested)).
Proof using.
  unfold resolveAndAuthorize, mbind_, reads. cbv zeta. case_bool_decide; [done |].
  unfold authorizeModel. by destruct (permitted _ _ _).
Qed.

Lemma budget_run ctx w : enforceBudget deps ctx w =
  let '(w', over) := ct_isOverBudget deps (apiKeyId ctx) (monthlyBudgetUsd ctx) w in
  (w', [BudgetChecked (apiKeyId ctx)],
   if over then Throw (TGateway (InsufficientQuotaError None no_options)) else Ret tt).
Proof using. unfold enforceBudget, mbind_, act. destruct (ct_isOverBudget _ _ _ _) as [w' []]; done. Qed.

Lemma silent_metrics p m l pt ct c o : silent (metrics_trace p m l pt ct c o).
Proof using. unfold metrics_trace. by destruct (js_positive c). Qed.
Lemma silent_refused p m l pt ct o : silent (refused_trace p m l pt ct o).
Proof using. unfold refused_trace. destruct (counter_inc deps pt); [done |]. by destruct (counter_inc deps ct). Qed.

Lemma calls_metrics p m l pt ct c o : calls (metrics_trace p m l pt ct c o) = [].
Proof using. unfold metrics_trace. by destruct (js_positive c). Qed.
Lemma calls_refused p m l pt ct o : calls (refused_trace p m l pt ct o) = [].
Proof using. unfold refused_trace. destruct (counter_inc deps pt); [done |]. by destruct (counter_inc deps ct). Qed.
End Steps.

(** The first step of a computation. *)
Lemma bind_ret {W A B} (m : M W A) (f : A → M W B) w w1 t1 a :
  m w = (w1, t1, Ret a) → mbind_ m f w = let '(w2, t2, r) := f a w1 in (w2, (t1 ++ t2)%list, r).
Proof. unfold mbind_. by intros ->. Qed.

Lemma bind_throw {W A B} (m : M W A) (f : A → M W B) w w1 t1 e :
  m w = (w1, t1, Throw e) → mbind_ m f w = (w1, t1, Throw e).
Proof. unfold mbind_. by intros ->. Qed.

Lemma call_ok {W A} e (op : W → W * result thrown A) w w1 a : op w = (w1, Ok a) → call e op w = (w1, [e], Ret a).
Proof. unfold call. by intros ->. Qed.

Lemma call_err {W A} e (op : W → W * result thrown A) w w1 x : op w = (w1, Err x) → call e op w = (w1, [e], Throw x).
Proof. unfold call. by intros ->. Qed.

Section Handlers.
Context {W : Type} (deps : RouterDeps W) `{!LawfulBalancer deps}.
Abbreviation over_budget ctx := (ct_isOverBudget deps (apiKeyId ctx) (monthlyBudgetUsd ctx)).
Abbreviation quota_error := (Throw (TGateway (InsufficientQuotaError None no_options))).

(** What follows a served request in the trace: metrics, one charge, one log. *)
Definition accounting (ctx : GatewayContext) (p : Provider) (m : string) (pt ct tt : js_value) (cost : js_number)
    (latencyMs failoverCount : Z) : list event :=
  (metrics_trace p m latencyMs pt ct cost success ++
   [Spent (apiKeyId ctx) cost;
    Logged (served_entry ctx p m pt ct tt cost latencyMs 200 failoverCount None)])%list.

(** The budget gate, the failover, and the continuation of a success. *)
Lemma gated_failover {A B} (ctx : GatewayContext) (cs : list ModelCandidate)
    (f : Provider → W → W * result thrown A) (k : Provider * A * Z → M W B) w :
  let '(w1, over) := over_budget ctx w in
  let run := (then? enforceBudget deps ctx in let? x := runFailover deps cs f in k x) w in
  if over then run = (w1, [BudgetChecked (apiKeyId ctx)], quota_error)
  else ∃ w2 vs r, failover_spec f (map c_provider cs) 0 vs r ∧
    match r with
    | Ret x => ∀ w3 t3 r3, k x w2 = (w3, t3, r3) →
        run = (w3, (BudgetChecked (apiKeyId ctx) :: visits_trace vs ++ t3)%list, r3)
    | Throw e => run = (w2, BudgetChecked (apiKeyId ctx) :: visits_trace vs, Throw e)
    | Diverge => False
    end.
Proof using All.
  destruct (over_budget ctx w) as [w1 over] eqn:E. cbv zeta. unfold mbind_. rewrite budget_run, E.
  destruct over; [done |]. destruct (runFailover_visits deps cs f w1) as (w2 & vs & r & -> & Hr).
  exists w2, vs, r. split; [done |]. destruct r as [x | e |]; [| done | by destruct Hr as (_ & _ & [])].
  intros w3 t3 r3 ->. done.
Qed.

(** Which requests a handler calls a provider for. *)
Definition gated (ctx : GatewayContext) (requested : string) (w : W) (t : list event) : Prop :=
  ∀ i, Called i ∈ t → ∃ w1 w2 w3 t1 t2,
    refreshIfStale deps w = (w1, Ok tt) ∧
    (let res := resolveCandidates (registry_snapshot deps w1) requested in
     (∃ c, c ∈ candidates res ∧ p_id (c_provider c) = i) ∧ permitted ctx requested (canonicalModel res) = true) ∧
    over_budget ctx w2 = (w3, false) ∧
    t = (t1 ++ BudgetChecked (apiKeyId ctx) :: t2)%list ∧ calls t1 = [].

Lemma gated_no_calls ctx requested w t : calls t = [] → gated ctx requested w t.
Proof using. intros Ht i Hi%elem_of_calls. rewrite Ht in Hi. by apply elem_of_nil in Hi. Qed.

(** A handler that refreshes, resolves, runs [pre] and then the gated failover
    with a continuation that calls no provider is gated. *)
Lemma gated_intro {A} ctx requested w w1 w2 w3 pre (f : Provider → W → W * result thrown A) vs r t3 :
  refreshIfStale deps w = (w1, Ok tt) →
  permitted ctx requested (canonicalModel (resolveCandidates (registry_snapshot deps w1) requested)) = true →
  over_budget ctx w2 = (w3, false) →
  failover_spec f (map c_provider (candidates (resolveCandidates (registry_snapshot deps w1) requested))) 0 vs r →
  calls pre = [] → calls t3 = [] →
  gated ctx requested w (pre ++ BudgetChecked (apiKeyId ctx) :: visits_trace vs ++ t3).
Proof using.
  intros Hr Hp Ho (_ & Hin & _) Hpre Ht3 i Hi. exists w1, w2, w3, pre, (visits_trace vs ++ t3)%list.
  split; [done |]. split; [| by split_and!]. split; [| done].
  apply elem_of_calls in Hi. rewrite calls_app, Hpre in Hi. simpl in Hi.
  change (calls (BudgetChecked (apiKeyId ctx) :: visits_trace vs ++ t3)) with (calls (visits_trace vs ++ t3)) in Hi.
  rewrite calls_app, Ht3, app_nil_r in Hi. apply elem_of_calls, calls_visits in Hi as (v & Hv & <-).
  apply Hin in Hv. apply list_elem_of_In, in_map_iff in Hv as (c & E & Hc). exists c.
  split; [by apply list_elem_of_In | by rewrite E].
Qed.

(** The continuation of a served chat completion. *)
Lemma serve_chat_run req ctx options res eligible w :
  let m := canonicalModel res in
  let cacheable := eligible && negb (bypassCache options) in
  let f := (λ p, timed deps (provider_chat deps p (with_model req m))) in
  let '(w1, over) := over_budget ctx w in
  if over then serve_chat deps req ctx options res eligible w = (w1, [BudgetChecked (apiKeyId ctx)], quota_error)
  else ∃ w2 vs r, failover_spec f (map c_provider (candidates res)) 0 vs r ∧
    match r with
    | Ret (p, (resp, latencyMs), n) =>
        let pt := prompt_tokens (r_usage resp) in
        let ct := completion_tokens (r_usage resp) in
        let cost := estimateCost (getModel p m) pt ct in
        match refused deps pt ct cost with
        | Some e => serve_chat deps req ctx options res eligible w =
            (w2, (BudgetChecked (apiKeyId ctx) :: visits_trace vs ++ refused_trace deps p m latencyMs pt ct success)%list, Throw e)
        | None => serve_chat deps req ctx options res eligible w =
        (w2, (BudgetChecked (apiKeyId ctx) :: visits_trace vs ++
          accounting ctx p m pt ct (total_tokens (r_usage resp)) cost latencyMs n ++
          (if cacheable then [CacheSet] else []) ++
          [Metric (cacheEvent (if cacheable then MISS else SKIP))])%list,
         Ret (resp, {| meta_provider := Some (p_name p); meta_providerId := Some (p_id p); meta_model := m;
                       meta_cacheStatus := if cacheable then MISS else SKIP; meta_latencyMs := inject_Z latencyMs;
                       meta_failoverCount := n |}))
        end
    | Throw e => serve_chat deps req ctx options res eligible w
                 = (w2, BudgetChecked (apiKeyId ctx) :: visits_trace vs, Throw e)
    | Diverge => False
    end.
Proof using All.
  cbv zeta. unfold serve_chat.
  match goal with |- context [mbind_ (runFailover _ _ ?f) ?k] =>
    pose proof (gated_failover ctx (candidates res) f k w) as H end.
  destruct (over_budget ctx w) as [w1 over]. destruct over; [exact H |].
  destruct H as (w2 & vs & r & Hr & H). destruct r as [[[p [resp latencyMs]] n] | e |]; [| by exists w2, vs, (Throw e) | done].
  unfold accounting.
  destruct (refused deps (prompt_tokens (r_usage resp)) (completion_tokens (r_usage resp))
    (estimateCost (getModel p (canonicalModel res)) (prompt_tokens (r_usage resp)) (completion_tokens (r_usage resp)))) as [e|] eqn:Eref.
  { exists w2, vs, (Ret (p, (resp, latencyMs), n)). split; [exact Hr |]. rewrite Eref. apply H. clear H.
    by erewrite bind_throw by (by apply metrics_refused). }
  destruct (eligible && negb (bypassCache options));
    (eexists _, vs, (Ret (p, (resp, latencyMs), n)); split; [exact Hr |]; rewrite Eref; apply H; clear H;
     erewrite bind_ret by (by apply metrics_told); unfold addSpend_, enqueue, mbind_, do_, metric_, tell, ret;
     by rewrite <- app_assoc).
Qed.

(** How a chat completion runs: it ends before the gate, is answered from the
    cache, or goes through [serve_chat] after a prefix that only consults the
    cache. *)
Lemma chat_run req ctx options w :
  let run := chatCompletion deps req ctx options w in
  (∃ w' e, run = (w', [Refreshed], Throw e)) ∨
  ∃ w1, refreshIfStale deps w = (w1, Ok tt) ∧
    let res := resolveCandidates (registry_snapshot deps w1) (model req) in
    let eligible := cache_isEligible deps req in
    candidates res ≠ [] ∧ permitted ctx (model req) (canonicalModel res) = true ∧
    ((∃ w2 w' cached, eligible && negb (bypassCache options) = true ∧ cache_get deps req w1 = (w2, Some cached) ∧
       ∃ l, log_costUsd l = Some (0%Q : js_number) ∧ log_cacheHit l = true ∧
         log_totalTokens l = Some (total_tokens (r_usage cached) : js_value) ∧
       run = (w', [Refreshed; CacheGet; Metric (cacheEvent HIT); Logged l],
         Ret (cached, {| meta_provider := None; meta_providerId := None; meta_model := canonicalModel res;
                         meta_cacheStatus := HIT; meta_latencyMs := 0%Q; meta_failoverCount := 0 |}))) ∨
     (∃ w2 pre, calls pre = [] ∧ silent pre ∧
        (eligible && negb (bypassCache options) = true → (cache_get deps req w1).2 = None) ∧
        run = let '(w', t, r) := serve_chat deps req ctx options res eligible w2 in (w', (pre ++ t)%list, r))).
Proof using.
  cbv zeta. remember (chatCompletion deps req ctx options w) as run eqn:E. unfold chatCompletion in E.
  destruct (refreshIfStale deps w) as [w1 [[]|e]] eqn:Er.
  2: { left. erewrite bind_throw in E by (by apply call_err). by eexists _, _. }
  erewrite bind_ret in E by (by apply call_ok). pose proof (resolve_run deps (model req) ctx w1) as Hres. cbv zeta in Hres.
  case_bool_decide as Hc; [left; erewrite bind_throw in E by exact Hres; by eexists _, _ |].
  destruct (permitted _ _ _) eqn:Hp; [| left; erewrite bind_throw in E by exact Hres; by eexists _, _].
  erewrite bind_ret in E by exact Hres. right. exists w1. split; [done |]. split; [done |]. split; [done |].
  destruct (cache_isEligible deps req) eqn:Ee, (bypassCache options) eqn:Eb; cbn [andb negb] in E |- *.
  - right. exists w1, [Refreshed; Metric (cacheEvent BYPASS)]. split_and!; [done.. |].
    erewrite bind_ret in E by reflexivity. rewrite E. by destruct (serve_chat _ _ _ _ _ _ _) as [[w' t] r].
  - unfold mbind_, act in E. destruct (cache_get deps req w1) as [w2 [cached|]] eqn:Eg.
    + left. eexists _, _, _. split; [done |]. split; [done |]. eexists. split_and!; cycle -1; [exact E | done..].
    + right. exists w2, [Refreshed; CacheGet]. split_and!; [done.. |].
      rewrite E. by destruct (serve_chat _ _ _ _ _ _ _) as [[w' t] r].
  - right. exists w1, [Refreshed]. split_and!; [done.. |].
    rewrite E. by destruct (serve_chat _ _ _ _ _ _ _) as [[w' t] r].
  - right. exists w1, [Refreshed]. split_and!; [done.. |].
    rewrite E. by destruct (serve_chat _ _ _ _ _ _ _) as [[w' t] r].
Qed.

(** How the handlers without a cache run. *)
Lemma plain_run {A B} requested ctx (f : ModelResolution → Provider → W → W * result thrown A)
    (k : ModelResolution → Provider * A * Z → M W B) w :
  let run := (then? call Refreshed (refreshIfStale deps) in
              let? res := resolveAndAuthorize deps requested ctx in
              then? enforceBudget deps ctx in
              let? x := runFailover deps (candidates res) (f res) in k res x) w in
  (∃ w' t e, run = (w', t, Throw e) ∧ calls t = [] ∧ silent t) ∨
  ∃ w1 w2 w3 vs r, refreshIfStale deps w = (w1, Ok tt) ∧ over_budget ctx w1 = (w2, false) ∧
    let res := resolveCandidates (registry_snapshot deps w1) requested in
    permitted ctx requested (canonicalModel res) = true ∧
    failover_spec (f res) (map c_provider (candidates res)) 0 vs r ∧
    match r with
    | Ret x => ∀ w4 t4 r4, k res x w3 = (w4, t4, r4) →
        run = (w4, (Refreshed :: BudgetChecked (apiKeyId ctx) :: visits_trace vs ++ t4)%list, r4)
    | Throw e => run = (w3, Refreshed :: BudgetChecked (apiKeyId ctx) :: visits_trace vs, Throw e)
    | Diverge => False
    end.
Proof using All.
  cbv zeta. match goal with |- (∃ _ _ _, ?run = _ ∧ _) ∨ _ => remember run as x eqn:E end.
  destruct (refreshIfStale deps w) as [w1 [[]|e]] eqn:Er.
  2: { left. erewrite bind_throw in E by (by apply call_err). by eexists _, _, _. }
  erewrite bind_ret in E by (by apply call_ok). pose proof (resolve_run deps requested ctx w1) as Hres. cbv zeta in Hres.
  case_bool_decide as Hc; [left; erewrite bind_throw in E by exact Hres; by eexists _, _, _ |].
  destruct (permitted _ _ _) eqn:Hp; [| left; erewrite bind_throw in E by exact Hres; by eexists _, _, _].
  erewrite bind_ret in E by exact Hres. set (res := resolveCandidates _ _) in *.
  pose proof (gated_failover ctx (candidates res) (f res) (k res) w1) as Hg. cbv zeta in Hg.
  destruct (over_budget ctx w1) as [w2 [|]] eqn:Eo.
  { left. rewrite Hg in E. by eexists _, _, _. }
  destruct Hg as (w3 & vs & r & Hr & Hk). right. exists w1, w2, w3, vs, r. do 4 (split; [done |]).
  destruct r as [y | e |]; [| by rewrite Hk in E | done].
  intros w4 t4 r4 H4. specialize (Hk w4 t4 r4 H4). by rewrite Hk in E.
Qed.

(** The continuation of a served embedding request. *)
Lemma embeddings_run req ctx w :
  let run := embeddings deps req ctx w in
  (∃ w' t e, run = (w', t, Throw e) ∧ calls t = [] ∧ silent t) ∨
  ∃ w1 w2 w3 vs r, refreshIfStale deps w = (w1, Ok tt) ∧ over_budget ctx w1 = (w2, false) ∧
    let res := resolveCandidates (registry_snapshot deps w1) (e_model req) in
    let m := canonicalModel res in
    permitted ctx (e_model req) m = true ∧
    failover_spec (λ p, timed deps (provider_embed deps p (with_embedding_model req m)))
      (map c_provider (candidates res)) 0 vs r ∧
    match r with
    | Ret (p, (resp, latencyMs), n) =>
        let pt := er_prompt_tokens resp in
        let cost := estimateCost (getModel p m) pt 0%Q in
        match refused deps pt 0%Q cost with
        | Some e => run = (w3, (Refreshed :: BudgetChecked (apiKeyId ctx) :: visits_trace vs ++
                 refused_trace deps p m latencyMs pt 0%Q success)%list, Throw e)
        | None => run = (w3, (Refreshed :: BudgetChecked (apiKeyId ctx) :: visits_trace vs ++
                 accounting ctx p m pt 0%Q (er_total_tokens resp) cost latencyMs n)%list,
               Ret (resp, {| meta_provider := Some (p_name p); meta_providerId := Some (p_id p); meta_model := m;
                             meta_cacheStatus := SKIP; meta_latencyMs := inject_Z latencyMs;
                             meta_failoverCount := n |}))
        end
    | Throw e => run = (w3, Refreshed :: BudgetChecked (apiKeyId ctx) :: visits_trace vs, Throw e)
    | Diverge => False
    end.
Proof using All.
  cbv zeta. unfold embeddings.
  match goal with |- context [mbind_ (call _ _) (λ _, mbind_ _ (λ res, mbind_ _ (λ _, mbind_ (runFailover _ _ (@?f res)) (@?k res))))] =>
    destruct (plain_run (e_model req) ctx f k w) as [H | (w1 & w2 & w3 & vs & r & H1 & H2 & H3 & H4 & H5)] end;
    [by left | right].
  destruct r as [[[p [resp latencyMs]] n] | e |]; [| by exists w1, w2, w3, vs, (Throw e) | done].
  destruct (refused deps (er_prompt_tokens resp) 0%Q (estimateCost (getModel p (canonicalModel (resolveCandidates (registry_snapshot deps w1) (e_model req))))
    (er_prompt_tokens resp) 0%Q)) as [e|] eqn:Eref;
    eexists w1, w2, _, vs, (Ret (p, (resp, latencyMs), n)); (do 4 (split; [done |])); rewrite Eref; apply H5; clear H5.
  - by erewrite bind_throw by (by apply metrics_refused).
  - erewrite bind_ret by (by apply metrics_told). unfold accounting. reflexivity.
Qed.

(** The continuation of an opened stream. *)
Lemma prepareStream_run req ctx w :
  let run := prepareStream deps req ctx w in
  (∃ w' t e, run = (w', t, Throw e) ∧ calls t = [] ∧ silent t) ∨
  ∃ w1 w2 w3 vs r, refreshIfStale deps w = (w1, Ok tt) ∧ over_budget ctx w1 = (w2, false) ∧
    let res := resolveCandidates (registry_snapshot deps w1) (model req) in
    let m := canonicalModel res in
    permitted ctx (model req) m = true ∧
    failover_spec (open_stream deps (with_stream_usage req m)) (map c_provider (candidates res)) 0 vs r ∧
    match r with
    | Ret (p, (first, rest, start), n) => ∃ seconds meta,
        run = (w3, (Refreshed :: BudgetChecked (apiKeyId ctx) :: visits_trace vs ++
                 [Metric (ttfb (p_name p) m seconds); Metric (cacheEvent SKIP)])%list,
               Ret (meta, run_stream deps req ctx p m first rest start n)) ∧
        meta_providerId meta = Some (p_id p) ∧ meta_failoverCount meta = n
    | Throw e => run = (w3, Refreshed :: BudgetChecked (apiKeyId ctx) :: visits_trace vs, Throw e)
    | Diverge => False
    end.
Proof using All.
  cbv zeta. unfold prepareStream.
  match goal with |- context [mbind_ (call _ _) (λ _, mbind_ _ (λ res, mbind_ _ (λ _, mbind_ (runFailover _ _ (@?f res)) (@?k res))))] =>
    destruct (plain_run (model req) ctx f k w) as [H | (w1 & w2 & w3 & vs & r & H1 & H2 & H3 & H4 & H5)] end;
    [by left | right].
  destruct r as [[[p [[first rest] start]] n] | e |]; [| by exists w1, w2, w3, vs, (Throw e) | done].
  eexists w1, w2, _, vs, (Ret (p, (first, rest, start), n)). do 4 (split; [done |]).
  eexists _, _. split; [apply H5; reflexivity | done].
Qed.

Lemma calls_Refreshed t : calls (Refreshed :: t) = calls t.
Proof using. done. Qed.
Lemma calls_Budget k t : calls (BudgetChecked k :: t) = calls t.
Proof using. done. Qed.

Lemma calls_accounting ctx p m pt ct tt cost l n : calls (accounting ctx p m pt ct tt cost l n) = [].
Proof using. unfold accounting. by rewrite calls_app, calls_metrics. Qed.

Lemma chat_gated req ctx options w : gated ctx (model req) w (chatCompletion deps req ctx options w).1.2.
Proof using All.
  destruct (chat_run req ctx options w) as [(w' & e & ->) | (w1 & Hr & Hc & Hp & [(w2 & w' & cached & _ & _ & l & _ & _ & _ & ->) | (w2 & pre & Hpre & _ & _ & ->)])];
    [by apply gated_no_calls.. |].
  pose proof (serve_chat_run req ctx options (resolveCandidates (registry_snapshot deps w1) (model req)) (cache_isEligible deps req) w2) as Hs.
  cbv zeta in Hs. destruct (over_budget ctx w2) as [w3 [|]] eqn:Eo.
  { rewrite Hs. apply gated_no_calls. cbn. by rewrite calls_app, Hpre. }
  destruct Hs as (w4 & vs & r & Hsp & Hrun). destruct r as [[[p [resp latencyMs]] n] | e |]; [destruct (refused _ _ _ _) | | done]; rewrite Hrun; cbn [fst snd].
  - eapply gated_intro; [exact Hr | exact Hp | exact Eo | exact Hsp | exact Hpre | apply calls_refused].
  - eapply gated_intro; [exact Hr | exact Hp | exact Eo | exact Hsp | exact Hpre |].
    rewrite !calls_app, calls_accounting. by destruct (_ && _).
  - rewrite <- (app_nil_r (visits_trace vs)). by eapply gated_intro.
Qed.

Lemma embeddings_gated req ctx w : gated ctx (e_model req) w (embeddings deps req ctx w).1.2.
Proof using All.
  destruct (embeddings_run req ctx w) as [(w' & t & e & -> & Ht & _) | (w1 & w2 & w3 & vs & r & Hr & Ho & Hp & Hsp & Hrun)];
    [by apply gated_no_calls |].
  destruct r as [[[p [resp latencyMs]] n] | e |]; [cbv zeta in Hrun; destruct (refused _ _ _ _) | | done]; rewrite Hrun; cbn [fst snd].
  - change (Refreshed :: ?x) with ([Refreshed] ++ x)%list. eapply gated_intro; [done.. |]. apply calls_refused.
  - change (Refreshed :: ?x) with ([Refreshed] ++ x)%list. eapply gated_intro; [done.. |]. apply calls_accounting.
  - change (Refreshed :: ?x) with ([Refreshed] ++ x)%list. rewrite <- (app_nil_r (visits_trace vs)). by eapply gated_intro.
Qed.

Lemma prepareStream_gated req ctx w : gated ctx (model req) w (prepareStream deps req ctx w).1.2.
Proof using All.
  destruct (prepareStream_run req ctx w) as [(w' & t & e & -> & Ht & _) | (w1 & w2 & w3 & vs & r & Hr & Ho & Hp & Hsp & Hrun)];
    [by apply gated_no_calls |].
  destruct r as [[[p [[first rest] start]] n] | e |]; [| | done].
  - destruct Hrun as (sec & meta & -> & _). cbn [fst snd].
    change (Refreshed :: ?x) with ([Refreshed] ++ x)%list. by eapply gated_intro.
  - rewrite Hrun. cbn [fst snd].
    change (Refreshed :: ?x) with ([Refreshed] ++ x)%list. rewrite <- (app_nil_r (visits_trace vs)). by eapply gated_intro.
Qed.
End Handlers.

(** ** Streams *)

(** What the loop reads of a chunk that can be read: its usage report, its
    estimate, and whether it is passed on. *)
Definition usage_of (c : chunk) : option json := match prop "usage" c with Some JNull | None => None | Some u => Some u end.
Definition has_usage (c : chunk) : bool := match usage_of c with Some _ => true | None => false end.
Definition delta_tokens (c : chunk) : Z := match countDeltaTokens c with Ok n => n | Err _ => 0 end.
Definition shown (wants : bool) (c : chunk) : bool :=
  match c with JNull => false | _ => match forwards wants c with Ok b => b | Err _ => false end end.

(** The error of reading a chunk, once a usage report has arrived ([u]) or
    before. *)
Definition unreadable (wants u : bool) (c : chunk) : option thrown :=
  match (read_chunk wants c (Counts 0%Q 0%Q u)).2 with Err e => Some e | Ok _ => None end.

(** The stream from its first chunk on. *)
Definition stream_of {W} (first : option chunk) (rest : upstream W) : upstream W :=
  match first with Some c => UChunk (λ w, w) c rest | None => rest end.

(** All chunks a reader to the end has read for it, up to the first that cannot
    be read, and the error the stream ends with. *)
Fixpoint chunks_of {W} (wants u : bool) (it : upstream W) : list chunk :=
  match it with
  | UChunk _ c rest =>
      c :: match unreadable wants u c with Some _ => [] | None => chunks_of wants (u || has_usage c) rest end
  | _ => []
  end.
Fixpoint upstream_end {W} (wants u : bool) (it : upstream W) : option thrown :=
  match it with
  | UChunk _ c rest =>
      match unreadable wants u c with Some e => Some e | None => upstream_end wants (u || has_usage c) rest end
  | UThrow _ e => Some e
  | UDone _ => None
  end.

(** The tokens to bill for the chunks pulled: the last usage report when there
    is one, else the estimates. *)
Definition billed (estimate : js_value) (pulled : list chunk) : js_value * js_value :=
  match last (List.filter has_usage pulled) ≫= usage_of with
  | Some u => (value_of (prop "prompt_tokens" u), value_of (prop "completion_tokens" u))
  | None => (estimate, inject_Z (sum_by delta_tokens pulled) : js_value)
  end.

Definition count_chunk (a : counts) (c : chunk) : counts := (read_chunk true c a).1.

Lemma count_chunk_eq a c : count_chunk a c =
  match c with
  | JNull => a
  | _ => match usage_of c with
         | Some u => Counts (value_of (prop "prompt_tokens" u)) (value_of (prop "completion_tokens" u)) true
         | None => if usageFromStream a then a
                   else Counts (promptTokens a) (js_plus (completionTokens a) (inject_Z (delta_tokens c))) (usageFromStream a)
         end
  end.
Proof.
  unfold count_chunk, read_chunk, applyUsage, chunk_usage, usage_of, delta_tokens, countDeltaTokens, member.
  destruct c, (usageFromStream a) eqn:Ea; cbn; try done; by repeat case_match.
Qed.

Lemma count_chunk_usage a c : usageFromStream (count_chunk a c) = usageFromStream a || has_usage c.
Proof.
  rewrite count_chunk_eq. unfold has_usage. destruct c, (usageFromStream a) eqn:Ea; cbn; try done; destruct (usage_of _); cbn; by rewrite ?Ea.
Qed.

(** Reading a chunk throws or not, whatever the counts; when it does not, the
    chunk is passed on as [shown] says. *)
Lemma read_chunk_eq wants c a : read_chunk wants c a =
  (count_chunk a c, match unreadable wants (usageFromStream a) c with Some e => Err e | None => Ok (shown wants c) end) ∧
  (is_Some (unreadable wants (usageFromStream a) c) → shown wants c = false).
Proof.
  unfold count_chunk, unreadable, shown, read_chunk, applyUsage, chunk_usage, countDeltaTokens, member. cbn [usageFromStream promptTokens completionTokens].
  destruct c, (usageFromStream a) eqn:Ea; cbn; try (split; [done | by intros []]);
    (match goal with |- context [forwards wants ?x] => destruct (forwards wants x) end); by split; [| intros []].
Qed.

Lemma last_filter_snoc (pulled : list chunk) c :
  last (List.filter has_usage (pulled ++ [c])) =
  if has_usage c then Some c else last (List.filter has_usage pulled).
Proof. rewrite List.filter_app. simpl. destruct (has_usage c); [by rewrite last_snoc | by rewrite app_nil_r]. Qed.

(** [inject_Z_plus] up to equality of representations. *)
Lemma inject_Z_add a b : inject_Z (a + b) = (inject_Z a + inject_Z b)%Q.
Proof. unfold inject_Z, Qplus. simpl. f_equal. lia. Qed.

(** Counting chunk by chunk gives the billed tokens. *)
Lemma count_chunks estimate pulled : ∃ b,
  foldl count_chunk (Counts estimate 0%Q false) pulled = Counts (billed estimate pulled).1 (billed estimate pulled).2 b ∧
  (b = false ↔ List.filter has_usage pulled = []).
Proof.
  induction pulled as [|c pulled IH] using rev_ind; [by exists false |].
  destruct IH as (b & E & Hb). rewrite foldl_snoc, E.
  assert (Hn : c = JNull → delta_tokens c = 0 ∧ usage_of c = None) by (by intros ->).
  assert (count_chunk (Counts (billed estimate pulled).1 (billed estimate pulled).2 b) c =
    match usage_of c with
    | Some u => Counts (value_of (prop "prompt_tokens" u)) (value_of (prop "completion_tokens" u)) true
    | None => if b then Counts (billed estimate pulled).1 (billed estimate pulled).2 b
              else Counts (billed estimate pulled).1 (js_plus (billed estimate pulled).2 (inject_Z (delta_tokens c))) b
    end) as ->.
  { rewrite count_chunk_eq. cbn [usageFromStream promptTokens completionTokens]. destruct c; try done. cbn. destruct b; [done |].
    unfold billed. rewrite (proj1 Hb eq_refl). cbn. unfold js_plus. cbn. do 3 f_equal. unfold Qplus. cbn.
    by rewrite Z.mul_1_r, Z.add_0_r. }
  clear Hn. unfold billed.
  assert (Hh : has_usage c = match usage_of c with Some _ => true | None => false end) by done.
  rewrite last_filter_snoc, List.filter_app. cbn [List.filter]. rewrite Hh.
  destruct (usage_of c) as [u|] eqn:Eu; cbn [mbind option_bind].
  - rewrite ?Eu. exists true. split; [done |]. split; [done |]. by intros [_ ?]%app_eq_nil.
  - cbn [promptTokens completionTokens usageFromStream]. exists b. rewrite app_nil_r. split; [| done].
    destruct b.
    + destruct (last (List.filter has_usage pulled)) as [c'|] eqn:El.
      * simpl. assert (Hu : has_usage c' = true).
        { apply last_Some_elem_of, list_elem_of_In, filter_In in El as [_ H]. done. }
        unfold has_usage in Hu. by destruct (usage_of c').
      * apply last_None in El. by apply Hb in El.
    + rewrite (proj1 Hb eq_refl). simpl. unfold js_plus. cbn. by rewrite sum_by_app, sum_by_cons, Z.add_0_r, inject_Z_add.
Qed.

Section Streams.
Context {W : Type} (deps : RouterDeps W).

(** What one run of the generator body pulls, yields and counts. *)
Definition body_spec (wants : bool) (all : list chunk) (e_end : option thrown) (a : counts) (demand : option nat)
    (r : W * list chunk * counts * stopped) : Prop :=
  let '(_, out, a', st) := r in
  ∃ pulled, pulled `prefix_of` all ∧ out = List.filter (shown wants) pulled ∧ a' = foldl count_chunk a pulled ∧
    (∀ k, demand = Some k → (length out <= k)%nat) ∧
    match st with
    | Exhausted => pulled = all ∧ e_end = None
    | Errored e => pulled = all ∧ e_end = Some e
    | Returned => demand = Some (length out)
    end.

Lemma body_spec_cons wants c all e_end a demand w out a' st :
  demand ≠ Some O →
  body_spec wants all e_end (count_chunk a c) (if shown wants c then pulled_one demand else demand) (w, out, a', st) →
  body_spec wants (c :: all) e_end a demand (w, if shown wants c then c :: out else out, a', st).
Proof using.
  intros Hd (pulled & Hp & -> & -> & Hk & Hst). exists (c :: pulled). cbn [List.filter foldl].
  split; [by apply prefix_cons |]. split; [by destruct (shown wants c) |]. split; [done |]. split.
  - intros k ->. destruct (shown wants c); [| by apply Hk]. simpl. specialize (Hk (Nat.pred k) eq_refl).
    destruct k; [done | simpl in *; lia].
  - destruct st as [| e |]; [by destruct Hst as [-> ->] | by destruct Hst as [-> ->] |].
    destruct (shown wants c); [| done]. destruct demand as [k|]; [| done]. injection Hst as Hst. simpl. f_equal.
    destruct k; [done | simpl in *; lia].
Qed.

(** A pull that satisfies the consumer. *)
Lemma body_spec_return wants c all e_end a demand (w : W) :
  shown wants c = true → pulled_one demand = Some O → demand ≠ Some O →
  body_spec wants (c :: all) e_end a demand (w, [c], count_chunk a c, Returned).
Proof using.
  intros Hf Hp Hd. exists [c]. cbn [List.filter foldl]. rewrite Hf. split; [by eexists |]. split_and!; [done | done | |].
  - intros k ->. destruct k; [done | simpl; lia].
  - destruct demand as [[|k]|]; [done | | done]. simpl in *. congruence.
Qed.

(** A chunk that cannot be read is the last. *)
Lemma body_spec_unreadable wants c e a demand (w : W) : shown wants c = false → demand ≠ Some O →
  body_spec wants [c] (Some e) a demand (w, [], count_chunk a c, Errored e).
Proof using.
  intros Hs Hd. exists [c]. cbn [List.filter foldl]. rewrite Hs. split_and!; try done. simpl. lia.
Qed.

Lemma pump_spec wants (it : upstream W) : ∀ a demand w, demand ≠ Some O →
  body_spec wants (chunks_of wants (usageFromStream a) it) (upstream_end wants (usageFromStream a) it) a demand (pump wants it a demand w).
Proof using.
  induction it as [step | step e | step c rest IH]; intros a demand w Hd; cbn [pump chunks_of upstream_end].
  - exists []. split_and!; try done. simpl. lia.
  - exists []. split_and!; try done. simpl. lia.
  - destruct (read_chunk_eq wants c a) as [-> Hsh]. rewrite <- count_chunk_usage.
    destruct (unreadable wants _ c) as [e|]; [by apply body_spec_unreadable; [apply Hsh |] |].
    pose proof (body_spec_cons wants c (chunks_of wants (usageFromStream (count_chunk a c)) rest)
      (upstream_end wants (usageFromStream (count_chunk a c)) rest) a demand) as Hc.
    destruct (shown wants c) eqn:Ef.
    + destruct (pulled_one demand) as [[|k]|] eqn:Ep; [by apply body_spec_return | |];
        (destruct (pump wants rest (count_chunk a c) _ (step w)) as [[[w' out] a'] st] eqn:E;
         apply Hc; [done |]; rewrite <- E; by apply IH).
    + destruct (pump wants rest (count_chunk a c) demand (step w)) as [[[w' out] a'] st] eqn:E.
      apply Hc; [done |]. rewrite <- E. by apply IH.
Qed.
End Streams.

Section Accounts.
Context {W : Type} (deps : RouterDeps W) `{!LawfulBalancer deps}.

Lemma stream_body_spec wants first (rest : upstream W) (estimate : js_value) demand w : demand ≠ Some O →
  body_spec wants (chunks_of wants false (stream_of first rest)) (upstream_end wants false (stream_of first rest))
    (Counts estimate 0%Q false) demand (stream_body wants first rest (Counts estimate 0%Q false) demand w).
Proof using.
  intros Hd. destruct first as [c|]; [| exact (pump_spec wants rest (Counts estimate 0%Q false) demand w Hd)].
  exact (pump_spec wants (UChunk (λ w, w) c rest) (Counts estimate 0%Q false) demand w Hd).
Qed.

(** The accounting of a stream: the trace, and the error that cuts it short. *)
Definition account_trace ctx p m latencyMs n (a : counts) (errored : bool) : list event :=
  let cost := estimateCost (getModel p m) (promptTokens a) (completionTokens a) in
  let o := if errored then error else success in
  match refused deps (promptTokens a) (completionTokens a) cost with
  | Some _ => refused_trace deps p m latencyMs (promptTokens a) (completionTokens a) o
  | None =>
      (metrics_trace p m latencyMs (promptTokens a) (completionTokens a) cost o ++
       [Spent (apiKeyId ctx) cost;
        Logged (served_entry ctx p m (promptTokens a) (completionTokens a) (js_plus (promptTokens a) (completionTokens a)) cost
          latencyMs (if errored then 502 else 200) n (if errored then Some "stream interrupted"%string else None))])%list
  end.
Definition account_error p m (a : counts) : option thrown :=
  refused deps (promptTokens a) (completionTokens a) (estimateCost (getModel p m) (promptTokens a) (completionTokens a)).

Lemma account_run ctx p m start n a errored w : ∃ w', stream_account deps ctx p m start n a errored w =
  (w', account_trace ctx p m (date_now deps w - start) n a errored,
   match account_error p m a with Some e => Throw e | None => Ret tt end).
Proof using.
  unfold stream_account, account_trace, account_error. erewrite bind_ret by reflexivity. cbv zeta.
  destruct (refused deps _ _ _) as [e|] eqn:E.
  - erewrite bind_throw by (by apply metrics_refused). by eexists.
  - erewrite bind_ret by (by apply metrics_told). eexists. reflexivity.
Qed.

(** What a run of the generator leaves and gives: the accounting of the counts
    after its body. *)
Lemma run_stream_eq req ctx p m first (rest : upstream W) start n demand w : demand ≠ Some O →
  let '(w1, out, a, st) := stream_body (clientWantsUsage req) first rest
    (Counts (inject_Z (provider_countTokens deps p (messages req) m)) 0%Q false) demand w in
  ∃ w', run_stream deps req ctx p m first rest start n demand w =
    (w', account_trace ctx p m (date_now deps w1 - start) n a (is_errored st),
     Ret (out, match account_error p m a with Some e => Some e | None => match st with Errored e => Some e | _ => None end end)).
Proof using.
  intros Hd. destruct (stream_body _ _ _ _ _ w) as [[[w1 out] a] st] eqn:Eb.
  destruct (account_run ctx p m start n a (is_errored st) w1) as [w' Ha]. exists w'.
  unfold run_stream. destruct demand as [[|k]|]; [done | |]; rewrite Eb; unfold try_catch, mbind_; rewrite Ha;
    (destruct (account_error p m a); unfold ret; by rewrite app_nil_r).
Qed.

Lemma calls_account ctx p m l n a errored : calls (account_trace ctx p m l n a errored) = [].
Proof using.
  unfold account_trace. destruct (refused _ _ _ _); [apply calls_refused |]. by rewrite calls_app, calls_metrics.
Qed.

(** A generator always answers its consumer, and calls no provider of its own. *)
Lemma run_stream_answered req ctx p m first (rest : upstream W) start n demand w :
  ∃ w' t x, run_stream deps req ctx p m first rest start n demand w = (w', t, Ret x) ∧ calls t = [].
Proof using.
  destruct (decide (demand = Some O)) as [-> | Hd]; [by eexists _, _, _ |].
  pose proof (run_stream_eq req ctx p m first rest start n demand w Hd) as H.
  destruct (stream_body _ _ _ _ _ w) as [[[w1 out] a] st]. destruct H as [w' ->]. eexists _, _, _. split; [done | apply calls_account].
Qed.

(** How many providers were called before the one that served. *)
Lemma calls_passed_on vs : Forall passed_on vs → Z.of_nat (length (calls (visits_trace vs))) = failures_in vs.
Proof using.
  induction 1 as [|v vs Hv _ IH]; [done |]. unfold visits_trace, failures_in in *. cbn [map concat List.filter].
  rewrite calls_app, length_app. destruct v; try done; simpl length in *; lia.
Qed.

Lemma visits_trace_app vs1 vs2 : visits_trace (vs1 ++ vs2) = (visits_trace vs1 ++ visits_trace vs2)%list.
Proof using. unfold visits_trace. by rewrite map_app, concat_app. Qed.

Lemma calls_served vs p : Forall passed_on vs →
  last (calls (visits_trace (vs ++ [Served p]))) = Some (p_id p) ∧
  Z.of_nat (length (calls (visits_trace (vs ++ [Served p])))) = failures_in vs + 1.
Proof using.
  intros Hf. rewrite visits_trace_app, calls_app. change (calls (visits_trace [Served p])) with [p_id p].
  rewrite last_snoc, length_app. split; [done |]. rewrite <- calls_passed_on by done. simpl. lia.
Qed.

(** A count as it should be: a number from 0 up; and counters that take them. *)
Definition sound_count (v : js_value) : Prop := ∃ q, v = Num (Finite q) ∧ (0 <= q)%Q.
Definition takes_counts : Prop := ∀ q : Q, (0 <= q)%Q → counter_inc deps q = None.

Lemma refused_counts info pt ct : takes_counts → sound_count pt → sound_count ct → refused deps pt ct (estimateCost info pt ct) = None.
Proof using.
  intros Ht (x & -> & Hx) (y & -> & Hy). unfold refused. rewrite !Ht by done. unfold estimateCost. cbn [ToNumber js_scale js_add js_positive].
  destruct (Qle_bool _ 0) eqn:E; [done |]. cbn [negb]. apply Ht. apply not_true_iff_false in E.
  rewrite Qle_bool_iff in E. by apply Qlt_le_weak, Qnot_le_lt.
Qed.

(** What a served request leaves in the trace. *)
Definition charged (ctx : GatewayContext) (p : Provider) (m : string) (pt ct total : js_value) (failoverCount : Z)
    (t : list event) : Prop :=
  let cost := estimateCost (getModel p m) pt ct in
  last (calls t) = Some (p_id p) ∧ Z.of_nat (length (calls t)) = failoverCount + 1 ∧
  spends t = [(apiKeyId ctx, cost)] ∧
  ∃ latencyMs, logs t = [served_entry ctx p m pt ct total cost latencyMs 200 failoverCount None].

Lemma charged_intro ctx p m pt ct total latencyMs vs0 pre post :
  Forall passed_on vs0 → silent pre → calls pre = [] → spends post = [] → logs post = [] → calls post = [] →
  charged ctx p m pt ct total (failures_in vs0)
    (pre ++ BudgetChecked (apiKeyId ctx) :: visits_trace (vs0 ++ [Served p]) ++
     accounting ctx p m pt ct total (estimateCost (getModel p m) pt ct) latencyMs (failures_in vs0) ++ post).
Proof using.
  intros Hf (Hs & Hl & _) Hc Hps Hpl Hpc. destruct (calls_served vs0 p Hf) as [Hlast Hlen].
  destruct (silent_visits (vs0 ++ [Served p])) as (Vs & Vl & _).
  set (a := accounting _ _ _ _ _ _ _ _ _).
  assert (Ha : spends a = [(apiKeyId ctx, estimateCost (getModel p m) pt ct)] ∧
    logs a = [served_entry ctx p m pt ct total (estimateCost (getModel p m) pt ct) latencyMs 200 (failures_in vs0) None] ∧
    calls a = []).
  { unfold a, accounting. pose proof (silent_metrics p m latencyMs pt ct (estimateCost (getModel p m) pt ct) success) as (Ms & Ml & _).
    by rewrite spends_app, logs_app, calls_app, calls_metrics, Ms, Ml. }
  destruct Ha as (As & Al & Ac). change (BudgetChecked (apiKeyId ctx) :: ?x) with ([BudgetChecked (apiKeyId ctx)] ++ x)%list.
  unfold charged. rewrite !spends_app, !logs_app, !calls_app, Hs, Hl, Hc, Vs, Vl, As, Al, Ac, Hps, Hpl, Hpc, !app_nil_r.
  cbn [app]. split_and!; [exact Hlast | exact Hlen | done | by eexists].
Qed.

Lemma stores_accounting ctx p m pt ct total cost l n : stores (accounting ctx p m pt ct total cost l n) = O.
Proof using.
  unfold accounting. rewrite stores_app. pose proof (silent_metrics p m l pt ct cost success) as (_ & _ & ->). done.
Qed.
End Accounts.

(** ** Theorems *)

(** C1: Failover is exact. With a balancer that selects one of the candidates
    it is given, the loop always ends; it turns each provider over at most once,
    and only candidates; every turn asks the breaker, gives a called provider
    exactly one verdict, and releases the slot it took; it stops at the first
    provider that serves (the failover count is the number of calls that
    failed before), or that rejects the request with an error that is not
    retryable, which it rethrows; and otherwise it has been through every
    candidate and answers 503 with the number of attempts. *)
Theorem failover_exact {W A} (deps : RouterDeps W) (cs : list ModelCandidate)
    (f : Provider → W → W * result thrown A) w :
  LawfulBalancer deps →
  ∃ w' vs r, runFailover deps cs f w = (w', concat (map visit_trace vs), r) ∧
    NoDup (map (λ v, p_id (visited v)) vs) ∧ (∀ v, v ∈ vs → visited v ∈ map c_provider cs) ∧
    match r with
    | Ret (p, value, failoverCount) => ∃ vs0, vs = (vs0 ++ [Served p])%list ∧ Forall passed_on vs0 ∧
        failoverCount = failures_in vs0 ∧ ∃ w1 w2, f p w1 = (w2, Ok value)
    | Throw e =>
        (∃ vs0 p w1 w2 e', vs = (vs0 ++ [Rejected p])%list ∧ Forall passed_on vs0 ∧ f p w1 = (w2, Err e') ∧
           e = TGateway (from e') ∧ retryable (from e') = false) ∨
        (Forall passed_on vs ∧ e = TGateway (AllProvidersFailedError (failures_in vs) no_options) ∧
         ∀ p, p ∈ map c_provider cs → p_id p ∈ map (λ v, p_id (visited v)) vs)
    | Diverge => False
    end.
Proof.
  intros Hl. destruct (runFailover_visits deps cs f w) as (w' & vs & r & E & Hnd & Hin & Hr).
  by exists w', vs, r.
Qed.

(** C5: No provider is called for a request that is not entitled to it. In all
    three handlers, a provider is called only after the registry was refreshed,
    the provider serves the model the request resolves to, the key's allow-list
    admits that model, and the budget gate, consulted before the first call,
    found the key within its budget. *)
Theorem every_call_gated {W} (deps : RouterDeps W) ctx options w (chat : ChatCompletionRequest) (embed : EmbeddingRequest) :
  LawfulBalancer deps →
  gated deps ctx (model chat) w (chatCompletion deps chat ctx options w).1.2 ∧
  gated deps ctx (model chat) w (prepareStream deps chat ctx w).1.2 ∧
  gated deps ctx (e_model embed) w (embeddings deps embed ctx w).1.2.
Proof. intros Hl. split; [by apply chat_gated |]. split; [by apply prepareStream_gated | by apply embeddings_gated]. Qed.

(** C4: A chat completion is charged exactly once. A reply served by a provider
    is that provider's own, the last one called; the key is charged once, the
    price of the reply's usage, and one entry with the same cost and counts is
    logged; it is stored in the cache exactly when the request is eligible and
    did not ask to bypass it. A reply from the cache calls and charges nothing
    and is logged at no cost; a request that fails charges, logs and stores
    nothing. *)
Theorem chat_charged_once {W} (deps : RouterDeps W) req ctx options w :
  LawfulBalancer deps →
  let '(w', t, r) := chatCompletion deps req ctx options w in
  let cacheable := cache_isEligible deps req && negb (bypassCache options) in
  match r with
  | Ret (resp, meta) =>
      (meta_cacheStatus meta = HIT ∧ meta_provider meta = None ∧ cacheable = true ∧
       (∃ w1 w2, cache_get deps req w1 = (w2, Some resp)) ∧ calls t = [] ∧ spends t = [] ∧ stores t = O ∧
       ∃ l, logs t = [l] ∧ log_costUsd l = Some (Finite 0) ∧ log_cacheHit l = true) ∨
      (meta_cacheStatus meta = (if cacheable then MISS else SKIP) ∧
       ∃ p w1 w2, provider_chat deps p (with_model req (meta_model meta)) w1 = (w2, Ok resp) ∧
         meta_providerId meta = Some (p_id p) ∧
         charged ctx p (meta_model meta) (prompt_tokens (r_usage resp)) (completion_tokens (r_usage resp))
           (total_tokens (r_usage resp)) (meta_failoverCount meta) t ∧
         stores t = if cacheable then 1%nat else O)
  | Throw _ => spends t = [] ∧ logs t = [] ∧ stores t = O
  | Diverge => False
  end.
Proof.
  intros Hl. destruct (chat_run deps req ctx options w) as [(w' & e & ->) | (w1 & Hr & Hc & Hp &
    [(w2 & w' & cached & Hel & Hg & l & Hcost & Hhit & Htot & ->) | (w2 & pre & Hpre & Hsil & _ & ->)])]; [done | |].
  { left. split_and!; [done | done | done | by exists w1, w2 | done | done | done | by exists l]. }
  set (res := resolveCandidates _ _).
  pose proof (serve_chat_run deps req ctx options res (cache_isEligible deps req) w2) as Hs.
  cbv zeta in Hs. destruct (ct_isOverBudget deps _ _ w2) as [w3 [|]] eqn:Eo.
  { rewrite Hs. by apply silent_app. }
  destruct Hs as (w4 & vs & r & (_ & _ & Hspec) & Hrun). destruct r as [[[p [resp latencyMs]] n] | e |]; [destruct (refused _ _ _ _) | | done]; rewrite Hrun.
  - apply silent_app; [done |]. apply (silent_app [BudgetChecked _]); [done |]. apply silent_app; [apply silent_visits | apply silent_refused].
  - right. cbn [meta_cacheStatus meta_model meta_providerId meta_failoverCount]. split; [done |].
    destruct Hspec as (vs0 & -> & Hf & Hn & v1 & v2 & Hv). rewrite Z.add_0_l in Hn. subst n.
    unfold timed in Hv. destruct (provider_chat _ _ _ v1) as [v2' [a|]] eqn:Ev; [| done]. injection Hv as <- <- <-.
    exists p, v1, v2'. split_and!; [done | done | |].
    + apply charged_intro; try done; by destruct (_ && _).
    + change (BudgetChecked (apiKeyId ctx) :: ?x) with ([BudgetChecked (apiKeyId ctx)] ++ x)%list.
      destruct Hsil as (_ & _ & Hst). pose proof (silent_visits (vs0 ++ [Served p])) as (_ & _ & Hvs).
      rewrite !stores_app, Hst, Hvs, stores_accounting. by destruct (_ && _).
  - apply silent_app; [done |]. apply (silent_app [BudgetChecked _]); [done | apply silent_visits].
Qed.

(** C13: A stream is billed for what was pulled, however it ends. Whether the
    consumer reads to the end or stops after some chunks, and whether the
    upstream finishes, breaks off or sends a chunk that cannot be read, the
    consumer gets a prefix of the upstream's chunks without the usage-only ones it
    did not ask for. The bill is for the last usage report among the chunks
    pulled, whatever its counts hold, or for the estimates when there was none.
    When prom-client takes those amounts the key is charged once and one entry is
    logged; the entry is a 502 exactly when the stream broke off or met such a
    chunk, which the consumer sees. When it refuses one, nothing is charged or
    logged and the consumer gets its error; counts that are numbers from 0 up are
    never refused, if prom-client takes such numbers. A stream the
    consumer drops before its first read is neither charged nor logged. *)
Theorem stream_billed {W} (deps : RouterDeps W) req ctx p m first (rest : upstream W) start n demand w :
  let '(w', t, r) := run_stream deps req ctx p m first rest start n demand w in
  let wants := clientWantsUsage req in
  let all := chunks_of wants false (stream_of first rest) in
  let failure := upstream_end wants false (stream_of first rest) in
  if decide (demand = Some O) then (w', t, r) = (w, [], Ret ([], None))
  else ∃ pulled err, pulled `prefix_of` all ∧
    (err = None ∨ pulled = all ∧ err = failure) ∧
    (demand = None → pulled = all ∧ err = failure) ∧
    (∀ k, demand = Some k → (length (List.filter (shown wants) pulled) <= k)%nat) ∧
    let '(pt, ct) := billed (inject_Z (provider_countTokens deps p (messages req) m)) pulled in
    let cost := estimateCost (getModel p m) pt ct in
    calls t = [] ∧
    match refused deps pt ct cost with
    | None => r = Ret (List.filter (shown wants) pulled, err) ∧ spends t = [(apiKeyId ctx, cost)] ∧
        ∃ latencyMs, logs t = [served_entry ctx p m pt ct (js_plus pt ct) cost latencyMs
          (match err with Some _ => 502 | None => 200 end) n
          (match err with Some _ => Some "stream interrupted"%string | None => None end)]
    | Some e => r = Ret (List.filter (shown wants) pulled, Some e) ∧ spends t = [] ∧ logs t = []
    end ∧
    (takes_counts deps → sound_count pt → sound_count ct → refused deps pt ct cost = None).
Proof.
  cbv zeta. case_decide as Hd; [by subst demand |].
  set (est := inject_Z (provider_countTokens deps p (messages req) m)).
  pose proof (stream_body_spec (clientWantsUsage req) first rest est demand w Hd) as Hb.
  pose proof (run_stream_eq deps req ctx p m first rest start n demand w Hd) as Hrun. fold est in Hrun.
  destruct (stream_body _ _ _ _ _ w) as [[[w1 out] a] st]. destruct Hb as (pulled & Hpre & -> & -> & Hk & Hst).
  destruct Hrun as [w' ->]. destruct (count_chunks est pulled) as (b & -> & _). unfold account_trace, account_error.
  cbn [promptTokens completionTokens]. set (err := match st with Errored e => Some e | _ => None end).
  assert (Herr : is_errored st = match err with Some _ => true | None => false end) by (unfold err; by destruct st).
  exists pulled, err. split; [done |]. split; [| split; [| split; [done |]]].
  - unfold err. destruct st; [by left | right; by destruct Hst as [-> ->] | by left].
  - intros ->. unfold err. destruct st; [by destruct Hst as [-> ->] | by destruct Hst as [-> ->] | done].
  - destruct (billed est pulled) as [pt ct]. cbn [fst snd]. rewrite Herr.
    split; [| split; [| intros; by apply refused_counts]]; destruct (refused deps pt ct _) as [e|]; [apply calls_refused | | |].
    + by rewrite calls_app, calls_metrics.
    + split; [done |]. by destruct (silent_refused deps p m (date_now deps w1 - start) pt ct
        (if match err with Some _ => true | None => false end then error else success)) as (-> & -> & _).
    + rewrite spends_app, logs_app. split; [done |]. match goal with |- context [metrics_trace p m ?l pt ct ?c ?o] =>
        destruct (silent_metrics p m l pt ct c o) as (-> & -> & _) end. split; [done |].
      exists (date_now deps w1 - start). by destruct err.
Qed.

(** ** A concrete gateway *)

(** Two providers of one model, the first of which times out; the world counts
    the provider calls. *)
Definition sample_info : ProviderModelInfo :=
  {| modelId := "m"; displayName := None; contextWindow := None; maxOutputTokens := None;
     inputPricePer1k := Some (1 # 100); outputPricePer1k := Some (2 # 100);
     supportsStreaming := true; supportsTools := true; supportsVision := false |}.
Definition sample_server (i : string) : Provider :=
  {| p_id := i; p_name := i; adapterType := openai; baseUrl := "https://example.test"; p_apiKey := "k";
     timeoutMs := 1000; p_weight := 1; p_priority := 1; models := [("m"%string, sample_info)] |}.
Definition sample_candidates : list ModelCandidate :=
  [{| c_provider := sample_server "A"; c_model := sample_info |};
   {| c_provider := sample_server "B"; c_model := sample_info |}].
Definition sample_context : GatewayContext :=
  {| apiKeyId := "key-1"; ownerId := None; ctx_name := None; rpmLimit := 60; tpmLimit := 1000;
     monthlyBudgetUsd := None; allowedModels := Some ["m"%string]; expiresAtMs := None |}.
Definition sample_chunks : upstream Z :=
  UChunk (Z.add 5) (JObj [("choices"%string, JArr [JObj [("delta"%string, JObj [("content"%string, JStr "hello world")])]])])
    (UChunk (Z.add 5) (JObj [("choices"%string, JArr []);
                       ("usage"%string, JObj [("prompt_tokens"%string, jint 7); ("completion_tokens"%string, jint 2)])])
       (UDone (Z.add 1))).
Definition times_out {A} (p : Provider) (a : A) (t : Z) : Z * result thrown A :=
  (t + 10, if String.eqb (p_id p) "A" then Err (TGateway (UpstreamTimeoutError (Some "A"%string) no_options)) else Ok a).

(** prom-client's counters, as documented: an amount that is truthy but no finite
    number, or is below 0, is refused. *)
Definition sample_counter (v : js_value) : option thrown :=
  let not_valid := Some (TError "TypeError" ("Value is not a valid number: " ++ ToString v) []) in
  match v with
  | Num NaN | Other (None | Some JNull) | Other (Some (JBool false)) | Other (Some (JStr EmptyString)) => None
  | Num (Finite q) => if Qle_bool 0 q then None else Some (TError "Error" "It is not possible to decrease a counter" [])
  | _ => not_valid
  end.

Definition sample_deps : RouterDeps Z := {|
  refreshIfStale t := (t, Ok tt);
  registry_snapshot _ := Snapshot [] [("m"%string, sample_candidates)];
  lb_select l t := (t, match l with p :: _ => Ok p | [] => Err (TValue JNull) end);
  lb_recordSuccess _ _ t := t;
  lb_recordFailure _ t := t;
  lb_release _ t := t;
  cb_acquire _ t := (t, Err (TValue JNull));
  cb_recordSuccess _ t := (t, Ok tt);
  cb_recordFailure _ t := (t, Err (TValue JNull));
  cb_release _ t := (t, Ok tt);
  cache_isEligible := isEligible sample_cache;
  cache_get _ t := (t, None);
  cache_set _ _ t := t;
  ct_isOverBudget _ _ t := (t, false);
  ct_addSpend _ _ t := t;
  ct_enqueueRequest _ t := t;
  provider_chat p _ t := times_out p sample_response t;
  provider_chatStream p _ _ := sample_chunks;
  provider_embed p _ t := times_out p {| er_data := []; er_model := "m"; er_prompt_tokens := 5; er_total_tokens := 5 |} t;
  provider_countTokens _ _ _ := 11;
  date_now t := t;
  counter_inc := sample_counter
|}.

#[export] Instance sample_deps_lawful : LawfulBalancer sample_deps.
Proof. split. intros [|p l] w Hl; [done |]. exists w, p. split; [done | by left]. Qed.

Definition sample_request : ChatCompletionRequest := with_model (sample_chat 0 7 [] []) "m".

(** The second provider serves after the first has failed. *)
Lemma failover_exact_witness :
  ∃ w' vs r, runFailover sample_deps sample_candidates (λ p, times_out p tt) 0 = (w', concat (map visit_trace vs), r) ∧
    NoDup (map (λ v, p_id (visited v)) vs).
Proof.
  destruct (failover_exact sample_deps sample_candidates (λ p, times_out p tt) 0 _) as (w' & vs & r & E & Hnd & _).
  by exists w', vs, r.
Defined.

Lemma every_call_gated_witness :
  gated sample_deps sample_context "m" 0 (chatCompletion sample_deps sample_request sample_context {| bypassCache := false |} 0).1.2 ∧
  calls (chatCompletion sample_deps sample_request sample_context {| bypassCache := false |} 0).1.2 = ["A"; "B"]%string.
Proof.
  split; [| by vm_compute].
  apply (every_call_gated sample_deps sample_context {| bypassCache := false |} 0 sample_request
    {| e_model := "m"; e_input := InText "hi"; e_encoding_format := None; e_dimensions := None; e_user := None;
       e_extra := [] |} sample_deps_lawful).
Defined.

Lemma chat_charged_once_witness :
  ∃ p, charged sample_context p "m" 3%Q 1%Q 4%Q 1
    (chatCompletion sample_deps sample_request sample_context {| bypassCache := false |} 0).1.2.
Proof.
  pose proof (chat_charged_once sample_deps sample_request sample_context {| bypassCache := false |} 0 sample_deps_lawful) as H.
  destruct (chatCompletion _ _ _ _ _) as [[w' t] r] eqn:E.
  assert (r = Ret (sample_response, {| meta_provider := Some "B"%string; meta_providerId := Some "B"%string;
    meta_model := "m"; meta_cacheStatus := MISS; meta_latencyMs := 10; meta_failoverCount := 1 |})) as ->
    by (vm_compute in E; by injection E as <- <- <-).
  destruct H as [(Hm & _) | (_ & p & _ & _ & _ & _ & Hc & _)]; [done | by exists p].
Defined.

(** The stream of the sample, read to the end: the usage chunk is consumed, not
    forwarded, and billed. *)
Example sample_stream_bill :
  (run_stream sample_deps sample_request sample_context (sample_server "B") "m" None sample_chunks 0 0 None 0).2
  = Ret ([JObj [("choices"%string, JArr [JObj [("delta"%string, JObj [("content"%string, JStr "hello world")])]])]], None) ∧
  billed 11%Q (chunks_of false false sample_chunks) = (Num (Finite 7), Num (Finite 2)).
Proof. by vm_compute. Qed.

(** A provider that sends [null] after its first chunk, and one whose choices
    are null: the first breaks the stream off for every client, the second for
    those that did not ask for the usage; the other gets the chunk. *)
Definition broken_chunks (c : chunk) : upstream Z :=
  UChunk (Z.add 5) (JObj [("choices"%string, JArr [JObj [("delta"%string, JObj [("content"%string, JStr "hi")])]])])
    (UChunk (Z.add 5) c (UDone (Z.add 1))).
Example unreadable_chunk_breaks_off :
  map (λ x, (length (chunks_of x.1 false (broken_chunks x.2)), upstream_end x.1 false (broken_chunks x.2)))
    [(false, JNull); (true, JNull); (false, JObj [("choices"%string, JNull)]); (true, JObj [("choices"%string, JNull)])] =
  [(2%nat, Some (null_read "choices")); (2%nat, Some (null_read "choices")); (2%nat, Some (null_read "length")); (2%nat, None)].
Proof. by vm_compute. Qed.

(** Usage reports without counts, and with counts that are texts: the first makes
    the bill NaN, which the key is charged with and the log is handed; the second
    is refused by the counter, so the call is neither charged nor logged, and the
    consumer gets the counter's error after its chunk. *)
Definition reported_chunks (usage : fields) : upstream Z :=
  UChunk (Z.add 5) (JObj [("choices"%string, JArr [JObj [("delta"%string, JObj [("content"%string, JStr "hi")])]]); ("usage"%string, JObj usage)])
    (UDone (Z.add 1)).
Example malformed_usage :
  let run usage := run_stream sample_deps sample_request sample_context (sample_server "B") "m" None (reported_chunks usage) 0 0 None 0 in
  let told usage := (spends (run usage).1.2, map log_costUsd (logs (run usage).1.2),
    match (run usage).2 with Ret (chunks, failure) => (length chunks, match failure with None => true | Some _ => false end) | _ => (O, false) end) in
  told [] = ([("key-1"%string, NaN)], [Some NaN], (1%nat, true)) ∧
  told [("prompt_tokens"%string, JStr "7"); ("completion_tokens"%string, jint 2)] = ([], [], (1%nat, false)).
Proof. by vm_compute. Qed.
