(* ===== verification/Effects.v ===== *)
(** * What the router's handlers do, whatever their dependencies are

    A relation between the world before, the world after and the trace that the
    dependencies respect one by one holds of every handler as a whole.  The
    clients choose the relation: which requests leave the process ([Outbound]),
    which invariant of the store is kept ([Revocation]). *)

From Stdlib Require Import ZArith Lia QArith String.
From stdpp Require Import base gmap strings list.
From S2P Require Import Prelude Numerals Constants CircuitBreaker LoadBalancer Json Errors Types Provider Values CostTracker Registry Cache Auth Router.
Open Scope Z_scope.

(** A relation that composes along a trace. *)
Class Effect {W} (R : W → W → list event → Prop) : Prop := {
  effect_refl w : R w w [];
  effect_trans x y z t1 t2 : R x y t1 → R y z t2 → R x z (t1 ++ t2)%list
}.

(** ** Computations *)

Section Computations.
Context {W : Type} (R : W → W → list event → Prop) `{!Effect R}.

(** [m] does what [R] says, and what it returns satisfies [Q]. *)
Definition effect {A} (m : M W A) (Q : A → Prop) : Prop := ∀ w,
  R w (m w).1.1 (m w).1.2 ∧ match (m w).2 with Ret a => Q a | _ => True end.

Lemma effect_ret {A} (a : A) (Q : A → Prop) : Q a → effect (ret a) Q.
Proof using All. intros HQ w. split; [apply effect_refl | done]. Qed.
Lemma effect_throw {A} e (Q : A → Prop) : effect (throw e) Q.
Proof using All. intros w. split; [apply effect_refl | done]. Qed.
Lemma effect_diverge {A} (Q : A → Prop) : effect diverge Q.
Proof using All. intros w. split; [apply effect_refl | done]. Qed.
Lemma effect_tell e : (∀ w, R w w [e]) → effect (tell e) (λ _, True).
Proof using. intros H w. split; [apply H | done]. Qed.
Lemma effect_do e op : (∀ w, R w (op w) [e]) → effect (do_ e op) (λ _, True).
Proof using. intros H w. split; [apply H | done]. Qed.
Lemma effect_reads {A} (f : W → A) : effect (reads f) (λ _, True).
Proof using All. intros w. split; [apply effect_refl | done]. Qed.

Lemma effect_call {A} e (op : W → W * result thrown A) (Q : A → Prop) :
  (∀ w, R w (op w).1 [e] ∧ match (op w).2 with Ok a => Q a | Err _ => True end) → effect (call e op) Q.
Proof using. intros H w. destruct (H w) as [HR HQ]. unfold call. by destruct (op w) as [w1 [a|x]]. Qed.
Lemma effect_act {A} e (op : W → W * A) : (∀ w, R w (op w).1 [e]) → effect (act e op) (λ _, True).
Proof using. intros H w. specialize (H w). unfold act. by destruct (op w) as [w1 a]. Qed.

Lemma effect_bind {A B} (m : M W A) (f : A → M W B) (I : A → Prop) (Q : B → Prop) :
  effect m I → (∀ a, I a → effect (f a) Q) → effect (mbind_ m f) Q.
Proof using All.
  intros Hm Hf w. specialize (Hm w). unfold mbind_. destruct (m w) as [[w1 t1] [a|e|]]; cbn [fst snd] in *; [| done | done].
  destruct Hm as [Hm Ha]. destruct (Hf a Ha w1) as [H2 HQ]. destruct (f a w1) as [[w2 t2] r].
  split; [by eapply effect_trans | done].
Qed.
Lemma effect_then {A B} (m : M W A) (f : A → M W B) (Q : B → Prop) :
  effect m (λ _, True) → (∀ a, effect (f a) Q) → effect (mbind_ m f) Q.
Proof using All. intros Hm Hf. by eapply effect_bind. Qed.

Lemma effect_catch {A} (m : M W A) (h : thrown → M W A) (Q : A → Prop) :
  effect m Q → (∀ e, effect (h e) Q) → effect (try_catch m h) Q.
Proof using All.
  intros Hm Hh w. specialize (Hm w). unfold try_catch. destruct (m w) as [[w1 t1] [a|e|]]; cbn [fst snd] in *; [done | | done].
  destruct (Hh e w1) as [H2 HQ]. destruct (h e w1) as [[w2 t2] r]. destruct Hm as [Hm _]. split; [by eapply effect_trans | done].
Qed.

Lemma effect_finally {A} (m : M W A) (f : M W unit) (Q : A → Prop) :
  effect m Q → effect f (λ _, True) → effect (try_finally m f) Q.
Proof using All.
  intros Hm Hf w. specialize (Hm w). unfold try_finally. destruct (m w) as [[w1 t1] r]; cbn [fst snd] in *.
  destruct Hm as [Hm HQ]. destruct r; [| | done]; (destruct (Hf w1) as [H2 _];
    destruct (f w1) as [[w2 t2] [?|?|]]; (split; [by eapply effect_trans | done])).
Qed.

Lemma effect_weaken {A} (m : M W A) (Q Q' : A → Prop) : effect m Q → (∀ a, Q a → Q' a) → effect m Q'.
Proof using. intros H HQ w. destruct (H w) as [HR Hr]. split; [done |]. destruct (m w).2; eauto. Qed.

(** The steps of an upstream stream, which are not traced. *)
Fixpoint flows (it : upstream W) : Prop :=
  match it with
  | UDone step => ∀ w, R w (step w) []
  | UThrow step _ => ∀ w, R w (step w) []
  | UChunk step _ rest => (∀ w, R w (step w) []) ∧ flows rest
  end.

Lemma pump_flows wants it : ∀ a d w, flows it → R w (pump wants it a d w).1.1.1 [].
Proof using All.
  induction it as [step | step e | step c it IH]; intros a d w; cbn [flows pump]; [intros H; apply H.. |]. intros [Hs Hi].
  assert (Ht : ∀ a d, R w (pump wants it a d (step w)).1.1.1 [])
    by (intros a' d'; apply (effect_trans w (step w) _ [] []); [apply Hs | by apply IH]).
  destruct (read_chunk wants c a) as [a1 [[|]|e]]; [| apply Ht | apply Hs].
  destruct (pulled_one d) as [[|k]|]; [apply Hs | |];
    (match goal with |- context [pump wants it ?a ?d ?y] => specialize (Ht a d); destruct (pump wants it a d y) as [[[z out] a'] st] end;
     exact Ht).
Qed.

Lemma body_flows wants first rest a d w : flows rest → R w (stream_body wants first rest a d w).1.1.1 [].
Proof using All.
  intros Hq. unfold stream_body. destruct first as [c|]; [| by apply pump_flows].
  destruct (read_chunk wants c a) as [a1 [[|]|e]]; [| by apply pump_flows | apply effect_refl].
  destruct (pulled_one d) as [[|k]|]; [apply effect_refl | |];
    (match goal with |- context [pump wants rest ?a ?d ?y] => pose proof (pump_flows wants rest a d y Hq) as E; destruct (pump wants rest a d y) as [[[z out] a'] st] end;
     exact E).
Qed.
End Computations.

(** ** The router *)

(** What each dependency does, but the providers. *)
Record Respects {W} (R : W → W → list event → Prop) (deps : RouterDeps W) : Prop := {
  on_metric w m : R w w [Metric m];
  on_refresh w : R w (refreshIfStale deps w).1 [Refreshed];
  on_select l w : R w (lb_select deps l w).1 (match (lb_select deps l w).2 with Ok p => [Selected (p_id p)] | Err _ => [] end);
  on_balancer_success i l w : R w (lb_recordSuccess deps i l w) [BalancerSuccess i l];
  on_balancer_failure i w : R w (lb_recordFailure deps i w) [BalancerFailure i];
  on_slot_release i w : R w (lb_release deps i w) [SlotReleased i];
  on_acquire i w : R w (cb_acquire deps i w).1 [Acquired i];
  on_breaker_success i w : R w (cb_recordSuccess deps i w).1 [BreakerSuccess i];
  on_breaker_failure i w : R w (cb_recordFailure deps i w).1 [BreakerFailure i];
  on_breaker_release i w : R w (cb_release deps i w).1 [BreakerRelease i];
  on_cache_get r w : R w (cache_get deps r w).1 [CacheGet];
  on_cache_set r v w : R w (cache_set deps r v w) [CacheSet];
  on_budget k b w : R w (ct_isOverBudget deps k b w).1 [BudgetChecked k];
  on_spend k c w : R w (ct_addSpend deps k c w) [Spent k c];
  on_log e w : R w (ct_enqueueRequest deps e w) [Logged e]
}.

(** A coarser relation is respected too. *)
Lemma respects_mono {W} (R R' : W → W → list event → Prop) deps :
  (∀ w w' t, R w w' t → R' w w' t) → Respects R deps → Respects R' deps.
Proof. intros HR []. split; intros; by apply HR. Qed.

(** The providers a resolution offers. *)
Definition offered (res : ModelResolution) (p : Provider) : Prop := ∃ c, c ∈ candidates res ∧ c_provider c = p.

Section Handlers.
Context {W : Type} (R : W → W → list event → Prop) `{!Effect R} (deps : RouterDeps W) (HR : Respects R deps) `{!LawfulBalancer deps}.
Abbreviation effect := (effect R).

Lemma effect_metric m : effect (metric_ m) (λ _, True).
Proof using HR. apply effect_tell. intros w. by apply HR. Qed.
Lemma effect_swallow e (op : W → W * result thrown unit) : (∀ w, R w (op w).1 [e]) → effect (swallow (call e op)) (λ _, True).
Proof using Effect0.
  intros H. apply effect_catch; [done | |]; [apply effect_call; intros w; split; [apply H | by destruct (op w).2] | intros; by apply effect_ret].
Qed.

(** A provider call: its effect, and what its success satisfies. *)
Definition calls_with {A} (P : Provider → Prop) (f : Provider → W → W * result thrown A) (Q : A → Prop) : Prop :=
  ∀ p w, P p → R w (f p w).1 [Called (p_id p)] ∧ match (f p w).2 with Ok a => Q a | Err _ => True end.

Lemma timed_calls {A} P (f : Provider → W → W * result thrown A) :
  calls_with P f (λ _, True) → calls_with P (λ p, timed deps (f p)) (λ _, True).
Proof using. intros H p w Hp. destruct (H p w Hp) as [E _]. unfold timed. by destruct (f p w) as [y [a|e]]. Qed.

Ltac effect_step :=
  first [ apply effect_metric | apply effect_reads; assumption
        | apply effect_swallow; intros ?; apply HR
        | apply effect_do; intros ?; apply HR
        | apply effect_act; intros ?; apply HR
        | apply effect_throw; assumption
        | apply effect_ret; [assumption | done] ].
Ltac effect_next := first [apply effect_then; [assumption | effect_step | intros ?]].

Lemma attempt_effect {A} P (f : Provider → W → W * result thrown A) Q p :
  calls_with P f Q → P p → effect (attempt deps f p) (λ r, match r with Some a => Q a | None => True end).
Proof using Effect0 HR.
  intros Hf Hp. apply effect_finally; [assumption | | effect_step]. apply effect_catch; [assumption | |].
  - apply (effect_bind R _ _ Q); [apply effect_call; intros w; by apply Hf |]. intros a Ha. effect_next. by apply effect_ret.
  - intros e. unfold on_failure. destruct (negb _); repeat effect_next; effect_step.
Qed.

Lemma loop_effect {A} P (f : Provider → W → W * result thrown A) Q : calls_with P f Q → ∀ fuel remaining attempts,
  Forall P remaining → effect (failover_loop deps fuel f remaining attempts) (λ r, Q r.1.2).
Proof using All.
  intros Hf. induction fuel as [|fuel IH]; intros remaining attempts HP; cbn [failover_loop]; case_bool_decide as Hr;
    [effect_step | by apply effect_diverge | effect_step |].
  apply (effect_bind R _ _ (λ p, p ∈ remaining)).
  - intros w. unfold select_provider. pose proof (on_select R deps HR remaining w) as Hs.
    destruct (select_candidate remaining w Hr) as (w' & p & E & Hp). rewrite E in Hs |- *. done.
  - intros p Hp. assert (HP' : Forall P (others p remaining)).
    { apply list.Forall_forall. intros q [Hq _]%elem_of_others. by apply (proj1 (list.Forall_forall _ _) HP). }
    assert (Pp : P p) by (by apply (proj1 (list.Forall_forall _ _) HP)).
    apply effect_then; [assumption | apply effect_catch; [assumption | | intros; effect_step] |].
    { apply effect_call. intros w. split; [apply HR | by destruct (cb_acquire deps (p_id p) w).2]. }
    intros d. destruct (negb _).
    + effect_next. effect_next. by apply IH.
    + eapply effect_bind; [assumption | by apply (attempt_effect P f Q) |]. intros [a|] Ha; [by apply effect_ret | by apply IH].
Qed.

Lemma failover_effect {A} res (f : Provider → W → W * result thrown A) Q :
  calls_with (offered res) f Q → effect (runFailover deps (candidates res) f) (λ r, Q r.1.2).
Proof using All.
  intros Hf. apply (loop_effect (offered res)); [done |]. apply list.Forall_forall. intros p Hp.
  apply list_elem_of_fmap in Hp as (c & -> & Hc). by exists c.
Qed.

Lemma inc_effect v m : effect (inc_by deps v m) (λ _, True).
Proof using Effect0 HR. unfold inc_by. destruct (counter_inc deps v); effect_step. Qed.

Lemma metrics_effect p m l pt ct c o : effect (recordProviderMetrics deps p m l pt ct c o) (λ _, True).
Proof using Effect0 HR.
  unfold recordProviderMetrics. do 2 effect_next. do 2 (apply effect_then; [assumption | apply inc_effect |]; intros _).
  apply effect_then; [assumption | destruct (js_positive c); [apply inc_effect | by apply effect_ret] |]. intros _. effect_step.
Qed.

Lemma budget_effect ctx : effect (enforceBudget deps ctx) (λ _, True).
Proof using Effect0 HR. unfold enforceBudget. effect_next. destruct (_ : bool); effect_step. Qed.

Ltac effect_more := first [effect_next | apply effect_then; [assumption | first [apply metrics_effect | apply budget_effect] | intros ?]].

Lemma serve_chat_effect request ctx options res eligible :
  calls_with (offered res) (λ p, provider_chat deps p (with_model request (canonicalModel res))) (λ _, True) →
  effect (serve_chat deps request ctx options res eligible) (λ _, True).
Proof using All.
  intros Hf. unfold serve_chat. effect_more. cbv zeta. apply effect_then; [assumption | by apply (failover_effect res _ (λ _, True)), timed_calls |].
  intros [[p [response l]] n]. unfold addSpend_, enqueue. do 3 effect_more.
  apply effect_then; [assumption | destruct (_ && _); effect_step |]. intros _. effect_more. effect_step.
Qed.

(** The generator of a stream that flows. *)
Lemma generator_effect request ctx p m first rest start n demand : flows R rest →
  effect (run_stream deps request ctx p m first rest start n demand) (λ _, True).
Proof using Effect0 HR.
  intros Hq w. unfold run_stream. destruct demand as [[|k]|]; [split; [apply effect_refl | done] | |];
    (match goal with |- context [stream_body ?wants _ _ ?a ?d w] => pose proof (body_flows R wants first rest a d w Hq) as Hb end;
     destruct (stream_body _ _ _ _ _ w) as [[[y out] a] st]; cbn [fst] in Hb;
     match goal with |- context [try_catch ?m ?h y] => assert (Ha : effect (try_catch m h) (λ _, True)) end;
     [apply effect_catch; [assumption | | intros; effect_step]; unfold stream_account, addSpend_, enqueue; apply effect_then; [assumption | | intros; effect_step]; cbv zeta; do 3 effect_more; effect_step
     | destruct (Ha y) as [H2 HQ]; split; [by apply (effect_trans w y _ [] _) | exact HQ]]).
Qed.

Definition stream_rest (request : ChatCompletionRequest) (ctx : GatewayContext) (demand : option nat) (res : ModelResolution)
    : M W (list chunk * option thrown) :=
  then? enforceBudget deps ctx in
  let m := canonicalModel res in
  let? (provider, (first, rest, start), failoverCount) := runFailover deps (candidates res) (open_stream deps (with_stream_usage request m)) in
  let? now := reads (date_now deps) in
  then? metric_ (ttfb (p_name provider) m (inject_Z (now - start) / 1000)%Q) in
  then? metric_ (cacheEvent SKIP) in
  run_stream deps request ctx provider m first rest start failoverCount demand.

Lemma stream_rest_effect request ctx demand res :
  calls_with (offered res) (open_stream deps (with_stream_usage request (canonicalModel res))) (λ r, flows R r.1.2) →
  effect (stream_rest request ctx demand res) (λ _, True).
Proof using All.
  intros Hf. unfold stream_rest. effect_more. cbv zeta.
  eapply effect_bind; [assumption | by apply (failover_effect res _ (λ r, flows R r.1.2)) |].
  intros [[p [[first rest] start]] n] Hq. do 3 effect_more. by apply generator_effect.
Qed.

(** What [chatCompletion] and [embeddings] do after the resolution. *)
Definition chat_rest (request : ChatCompletionRequest) (ctx : GatewayContext) (options : RouteOptions) (res : ModelResolution)
    : M W (ChatCompletionResponse * RouterMeta) :=
  let eligible := cache_isEligible deps request in
  if eligible && bypassCache options then
    then? metric_ (cacheEvent BYPASS) in
    serve_chat deps request ctx options res eligible
  else if (eligible : bool) then
    let? hit := act CacheGet (cache_get deps request) in
    match hit with
    | Some cached => cached_result deps ctx (canonicalModel res) cached
    | None => serve_chat deps request ctx options res eligible
    end
  else serve_chat deps request ctx options res eligible.

Lemma chat_rest_effect request ctx options res :
  calls_with (offered res) (λ p, provider_chat deps p (with_model request (canonicalModel res))) (λ _, True) →
  effect (chat_rest request ctx options res) (λ _, True).
Proof using All.
  intros Hf. pose proof (λ e, serve_chat_effect request ctx options res e Hf) as Hs. unfold chat_rest. cbv zeta.
  destruct (_ && _); [effect_more; apply Hs |]. destruct (cache_isEligible deps request); [| apply Hs].
  effect_more. match goal with |- context [match ?x with Some _ => _ | None => _ end] => destruct x as [cached|] end; [| apply Hs].
  unfold cached_result, enqueue. do 2 effect_more. effect_step.
Qed.

Definition embeddings_rest (request : EmbeddingRequest) (ctx : GatewayContext) (res : ModelResolution)
    : M W (EmbeddingResponse * RouterMeta) :=
  then? enforceBudget deps ctx in
  let m := canonicalModel res in
  let? (provider, (response, latencyMs), failoverCount) :=
    runFailover deps (candidates res) (λ p, timed deps (provider_embed deps p (with_embedding_model request m))) in
  let promptTokens := er_prompt_tokens response in
  let cost := estimateCost (getModel provider m) promptTokens 0%Q in
  then? recordProviderMetrics deps provider m latencyMs promptTokens 0%Q cost success in
  then? addSpend_ deps (apiKeyId ctx) cost in
  then? enqueue deps (served_entry ctx provider m promptTokens 0%Q (er_total_tokens response) cost latencyMs 200 failoverCount None) in
  ret (response, {| meta_provider := Some (p_name provider); meta_providerId := Some (p_id provider);
                    meta_model := m; meta_cacheStatus := SKIP; meta_latencyMs := inject_Z latencyMs;
                    meta_failoverCount := failoverCount |}).

Lemma embeddings_rest_effect request ctx res :
  calls_with (offered res) (λ p, provider_embed deps p (with_embedding_model request (canonicalModel res))) (λ _, True) →
  effect (embeddings_rest request ctx res) (λ _, True).
Proof using All.
  intros Hf. unfold embeddings_rest. effect_more. cbv zeta.
  apply effect_then; [assumption | by apply (failover_effect res _ (λ _, True)), timed_calls |].
  intros [[p [response l]] n]. unfold addSpend_, enqueue. do 3 effect_more. effect_step.
Qed.

(** A handler: refresh, resolve and authorise, then the rest. *)
Definition resolved {A} (requested : string) (ctx : GatewayContext) (k : ModelResolution → M W A) : M W A :=
  then? call Refreshed (refreshIfStale deps) in let? res := resolveAndAuthorize deps requested ctx in k res.

Lemma chat_resolved request ctx options :
  chatCompletion deps request ctx options = resolved (model request) ctx (chat_rest request ctx options).
Proof using. reflexivity. Qed.
Lemma embeddings_resolved request ctx :
  embeddings deps request ctx = resolved (e_model request) ctx (embeddings_rest request ctx).
Proof using. reflexivity. Qed.

Lemma bind_assoc {A B C} (m : M W A) (f : A → M W B) (g : B → M W C) w :
  mbind_ (mbind_ m f) g w = mbind_ m (λ a, mbind_ (f a) g) w.
Proof using.
  unfold mbind_. destruct (m w) as [[w1 t1] [a|e|]]; [| done | done].
  destruct (f a w1) as [[w2 t2] [b|e|]]; [| done | done]. destruct (g b w2) as [[w3 t3] r]. by rewrite app_assoc.
Qed.
Lemma bind_ext {A B} (m : M W A) (f g : A → M W B) w : (∀ a z, f a z = g a z) → mbind_ m f w = mbind_ m g w.
Proof using. intros H. unfold mbind_. destruct (m w) as [[w1 t1] [a|e|]]; [by rewrite H | done | done]. Qed.
Lemma bind_ret_l {A B} (a : A) (f : A → M W B) w : mbind_ (ret a) f w = f a w.
Proof using. unfold mbind_, ret. by destruct (f a w) as [[w1 t1] r]. Qed.

(** A stream opened and then read by a consumer. *)
Lemma stream_resolved request ctx demand w :
  (let? (meta, generate) := prepareStream deps request ctx in generate demand) w =
  resolved (model request) ctx (stream_rest request ctx demand) w.
Proof using.
  unfold prepareStream, resolved. rewrite bind_assoc. apply bind_ext. intros _ w1. rewrite bind_assoc. apply bind_ext. intros res w2.
  unfold stream_rest. rewrite bind_assoc. apply bind_ext. intros _ w3. cbv zeta. rewrite bind_assoc. apply bind_ext.
  intros [[p [[first rest] start]] n] w4. rewrite bind_assoc. apply bind_ext. intros now w5. rewrite bind_assoc. apply bind_ext.
  intros _ w6. rewrite bind_assoc. apply bind_ext. intros _ w7. by rewrite bind_ret_l.
Qed.

Lemma resolved_effect {A} requested ctx (k : ModelResolution → M W A) Q :
  (∀ res, effect (k res) Q) → effect (resolved requested ctx k) Q.
Proof using Effect0 HR.
  intros Hk. apply effect_then; [assumption | apply effect_call; intros w; split; [apply HR | by destruct (refreshIfStale deps w).2] |].
  intros _. apply effect_then; [assumption | | done]. intros w. rewrite resolve_run. cbv zeta. split; [apply effect_refl |].
  case_bool_decide; [done |]. by destruct (permitted _ _ _).
Qed.
End Handlers.
