(* ===== verification/Wiring.v ===== *)
(** * The production wiring ([src/index.ts]: [initRouter])

    The router's dependencies as the process singletons provide them: the load
    balancer, the circuit breaker, the cache and the cost tracker over one
    shared store, the registry with its refresh protocol, and the background
    log queue.  The upstream providers, the database and the fate of every
    command stay arguments.  [production_lawful] discharges the interface the
    router's theorems assume. *)

From Stdlib Require Import ZArith Lia QArith String.
From stdpp Require Import base gmap strings list.
From S2P Require Import Prelude Redis Constants CircuitBreaker LoadBalancer Json Errors Types Provider Values CostTracker.
From S2P Require Import Registry Cache Auth Router.
Open Scope Z_scope.

(** The process: the shared store and clock, the in-memory state of the round
    robin, the registry and the log queue, and the fates of the commands to
    come. *)
Record world := World {
  w_db : db;
  w_now : Z;
  w_counters : gmap string Z;
  w_registry : registry_state;
  w_queue : queue;
  w_fates : list fault
}.

Record Config := {
  cfg_prefix : string;
  cfg_strategy : StrategyName;
  cfg_ema_alpha : Q;
  cfg_failure_penalty : Q;
  cfg_breaker : CircuitBreakerOptions;
  cfg_cache : CacheConfig;
  cfg_registry_ttl : Z
}.

(** What the host and the outside provide. *)
Record Host := {
  sha256Hex : string → string;
  localeCompare : string → string → Z;
  secureRandomInt : Z → Z;
  JSON_parse : string → option json;
  decrypt : string → result thrown string;
  load_table : Z → result thrown (list provider_row);
  chat : Provider → ChatCompletionRequest → world → world * result thrown ChatCompletionResponse;
  chatStream : Provider → ChatCompletionRequest → world → upstream world;
  embed : Provider → EmbeddingRequest → world → world * result thrown EmbeddingResponse;
  countTokens : Provider → list ChatMessage → string → Z;
  refuse_amount : js_value → option thrown
}.

Section Wiring.
Context (cfg : Config) (host : Host).
Abbreviation prefix := (cfg_prefix cfg).

Definition locale_le (a b : string) : Prop := (localeCompare host a b <=? 0) = true.
#[export] Instance locale_le_dec : RelDecision locale_le.
Proof. intros a b. unfold locale_le. apply _. Defined.

(** The fates of the next commands, [Up] when none is listed. *)
Definition fate (w : world) : fault := head (w_fates w) ?? Up.
Definition fate2 (w : world) : fault := head (tail (w_fates w)) ?? Up.

Definition set_db (commands : nat) (d : db) (w : world) : world :=
  World d (w_now w) (w_counters w) (w_registry w) (w_queue w) (drop commands (w_fates w)).
Definition set_registry (r : registry_state) (w : world) : world :=
  World (w_db w) (w_now w) (w_counters w) r (w_queue w) (w_fates w).

(** One command sequence of the client against the store. *)
Definition on_store (f : fault → Z → db → db) (w : world) : world := set_db 1 (f (fate w) (w_now w) (w_db w)) w.

Definition redis_error (e : string) : thrown := TError "ReplyError" e [].

(** A method of the breaker: its script through the client. *)
Definition breaker_call {A} (p : Z → prog A) (w : world) : world * result thrown A :=
  let '(d, r) := client (fate w) (p (w_now w)) (w_now w) (w_db w) in
  (set_db 1 d w, match r with Ok a => Ok a | Err e => Err (redis_error e) end).

Definition wire_select (l : list Provider) (w : world) : world * result thrown Provider :=
  let '(c, d, r) := LoadBalancer.select (sha256Hex host) locale_le (secureRandomInt host) prefix (cfg_strategy cfg)
                      (fate w) l (w_now w) (w_counters w) (w_db w) in
  (World d (w_now w) c (w_registry w) (w_queue w) (drop 1 (w_fates w)),
   match r with
   | Ok p => Ok p
   | Err EmptyCandidatesError => Err (TError "EmptyCandidatesError" "No candidate providers to select from" [])
   | Err (StrategyError e) => Err (TError "Error" e [])
   end).

Definition wire_refresh (w : world) : world * result thrown unit :=
  let ttl := cfg_registry_ttl cfg in
  match refresh_arrive ttl (w_now w) (w_registry w) with
  | (s, Registry.Served) => (w, Ok tt)
  | (s, _) =>
      let loaded := let! rows := load_table host (w_now w) in Ok (load_rows (decrypt host) rows) in
      let '(s', r) := refresh_finish ttl (w_now w) loaded s in
      (set_registry s' w, r)
  end.

Definition ignore_result {A} (x : world * result thrown A) : world * result thrown unit :=
  (x.1, match x.2 with Ok _ => Ok tt | Err e => Err e end).

Definition production : RouterDeps world := {|
  refreshIfStale := wire_refresh;
  registry_snapshot w := snap (w_registry w);
  lb_select := wire_select;
  lb_recordSuccess i latencyMs :=
    on_store (λ f now d, LoadBalancer.recordSuccess prefix (cfg_ema_alpha cfg) (cfg_strategy cfg) f i (inject_Z latencyMs) now d);
  lb_recordFailure i :=
    on_store (λ f now d, LoadBalancer.recordFailure prefix (cfg_ema_alpha cfg) (cfg_failure_penalty cfg) (cfg_strategy cfg) f i now d);
  lb_release i := on_store (λ f now d, LoadBalancer.release prefix (cfg_strategy cfg) f i now d);
  cb_acquire i := breaker_call (λ now, CircuitBreaker.acquire prefix (cfg_breaker cfg) i now);
  cb_recordSuccess i w := ignore_result (breaker_call (λ _, CircuitBreaker.recordSuccess prefix (cfg_breaker cfg) i) w);
  cb_recordFailure i w := ignore_result (breaker_call (λ now, CircuitBreaker.recordFailure prefix (cfg_breaker cfg) i now) w);
  cb_release i := breaker_call (λ _, CircuitBreaker.release prefix i);
  cache_isEligible := isEligible (cfg_cache cfg);
  cache_get req w :=
    let '(d, r) := Cache.get (localeCompare host) (sha256Hex host) (JSON_parse host) (cfg_cache cfg)
                     (fate w) (fate2 w) req (w_now w) (w_db w) in (set_db 2 d w, r);
  cache_set req resp :=
    on_store (λ f now d, Cache.set (localeCompare host) (sha256Hex host) (cfg_cache cfg) f req resp
                           (CACHE_DEFAULT_TTL_SECONDS (cfg_cache cfg)) now d);
  ct_isOverBudget key budget w :=
    (set_db 1 (w_db w) w, isOverBudget prefix (fate w) key budget (w_now w) (w_db w));
  ct_addSpend key cost w := set_db 2 (addSpend prefix (fate w) (fate2 w) key cost (w_now w) (w_db w)) w;
  ct_enqueueRequest e w :=
    World (w_db w) (w_now w) (w_counters w) (w_registry w) (enqueueRequest e (w_queue w)) (w_fates w);
  provider_chat := chat host;
  provider_chatStream := chatStream host;
  provider_embed := embed host;
  provider_countTokens := countTokens host;
  date_now := w_now;
  counter_inc := refuse_amount host
|}.

(** The balancer meets the router's assumption, whatever happens to the store. *)
#[export] Instance production_lawful : random_ok (secureRandomInt host) → LawfulBalancer production.
Proof.
  intros Hr. split. intros l w Hl. cbn [lb_select production]. unfold wire_select.
  destruct (select_member (sha256Hex host) locale_le (secureRandomInt host) prefix (cfg_strategy cfg) (fate w) l
              (w_now w) (w_counters w) (w_db w) Hr Hl) as (p & E & Hp).
  destruct (LoadBalancer.select _ _ _ _ _ _ _ _ _ _) as [[c d] r]. simpl in E. subst r. by eexists _, p.
Qed.
End Wiring.

(** ** Computations that keep an invariant *)

Section Safe.
Context {W : Type}.

(** From [P], the computation ends, in [Q]. *)
Definition safe {A} (P : W → Prop) (m : M W A) (Q : W → Prop) : Prop := ∀ w, P w → Q (m w).1.1 ∧ (m w).2 ≠ Diverge.

Lemma safe_ret {A} (P : W → Prop) (a : A) : safe P (ret a) P.
Proof using. by intros w Hw. Qed.
Lemma safe_throw {A} (P : W → Prop) e : safe P (throw (A := A) e) P.
Proof using. by intros w Hw. Qed.
Lemma safe_tell (P : W → Prop) e : safe P (tell e) P.
Proof using. by intros w Hw. Qed.
Lemma safe_do (P Q : W → Prop) e op : (∀ w, P w → Q (op w)) → safe P (do_ e op) Q.
Proof using. intros H w Hw. split; [by apply H | done]. Qed.
Lemma safe_call {A} (P Q : W → Prop) e (op : W → W * result thrown A) : (∀ w, P w → Q (op w).1) → safe P (call e op) Q.
Proof using. intros H w Hw. specialize (H w Hw). unfold call. revert H.
  destruct (op w) as [w1 [a|x]]; intros H; (split; [exact H | done]). Qed.

Lemma safe_bind {A B} (P I : W → Prop) (m : M W A) (f : A → M W B) :
  safe P m I → (∀ a, safe I (f a) I) → safe P (mbind_ m f) I.
Proof using.
  intros Hm Hf w Hw. specialize (Hm w Hw). unfold mbind_. revert Hm. destruct (m w) as [[w1 t1] [a|e|]];
    [| by intros [? _] | by intros [_ ?]].
  intros [Hm _]. specialize (Hf a w1 Hm). revert Hf. destruct (f a w1) as [[w2 t2] r]. by intros [? ?].
Qed.

Lemma safe_catch {A} (P I : W → Prop) (m : M W A) (h : thrown → M W A) :
  safe P m I → (∀ e, safe I (h e) I) → safe P (try_catch m h) I.
Proof using.
  intros Hm Hh w Hw. specialize (Hm w Hw). unfold try_catch. revert Hm. destruct (m w) as [[w1 t1] [a|e|]]; [done | | done].
  intros [Hm _]. specialize (Hh e w1 Hm). revert Hh. destruct (h e w1) as [[w2 t2] r]. by intros [? ?].
Qed.

Lemma safe_finally {A} (P Q R : W → Prop) (m : M W A) (f : M W unit) :
  safe P m Q → safe Q f R → safe P (try_finally m f) R.
Proof using.
  intros Hm Hf w Hw. specialize (Hm w Hw). unfold try_finally. revert Hm. destruct (m w) as [[w1 t1] r]. intros [Hm Hr].
  specialize (Hf w1 Hm). revert Hf. destruct r; [| | done]; destruct (f w1) as [[w2 t2] [?|?|]]; intros [? ?]; by split.
Qed.
End Safe.

#[export] Hint Resolve safe_ret safe_throw safe_tell : gateway.

(** ** Slots *)

Section Slots.
Context (cfg : Config) (host : Host) (t0 t1 : Z).
Hypothesis least_connections : cfg_strategy cfg = LEAST_CONNECTIONS.
Hypothesis span : t1 <= t0 + CONNECTION_TTL_MS.
Abbreviation prefix := (cfg_prefix cfg).
Abbreviation deps := (production cfg host).

(** The store is reachable, the clock at most [b], and the connection gauges
    are [g]. *)
Definition steady (g : string → Z) (b : Z) (w : world) : Prop :=
  gauges prefix t1 g (w_db w) ∧ w_fates w = [] ∧ t0 <= w_now w <= b.

Lemma gauges_ext g g' s : (∀ i, g i = g' i) → gauges prefix t1 g s → gauges prefix t1 g' s.
Proof using. intros E Hg i. rewrite <- E. apply Hg. Qed.

(** Writing other keys leaves the gauges alone. *)
Lemma gauges_frame g ks s s' : (∀ i, redisKeys.lbConnections prefix i ∉ ks) → frame ks s s' →
  gauges prefix t1 g s → gauges prefix t1 g s'.
Proof using. intros Hk Hf Hg i. rewrite Hf by apply Hk. apply Hg. Qed.

Lemma conn_not_cb i j : redisKeys.lbConnections prefix i ∉ cb_keys prefix j.
Proof using. unfold cb_keys. rewrite !not_elem_of_cons. repeat split; try apply not_elem_of_nil; key_ne. Qed.

Lemma breaker_steady {A} g b i (p : Z → prog A) w : (∀ now, writes_within (cb_keys prefix i) (p now)) →
  steady g b w → steady g b (breaker_call p w).1.
Proof using.
  intros Hp (Hg & Hf & Ht). unfold breaker_call, fate. rewrite Hf. cbn [head coalesce client].
  pose proof (run_frame _ (p (w_now w)) (w_now w) (w_db w) (Hp _)) as Hfr.
  destruct (run _ _ _) as [d r]. split; [| cbn; by rewrite Hf].
  by eapply gauges_frame; [intros j; apply (conn_not_cb j i) | exact Hfr |].
Qed.

Lemma select_steady g b l w : l ≠ [] → b <= t1 → steady g b w →
  ∃ w' p, wire_select cfg host l w = (w', Ok p) ∧ p ∈ l ∧ steady (bump g (p_id p) 1) b w'.
Proof using least_connections span.
  intros Hl Hb (Hg & Hf & Ht).
  destruct (lc_select_least (secureRandomInt host) prefix t0 t1 (w_now w) g (w_db w) ltac:(lia) span Hg l Hl) as (d & p & E & Hp & _ & Hg').
  unfold wire_select, LoadBalancer.select, strategy_select, fate. rewrite Hf, least_connections, bool_decide_eq_false_2 by done.
  cbn [head coalesce drop]. rewrite E. by eexists _, p.
Qed.

Lemma release_steady g b p w : 0 <= g (p_id p) → b <= t1 → steady (bump g (p_id p) 1) b w →
  steady g b (lb_release deps (p_id p) w).
Proof using least_connections.
  intros Hn Hb (Hg & Hf & Ht). cbn [lb_release production]. unfold on_store, fate. rewrite Hf, least_connections.
  split; [| cbn; by rewrite Hf]. cbn [w_db set_db release head coalesce].
  eapply gauges_ext; [| apply (lc_release_gauge prefix t0 t1 (w_now w) (bump g (p_id p) 1) (w_db w) ltac:(lia) Hg)].
  - intros i. unfold bump. repeat case_decide; lia.
  - unfold bump. rewrite decide_True by done. lia.
Qed.

Lemma balancer_failure_steady g b i w : steady g b w → steady g b (lb_recordFailure deps i w).
Proof using least_connections.
  intros (Hg & Hf & Ht). cbn [lb_recordFailure production]. unfold on_store. rewrite least_connections. split; [done | cbn; by rewrite Hf].
Qed.

(** A provider call that only takes time, at most [d] ms. *)
Definition only_takes_time {A} (d : Z) (f : Provider → world → world * result thrown A) : Prop :=
  ∀ p w, w_db (f p w).1 = w_db w ∧ w_fates (f p w).1 = w_fates w ∧ w_now w <= w_now (f p w).1 <= w_now w + d.

Lemma attempt_steady {A} (f : Provider → world → world * result thrown A) d g b p :
  only_takes_time d f → 0 <= g (p_id p) → b + d <= t1 →
  safe (steady (bump g (p_id p) 1) b) (attempt deps f p) (steady g (b + d)).
Proof using least_connections.
  intros Hf Hn Hbd. set (I := steady (bump g (p_id p) 1) (b + d)).
  assert (Hb : ∀ e A (q : Z → prog A), (∀ now, writes_within (cb_keys prefix (p_id p)) (q now)) →
    safe I (swallow (call e (λ w, ignore_result (breaker_call q w)))) I).
  { intros e B q Hq. apply safe_catch; [| eauto with gateway]. apply safe_call. intros w Hw. by apply (breaker_steady _ _ (p_id p)). }
  assert (Hrel : safe I (swallow (call (BreakerRelease (p_id p)) (cb_release deps (p_id p)))) I).
  { apply safe_catch; [| eauto with gateway]. apply safe_call. intros w Hw.
    apply (breaker_steady _ _ (p_id p)); [intros; apply release_writes | done]. }
  apply (safe_finally _ I); [| apply safe_do; intros w Hw; by apply release_steady].
  apply safe_catch.
  - apply safe_bind; [| intros value; apply safe_bind; [apply Hb; intros; apply recordSuccess_writes | eauto with gateway]].
    apply safe_call. intros w (Hg & Hw & Ht). destruct (Hf p w) as (E1 & E2 & Ht'). unfold I, steady.
    rewrite E1, E2. split; [done |]. split; [done | lia].
  - intros e. unfold on_failure, metric_. destruct (negb _).
    + apply safe_bind; [eauto with gateway |]. intros _. apply safe_bind; [exact Hrel | eauto with gateway].
    + apply safe_bind; [apply Hb; intros; apply recordFailure_writes |]. intros _.
      apply safe_bind; [apply safe_do; intros w; apply balancer_failure_steady |]. intros _.
      apply safe_bind; [eauto with gateway |]. intros _. apply safe_bind; eauto with gateway.
Qed.

Lemma loop_steady {A} (f : Provider → world → world * result thrown A) d g :
  only_takes_time d f → 0 <= d → (∀ i, 0 <= g i) → ∀ fuel remaining attempts b w,
  b + d * Z.of_nat (length remaining) <= t1 → steady g b w →
  steady g (b + d * Z.of_nat (length remaining)) (failover_loop deps fuel f remaining attempts w).1.1.
Proof using least_connections span.
  intros Hf Hd Hn.
  assert (Hweak : ∀ b b' w, b <= b' → steady g b w → steady g b' w).
  { intros b b' w Hb (Hg & Hw & Ht). split; [done |]. split; [done | lia]. }
  induction fuel as [|fuel IH]; intros remaining attempts b w Hb Hw; cbn [failover_loop]; case_bool_decide as Hr;
    try (eapply Hweak; [| exact Hw]; nia).
  assert (Hlen : 0 < Z.of_nat (length remaining)) by (destruct remaining; [done | simpl; lia]).
  destruct (select_steady g b remaining w Hr ltac:(nia) Hw) as (w1 & p & Es & Hp & H1).
  assert (Hlen' : Z.of_nat (length (others p remaining)) <= Z.of_nat (length remaining) - 1)
    by (pose proof (others_length p remaining Hp); lia).
  erewrite bind_ret by (unfold select_provider; cbn [lb_select production]; by rewrite Es).
  assert (Ha : safe (steady (bump g (p_id p) 1) b) (acquire deps p) (steady (bump g (p_id p) 1) b)).
  { apply safe_catch; [| eauto with gateway]. apply safe_call. intros v Hv.
    apply (breaker_steady _ _ (p_id p)); [intros; apply acquire_writes | done]. }
  destruct (acquire_ok deps p w1) as (w2 & dec & Ea). destruct (Ha w1 H1) as [H2 _]. rewrite Ea in H2.
  erewrite bind_ret by exact Ea. destruct (cd_allowed dec); cbn [negb].
  - pose proof (attempt_steady f d g b p Hf (Hn _) ltac:(nia) w2 H2) as [H3 Hend]. unfold mbind_.
    destruct (attempt deps f p w2) as [[w3 t3] [[v|]|e|]]; cbn [fst snd] in H3; try (eapply Hweak; [| exact H3]; nia).
    specialize (IH (others p remaining) (attempts + 1) (b + d) w3 ltac:(nia) H3).
    destruct (failover_loop _ _ _ _ _ w3) as [[w4 t4] r4]. eapply Hweak; [| exact IH]. nia.
  - pose proof (release_steady g b p w2 (Hn _) ltac:(nia) H2) as H3. unfold mbind_, metric_, tell, release_slot, do_.
    specialize (IH (others p remaining) attempts b _ ltac:(nia) H3).
    destruct (failover_loop _ _ _ _ _ _) as [[w4 t4] r4]. eapply Hweak; [| exact IH]. nia.
Qed.
End Slots.

(** ** Theorems *)

(** C27: Failover conserves connection slots. In the production wiring with
    least connections, a reachable store and upstream calls that only take
    time (within the gauges' lifetime), whatever those calls answer (served, failed over, rejected, refused by
    the breaker, all failed), after the failover every provider's in-flight
    gauge reads what it read before: no slot leaks and none is released twice. *)
Theorem slots_conserved {A} cfg host d t1 g (cs : list ModelCandidate)
    (f : Provider → world → world * result thrown A) w :
  cfg_strategy cfg = LEAST_CONNECTIONS → only_takes_time d f → 0 <= d →
  w_now w + d * Z.of_nat (length cs) <= t1 <= w_now w + CONNECTION_TTL_MS →
  w_fates w = [] → gauges (cfg_prefix cfg) t1 g (w_db w) →
  let w' := (runFailover (production cfg host) cs f w).1.1 in
  ∀ i, gauge (cfg_prefix cfg) (w_now w') (w_db w') i = Some (g i) ∧
       gauge (cfg_prefix cfg) (w_now w) (w_db w) i = Some (g i).
Proof.
  intros Hlc Hf Hd Ht Hw Hg w' i.
  assert (Hs : steady cfg (w_now w) t1 g (w_now w + d * Z.of_nat (length (map c_provider cs))) w').
  { apply (loop_steady cfg host (w_now w) t1 Hlc ltac:(lia) f d g Hf Hd (λ i, proj1 (Hg i))).
    - rewrite length_map. lia.
    - split; [exact Hg |]. split; [exact Hw | lia]. }
  rewrite length_map in Hs. destruct Hs as (Hg' & _ & Ht').
  destruct (gauges_read (cfg_prefix cfg) (w_now w) t1 (w_now w') g (w_db w') ltac:(lia) Hg' i) as (e & E & _).
  destruct (gauges_read (cfg_prefix cfg) (w_now w) t1 (w_now w) g (w_db w) ltac:(lia) Hg i) as (e' & E' & _).
  unfold gauge. by rewrite E, E'.
Qed.

(** A gateway whose first provider always times out after 100 ms. *)
Definition sample_config : Config := {|
  cfg_prefix := "gw:"; cfg_strategy := LEAST_CONNECTIONS; cfg_ema_alpha := 1 # 5; cfg_failure_penalty := 10000;
  cfg_breaker := default_options; cfg_cache := sample_cache; cfg_registry_ttl := 60 |}.
Definition later (ms : Z) (w : world) : world :=
  World (w_db w) (w_now w + ms) (w_counters w) (w_registry w) (w_queue w) (w_fates w).
Definition flaky {A} (p : Provider) (a : A) (w : world) : world * result thrown A :=
  (later 100 w, if String.eqb (p_id p) "A" then Err (TGateway (UpstreamTimeoutError (Some "A"%string) no_options)) else Ok a).
Definition sample_host : Host := {|
  sha256Hex s := s; localeCompare := leb_compare; secureRandomInt _ := 0; JSON_parse _ := None;
  decrypt s := Ok s;
  load_table _ := Ok (map (λ i, {| row_id := i; row_name := i; row_adapterType := openai; row_baseUrl := "u";
    row_encryptedApiKey := "k"; row_timeoutMs := 1000; row_weight := 1; row_priority := 1;
    row_models := [{| m_modelId := "m"; m_displayName := None; m_contextWindow := None; m_maxOutputTokens := None;
                      m_inputPricePer1k := Some "0.01"%string; m_outputPricePer1k := Some "0.02"%string;
                      m_supportsStreaming := true; m_supportsTools := true; m_supportsVision := false |}] |}) ["A"; "B"]%string);
  chat p _ := flaky p sample_response;
  chatStream _ _ _ := UDone (λ w, w);
  embed p _ := flaky p {| er_data := []; er_model := "m"; er_prompt_tokens := 5; er_total_tokens := 5 |};
  countTokens _ _ _ := 11;
  refuse_amount := sample_counter
|}.
Definition boot : world := World ∅ 1700000000000 ∅ (RegistryState (Snapshot [] []) 0 false) empty_queue [].

(** [n] chat completions, one after the other. *)
Fixpoint serve (k : nat) (w : world) : world * list (list string) :=
  match k with
  | O => (w, [])
  | S k' =>
      let '(w1, t, _) := chatCompletion (production sample_config sample_host) (with_model (sample_chat 1 7 [] []) "m") sample_context
                           {| bypassCache := false |} w in
      let '(w2, l) := serve k' w1 in (w2, calls t :: l)
  end.

Lemma slots_conserved_witness :
  gauge "gw:" (w_now (runFailover (production sample_config sample_host) sample_candidates (λ p, flaky p tt) boot).1.1)
    (w_db (runFailover (production sample_config sample_host) sample_candidates (λ p, flaky p tt) boot).1.1) "A" = Some 0.
Proof.
  refine (proj1 (slots_conserved sample_config sample_host 100 1700000600000 (λ _, 0) sample_candidates
    (λ p, flaky p tt) boot _ _ _ _ _ _ "A"%string)); try done.
  - intros p w. simpl. split; [done |]. split; [done | lia].
  - intros i. split; [done |]. left. split; [apply lookup_empty | done].
Defined.

(** Five requests trip the breaker of the failing provider, and the next ones
    go straight to the healthy one. *)
Example breaker_shields :
  (serve 7 boot).2 = ([["A"; "B"]; ["A"; "B"]; ["A"; "B"]; ["A"; "B"]; ["A"; "B"]; ["B"]; ["B"]]%string) ∧
  length (pendingWrites (w_queue (serve 7 boot).1)) = 7%nat.
Proof. by vm_compute. Qed.
