(* ===== verification/Footprint.v ===== *)
(** * What each component writes

    The keys of the store the scripts and the commands of each component touch,
    as one lemma per operation: any key outside the component's families reads
    the same before and after, whatever becomes of the command.  The clients are
    the invariants of single keys: a revoked key's cache entry ([Revocation])
    and a month's spend counter ([Ledger]). *)

From Stdlib Require Import ZArith Lia QArith String Ascii.
From stdpp Require Import base gmap strings list fin_maps.
From S2P Require Import Prelude Redis Constants Keyspace CircuitBreaker RateLimiter LoadBalancer Json Types Provider Values CostTracker Registry Cache Auth Router Effects Wiring.
Open Scope Z_scope.

(** [k] reads the same. *)
Definition keeps (k : string) (s s' : db) : Prop := s' !! k = s !! k.

#[export] Instance keeps_preorder k : PreOrder (keeps k).
Proof. split; [by intros s | intros s1 s2 s3; unfold keeps; congruence]. Qed.

Lemma client_keeps {A} ks k f (p : prog A) now s : writes_within ks p → k ∉ ks → keeps k s (client f p now s).1.
Proof. intros Hp Hk. unfold keeps. destruct f; cbn [client fst]; [| done |]; by rewrite (run_frame ks p now s Hp k Hk). Qed.

(** A single command. *)
Lemma command_keeps c k f now s : k ∉ written_keys c → keeps k s (client f (redis_call c) now s).1.
Proof. intros Hk. apply (client_keeps (written_keys c)); [by apply ww_redis_call | done]. Qed.

Lemma command_keeps_one c k k' f now s : written_keys c = [k'] → k ≠ k' → keeps k s (client f (redis_call c) now s).1.
Proof. intros E Hk. apply command_keeps. rewrite E. by apply not_elem_of_cons; split; [| apply not_elem_of_nil]. Qed.

(** ** What the scripts write *)

Lemma wrr_loop_writes key args : ∀ total best, writes_within [key] (wrr_loop key args total best).
Proof.
  induction args as [|[i w] args IH]; intros total best; cbn [wrr_loop]; [constructor |]. solve_frame; apply IH.
Qed.
Lemma wrr_writes key ttl args : writes_within [key] (SMOOTH_WRR_LUA key ttl args).
Proof. unfold SMOOTH_WRR_LUA. apply ww_bind; [apply wrr_loop_writes | intros r; solve_frame]. Qed.

Lemma min_loop_writes ks keys : ∀ i best, writes_within ks (min_loop keys i best).
Proof.
  induction keys as [|k keys IH]; intros i best; cbn [min_loop]; [constructor |].
  apply ww_bind; [apply ww_redis_call; by intros x ?%elem_of_nil |]. intros r. apply ww_bind; [apply ww_tonumber_or_0 | intros v; apply IH].
Qed.
Lemma lc_writes keys ttl ids : writes_within keys (SELECT_AND_ACQUIRE_LUA keys ttl ids).
Proof.
  unfold SELECT_AND_ACQUIRE_LUA. apply ww_bind; [apply min_loop_writes |]. intros [[v i]|]; [| constructor].
  destruct (keys !! i) as [k|] eqn:E; [| constructor]. apply list_elem_of_lookup_2 in E.
  apply ww_bind; [apply ww_redis_call; by intros x ->%list_elem_of_singleton |]. intros _.
  apply ww_bind; [apply ww_redis_call; by intros x ->%list_elem_of_singleton |]. intros _. constructor.
Qed.
Lemma lc_release_writes k : writes_within [k] (LoadBalancer.RELEASE_LUA k).
Proof. unfold LoadBalancer.RELEASE_LUA. solve_frame. Qed.
Lemma ema_writes k alpha sample ttl : writes_within [k] (EMA_UPDATE_LUA k alpha sample ttl).
Proof. unfold EMA_UPDATE_LUA. solve_frame. Qed.
Lemma limiter_writes k1 k2 k3 k4 a : writes_within [k1; k2; k3; k4] (RATE_LIMIT_LUA k1 k2 k3 k4 a).
Proof. unfold RATE_LIMIT_LUA. solve_frame. Qed.

(** ** The keys the hot path's components do not touch *)

(** [k] belongs to no component but authentication and cost tracking. *)
Class Apart (prefix k : string) : Prop := {
  apart_family f i : f ≠ FAuth → k ≠ key_of_family f prefix i;
  apart_stats n : k ≠ (prefix ++ "cstats:" ++ n)%string
}.

#[export] Instance auth_apart prefix hash : Apart prefix (redisKeys.authKey prefix hash).
Proof. split; [intros f i Hf; destruct f; try (by destruct Hf); clear Hf; cbn [key_of_family]; key_ne | intros n; key_ne]. Qed.
#[export] Instance spend_apart prefix key now : Apart prefix (spendKey prefix key now).
Proof. unfold spendKey. split; [intros f i _; destruct f; cbn [key_of_family]; key_ne | intros n; key_ne]. Qed.

Section Components.
Context (prefix k : string) `{!Apart prefix k}.

Lemma not_in_family f i : f ≠ FAuth → k ∉ [key_of_family f prefix i].
Proof. intros Hf. apply not_elem_of_cons. split; [by apply apart_family | apply not_elem_of_nil]. Qed.

Lemma not_in_families l : Forall (λ x, ∃ f i, f ≠ FAuth ∧ x = key_of_family f prefix i) l → k ∉ l.
Proof. intros Hl Hk. rewrite list.Forall_forall in Hl. destruct (Hl k Hk) as (f & i & Hf & E). by apply (apart_family f i Hf). Qed.

Lemma not_breaker_key i : k ∉ cb_keys prefix i.
Proof.
  apply not_in_families. unfold cb_keys.
  repeat apply list.Forall_cons_2; try apply list.Forall_nil_2;
    [by exists FState, i | by exists FFailures, i | by exists FOpenedAt, i | by exists FHalfProbes, i | by exists FHalfSuccesses, i].
Qed.

Lemma breaker_keeps {A} i f (p : prog A) now s : writes_within (cb_keys prefix i) p → keeps k s (client f p now s).1.
Proof. intros Hp. apply (client_keeps (cb_keys prefix i)); [done | apply not_breaker_key]. Qed.

Lemma limiter_keeps c key limits now uuid f s : keeps k s (client f (check prefix c key limits now uuid) now s).1.
Proof.
  apply (client_keeps [redisKeys.rateLimitRpm prefix key; redisKeys.rateLimitTpm prefix key; redisKeys.rateLimitBurst prefix key;
    redisKeys.rateLimitTpmSum prefix key]).
  - unfold check. destruct (negb _); [constructor |]. apply ww_bind; [apply limiter_writes | constructor].
  - apply not_in_families. repeat apply list.Forall_cons_2; try apply list.Forall_nil_2;
      [by exists FRpm, key | by exists FTpm, key | by exists FBurst, key | by exists FTpmSum, key].
Qed.

Lemma select_keeps {P} `{!BaseProvider P} sha locale_le `{!RelDecision locale_le} rnd strategy f (l : list P) now c s :
  keeps k s (LoadBalancer.select sha locale_le rnd prefix strategy f l now c s).1.2.
Proof.
  unfold LoadBalancer.select. case_bool_decide as Hl; [done |].
  assert (Hs : keeps k s (strategy_select sha locale_le rnd prefix strategy f l now c s).1.2).
  { destruct strategy; cbn [strategy_select fst snd]; try done.
    - unfold wrr_select. rewrite bool_decide_eq_false_2 by done.
      assert (Hc : ∀ A i (p : prog A), writes_within [redisKeys.lbWrrCurrent prefix i] p → keeps k s (client f p now s).1).
      { intros A i p Hp. eapply client_keeps; [exact Hp |]. by apply (not_in_family FWrr). }
      match goal with |- context [client f (SMOOTH_WRR_LUA ?key ?ttl ?args) now s] => specialize (Hc _ _ _ (wrr_writes key ttl args)) end.
      destruct (client _ _ _ _) as [d [[i|]|e]]; exact Hc.
    - unfold lc_select. rewrite bool_decide_eq_false_2 by done.
      assert (Hc : keeps k s (client f (SELECT_AND_ACQUIRE_LUA (map (conn_key prefix) l) CONNECTION_TTL_MS (map id l)) now s).1).
      { apply (client_keeps (map (conn_key prefix) l)); [apply lc_writes |]. apply not_in_families, list.Forall_fmap.
        apply list.Forall_forall. intros p _. by exists FConnections, (id p). }
      destruct (client _ _ _ _) as [d [[i|]|e]]; exact Hc.
    - unfold latency_select. destruct l as [|p l]; [done |].
      assert (Hc : keeps k s (client f (mget (map (ema_key prefix) (p :: l))) now s).1).
      { apply (client_keeps []); [| apply not_elem_of_nil]. unfold mget. apply ww_bind; [apply ww_redis_call; by intros x ?%elem_of_nil |].
        intros []; constructor. }
      destruct (client _ _ _ _) as [d [r|e]]; exact Hc. }
  by destruct (strategy_select _ _ _ _ _ _ _ _ _ _) as [[c' s'] [p|[]]].
Qed.

Lemma ema_keeps alpha f i sample now s : keeps k s (updateEma prefix alpha f i sample now s).
Proof. eapply client_keeps; [apply ema_writes |]. by apply (not_in_family FLatency). Qed.
Lemma balancer_success_keeps alpha strategy f i l now s : keeps k s (LoadBalancer.recordSuccess prefix alpha strategy f i l now s).
Proof. destruct strategy; cbn [LoadBalancer.recordSuccess]; try done. apply ema_keeps. Qed.
Lemma balancer_failure_keeps alpha penalty strategy f i now s : keeps k s (LoadBalancer.recordFailure prefix alpha penalty strategy f i now s).
Proof. destruct strategy; cbn [LoadBalancer.recordFailure]; try done. apply ema_keeps. Qed.
Lemma balancer_release_keeps strategy f i now s : keeps k s (LoadBalancer.release prefix strategy f i now s).
Proof.
  destruct strategy; cbn [LoadBalancer.release]; try done. eapply client_keeps; [apply lc_release_writes |]. by apply (not_in_family FConnections).
Qed.

Lemma stat_keeps config f name now s : CACHE_KEY_PREFIX config = prefix → keeps k s (bumpStat config f name now s).
Proof. intros Hp. eapply command_keeps_one; [done |]. unfold statKey. rewrite Hp. apply apart_stats. Qed.

Lemma cache_get_keeps lc sha JSON_parse config f1 f2 r now s : CACHE_KEY_PREFIX config = prefix →
  keeps k s (Cache.get lc sha JSON_parse config f1 f2 r now s).1.
Proof.
  intros Hp. unfold Cache.get. destruct (client_get f1 (entry_key lc sha config r) now s) as (x & -> & _).
  destruct x as [[| raw | | | | | |]|]; cbn [fst]; try (by apply stat_keeps); [| done].
  destruct (JSON_parse _) as [[]|]; cbn [fst]; try (by apply stat_keeps). done.
Qed.

Lemma cache_set_keeps lc sha config f r v ttl now s : CACHE_KEY_PREFIX config = prefix →
  keeps k s (Cache.set lc sha config f r v ttl now s).
Proof.
  intros Hp. unfold Cache.set. destruct (_ <? _); [done |].
  eapply command_keeps_one; [done |]. unfold entry_key. rewrite Hp. by apply (apart_family FEntry).
Qed.

(** A charge touches the counter of its key and month, and nothing else. *)
Lemma spend_keeps f1 f2 key cost now s : k ≠ spendKey prefix key now → keeps k s (addSpend prefix f1 f2 key cost now s).
Proof.
  intros Hne. unfold addSpend. destruct cost as [| |cost]; [done.. |]. destruct (Qle_bool cost 0); [done |].
  assert (H1 : keeps k s (client f1 (redis_call (INCRBYFLOAT (spendKey prefix key now) cost)) now s).1) by (by eapply command_keeps_one).
  destruct (client f1 _ _ _) as [s1 [r|e]]; [| exact H1]. etransitivity; [exact H1 |]. by eapply command_keeps_one.
Qed.
End Components.

(** ** The production wiring *)

(** No charge of the trace is to the counter [k]. *)
Definition uncharged (prefix k : string) (now : Z) (t : list event) : Prop :=
  Forall (λ x : string * js_number, k ≠ spendKey prefix x.1 now) (spends t).

(** An operation on the world that takes no time, and touches [k] only by
    charging it. *)
Definition spot (prefix k : string) (w w' : world) (t : list event) : Prop :=
  (uncharged prefix k (w_now w) t → keeps k (w_db w) (w_db w')) ∧ w_now w' = w_now w ∧ (w_fates w = [] → w_fates w' = []).

Section Production.
Context (cfg : Config) (host : Host) (k : string) `{!Apart (cfg_prefix cfg) k}.
Hypothesis one_prefix : CACHE_KEY_PREFIX (cfg_cache cfg) = cfg_prefix cfg.

Abbreviation spot := (spot (cfg_prefix cfg) k).

Lemma on_store_spot f w e : (∀ x now d, keeps k d (f x now d)) → spot w (on_store f w) [e].
Proof using.
  intros Hf. unfold on_store. split; [intros _; apply Hf |]. split; [done |]. cbn. by intros ->.
Qed.

Lemma breaker_spot {A} i (p : Z → prog A) w e : (∀ now, writes_within (cb_keys (cfg_prefix cfg) i) (p now)) →
  spot w (breaker_call p w).1 [e].
Proof using Apart0.
  intros Hp. unfold breaker_call. pose proof (breaker_keeps _ k i (fate w) (p (w_now w)) (w_now w) (w_db w) (Hp _)) as Hk.
  destruct (client _ _ _ _) as [d r]. split; [intros _; exact Hk |]. split; [done |]. cbn. by intros ->.
Qed.

(** Every operation of the router's dependencies, but the calls upstream. *)
Lemma production_spot : Respects spot (production cfg host).
Proof using Apart0 one_prefix.
  split; intros; cbn -[Footprint.spot]; try by (split; [| split]).
  - unfold wire_refresh. destruct (refresh_arrive _ _ _) as [s []]; [| destruct (refresh_finish _ _ _ _) as [s' r]..]; cbn [fst]; by (split; [| split]).
  - unfold wire_select. match goal with |- context [LoadBalancer.select ?a ?b ?c ?p ?st ?f ?l ?now ?n ?d] =>
      pose proof (select_keeps p k a b c st f l now n d) as Hs; destruct (LoadBalancer.select a b c p st f l now n d) as [[n' d'] r] end.
    split; [intros _; exact Hs |]. split; [done |]. cbn. by intros ->.
  - apply on_store_spot. intros. apply balancer_success_keeps, _.
  - apply on_store_spot. intros. apply balancer_failure_keeps, _.
  - apply on_store_spot. intros. apply balancer_release_keeps, _.
  - apply (breaker_spot i (λ now, CircuitBreaker.acquire (cfg_prefix cfg) (cfg_breaker cfg) i now)). intros. apply acquire_writes.
  - apply (breaker_spot i (λ _, CircuitBreaker.recordSuccess (cfg_prefix cfg) (cfg_breaker cfg) i)). intros. apply recordSuccess_writes.
  - apply (breaker_spot i (λ now, CircuitBreaker.recordFailure (cfg_prefix cfg) (cfg_breaker cfg) i now)). intros. apply recordFailure_writes.
  - apply (breaker_spot i (λ _, CircuitBreaker.release (cfg_prefix cfg) i)). intros. apply release_writes.
  - match goal with |- context [Cache.get ?a ?b ?c ?cf ?f ?f2 ?r ?now ?d] =>
      pose proof (cache_get_keeps (cfg_prefix cfg) k a b c cf f f2 r now d one_prefix) as Hs; destruct (Cache.get a b c cf f f2 r now d) as [d' x] end.
    split; [intros _; exact Hs |]. split; [done |]. cbn. by intros ->.
  - apply on_store_spot. intros. by apply (cache_set_keeps (cfg_prefix cfg)).
  - split; [done |]. split; [done |]. cbn. by intros ->.
  - split; [| split; [done |]; cbn; by intros ->]. intros Hk. apply list.Forall_cons_1 in Hk as [Hk _]. by apply spend_keeps.
Qed.
End Production.
