(* ===== verification/Ledger.v ===== *)
(** * The ledger: the spend counters against the request log

    [src/services/cost-tracker.ts] keeps the budget counters in Redis and the
    request log in PostgreSQL, and [src/services/router.ts] feeds both.  Over the
    production wiring, what a sequence of requests adds to each key's counter is
    the sum of the charges of its trace, which is the sum of the costs of the
    entries on the log, in flight to it, and dropped or failed on the way. *)

From Stdlib Require Import ZArith Lia Lqa QArith String.
From stdpp Require Import base gmap strings list fin_maps.
From S2P Require Import Prelude Redis Constants LoadBalancer Json Errors Types Provider Values CostTracker Registry Cache Auth Router Effects Wiring Footprint.
Open Scope Z_scope.

(** ** Months are intervals of time *)

(** The number of the month of a day, counted from March of year 0. *)
Definition era_month (doe : Z) : Z :=
  let yoe := (doe - doe / 1460 + doe / 36524 - doe / 146096) / 365 in
  12 * yoe + (5 * (doe - (365 * yoe + yoe / 4 - yoe / 100)) + 2) / 153.
Definition month_number (days : Z) : Z :=
  4800 * ((days + 719468) / 146097) + era_month ((days + 719468) mod 146097).
Definition month_numbered (n : Z) : Z * Z :=
  let m := if n mod 12 <? 10 then n mod 12 + 3 else n mod 12 - 9 in
  (n / 12 + (if m <=? 2 then 1 else 0), m).

Lemma month_numbered_inj a b : month_numbered a = month_numbered b → a = b.
Proof.
  unfold month_numbered. cbv zeta. pose proof (Z.mod_pos_bound a 12 eq_refl). pose proof (Z.mod_pos_bound b 12 eq_refl).
  pose proof (Z.div_mod a 12 ltac:(lia)). pose proof (Z.div_mod b 12 ltac:(lia)).
  set (x := a mod 12) in *. set (y := b mod 12) in *. set (p := a / 12) in *. set (q := b / 12) in *. clearbody x y p q.
  destruct (x <? 10) eqn:E1, (y <? 10) eqn:E2; intros [= H3 H4]; bool_props; try lia;
    revert H3; repeat case_match; bool_props; lia.
Qed.

(** The twelve months of a year, its days being at most 366. *)
Lemma month_of_year_bounds doy : 0 <= doy <= 365 → 0 <= (5 * doy + 2) / 153 <= 11.
Proof. intros H. split; [apply Z.div_pos; lia | apply Z.lt_succ_r, Z.div_lt_upper_bound; lia]. Qed.

Lemma era_month_bounds doe : 0 <= doe < 146097 → 0 <= era_month doe < 4800.
Proof.
  intros H. destruct (day_of_year_bounds doe H) as [Hy Hd]. unfold era_month. cbv zeta in *.
  pose proof (month_of_year_bounds _ Hd). lia.
Qed.

Lemma civil_month_number d : civil_month d = month_numbered (month_number d).
Proof.
  unfold civil_month, month_number, era_month. cbv zeta. set (z := d + 719468).
  destruct (day_of_year_bounds _ (Z.mod_pos_bound z 146097 eq_refl)) as [Hy Hd]. cbv zeta in Hy, Hd.
  set (doe := z mod 146097) in *. set (yoe := (doe - doe / 1460 + doe / 36524 - doe / 146096) / 365) in *.
  pose proof (month_of_year_bounds _ Hd) as Hm. set (mp := _ / 153) in *. clearbody mp yoe.
  unfold month_numbered. replace (4800 * (z / 146097) + (12 * yoe + mp)) with (mp + (yoe + z / 146097 * 400) * 12) by ring.
  rewrite Z.mod_add, Z.div_add by done. rewrite (Z.mod_small mp 12), (Z.div_small mp 12) by lia. reflexivity.
Qed.

(** The year of the era of a day, before the division by 365. *)
Lemma era_days_mono d d' : 0 <= d <= d' → d' < 146097 →
  d - d / 1460 + d / 36524 - d / 146096 <= d' - d' / 1460 + d' / 36524 - d' / 146096.
Proof.
  intros Hd Hd'. destruct (decide (d = d')) as [-> |]; [done |].
  assert (Hdiv : ∀ x b, 0 < b → b * (x / b) <= x < b * (x / b) + b).
  { intros x b Hb. pose proof (Z.div_mod x b ltac:(lia)). pose proof (Z.mod_pos_bound x b Hb). lia. }
  pose proof (Hdiv d 1460 eq_refl). pose proof (Hdiv d' 1460 eq_refl). pose proof (Hdiv d 36524 eq_refl).
  pose proof (Hdiv d' 36524 eq_refl). pose proof (Hdiv d 146096 eq_refl). pose proof (Hdiv d' 146096 eq_refl).
  set (a := d / 1460) in *. set (a' := d' / 1460) in *. set (b := d / 36524) in *. set (b' := d' / 36524) in *.
  set (c := d / 146096) in *. set (c' := d' / 146096) in *. clearbody a a' b b' c c'. clear Hdiv.
  assert (a' - a <= d' - d) by lia. assert (b <= b') by lia.
  assert (c = 0) as -> by lia. assert (c' = 0 ∨ c' = 1) as [-> | ->] by lia; lia.
Qed.

Lemma era_month_mono d d' : 0 <= d <= d' → d' < 146097 → era_month d <= era_month d'.
Proof.
  intros Hd Hd'. pose proof (era_days_mono d d' Hd Hd') as Hm.
  destruct (day_of_year_bounds d ltac:(lia)) as [Hy Hdoy]. destruct (day_of_year_bounds d' ltac:(lia)) as [Hy' Hdoy'].
  unfold era_month. cbv zeta in *. apply (Z.div_le_mono _ _ 365) in Hm; [| done].
  set (y := (d - d / 1460 + d / 36524 - d / 146096) / 365) in *. set (y' := (d' - d' / 1460 + d' / 36524 - d' / 146096) / 365) in *.
  clearbody y y'. destruct (decide (y = y')) as [<- | Hne].
  - pose proof (Z.div_le_mono (5 * (d - (365 * y + y / 4 - y / 100)) + 2) (5 * (d' - (365 * y + y / 4 - y / 100)) + 2) 153 eq_refl). lia.
  - pose proof (month_of_year_bounds _ Hdoy). pose proof (month_of_year_bounds _ Hdoy'). lia.
Qed.

Lemma month_number_mono d d' : d <= d' → month_number d <= month_number d'.
Proof.
  intros H. unfold month_number. set (a := d + 719468). set (b := d' + 719468).
  assert (Hab : a <= b) by (unfold a, b; lia). clearbody a b. clear H.
  pose proof (Z.mod_pos_bound a 146097 eq_refl) as Ha. pose proof (Z.mod_pos_bound b 146097 eq_refl) as Hb.
  pose proof (era_month_bounds _ Ha). pose proof (era_month_bounds _ Hb).
  pose proof (Z.div_mod a 146097 ltac:(lia)). pose proof (Z.div_mod b 146097 ltac:(lia)).
  destruct (decide (a / 146097 = b / 146097)) as [E | Hne]; [| lia].
  rewrite E. pose proof (era_month_mono (a mod 146097) (b mod 146097)). lia.
Qed.

(** Between two instants of a month there is no other. *)
Lemma month_convex t1 t t2 : t1 <= t <= t2 → month_of t1 = month_of t2 → month_of t = month_of t1.
Proof.
  unfold month_of. rewrite !civil_month_number. intros Ht E%month_numbered_inj. f_equal.
  pose proof (month_number_mono (t1 / MS_PER_DAY) (t / MS_PER_DAY) ltac:(apply Z.div_le_mono; [done | lia])).
  pose proof (month_number_mono (t / MS_PER_DAY) (t2 / MS_PER_DAY) ltac:(apply Z.div_le_mono; [done | lia])). lia.
Qed.

(** ** What a trace charges and logs *)

(** The charges of a key: what the counter adds up is the positive part. *)
Definition positive (c : js_number) : Q := match c with Finite q => if Qle_bool q 0 then 0 else q | _ => 0 end.
Definition due (key : string) (t : list event) : Q :=
  foldr (λ x q, if String.eqb x.1 key then positive x.2 + q else q)%Q 0%Q (spends t).

(** The costs of the entries logged for a key. *)
Definition entry_cost (l : RequestLogEntry) : Q := positive (log_costUsd l ?? Finite 0).
Definition entries_cost (key : string) (l : list RequestLogEntry) : Q :=
  foldr (λ l q, if bool_decide (log_apiKeyId l = Some key) then entry_cost l + q else q)%Q 0%Q l.
Definition logged_cost (key : string) (t : list event) : Q := entries_cost key (logs t).

Lemma due_app key t1 t2 : (due key (t1 ++ t2) == due key t1 + due key t2)%Q.
Proof.
  unfold due. rewrite spends_app. generalize (spends t1). intros l. induction l as [|x l IH]; cbn [app foldr]; [ring |].
  destruct (String.eqb _ _); [rewrite IH; ring | exact IH].
Qed.
Lemma entries_cost_app key l1 l2 : (entries_cost key (l1 ++ l2) == entries_cost key l1 + entries_cost key l2)%Q.
Proof.
  unfold entries_cost. induction l1 as [|x l IH]; cbn [app foldr]; [ring |]. case_bool_decide; [rewrite IH; ring | exact IH].
Qed.
#[export] Instance entries_cost_proper key : Proper (Permutation ==> Qeq) (entries_cost key).
Proof.
  intros l1 l2 H. induction H as [| x l1 l2 _ IH | x y l | l1 l2 l3 _ IH1 _ IH2]; unfold entries_cost in *; cbn [foldr] in *.
  - reflexivity.
  - case_bool_decide; by rewrite IH.
  - repeat case_bool_decide; ring.
  - by rewrite IH1, IH2.
Qed.
Lemma logged_cost_app key t1 t2 : (logged_cost key (t1 ++ t2) == logged_cost key t1 + logged_cost key t2)%Q.
Proof. unfold logged_cost. rewrite logs_app. apply entries_cost_app. Qed.

(** A trace that logs what it charges. *)
Definition balanced (t : list event) : Prop := ∀ key, (due key t == logged_cost key t)%Q.

Lemma balanced_app t1 t2 : balanced t1 → balanced t2 → balanced (t1 ++ t2).
Proof. intros H1 H2 key. by rewrite due_app, logged_cost_app, (H1 key), (H2 key). Qed.
Lemma balanced_silent t : silent t → balanced t.
Proof. intros (Hs & Hl & _) key. unfold due, logged_cost. by rewrite Hs, Hl. Qed.

Lemma balanced_entry ctx p m pt ct tt cost l status n e pre post :
  silent pre → spends post = [] → logs post = [] →
  balanced (pre ++ [Spent (apiKeyId ctx) cost; Logged (served_entry ctx p m pt ct tt cost l status n e)] ++ post).
Proof.
  intros H1 H2 H3. apply balanced_app; [by apply balanced_silent |].
  apply balanced_app; [| intros key; unfold due, logged_cost; by rewrite H2, H3].
  intros key. unfold due, logged_cost, entries_cost, entry_cost. cbn.
  destruct (String.eqb_spec (apiKeyId ctx) key) as [-> | Hne]; [by rewrite bool_decide_eq_true_2 |].
  by rewrite bool_decide_eq_false_2 by (by intros [= ?]).
Qed.

(** ** Requests *)

Inductive request :=
| ChatRequest (ctx : GatewayContext) (options : RouteOptions) (r : ChatCompletionRequest)
| StreamRequest (ctx : GatewayContext) (r : ChatCompletionRequest) (demand : option nat)
| EmbeddingsRequest (ctx : GatewayContext) (r : EmbeddingRequest).

Section Requests.
Context {W : Type} (deps : RouterDeps W).

(** A request, a stream being read as far as its client does. *)
Definition run_request (q : request) (w : W) : W * list event :=
  match q with
  | ChatRequest ctx options r => (chatCompletion deps r ctx options w).1
  | StreamRequest ctx r demand => ((let? (meta, generate) := prepareStream deps r ctx in generate demand) w).1
  | EmbeddingsRequest ctx r => (embeddings deps r ctx w).1
  end.

Context `{!LawfulBalancer deps}.

Lemma silent_budget k : silent [BudgetChecked k].
Proof using. done. Qed.

Lemma account_balanced ctx p m l n a errored : balanced (account_trace deps ctx p m l n a errored).
Proof using.
  unfold account_trace. destruct (refused _ _ _ _); [apply balanced_silent, silent_refused |].
  rewrite <- (app_nil_r [_; _]). apply balanced_entry; [apply silent_metrics | done..].
Qed.

Lemma stream_balanced r ctx demand p m first rest start n w :
  balanced (run_stream deps r ctx p m first rest start n demand w).1.2.
Proof using.
  destruct (decide (demand = Some O)) as [-> | Hd]; [by apply balanced_silent |].
  pose proof (run_stream_eq deps r ctx p m first rest start n demand w Hd) as H.
  destruct (stream_body _ _ _ _ _ w) as [[[w1 out] a] st]. destruct H as [w' ->]. apply account_balanced.
Qed.

Lemma request_balanced q w : balanced (run_request q w).2.
Proof using All.
  destruct q as [ctx options r | ctx r demand | ctx r]; cbn [run_request].
  - destruct (chat_run deps r ctx options w) as [(w' & e & ->) | (w1 & _ & _ & _ & [(w2 & w' & cached & _ & _ & l & Hc & _ & _ & ->) | (w2 & pre & _ & Hpre & _ & ->)])];
      [by apply balanced_silent | |].
    + intros key. unfold due, logged_cost, entries_cost, entry_cost. cbn. rewrite Hc. by case_bool_decide.
    + match goal with |- context [serve_chat deps r ctx options ?res ?el w2] => pose proof (serve_chat_run deps r ctx options res el w2) as Hs end.
      cbv zeta in Hs. destruct (ct_isOverBudget deps _ _ w2) as [w3 [|]]; [rewrite Hs; apply balanced_silent; by apply silent_app |].
      destruct Hs as (w4 & vs & x & _ & Hrun). destruct x as [[[p [resp latencyMs]] n] | e |]; [destruct (refused _ _ _ _) | | done]; rewrite Hrun; cbn [fst snd].
      * apply balanced_silent, silent_app; [done |]. apply (silent_app [_]); [done |]. apply silent_app; [apply silent_visits | apply silent_refused].
      * apply balanced_app; [by apply balanced_silent |]. apply (balanced_app [_]); [by apply balanced_silent |].
        apply balanced_app; [apply balanced_silent, silent_visits |]. unfold accounting. rewrite <- app_assoc.
        apply balanced_entry; [apply silent_metrics | by destruct (_ && _)..].
      * apply balanced_silent, silent_app; [done |]. apply (silent_app [_]); [done | apply silent_visits].
  - destruct (prepareStream_run deps r ctx w) as [(w' & t & e & E & _ & Ht) | (w1 & w2 & w3 & vs & x & _ & _ & _ & _ & Hrun)];
      unfold mbind_; [rewrite E; by apply balanced_silent |].
    assert (Hsil : ∀ t, silent t → silent (Refreshed :: BudgetChecked (apiKeyId ctx) :: visits_trace vs ++ t)).
    { intros t Ht. apply (silent_app [_; _]); [done |]. by apply silent_app; [apply silent_visits |]. }
    destruct x as [[[p [[first rest] start]] n] | e |]; [| | done].
    + destruct Hrun as (seconds & meta & [-> _]). match goal with |- context [run_stream deps r ctx p ?m first rest start n demand w3] =>
        pose proof (stream_balanced r ctx demand p m first rest start n w3) as Hb; destruct (run_stream deps r ctx p m first rest start n demand w3) as [[w4 t4] x] end.
      apply balanced_app; [| exact Hb]. by apply balanced_silent, Hsil.
    + rewrite Hrun. apply balanced_silent. rewrite <- (app_nil_r (visits_trace vs)). by apply Hsil.
  - destruct (embeddings_run deps r ctx w) as [(w' & t & e & -> & _ & Ht) | (w1 & w2 & w3 & vs & x & _ & _ & _ & _ & Hrun)];
      [by apply balanced_silent |].
    destruct x as [[[p [resp latencyMs]] n] | e |]; [cbv zeta in Hrun; destruct (refused _ _ _ _) | | done]; rewrite Hrun; cbn [fst snd].
    + apply balanced_silent, (silent_app [_; _]); [done |]. apply silent_app; [apply silent_visits | apply silent_refused].
    + apply (balanced_app [_; _]); [by apply balanced_silent |]. apply balanced_app; [apply balanced_silent, silent_visits |].
      unfold accounting. rewrite <- (app_nil_r [_; _]). apply balanced_entry; [apply silent_metrics | done..].
    + apply balanced_silent, (silent_app [_; _]); [done | apply silent_visits].
Qed.

End Requests.

(** ** The counter follows the trace *)

(** What only takes time. *)
Definition passes (w w' : world) : Prop :=
  w_db w' = w_db w ∧ w_fates w' = w_fates w ∧ w_now w <= w_now w' ∧ w_queue w' = w_queue w.

(** The upstream providers do not touch the gateway's store or its log queue. *)
Record upstream_apart (host : Host) : Prop := {
  chat_apart p r w : passes w (Wiring.chat host p r w).1;
  embed_apart p r w : passes w (Wiring.embed host p r w).1;
  chatStream_apart p r w : flows (λ x y _, passes x y) (Wiring.chatStream host p r w)
}.

Section Counter.
Context (cfg : Config) (host : Host) (key : string) (m : Z * Z).
Hypothesis one_prefix : CACHE_KEY_PREFIX (cfg_cache cfg) = cfg_prefix cfg.
Hypothesis apart : upstream_apart host.
Abbreviation prefix := (cfg_prefix cfg).
Abbreviation deps := (production cfg host).

(** From a world within month [m] whose store is reachable to a later one of
    the month: the counter of the month has moved by what the trace charges. *)
Definition metered (w w' : world) (t : list event) : Prop :=
  w_now w <= w_now w' ∧ (w_fates w = [] → w_fates w' = [] ∧
    (month_of (w_now w) = m → month_of (w_now w') = m →
     ∀ q, spent m (spendKey prefix key (w_now w)) q (w_db w) →
          spent m (spendKey prefix key (w_now w')) (q + due key t) (w_db w'))).

#[local] Instance metered_effect : Effect metered.
Proof.
  split.
  - intros w. split; [lia |]. intros Hf. split; [done |]. intros _ _ q Hq. eapply spent_equiv; [| exact Hq]. cbn. ring.
  - intros x y z t1 t2 [Ht1 H1] [Ht2 H2]. split; [lia |]. intros Hf. destruct (H1 Hf) as [Hf1 S1]. destruct (H2 Hf1) as [Hf2 S2].
    split; [done |]. intros Hx Hz q Hq. assert (Hy : month_of (w_now y) = m).
    { rewrite <- Hx. apply (month_convex _ _ (w_now z)); [lia | congruence]. }
    eapply spent_equiv; [| by apply S2, S1]. rewrite due_app. ring.
Qed.

(** The counters of two keys are two keys of the store. *)
Lemma spendKey_inj a b now : spendKey prefix a now = spendKey prefix b now → a = b.
Proof. unfold spendKey. rewrite !keys_same_prefix. apply (inj (λ x, x ++ _)%string). Qed.

(** Time within the month does not change the key of the counter. *)
Lemma spendKey_month t t' : month_of t = m → month_of t' = m → spendKey prefix key t = spendKey prefix key t'.
Proof. intros Ht Ht'. unfold spendKey. by rewrite (yearMonth_month t t') by congruence. Qed.

Lemma spot_metered w w' t : spot prefix (spendKey prefix key (w_now w)) w w' t → Forall (λ x, x.1 ≠ key) (spends t) → metered w w' t.
Proof.
  intros (Hk & Hn & Hf) Ht. split; [lia |]. intros Hw. split; [by apply Hf |]. intros _ _ q Hq. rewrite Hn.
  assert (Hd : due key t = 0%Q).
  { unfold due. clear -Ht. induction Ht as [|x l Hx Hl IH]; [done |]. cbn [foldr].
    destruct (String.eqb_spec x.1 key); [done | exact IH]. }
  rewrite Hd. eapply spent_equiv; [symmetry; apply Qplus_0_r |]. unfold spent in *. rewrite Hk; [exact Hq |].
  eapply Forall_impl; [exact Ht |]. intros x Hx E. by apply Hx, eq_sym, (spendKey_inj _ _ (w_now w)).
Qed.

Lemma passes_metered w w' e : passes w w' → (spends e = []) → metered w w' e.
Proof.
  intros (Hd & Hf & Hn & _) He. split; [done |]. intros Hw. split; [by rewrite Hf |]. intros H1 H2 q Hq. unfold due. rewrite He. cbn [foldr].
  eapply spent_equiv; [symmetry; apply Qplus_0_r |]. by rewrite (spendKey_month _ (w_now w)), Hd.
Qed.

Lemma production_metered : Respects metered deps.
Proof using one_prefix.
  pose proof (λ w, production_spot cfg host (spendKey prefix key (w_now w)) one_prefix) as P.
  assert (S : ∀ w w' t, spends t = [] → spot prefix (spendKey prefix key (w_now w)) w w' t → metered w w' t)
    by (intros w w' t Ht Hs; apply spot_metered; [exact Hs | by rewrite Ht]).
  split; [intros w n | intros w | intros l w | intros i l w | intros i w | intros i w | intros i w | intros i w | intros i w
    | intros i w | intros r w | intros r v w | intros k b w | intros k c w | intros e w].
  - apply S; [done | exact (on_metric _ _ (P w) w n)].
  - apply S; [done | exact (on_refresh _ _ (P w) w)].
  - apply S; [by destruct (lb_select deps l w).2 | exact (on_select _ _ (P w) l w)].
  - apply S; [done | exact (on_balancer_success _ _ (P w) i l w)].
  - apply S; [done | exact (on_balancer_failure _ _ (P w) i w)].
  - apply S; [done | exact (on_slot_release _ _ (P w) i w)].
  - apply S; [done | exact (on_acquire _ _ (P w) i w)].
  - apply S; [done | exact (on_breaker_success _ _ (P w) i w)].
  - apply S; [done | exact (on_breaker_failure _ _ (P w) i w)].
  - apply S; [done | exact (on_breaker_release _ _ (P w) i w)].
  - apply S; [done | exact (on_cache_get _ _ (P w) r w)].
  - apply S; [done | exact (on_cache_set _ _ (P w) r v w)].
  - apply S; [done | exact (on_budget _ _ (P w) k b w)].
  - destruct (decide (k = key)) as [-> | Hne];
      [| apply spot_metered; [exact (on_spend _ _ (P w) k c w) | by apply list.Forall_cons_2, list.Forall_nil_2]].
    split; [done |]. intros Hf. cbn [ct_addSpend production]. split; [cbn; by rewrite Hf |]. intros Ht _ q Hq.
    unfold fate, fate2. rewrite Hf. cbn [head tail coalesce w_now w_db set_db].
    unfold due. cbn [spends omap list_omap foldr fst snd]. rewrite String.eqb_refl. destruct c as [| |c]; [eapply spent_equiv; [| exact Hq]; cbn [positive]; ring.. |].
    eapply spent_equiv; [| apply (addSpend_spent prefix key m); [exact Ht | exact Hq]]. cbn. ring.
  - apply S; [done | exact (on_log _ _ (P w) e w)].
Qed.

(** *** The log queue *)

(** What the trace logs was handed to the queue, in order. *)
Definition queued (w w' : world) (t : list event) : Prop := w_queue w' = foldl (λ q e, enqueueRequest e q) (w_queue w) (logs t).

#[local] Instance queued_effect : Effect queued.
Proof. split; [done |]. unfold queued. intros x y z t1 t2 H1 H2. by rewrite logs_app, foldl_app, <- H1. Qed.

Lemma breaker_call_queue {A} (p : Z → prog A) w : w_queue (breaker_call p w).1 = w_queue w.
Proof using. unfold breaker_call. by destruct (client _ _ _ _). Qed.

Lemma production_queued : Respects queued deps.
Proof using.
  split; intros; unfold queued; try reflexivity;
    cbn [production refreshIfStale lb_select cb_acquire cb_recordSuccess cb_recordFailure cb_release cache_get ignore_result fst];
    try (by rewrite breaker_call_queue).
  - unfold wire_refresh. destruct (refresh_arrive _ _ _) as [r []]; [done | |];
      (destruct (refresh_finish _ _ _ _); done).
  - unfold wire_select. destruct (LoadBalancer.select _ _ _ _ _ _ _ _ _ _) as [[c d] x]. cbn [fst snd]. by destruct x as [|[]].
  - by destruct (Cache.get _ _ _ _ _ _ _ _ _).
Qed.

Lemma passes_queued w w' e : passes w w' → logs e = [] → queued w w' e.
Proof using. intros (_ & _ & _ & Hq) He. unfold queued. by rewrite He. Qed.

(** What a handler does, when time passing does it and the dependencies do. *)
Lemma request_effect (R : world → world → list event → Prop) `{!Effect R} q : random_ok (secureRandomInt host) → Respects R deps →
  (∀ w w' e, passes w w' → spends e = [] → logs e = [] → R w w' e) →
  ∀ w, R w (run_request deps q w).1 (run_request deps q w).2.
Proof using apart.
  intros Hr HR Hpass w. pose proof (production_lawful cfg host Hr) as Hl.
  assert (Hp : ∀ A (op : Provider → world → world * result thrown A), (∀ p w, passes w (op p w).1) →
    ∀ P, calls_with R P op (λ _, True)).
  { intros A op Hop P p x _. split; [| by destruct (op p x).2]. by apply Hpass. }
  destruct q as [ctx options r | ctx r demand | ctx r]; cbn [run_request].
  - rewrite chat_resolved. refine (proj1 (resolved_effect R deps HR _ _ _ (λ _, True) (λ res, _) w)).
    apply chat_rest_effect; [apply _ | done.. | apply Hp]. intros. apply apart.
  - rewrite (stream_resolved deps r ctx demand w).
    refine (proj1 (resolved_effect R deps HR _ _ _ (λ _, True) (λ res, _) w)).
    apply stream_rest_effect; [apply _ | done.. |].
    intros p x _. unfold open_stream. pose proof (chatStream_apart host apart p (with_stream_usage r (canonicalModel res)) x) as Hs.
    cbn [provider_chatStream production]. destruct (Wiring.chatStream host p _ x) as [step | step e | step c rest];
      cbn [flows next fst snd] in *; [| by split; [apply Hpass |] |].
    + split; [by apply Hpass |]. intros y. by apply Hpass.
    + destruct Hs as [Hs Hrest]. split; [by apply Hpass |]. clear -Hrest Hpass.
      induction rest as [st | st x0 | st c0 rest IH]; cbn [flows] in *; [intros; by apply Hpass.. |].
      destruct Hrest as [Hs Hr]. split; [intros; by apply Hpass | by apply IH].
  - rewrite embeddings_resolved. refine (proj1 (resolved_effect R deps HR _ _ _ (λ _, True) (λ res, _) w)).
    apply embeddings_rest_effect; [apply _ | done.. | apply Hp]. intros. apply apart.
Qed.

(** *** Requests, and the writes that settle between them *)

Inductive activity := Serve (q : request) | Settles (i : nat) (inserted : bool).

Definition settle_write (i : nat) (inserted : bool) (w : world) : world :=
  World (w_db w) (w_now w) (w_counters w) (w_registry w) (settle i inserted (w_queue w)) (w_fates w).

Definition run_activity (a : activity) (w : world) : world * list event :=
  match a with Serve q => run_request deps q w | Settles i inserted => (settle_write i inserted w, []) end.

Fixpoint run_activities (l : list activity) (w : world) : world * list event :=
  match l with
  | [] => (w, [])
  | a :: l' => let '(w1, t1) := run_activity a w in let '(w2, t2) := run_activities l' w1 in (w2, (t1 ++ t2)%list)
  end.

(** Whenever a request is served, the queue has room for what it logs. *)
Fixpoint has_room (l : list activity) (w : world) : Prop :=
  match l with
  | [] => True
  | a :: l' =>
      let '(w1, t1) := run_activity a w in
      (length (pendingWrites (w_queue w)) + length (logs t1) <= MAX_PENDING_LOG_WRITES)%nat ∧ has_room l' w1
  end.

(** From one state of the queue to another: every entry that came is still there,
    or is one of as many as were dropped or failed. *)
Definition conserved (q q' : queue) (l : list RequestLogEntry) : Prop := ∃ lost,
  (persisted q' ++ pendingWrites q' ++ lost ≡ₚ persisted q ++ pendingWrites q ++ l)%list ∧
  Z.of_nat (length lost) = dropped q' + failed q' - (dropped q + failed q).

Lemma conserved_refl q : conserved q q [].
Proof using. exists []. split; [done |]. simpl. lia. Qed.
Lemma conserved_trans q1 q2 q3 l1 l2 : conserved q1 q2 l1 → conserved q2 q3 l2 → conserved q1 q3 (l1 ++ l2).
Proof using.
  intros (x1 & P1 & H1) (x2 & P2 & H2). exists (x1 ++ x2)%list. split; [| rewrite length_app; lia].
  rewrite (assoc_L (++)%list (persisted q1)), (assoc_L (++)%list _ l1), <- (assoc_L (++)%list (persisted q1)), <- P1, <- !(assoc_L (++)%list).
  rewrite (Permutation_app_comm x1 x2), (assoc_L (++)%list (pendingWrites q3)), (assoc_L (++)%list (persisted q3)), P2.
  rewrite <- !(assoc_L (++)%list). do 2 f_equiv. apply Permutation_app_comm.
Qed.

Lemma enqueue_conserved l : ∀ q, let q' := foldl (λ q e, enqueueRequest e q) q l in
  conserved q q' l ∧ ((length (pendingWrites q) + length l <= MAX_PENDING_LOG_WRITES)%nat → dropped q' = dropped q).
Proof using.
  induction l as [|e l IH]; intros q; cbv zeta; cbn [foldl]; [by split; [apply conserved_refl |] |].
  destruct (IH (enqueueRequest e q)) as [Hc Hd]. cbv zeta in Hc, Hd. split.
  - apply (conserved_trans _ (enqueueRequest e q) _ [e]); [| exact Hc]. unfold enqueueRequest.
    destruct (_ <=? _)%nat; [exists [e] | exists []]; cbn [persisted pendingWrites dropped failed length];
      (split; [by rewrite ?app_nil_r | lia]).
  - cbn [length]. intros Hroom. unfold enqueueRequest in Hd at 1 3. unfold enqueueRequest at 2.
    destruct (Nat.leb_spec MAX_PENDING_LOG_WRITES (length (pendingWrites q))); [lia |].
    cbn [pendingWrites dropped] in Hd. unfold enqueueRequest in Hd. rewrite (proj2 (Nat.leb_gt _ _)) in Hd by done.
    apply Hd. cbn [pendingWrites]. rewrite length_app. simpl. lia.
Qed.

Lemma settle_conserved i inserted q : conserved q (settle i inserted q) [] ∧ dropped (settle i inserted q) = dropped q.
Proof using.
  unfold settle, recordRequest. destruct (pendingWrites q !! i) as [e|] eqn:E; [| by split; [apply conserved_refl |]].
  pose proof (delete_Permutation _ _ _ E) as P.
  destruct inserted; (split; [| done]); [exists [] | exists [e]]; cbn [persisted pendingWrites dropped failed length];
    (split; [| lia]); rewrite ?app_nil_r.
  - rewrite <- (assoc_L (++)%list). f_equiv. symmetry. exact P.
  - f_equiv. etransitivity; [apply Permutation_app_comm | symmetry; exact P].
Qed.

Hypothesis random : random_ok (secureRandomInt host).

Lemma activity_metered a w : metered w (run_activity a w).1 (run_activity a w).2.
Proof using one_prefix apart random.
  destruct a as [q | i b]; cbn [run_activity].
  - apply (request_effect metered q random production_metered). intros x y e H1 H2 _. by apply passes_metered.
  - split; [done |]. intros Hf. split; [done |]. intros _ _ q Hq. eapply spent_equiv; [| exact Hq]. cbn. ring.
Qed.

Lemma activity_conserved a w : let x := run_activity a w in
  conserved (w_queue w) (w_queue x.1) (logs x.2) ∧
  ((length (pendingWrites (w_queue w)) + length (logs x.2) <= MAX_PENDING_LOG_WRITES)%nat → dropped (w_queue x.1) = dropped (w_queue w)).
Proof using apart random.
  destruct a as [q | i b]; cbv zeta; cbn [run_activity].
  - pose proof (request_effect queued q random production_queued (λ x y e H1 _ H3, passes_queued x y e H1 H3) w) as Hq.
    rewrite Hq. apply enqueue_conserved.
  - cbn [fst snd w_queue settle_write]. destruct (settle_conserved i b (w_queue w)) as [Hc Hd]. by split.
Qed.

Lemma activities_run l : ∀ w, let x := run_activities l w in
  metered w x.1 x.2 ∧ balanced x.2 ∧ conserved (w_queue w) (w_queue x.1) (logs x.2) ∧
  (has_room l w → dropped (w_queue x.1) = dropped (w_queue w)).
Proof using one_prefix apart random.
  pose proof (production_lawful cfg host random) as Hl.
  induction l as [|a l IH]; intros w; cbv zeta; cbn [run_activities has_room].
  { split; [apply (effect_refl (Effect := metered_effect)) |]. split; [by apply balanced_silent |]. split; [apply conserved_refl | done]. }
  pose proof (activity_metered a w) as Hm. pose proof (activity_conserved a w) as [Hc Hd].
  assert (Hb : balanced (run_activity a w).2) by (destruct a; [by apply request_balanced | by apply balanced_silent]).
  destruct (run_activity a w) as [w1 t1]. specialize (IH w1). cbv zeta in IH. destruct (run_activities l w1) as [w2 t2].
  cbn [fst snd] in *. destruct IH as (M2 & B2 & C2 & D2). split; [by eapply (effect_trans (Effect := metered_effect)) |].
  split; [by apply balanced_app |]. rewrite logs_app. split; [by eapply conserved_trans |].
  intros [H1 H2]. rewrite (D2 H2). by apply Hd.
Qed.
End Counter.

(** ** Theorem *)


(** Three chat completions of two keys, the first provider failing; the first write
    is inserted, the second fails, the third is in flight. *)
Definition other_context : GatewayContext :=
  {| apiKeyId := "other"; ownerId := None; ctx_name := None; Auth.rpmLimit := 60; Auth.tpmLimit := 60; monthlyBudgetUsd := None; allowedModels := None;
     expiresAtMs := None |}.
Definition sample_chat_of (ctx : GatewayContext) : activity :=
  Serve (ChatRequest ctx {| bypassCache := false |} (with_model (sample_chat 1 7 [] []) "m")).
Definition sample_activities : list activity :=
  [sample_chat_of sample_context; Settles 0 true; sample_chat_of other_context; Settles 0 false; sample_chat_of sample_context].


(** The sample requests are charged for. *)
Example sample_requests_cost :
  let x := run_activities sample_config sample_host sample_activities boot in
  Qle_bool (due (apiKeyId sample_context) x.2) 0 = false ∧ Qle_bool (due "other" x.2) 0 = false ∧
  length (pendingWrites (w_queue x.1)) = 1%nat ∧ length (persisted (w_queue x.1)) = 1%nat.
Proof. by vm_compute. Qed.
