(* ===== verification/Overspend.v ===== *)
(** * Concurrent requests against one budget

    The budget gate reads the counter before a request is served and the charge
    is added after ([enforceBudget], [addSpend] in [src/services/router.ts]), so
    requests in flight at once can pass the gate together.  The two operations
    of any number of requests of one key, on any number of gateway processes
    over one store, interleaved in any order with everything else that happens:
    how far past the budget the month's spend can get. *)

From Stdlib Require Import ZArith Lia Lqa QArith String.
From stdpp Require Import base gmap strings list fin_maps relations.
From S2P Require Import Prelude Redis Constants LoadBalancer Json Errors Types Provider Values CostTracker Registry Cache Auth Router Effects Wiring Footprint Ledger.
Open Scope Z_scope.

Section Overspend.
Context (cfg : Config) (host : Host) (context : GatewayContext).
(** At most [bound] requests of the key in flight, each costing at most [most]. *)
Context (m : Z * Z) (bound : nat) (most : Q).
Abbreviation prefix := (cfg_prefix cfg).
Abbreviation deps := (production cfg host).
Abbreviation key := (apiKeyId context).

(** The store as the processes share it, and how many requests of the key are
    past the gate and not yet charged. *)
Definition ledger : Type := world * nat.

Inductive step : ledger → ledger → Prop :=
| Admits w w' t k : (k < bound)%nat → enforceBudget deps context w = (w', t, Ret tt) → step (w, k) (w', S k)
| Refuses w w' t e k : enforceBudget deps context w = (w', t, Throw e) → step (w, k) (w', k)
| Charges w w' t c k : (positive c <= most)%Q → addSpend_ deps key c w = (w', t, Ret tt) → step (w, S k) (w', k)
| Fails w k : step (w, S k) (w, k)
| Elsewhere w w' t k : metered cfg key m w w' t → Forall (λ x, x.1 ≠ key) (spends t) →
    month_of (w_now w') = m → step (w, k) (w', k).

(** The requests in flight are covered: nothing was admitted yet, or what was
    charged and what may still be is within the bound. *)
Definition covered (B : Q) (x : ledger) : Prop :=
  let '(w, k) := x in
  w_fates w = [] ∧ month_of (w_now w) = m ∧
  ∃ q, spent m (spendKey prefix key (w_now w)) q (w_db w) ∧
    ((k = O ∧ q == 0) ∨ q + inject_Z (Z.of_nat k) * most < B + inject_Z (Z.of_nat bound) * most)%Q.

(** The gate, with the store reachable. *)
Lemma gate_run w B q : w_fates w = [] → month_of (w_now w) = m → monthlyBudgetUsd context = Some B →
  spent m (spendKey prefix key (w_now w)) q (w_db w) →
  ∃ t, enforceBudget deps context w =
    (w, t, if Qle_bool B q then Throw (TGateway (InsufficientQuotaError None no_options)) else Ret tt).
Proof using.
  intros Hf Hm HB Hq. destruct (read_spent prefix key m _ _ _ Hm Hq) as (v & Hv & E). rewrite budget_run.
  cbn [ct_isOverBudget production]. unfold isOverBudget, fate. rewrite HB, Hf. cbn [head coalesce]. rewrite Hv.
  assert (set_db 1 (w_db w) w = w) as -> by (destruct w; cbn in *; by subst).
  assert (Qle_bool B v = Qle_bool B q) as ->.
  { apply eq_true_iff_eq. rewrite !Qle_bool_iff. by rewrite E. }
  destruct (Qle_bool B q); by eexists.
Qed.

(** A charge, with the store reachable. *)
Lemma charge_run w c q : w_fates w = [] → month_of (w_now w) = m → spent m (spendKey prefix key (w_now w)) q (w_db w) →
  ∃ w' t, addSpend_ deps key c w = (w', t, Ret tt) ∧ w_fates w' = [] ∧ w_now w' = w_now w ∧
    spent m (spendKey prefix key (w_now w)) (q + positive c) (w_db w').
Proof using.
  intros Hf Hm Hq. eexists _, _. split; [reflexivity |]. cbn [ct_addSpend production]. unfold fate, fate2. rewrite Hf.
  split; [cbn; by rewrite Hf |]. split; [done |]. destruct c as [| |c]; [eapply spent_equiv; [| exact Hq]; cbn [positive]; ring.. |].
  exact (addSpend_spent prefix key m _ c q _ Hm Hq).
Qed.

Hypothesis most_nonneg : (0 <= most)%Q.

Lemma inject_succ k : (inject_Z (Z.of_nat (S k)) == inject_Z (Z.of_nat k) + 1)%Q.
Proof using. rewrite Nat2Z.inj_succ, <- Z.add_1_r, inject_Z_plus. reflexivity. Qed.

(** One slot more or less in flight. *)
Lemma slots_le k : (k <= bound)%nat → (inject_Z (Z.of_nat k) * most <= inject_Z (Z.of_nat bound) * most)%Q.
Proof using most_nonneg.
  intros H. apply Qmult_le_compat_r; [| exact most_nonneg]. rewrite <- Zle_Qle. lia.
Qed.

Lemma step_covered B x y : monthlyBudgetUsd context = Some B → step x y → covered B x → covered B y.
Proof using most_nonneg.
  intros HB Hs. destruct Hs as [w w' t k Hk E | w w' t e k E | w w' t c k Hc E | w k | w w' t k Hm Ht Hmon];
    intros (Hf & Hmo & q & Hq & Hcov).
  - destruct (gate_run w B q Hf Hmo HB Hq) as [t' E']. rewrite E' in E. destruct (Qle_bool B q) eqn:Eb; [done |].
    injection E as <- <-. split; [done |]. split; [done |]. exists q. split; [done |]. right.
    assert (q < B)%Q by (apply Qnot_le_lt; rewrite <- Qle_bool_iff; by rewrite Eb). pose proof (slots_le (S k) ltac:(lia)). lra.
  - destruct (gate_run w B q Hf Hmo HB Hq) as [t' E']. rewrite E' in E. destruct (Qle_bool B q); [| done].
    injection E as <- _ _. split; [done |]. split; [done |]. by exists q.
  - destruct (charge_run w c q Hf Hmo Hq) as (w1 & t1 & E1 & Hf1 & Hn1 & Hq1). rewrite E1 in E. injection E as <- _.
    split; [done |]. split; [by rewrite Hn1 |]. rewrite Hn1. exists (q + positive c)%Q. split; [done |]. right.
    destruct Hcov as [[? _] | Hcov]; [done |]. rewrite inject_succ in Hcov. lra.
  - split; [done |]. split; [done |]. exists q. split; [done |]. destruct Hcov as [[? _] | Hcov]; [done |]. right.
    rewrite inject_succ in Hcov. lra.
  - destruct Hm as [_ Hm]. destruct (Hm Hf) as [Hf' Hs]. split; [done |]. split; [done |].
    exists (q + due key t)%Q. split; [by apply Hs |].
    assert (due key t = 0%Q) as ->.
    { unfold due. clear -Ht. induction Ht as [|x l Hx Hl IH]; [done |]. cbn [foldr]. by destruct (String.eqb_spec x.1 key). }
    destruct Hcov as [[-> Hz] | Hcov]; [left; split; [done | lra] | right; lra].
Qed.

Lemma steps_covered B x y : monthlyBudgetUsd context = Some B → rtc step x y → covered B x → covered B y.
Proof using most_nonneg. intros HB. induction 1; intros Hc; [done |]. eauto using step_covered. Qed.

(** ** The bound is met *)

Lemma admit_all B w k : w_fates w = [] → month_of (w_now w) = m → monthlyBudgetUsd context = Some B → (0 < B)%Q →
  spent m (spendKey prefix key (w_now w)) 0 (w_db w) → (k <= bound)%nat → rtc step (w, O) (w, k).
Proof using.
  intros Hf Hm HB Hpos Hq. induction k as [|k IH]; intros Hk; [done |]. apply rtc_r with (w, k); [apply IH; lia |].
  destruct (gate_run w B 0 Hf Hm HB Hq) as [t E]. assert (Qle_bool B 0 = false) as Eb.
  { apply not_true_iff_false. rewrite Qle_bool_iff. lra. }
  rewrite Eb in E. by eapply Admits.
Qed.

Lemma charge_all k : ∀ w q, w_fates w = [] → month_of (w_now w) = m →
  spent m (spendKey prefix key (w_now w)) q (w_db w) →
  ∃ w', rtc step (w, k) (w', O) ∧ w_fates w' = [] ∧ w_now w' = w_now w ∧
    spent m (spendKey prefix key (w_now w)) (q + inject_Z (Z.of_nat k) * most) (w_db w').
Proof using most_nonneg.
  induction k as [|k IH]; intros w q Hf Hm Hq.
  - exists w. split_and!; [done.. |]. eapply spent_equiv; [| exact Hq]. cbn. ring.
  - destruct (charge_run w most q Hf Hm Hq) as (w1 & t & E & Hf1 & Hn1 & Hq1).
    destruct (IH w1 (q + positive most)%Q) as (w2 & Hr & Hf2 & Hn2 & Hq2); [done | by rewrite Hn1 | by rewrite Hn1 |].
    assert (positive most == most)%Q as Hpos.
    { cbn [positive]. destruct (Qle_bool most 0) eqn:E0; [| done]. apply Qle_bool_iff in E0. lra. }
    exists w2. split; [eapply rtc_l; [| exact Hr]; eapply Charges; [rewrite Hpos; apply Qle_refl | exact E] |].
    split; [done |]. split; [by rewrite Hn2, Hn1 |]. rewrite Hn1 in Hq2. eapply spent_equiv; [| exact Hq2].
    rewrite inject_succ, Hpos. ring.
Qed.
End Overspend.

(** ** Theorem *)

(** C7: The overshoot of a budget is bounded by the concurrency times the cost
    of a request, and no better. However the gate checks, charges and failures
    of the requests of one key interleave, across processes and with anything
    else that happens in the month, as long as at most [bound] are in flight and
    none costs more than [most]: the month's spend and what is still in flight
    stay below the budget plus [bound] times [most]; once the spend reaches the
    budget every further request is refused. And [bound] requests that meet at
    the gate do spend [bound] times [most], however small the budget is. *)
Theorem overspend_bounded cfg host context bound most B w0 :
  monthlyBudgetUsd context = Some B → (0 < B)%Q → (0 <= most)%Q →
  w_fates w0 = [] → w_db w0 !! spendKey (cfg_prefix cfg) (apiKeyId context) (w_now w0) = None →
  let spend w := getMonthlySpendUsd (cfg_prefix cfg) Up (apiKeyId context) (w_now w) (w_db w) in
  let reaches := rtc (step cfg host context (month_of (w_now w0)) bound most) (w0, O) in
  (∀ w k, reaches (w, k) → ∃ v, spend w = Some v ∧
     (v + inject_Z (Z.of_nat k) * most < B + inject_Z (Z.of_nat bound) * most)%Q ∧
     ((B <= v)%Q → (enforceBudget (production cfg host) context w).2 = Throw (TGateway (InsufficientQuotaError None no_options)))) ∧
  ∃ w v, reaches (w, O) ∧ spend w = Some v ∧ (v == inject_Z (Z.of_nat bound) * most)%Q.
Proof.
  intros HB Hpos Hmost Hf Hk spend reaches. set (m := month_of (w_now w0)) in *.
  assert (Hs : spent m (spendKey (cfg_prefix cfg) (apiKeyId context) (w_now w0)) 0 (w_db w0)) by (left; by split).
  split.
  - intros w k Hr. pose proof (steps_covered cfg host context m bound most Hmost B _ _ HB Hr) as Hc.
    destruct Hc as (Hfw & Hm & q & Hq & Hcov); [split; [done |]; split; [done |]; exists 0%Q; split; [done | by left] |].
    destruct (read_spent (cfg_prefix cfg) (apiKeyId context) m _ q _ Hm Hq) as (v & Hv & E).
    exists v. split; [exact Hv |]. split.
    + pose proof (slots_le bound most Hmost 0 ltac:(lia)) as H0. change (inject_Z (Z.of_nat 0)) with 0%Q in H0.
      destruct Hcov as [[-> Hz] | Hcov]; [change (inject_Z (Z.of_nat 0)) with 0%Q |]; lra.
    + intros Hle. destruct (gate_run cfg host context m w B q Hfw Hm HB Hq) as [t ->]. cbn [snd].
      by rewrite (proj2 (Qle_bool_iff B q)) by (by rewrite <- E).
  - pose proof (admit_all cfg host context m bound most B w0 bound Hf eq_refl HB Hpos Hs (Nat.le_refl _)) as Ha.
    destruct (charge_all cfg host context m bound most Hmost bound w0 0 Hf eq_refl Hs) as (w & Hr & Hfw & Hn & Hq).
    rewrite <- Hn in Hq. destruct (read_spent (cfg_prefix cfg) (apiKeyId context) m (w_now w) _ _ ltac:(by rewrite Hn) Hq) as (v & Hv & E).
    exists w, v. split; [exact (transitivity Ha Hr) |]. split; [exact Hv |]. rewrite E. ring.
Qed.

Definition budgeted_context : GatewayContext :=
  {| apiKeyId := "k"; ownerId := None; ctx_name := None; Auth.rpmLimit := 60; Auth.tpmLimit := 60; monthlyBudgetUsd := Some (1 # 100);
     allowedModels := None; expiresAtMs := None |}.

(** Five requests of up to a dollar each, against a budget of one cent. *)
Lemma overspend_bounded_witness : ∃ w v,
  rtc (step sample_config sample_host budgeted_context (2023, 11) 5 1) (boot, O) (w, O) ∧
  getMonthlySpendUsd "gw:" Up "k" (w_now w) (w_db w) = Some v ∧ (v == 5)%Q.
Proof.
  refine (proj2 (overspend_bounded sample_config sample_host budgeted_context 5 1 (1 # 100) boot _ _ _ _ _)); done.
Defined.
