(* ===== verification/Http.v ===== *)
(** * The user-facing routes ([src/routes/], [src/app.ts])

    The handlers of [POST /v1/chat/completions] (buffered and streaming),
    [POST /v1/embeddings] and [GET /v1/models], with the authentication hook
    before them and the error handler after them: from a request to its reply.
    The router's dependencies, the rate limiter and the authentication are
    operations on the same world. *)

From Stdlib Require Import ZArith Lia QArith Qround String Ascii.
From stdpp Require Import base strings list.
From S2P Require Import Prelude Numerals Constants Json Errors ErrorHandler Types Tokens Stream RateLimiter.
From S2P Require Import Provider Registry Cache Auth Router.
Open Scope Z_scope.

(** ** Headers *)

Definition cache_status_str (c : CacheStatus) : string :=
  match c with HIT => "HIT" | MISS => "MISS" | BYPASS => "BYPASS" | SKIP => "SKIP" end.

Definition isBypassCache (header : option string) : bool :=
  match header with Some h => String.eqb (to_lower h) "no-cache" | None => false end.

(** [Math.round]. *)
Definition js_round (q : Q) : Z := Qfloor (q + (1 # 2)).

Abbreviation header_list := (list (string * string)).

Definition gatewayHeaderObject (meta : RouterMeta) (requestId : string) : header_list :=
  ([(HEADERS.REQUEST_ID, requestId);
    (HEADERS.GATEWAY_MODEL, meta_model meta);
    (HEADERS.GATEWAY_LATENCY_MS, dec (js_round (meta_latencyMs meta)));
    (HEADERS.GATEWAY_CACHE_STATUS, cache_status_str (meta_cacheStatus meta));
    (HEADERS.GATEWAY_FAILOVER_COUNT, dec (meta_failoverCount meta))] ++
   match meta_provider meta with Some p => [(HEADERS.GATEWAY_PROVIDER, p)] | None => [] end)%list.

Definition rateLimitHeaderObject (r : RateLimitResult) : header_list :=
  [(HEADERS.RATELIMIT_LIMIT, dec (rl_limit r));
   (HEADERS.RATELIMIT_REMAINING, dec (rl_remaining r));
   (HEADERS.RATELIMIT_RESET, dec (rl_resetUnixSec r))].

(** ** Request ids *)

Definition safe_id_char (c : ascii) : bool :=
  let n := nat_of_ascii c in
  ((65 <=? n)%nat && (n <=? 90)%nat) || ((97 <=? n)%nat && (n <=? 122)%nat) || ((48 <=? n)%nat && (n <=? 57)%nat) ||
  (n =? 46)%nat || (n =? 95)%nat || (n =? 45)%nat.
(** [SAFE_ID_RE]. *)
Definition safe_id (s : string) : bool :=
  (1 <=? String.length s)%nat && (String.length s <=? 128)%nat && forallb safe_id_char (string_chars s).

Definition genRequestId (incoming : option string) (randomUUID : string) : string :=
  match incoming with Some i => if safe_id i then i else randomUUID | None => randomUUID end.

(** ** Replies *)

(** A JSON reply, or a stream of frames on the raw socket. *)
Inductive http_reply :=
| JsonReply (status : Z) (headers : header_list) (body : json)
| SseReply (headers : header_list) (frames : list string).

(** The error handler on a reply whose headers are not sent yet. *)
Definition error_reply (hs : header_list) (e : thrown) : http_reply :=
  match errorHandler e false with
  | SendJson status extra body => JsonReply status (hs ++ extra)%list body
  | EndSocket => SseReply hs []
  end.

Definition embedding_json (r : EmbeddingResponse) : json :=
  JObj [("object"%string, JStr "list");
        ("data"%string, JArr (map (λ x, JObj [("object"%string, JStr "embedding"); ("index"%string, jint x.1);
                                              ("embedding"%string, x.2)]) (er_data r)));
        ("model"%string, JStr (er_model r));
        ("usage"%string, JObj [("prompt_tokens"%string, JNum (er_prompt_tokens r));
                               ("total_tokens"%string, JNum (er_total_tokens r))])].

Definition adapter_str (a : AdapterType) : string :=
  match a with
  | openai => "openai" | anthropic => "anthropic" | gemini => "gemini" | cohere => "cohere" | mistral => "mistral"
  end.

Definition model_json (m : ModelObject) : json :=
  JObj [("id"%string, JStr (mo_id m)); ("object"%string, JStr "model"); ("created"%string, jint 0);
        ("owned_by"%string, JStr (adapter_str (mo_owned_by m)))].

(** What a request carries that the routes read. *)
Record http_request := {
  req_auth : headers;
  req_cache_control : option string;
  req_id : string;
  req_body : json
}.

(** The rest of the process: authentication, the limiter, and the library
    functions the routes call. *)
Record RouteDeps (W : Type) := {
  authenticate : headers → W → W * result thrown GatewayContext;
  limiter_check : string → RateLimitConfig → W → W * result thrown RateLimitResult;
  encoded_length : TiktokenEncoding → string → Z;
  zod_issues : json → json;
  collate : string → string → Z
}.
Arguments authenticate {W}. Arguments limiter_check {W}. Arguments encoded_length {W}.
Arguments zod_issues {W}. Arguments collate {W}.

Section Routes.
Context {W : Type} (deps : RouterDeps W) (app : RouteDeps W).

Definition invalid_body (what : string) (body : json) : thrown :=
  TGateway (ValidationError (Some ("Invalid " ++ what ++ " request.")%string)
    {| opt_code := None; opt_param := None; opt_retryable := None;
       opt_context := Some [("issues"%string, zod_issues app body)] |}).

Definition reason_str (r : option RateLimitReason) : string :=
  match r with Some rpm => "rpm" | Some tpm => "tpm" | Some burst => "burst" | None => "unknown" end.

(** The limiter gate of both routes: an admitted request runs [k] under its
    rate-limit headers; errors become replies that carry the headers set so far. *)
Definition limited (ctx : GatewayContext) (estimatedTokens : Z) (k : RateLimitResult → M W http_reply) : M W http_reply :=
  try_catch
    (let? limit := call (RateChecked (apiKeyId ctx))
       (limiter_check app (apiKeyId ctx)
          {| RateLimiter.rpmLimit := Auth.rpmLimit ctx; RateLimiter.tpmLimit := Auth.tpmLimit ctx;
             estimatedTokens := estimatedTokens |}) in
     let hs := rateLimitHeaderObject limit in
     try_catch
       (if negb (rl_allowed limit) then
          then? tell (Metric (rateLimited (reason_str (rl_reason limit)))) in
          throw (TGateway (RateLimitError (Some "Rate limit exceeded."%string)
                   (inject_Z (rl_retryAfterSec limit)) no_options))
        else k limit)
       (λ e, ret (error_reply hs e)))
    (λ e, ret (error_reply [] e)).

Definition sse_headers : header_list :=
  [("content-type", "text/event-stream"); ("cache-control", "no-cache"); ("connection", "keep-alive")]%string.

(** The frames of a stream read to its end; [DONE] only if it ended well. *)
Definition stream_frames (chunks : list chunk) (failure : option thrown) : list string :=
  (map serializeSSE chunks ++
   match failure with None => [SSE_DONE_FRAME] | Some _ => [] end)%list.

Definition completions_handler (r : http_request) (ctx : GatewayContext) : M W http_reply :=
  match chatCompletionRequestSchema (req_body r) with
  | None => ret (error_reply [] (invalid_body "chat completion" (req_body r)))
  | Some body =>
      let estimated := countChatTokens (encoded_length app) (messages body) (model body) in
      limited ctx estimated (λ limit,
        let hs := rateLimitHeaderObject limit in
        if match stream body with Some true => true | _ => false end then
          let? (meta, generate) := prepareStream deps body ctx in
          let? (chunks, failure) := generate None in
          ret (SseReply (hs ++ sse_headers ++ gatewayHeaderObject meta (req_id r))%list
                 (stream_frames chunks failure))
        else
          let? (response, meta) := chatCompletion deps body ctx {| bypassCache := isBypassCache (req_cache_control r) |} in
          ret (JsonReply 200 (hs ++ gatewayHeaderObject meta (req_id r))%list (response_json response)))
  end.

Definition embeddings_handler (r : http_request) (ctx : GatewayContext) : M W http_reply :=
  match embeddingRequestSchema (req_body r) with
  | None => ret (error_reply [] (invalid_body "embeddings" (req_body r)))
  | Some body =>
      let estimated := countEmbeddingTokens (encoded_length app) (e_input body) (e_model body) in
      limited ctx estimated (λ limit,
        let hs := rateLimitHeaderObject limit in
        let? (response, meta) := embeddings deps body ctx in
        ret (JsonReply 200 (hs ++ gatewayHeaderObject meta (req_id r))%list (embedding_json response)))
  end.

Definition models_handler (ctx : GatewayContext) : M W http_reply :=
  try_catch
    (then? call Refreshed (refreshIfStale deps) in
     let? s := reads (registry_snapshot deps) in
     let models := listModels (collate app) s in
     let data := match allowedModels ctx with
                 | None | Some [] => models
                 | Some allowed => List.filter (λ m, existsb (String.eqb (mo_id m)) allowed) models
                 end in
     ret (JsonReply 200 [] (JObj [("object"%string, JStr "list"); ("data"%string, JArr (map model_json data))])))
    (λ e, ret (error_reply [] e)).

(** The [preHandler] hook of the [/v1] routes, then the handler. *)
Definition v1 (handler : http_request → GatewayContext → M W http_reply) (r : http_request) : M W http_reply :=
  try_catch
    (let? ctx := call Authenticated (authenticate app (req_auth r)) in handler r ctx)
    (λ e, ret (error_reply [] e)).
End Routes.

(** ** Lemmas *)

(** A computation that always gives a value. *)
Definition answers {W A} (m : M W A) : Prop := ∀ w, ∃ w' t a, m w = (w', t, Ret a).

Lemma error_reply_json hs e : ∃ status extra body, error_reply hs e = JsonReply status (hs ++ extra) body ∧
  body = toOpenAIError (normalizeError e) ∧ status = statusCode (normalizeError e).
Proof. unfold error_reply, errorHandler. by eexists _, _, _. Qed.

Section RouteLemmas.
Context {W : Type} (deps : RouterDeps W) (app : RouteDeps W) `{!LawfulBalancer deps}.

(** Converging computations. *)
Definition converges {A} (m : M W A) : Prop := ∀ w, (m w).2 ≠ Diverge.

Lemma catch_answers {A} (m : M W A) (h : thrown → A) : converges m → answers (try_catch m (λ e, ret (h e))).
Proof using.
  intros Hm w. specialize (Hm w). unfold try_catch, ret. destruct (m w) as [[w1 t1] [a|e|]]; [by eexists _, _, _ | by eexists _, _, _ | done].
Qed.

Lemma answers_converges {A} (m : M W A) : answers m → converges m.
Proof using. intros Hm w. destruct (Hm w) as (w' & t & a & ->). done. Qed.

Lemma bind_converges {A B} (m : M W A) (f : A → M W B) : converges m → (∀ a, converges (f a)) → converges (mbind_ m f).
Proof using.
  intros Hm Hf w. specialize (Hm w). unfold mbind_. destruct (m w) as [[w1 t1] [a|e|]]; [| done | done].
  specialize (Hf a w1). by destruct (f a w1) as [[w2 t2] r].
Qed.

Lemma call_converges {A} e (op : W → W * result thrown A) : converges (call e op).
Proof using. intros w. unfold call. by destruct (op w) as [w1 [a|x]]. Qed.

Lemma ret_answers {A} (a : A) : answers (ret (W := W) a).
Proof using. by intros w; eexists _, _, _. Qed.

Lemma chat_converges req ctx options : converges (chatCompletion deps req ctx options).
Proof using LawfulBalancer0.
  intros w. destruct (chat_run deps req ctx options w) as [(w' & e & ->) | (w1 & _ & _ & _ & [(w2 & w' & cached & _ & _ & l & _ & _ & _ & ->) | (w2 & pre & _ & _ & _ & ->)])]; [done.. |].
  pose proof (serve_chat_run deps req ctx options (resolveCandidates (registry_snapshot deps w1) (model req)) (cache_isEligible deps req) w2) as Hs.
  cbv zeta in Hs. destruct (ct_isOverBudget deps _ _ w2) as [w3 [|]]; [by rewrite Hs |].
  destruct Hs as (w4 & vs & [[[p [resp l]] n] | e |] & _ & Hrun); [destruct (refused _ _ _ _) | | done]; by rewrite Hrun.
Qed.

Lemma embeddings_converges req ctx : converges (embeddings deps req ctx).
Proof using LawfulBalancer0.
  intros w. destruct (embeddings_run deps req ctx w) as [(w' & t & e & -> & _) | (w1 & w2 & w3 & vs & r & _ & _ & _ & _ & Hrun)]; [done |].
  destruct r as [[[p [resp l]] n] | e |]; [cbv zeta in Hrun; destruct (refused _ _ _ _) | | done]; by rewrite Hrun.
Qed.

Lemma run_stream_answers req ctx p m first rest start n demand : answers (run_stream deps req ctx p m first rest start n demand).
Proof using.
  intros w. destruct (run_stream_answered deps req ctx p m first rest start n demand w) as (w' & t & x & -> & _). by eexists _, _, _.
Qed.

(** Opening a stream gives a generator that always ends. *)
Lemma prepare_cases req ctx w : ∃ w' t, (∃ e, prepareStream deps req ctx w = (w', t, Throw e)) ∨
  ∃ meta p m first rest start n, prepareStream deps req ctx w = (w', t, Ret (meta, run_stream deps req ctx p m first rest start n)).
Proof using LawfulBalancer0.
  destruct (prepareStream_run deps req ctx w) as [(w' & t & e & E & _) | (w1 & w2 & w3 & vs & r & _ & _ & _ & _ & Hrun)].
  - exists w', t. left. by exists e.
  - destruct r as [[[p [[first rest] start]] n] | e |]; [| | done].
    + destruct Hrun as (sec & meta & -> & _). eexists _, _. right. by eexists _, _, _, _, _, _, _.
    + eexists _, _. left. by eexists.
Qed.

Lemma limited_answers ctx est k : (∀ l, converges (k l)) → answers (limited app ctx est k).
Proof using.
  intros Hk. apply catch_answers, bind_converges; [apply call_converges |]. intros l. apply answers_converges, catch_answers.
  destruct (negb _); [by intros w | apply Hk].
Qed.

Lemma completions_answers r ctx : answers (completions_handler deps app r ctx).
Proof using All.
  unfold completions_handler. destruct (chatCompletionRequestSchema _) as [body|]; [| apply ret_answers].
  apply limited_answers. intros l. destruct (match stream body with Some true => true | _ => false end).
  - intros w. destruct (prepare_cases body ctx w) as (w' & t & [[e E] | (meta & p & m & first & rest & start & n & E)]).
    + by erewrite bind_throw by exact E.
    + erewrite bind_ret by exact E. destruct (run_stream_answers body ctx p m first rest start n None w') as (w2 & t2 & [ch fl] & E2).
      by erewrite bind_ret by exact E2.
  - apply bind_converges; [apply chat_converges | by intros [response meta] w].
Qed.

Lemma embeddings_answers r ctx : answers (embeddings_handler deps app r ctx).
Proof using All.
  unfold embeddings_handler. destruct (embeddingRequestSchema _) as [body|]; [| apply ret_answers].
  apply limited_answers. intros l. apply bind_converges; [apply embeddings_converges | by intros [response meta] w].
Qed.
End RouteLemmas.

Section Lifecycle.
Context {W : Type} (deps : RouterDeps W) (app : RouteDeps W) `{!LawfulBalancer deps}.

Lemma gated_app ctx requested w t1 t2 :
  gated deps ctx requested w t1 → calls t2 = [] → gated deps ctx requested w (t1 ++ t2).
Proof using.
  intros Hg Ht i Hi. apply elem_of_calls in Hi. rewrite calls_app, Ht, app_nil_r in Hi.
  destruct (Hg i (proj1 (elem_of_calls i t1) Hi)) as (w1 & w2 & w3 & u1 & u2 & ? & ? & ? & -> & ?).
  exists w1, w2, w3, u1, (u2 ++ t2)%list. split_and!; try done. by rewrite <- app_assoc.
Qed.

Lemma run_stream_calls req ctx p m first rest start n demand w :
  calls (run_stream deps req ctx p m first rest start n demand w).1.2 = [].
Proof using.
  by destruct (run_stream_answered deps req ctx p m first rest start n demand w) as (w' & t & x & -> & Ht).
Qed.

(** What an admitted request does: only gated calls, and a reply under the
    rate-limit headers. *)
Definition reply_headers (x : http_reply) : header_list :=
  match x with JsonReply _ hs _ => hs | SseReply hs _ => hs end.

Lemma catch_reply ctx requested hs (m : M W http_reply) w :
  gated deps ctx requested w (m w).1.2 → converges m →
  (∀ w' t x, m w = (w', t, Ret x) → ∃ hs', reply_headers x = (hs ++ hs')%list) →
  ∃ w' t x hs', try_catch m (λ e, ret (error_reply hs e)) w = (w', t, Ret x) ∧ gated deps ctx requested w t ∧
    reply_headers x = (hs ++ hs')%list.
Proof using.
  intros Hg Hc Hx. specialize (Hc w). unfold try_catch, ret. destruct (m w) as [[w1 t1] [x|e|]]; [| | done].
  - destruct (Hx w1 t1 x eq_refl) as [hs' E]. by exists w1, t1, x, hs'.
  - destruct (error_reply_json hs e) as (st & extra & b & E & _). exists w1, (t1 ++ [])%list, (error_reply hs e), extra.
    rewrite E. split; [done |]. split; [by rewrite app_nil_r | done].
Qed.

(** How the limiter's gate runs. *)
Lemma limited_run ctx est (k : RateLimitResult → M W http_reply) w :
  match limiter_check app (apiKeyId ctx)
          {| RateLimiter.rpmLimit := Auth.rpmLimit ctx; RateLimiter.tpmLimit := Auth.tpmLimit ctx; estimatedTokens := est |} w with
  | (w1, Err e) => limited app ctx est k w = (w1, [RateChecked (apiKeyId ctx)], Ret (error_reply [] e))
  | (w1, Ok limit) =>
      let hs := rateLimitHeaderObject limit in
      if rl_allowed limit
      then ∀ w2 t x, try_catch (k limit) (λ e, ret (error_reply hs e)) w1 = (w2, t, Ret x) →
           limited app ctx est k w = (w2, RateChecked (apiKeyId ctx) :: t, Ret x)
      else limited app ctx est k w =
           (w1, [RateChecked (apiKeyId ctx); Metric (rateLimited (reason_str (rl_reason limit)))],
            Ret (error_reply hs (TGateway (RateLimitError (Some "Rate limit exceeded."%string)
                   (inject_Z (rl_retryAfterSec limit)) no_options))))
  end.
Proof using.
  unfold limited. destruct (limiter_check _ _ _ w) as [w1 [limit|e]] eqn:E.
  - cbv zeta. destruct (rl_allowed limit) eqn:Ea.
    + intros w2 t x Ek. unfold try_catch at 1. erewrite bind_ret by (by apply call_ok). rewrite Ea. cbn [negb]. by rewrite Ek.
    + unfold try_catch at 1. erewrite bind_ret by (by apply call_ok). by rewrite Ea.
  - unfold try_catch. by erewrite bind_throw by (by apply call_err).
Qed.

Lemma rate_limited_reply hs seconds : error_reply hs (TGateway (RateLimitError (Some "Rate limit exceeded."%string)
    (inject_Z seconds) no_options)) =
  JsonReply 429 (hs ++ [(HEADERS.RETRY_AFTER, dec (Z.max 1 seconds))])
    (toOpenAIError (RateLimitError (Some "Rate limit exceeded."%string) (inject_Z seconds) no_options)).
Proof using. unfold error_reply, errorHandler. cbn. by rewrite Qceiling_Z. Qed.

(** The handler's continuation behind the limiter. *)
Definition completion_body (r : http_request) (ctx : GatewayContext) (body : ChatCompletionRequest)
    (limit : RateLimitResult) : M W http_reply :=
  let hs := rateLimitHeaderObject limit in
  if match stream body with Some true => true | _ => false end then
    let? (meta, generate) := prepareStream deps body ctx in
    let? (chunks, failure) := generate None in
    ret (SseReply (hs ++ sse_headers ++ gatewayHeaderObject meta (req_id r))%list (stream_frames chunks failure))
  else
    let? (response, meta) := chatCompletion deps body ctx {| bypassCache := isBypassCache (req_cache_control r) |} in
    ret (JsonReply 200 (hs ++ gatewayHeaderObject meta (req_id r))%list (response_json response)).

Lemma completion_body_spec r ctx body limit w :
  gated deps ctx (model body) w (completion_body r ctx body limit w).1.2 ∧ converges (completion_body r ctx body limit) ∧
  ∀ w' t x, completion_body r ctx body limit w = (w', t, Ret x) → ∃ hs', reply_headers x = (rateLimitHeaderObject limit ++ hs')%list.
Proof using LawfulBalancer0.
  unfold completion_body. destruct (match stream body with Some true => true | _ => false end).
  - pose proof (prepareStream_gated deps body ctx w) as Hg.
    assert (Hc : converges (let? (meta, generate) := prepareStream deps body ctx in
      let? (chunks, failure) := generate None in
      ret (SseReply (rateLimitHeaderObject limit ++ sse_headers ++ gatewayHeaderObject meta (req_id r))%list
        (stream_frames chunks failure)))).
    { intros v. destruct (prepare_cases deps body ctx v) as (w' & t & [[e E] | (meta & p & m & first & rest & start & n & E)]).
      - by erewrite bind_throw by exact E.
      - erewrite bind_ret by exact E. destruct (run_stream_answers deps body ctx p m first rest start n None w') as (w2 & t2 & [ch fl] & E2).
        by erewrite bind_ret by exact E2. }
    split; [| split; [exact Hc |]]; destruct (prepare_cases deps body ctx w) as (w1 & t1 & [[e E] | (meta & p & m & first & rest & start & n & E)]).
    + rewrite E in Hg. by erewrite bind_throw by exact E.
    + rewrite E in Hg. erewrite bind_ret by exact E. pose proof (run_stream_calls body ctx p m first rest start n None w1) as Hs.
      destruct (run_stream_answers deps body ctx p m first rest start n None w1) as (w2 & t2 & [ch fl] & E2).
      rewrite E2 in Hs. erewrite bind_ret by exact E2. cbn [ret fst snd] in *. apply gated_app; [exact Hg | by rewrite app_nil_r].
    + intros w' t x. erewrite bind_throw by exact E. done.
    + intros w' t x. erewrite bind_ret by exact E.
      destruct (run_stream_answers deps body ctx p m first rest start n None w1) as (w2 & t2 & [ch fl] & E2).
      erewrite bind_ret by exact E2. intros [= _ _ <-]. by eexists.
  - set (opts := {| bypassCache := _ |}). pose proof (chat_gated deps body ctx opts w) as Hg.
    pose proof (chat_converges deps body ctx opts w) as Hcw.
    split; [| split].
    + unfold mbind_. destruct (chatCompletion deps body ctx opts w) as [[w1 t1] [[resp meta]|e|]]; cbn in *; [by rewrite app_nil_r | done | done].
    + apply bind_converges; [apply chat_converges | by intros [response meta] v]. done.
    + intros w' t x. unfold mbind_. destruct (chatCompletion deps body ctx opts w) as [[w1 t1] [[resp meta]|e|]]; [| done | done].
      intros [= _ _ <-]. by eexists.
Qed.
End Lifecycle.

(** ** Theorems *)

(** C15: The life of a chat request. Whatever the stores, the providers and the
    database do, the route answers: 401 or the authentication's own error with
    nothing else done; 422 for an invalid body, before the limiter is asked;
    the limiter's error, or 429 with the rate-limit headers and a [Retry-After]
    of at least a second, with no provider called; and otherwise a reply under
    the rate-limit headers, for which every provider call is gated by the
    router's checks. *)
Theorem request_lifecycle {W} (deps : RouterDeps W) (app : RouteDeps W) r w :
  LawfulBalancer deps →
  ∃ w' t reply, v1 app (completions_handler deps app) r w = (w', t, Ret reply) ∧
  match authenticate app (req_auth r) w with
  | (_, Err e) => t = [Authenticated] ∧ reply = error_reply [] e
  | (w1, Ok ctx) =>
      match chatCompletionRequestSchema (req_body r) with
      | None => t = [Authenticated] ∧ ∃ body, reply = JsonReply 422 [] body
      | Some body =>
          match limiter_check app (apiKeyId ctx)
                  {| RateLimiter.rpmLimit := Auth.rpmLimit ctx; RateLimiter.tpmLimit := Auth.tpmLimit ctx;
                     estimatedTokens := countChatTokens (encoded_length app) (messages body) (model body) |} w1 with
          | (_, Err e) => calls t = [] ∧ reply = error_reply [] e
          | (w2, Ok limit) =>
              if rl_allowed limit
              then (∃ t', t = Authenticated :: RateChecked (apiKeyId ctx) :: t' ∧ gated deps ctx (model body) w2 t') ∧
                   ∃ hs, reply_headers reply = (rateLimitHeaderObject limit ++ hs)%list
              else calls t = [] ∧ ∃ body', reply = JsonReply 429
                   (rateLimitHeaderObject limit ++ [(HEADERS.RETRY_AFTER, dec (Z.max 1 (rl_retryAfterSec limit)))]) body'
          end
      end
  end.
Proof.
  intros Hl. unfold v1. destruct (authenticate app (req_auth r) w) as [w1 [ctx|e]] eqn:Ea.
  2: { eexists _, _, _. split; [unfold try_catch; erewrite bind_throw by (by apply call_err); reflexivity | done]. }
  assert (Hv : ∀ w' t x, completions_handler deps app r ctx w1 = (w', t, Ret x) →
    try_catch (let? ctx := call Authenticated (authenticate app (req_auth r)) in completions_handler deps app r ctx)
      (λ e, ret (error_reply [] e)) w = (w', Authenticated :: t, Ret x)).
  { intros w' t x E. unfold try_catch. erewrite bind_ret by (by apply call_ok). by rewrite E. }
  unfold completions_handler in *. destruct (chatCompletionRequestSchema (req_body r)) as [body|].
  2: { eexists _, _, _. split; [by apply Hv |]. split; [done |]. unfold error_reply, errorHandler, invalid_body, normalizeError, ValidationError.
       destruct (summarizeIssues _) as [d pm]. by eexists. }
  set (est := countChatTokens _ _ _) in *.
  pose proof (limited_run app ctx est (completion_body deps r ctx body) w1) as Hrun. cbv zeta in Hrun.
  destruct (limiter_check app _ _ w1) as [w2 [limit|e]].
  2: { eexists _, _, _. split; [apply Hv; exact Hrun | done]. }
  destruct (rl_allowed limit).
  - destruct (completion_body_spec deps r ctx body limit w2) as (Hg & Hc & Hx).
    destruct (catch_reply deps ctx (model body) (rateLimitHeaderObject limit) _ w2 Hg Hc Hx) as (w3 & t & x & hs & E & Hgt & Hhs).
    eexists _, _, _. split; [apply Hv; by apply (Hrun w3 t x) |]. split; [by exists t | by exists hs].
  - eexists _, _, _. split; [apply Hv; exact Hrun |]. split; [done |]. rewrite rate_limited_reply. by eexists.
Qed.

(** A process whose limiter admits no second request. *)
Definition sample_app : RouteDeps Z := {|
  authenticate h t := (t, match extractApiKey h with Some _ => Ok sample_context | None => Err (unauthorized "Missing API key.") end);
  limiter_check _ _ t :=
    (t + 1, Ok {| rl_allowed := t =? 0; rl_reason := if t =? 0 then None else Some rpm; rl_limit := 1;
                  rl_remaining := 0; rl_resetUnixSec := 60; rl_retryAfterSec := if t =? 0 then 0 else 42 |});
  encoded_length _ s := Z.of_nat (String.length s);
  zod_issues _ := JArr [];
  collate := leb_compare
|}.
Definition sample_http (stream : bool) : http_request := {|
  req_auth := {| h_authorization := Some "Bearer gw-1"%string; h_x_api_key := None |};
  req_cache_control := None; req_id := "req-1";
  req_body := JObj [("model"%string, JStr "m"); ("stream"%string, JBool stream);
                    ("messages"%string, JArr [JObj [("role"%string, JStr "user"); ("content"%string, JStr "hi")]])] |}.

Lemma request_lifecycle_witness :
  ∃ w' t body, v1 sample_app (completions_handler sample_deps sample_app) (sample_http false) 5 =
    (w', t, Ret (JsonReply 429 [("x-ratelimit-limit", "1"); ("x-ratelimit-remaining", "0"); ("x-ratelimit-reset", "60");
                                ("retry-after", "42")]%string body)) ∧ calls t = [].
Proof.
  destruct (request_lifecycle sample_deps sample_app (sample_http false) 5 sample_deps_lawful) as (w' & t & reply & E & H).
  vm_compute in H. destruct H as [Ht [body ->]]. exists w', t, body. by split.
Defined.

(** A streamed request end to end: three headers groups, the forwarded chunk,
    and the sentinel. *)
Example sample_sse_reply :
  match (v1 sample_app (completions_handler sample_deps sample_app) (sample_http true) 0).2 with
  | Ret (SseReply hs frames) => length hs = 12%nat ∧ length frames = 2%nat ∧ last frames = Some SSE_DONE_FRAME
  | _ => False
  end.
Proof. by vm_compute. Qed.

(** The catalogue shows a restricted key only what it may call. *)
Example sample_catalogue :
  (models_handler sample_deps sample_app sample_context 0).2 =
  Ret (JsonReply 200 [] (JObj [("object"%string, JStr "list");
    ("data"%string, JArr [model_json {| mo_id := "m"; mo_owned_by := openai |}])])).
Proof. by vm_compute. Qed.
