(* ===== verification/Backpressure.v ===== *)
(** * Writing a stream to the socket ([routes/completions.ts])

    The loop that pulls the router's generator and writes its chunks, with the
    back-pressure of the socket: a write that fills the buffer is followed by
    [once(reply.raw, 'drain')], which ends with the first drain or error event.
    [Http] takes the reply of a stream that was read to its end; here is when it
    is, and what becomes of a stream whose reader leaves while the loop waits. *)

From Stdlib Require Import ZArith Lia QArith String.
From stdpp Require Import base strings list.
From S2P Require Import Prelude Redis Json Errors Types Stream Provider Values CostTracker Registry LoadBalancer Auth Router Http.
Open Scope Z_scope.

(** What happens first while the loop waits. A closing socket emits no drain and,
    on the response, no error. *)
Inductive awaited_event := Drained | WriteError | ClosedFirst.

(** The socket, by the number of the write: whether the write returned false,
    whether the socket was destroyed by then, and what came first after it. *)
Record sink := { full : nat → bool; gone : nat → bool; awaited : nat → awaited_event }.

(** The loop waits for ever after a write. *)
Definition stalls (sk : sink) (i : nat) : bool :=
  full sk i && negb (gone sk i) && match awaited sk i with ClosedFirst => true | _ => false end.

(** How the loop ends: with [reply.raw.end()], after an error was logged or not,
    or never. *)
Inductive pumped := Ended (frames : list string) (logged : option thrown) | Waiting (frames : list string).

(** [for await (const chunk of prep.stream)], from the [i]-th write; [failure] is
    what the generator throws after its chunks. *)
Fixpoint pump_frames (sk : sink) (i : nat) (chunks : list chunk) (failure : option thrown) (sent : list string) : pumped :=
  match chunks with
  | [] => match failure with None => Ended (sent ++ [SSE_DONE_FRAME])%list None | Some e => Ended sent (Some e) end
  | c :: cs =>
      let sent := (sent ++ [serializeSSE c])%list in
      if full sk i && negb (gone sk i) then
        match awaited sk i with
        | Drained | WriteError => pump_frames sk (S i) cs failure sent
        | ClosedFirst => Waiting sent
        end
      else pump_frames sk (S i) cs failure sent
  end.

Lemma pump_steps sk c cs failure i sent : stalls sk i = false →
  pump_frames sk i (c :: cs) failure sent = pump_frames sk (S i) cs failure (sent ++ [serializeSSE c])%list.
Proof. unfold stalls. cbn [pump_frames]. destruct (full sk i && negb (gone sk i))%bool; [| done]. by destruct (awaited sk i). Qed.

(** A reader that never leaves while the loop waits gets every frame. *)
Lemma pump_ends sk failure cs : ∀ i sent, (∀ j, (j < length cs)%nat → stalls sk (i + j) = false) →
  pump_frames sk i cs failure sent = Ended (sent ++ stream_frames cs failure)%list failure.
Proof.
  induction cs as [|c cs IH]; intros i sent Hs.
  - unfold stream_frames. cbn [pump_frames map app]. destruct failure; [by rewrite app_nil_r | done].
  - rewrite pump_steps by (rewrite <- (Nat.add_0_r i); apply Hs; simpl; lia). rewrite IH.
    + unfold stream_frames. cbn [map app]. by rewrite <- app_assoc.
    + intros j Hj. replace (S i + j)%nat with (i + S j)%nat by lia. apply Hs. simpl. lia.
Qed.

(** One that leaves during a wait stops it there. *)
Lemma pump_stops sk failure cs : ∀ i k sent, (k < length cs)%nat → stalls sk (i + k) = true →
  (∀ j, (j < k)%nat → stalls sk (i + j) = false) →
  pump_frames sk i cs failure sent = Waiting (sent ++ map serializeSSE (take (S k) cs))%list.
Proof.
  induction cs as [|c cs IH]; intros i k sent Hk Hst Hs; [simpl in Hk; lia |]. destruct k as [|k].
  - rewrite Nat.add_0_r in Hst. unfold stalls in Hst. cbn [pump_frames take map].
    destruct (full sk i && negb (gone sk i))%bool; [| done]. by destruct (awaited sk i).
  - rewrite pump_steps by (rewrite <- (Nat.add_0_r i); apply Hs; lia). rewrite (IH (S i) k).
    + cbn [take map]. by rewrite <- app_assoc.
    + simpl in Hk. lia.
    + by replace (S i + k)%nat with (i + S k)%nat by lia.
    + intros j Hj. replace (S i + j)%nat with (i + S j)%nat by lia. apply Hs. lia.
Qed.

Section Serve.
Context {W : Type} (deps : RouterDeps W).

(** What the generator yields when it is read to the end. *)
Definition yielded (request : ChatCompletionRequest) (first : option chunk) (rest : upstream W) : list chunk :=
  let wants := clientWantsUsage request in List.filter (shown wants) (chunks_of wants false (stream_of first rest)).

(** The error it ends with: that of the accounting in its [finally] block, or the
    stream's own. *)
Definition failure_of (request : ChatCompletionRequest) (provider : Provider) (m : string) (first : option chunk) (rest : upstream W)
    : option thrown :=
  let wants := clientWantsUsage request in
  let estimate := inject_Z (provider_countTokens deps provider (messages request) m) in
  let counted := foldl count_chunk (Counts estimate 0%Q false) (chunks_of wants false (stream_of first rest)) in
  match account_error deps provider m counted with
  | Some e => Some e
  | None => upstream_end wants false (stream_of first rest)
  end.

(** The generator held at its [k]-th [yield]: the world then, and what it has
    yielded. Its [finally] block has not run. *)
Definition suspended (request : ChatCompletionRequest) (provider : Provider) (m : string) (first : option chunk) (rest : upstream W)
    (k : nat) (w : W) : W * list chunk :=
  let promptTokens := inject_Z (provider_countTokens deps provider (messages request) m) in
  let '(w1, out, _, _) := stream_body (clientWantsUsage request) first rest (Counts promptTokens 0%Q false) (Some k) w in (w1, out).

(** The streaming branch of the handler once the headers are written: the loop
    over the generator and the socket. *)
Definition write_stream (request : ChatCompletionRequest) (context : GatewayContext) (provider : Provider) (m : string)
    (first : option chunk) (rest : upstream W) (start failoverCount : Z) (sk : sink) (w : W) : W * list event * pumped :=
  let p := pump_frames sk 0 (yielded request first rest) (failure_of request provider m first rest) [] in
  match p with
  | Ended _ _ => let '(w', t, _) := run_stream deps request context provider m first rest start failoverCount None w in (w', t, p)
  | Waiting frames => ((suspended request provider m first rest (length frames) w).1, [], p)
  end.
End Serve.

Lemma prefix_filter {A} (f : A → bool) (l l' : list A) : l `prefix_of` l' → List.filter f l `prefix_of` List.filter f l'.
Proof. intros [k ->]. rewrite List.filter_app. by eexists. Qed.

(** A generator held at a yield has yielded that many chunks. *)
Lemma suspended_yields {W} (deps : RouterDeps W) request p m first rest k w : (0 < k <= length (yielded request first rest))%nat →
  (suspended deps request p m first rest k w).2 = take k (yielded request first rest).
Proof.
  intros Hk. unfold suspended, yielded in *.
  pose proof (stream_body_spec (clientWantsUsage request) first rest (inject_Z (provider_countTokens deps p (messages request) m)) (Some k) w) as Hb.
  destruct (stream_body _ _ _ _ _ w) as [[[w1 out] a] st]. cbn [snd].
  destruct Hb as (pulled & Hpre & -> & _ & Hle & Hst); [by intros [= ->]; lia |]. specialize (Hle k eq_refl).
  apply (prefix_filter (shown (clientWantsUsage request))) in Hpre. destruct Hpre as [l Hl].
  assert (Hlen : length (List.filter (shown (clientWantsUsage request)) pulled) = k).
  { destruct st as [| e |]; [| | by injection Hst as ->]; destruct Hst as [-> _]; lia. }
  rewrite Hl. by rewrite take_app_length'.
Qed.

(** A generator read to the end. *)
Lemma read_to_end {W} (deps : RouterDeps W) req ctx p m first (rest : upstream W) start n w :
  (run_stream deps req ctx p m first rest start n None w).2 = Ret (yielded req first rest, failure_of deps req p m first rest).
Proof.
  unfold yielded, failure_of. set (est := inject_Z (provider_countTokens deps p (messages req) m)).
  pose proof (stream_body_spec (clientWantsUsage req) first rest est None w ltac:(done)) as Hb.
  pose proof (run_stream_eq deps req ctx p m first rest start n None w ltac:(done)) as Hrun. fold est in Hrun.
  destruct (stream_body _ _ _ _ _ w) as [[[w1 out] a] st]. destruct Hb as (pulled & _ & -> & -> & _ & Hst).
  destruct Hrun as [w' ->]. cbn [snd]. destruct st; [| | discriminate]; destruct Hst as [-> E]; cbv zeta; by rewrite E.
Qed.

(** ** Theorem *)

(** C14: A stream is written to its end, charged and logged, unless its reader
    leaves while the loop waits for the buffer to drain. If no write that fills
    the buffer of a live socket is followed by its closing, the client gets the
    frames of all chunks in order and the final frame exactly when the stream
    ended well, and the request has the effects of a generator read to the end.
    Otherwise the loop waits for ever after the first such write: the frames up to
    it were written, the generator stays at that yield, and the request is
    neither charged, counted nor logged. *)
Theorem stream_written {W} (deps : RouterDeps W) req ctx p m first (rest : upstream W) start n sk w :
  let chunks := yielded req first rest in
  let failure := failure_of deps req p m first rest in
  let x := write_stream deps req ctx p m first rest start n sk w in
  ((∀ i, (i < length chunks)%nat → stalls sk i = false) →
     x.2 = Ended (stream_frames chunks failure) failure ∧
     x.1 = (run_stream deps req ctx p m first rest start n None w).1 ∧
     (run_stream deps req ctx p m first rest start n None w).2 = Ret (chunks, failure)) ∧
  ∀ i, (i < length chunks)%nat → stalls sk i = true → (∀ j, (j < i)%nat → stalls sk j = false) →
    x.2 = Waiting (map serializeSSE (take (S i) chunks)) ∧ x.1.2 = [] ∧
    suspended deps req p m first rest (S i) w = (x.1.1, take (S i) chunks).
Proof.
  cbv zeta. unfold write_stream. set (chunks := yielded req first rest). split.
  - intros Hs. rewrite (pump_ends sk _ chunks 0 []) by (intros j Hj; by apply Hs). cbn [app].
    pose proof (read_to_end deps req ctx p m first rest start n w) as Hr. fold chunks in Hr.
    by destruct (run_stream _ _ _ _ _ _ _ _ _ _ w) as [[w' t] r].
  - intros i Hi Hst Hs. rewrite (pump_stops sk _ chunks 0 i []) by done. cbn [app fst snd]. split; [done |]. split; [done |].
    rewrite length_map, length_take, Nat.min_l by lia.
    pose proof (suspended_yields deps req p m first rest (S i) w ltac:(fold chunks; lia)) as Hy. fold chunks in Hy.
    rewrite <- Hy. by destruct (suspended _ _ _ _ _ _ _ w).
Qed.

(** The reader of the sample stream leaves while the loop waits after the first
    chunk: one frame is written and nothing is charged. A reader that stays is
    charged for the reported usage. *)
Definition leaves_at_first : sink := {| full i := (i =? 0)%nat; gone _ := false; awaited _ := ClosedFirst |}.
Definition stays : sink := {| full _ := true; gone _ := false; awaited _ := Drained |}.
Definition sample_first : option chunk := Some (JObj [("choices"%string, JArr [JObj [("delta"%string, JObj [("content"%string, JStr "hi")])]])]).
Definition sample_written (sk : sink) : Z * list event * pumped :=
  write_stream sample_deps Router.sample_request sample_context (sample_server "A") "m" sample_first sample_chunks 0 0 sk 0.

Lemma stream_written_witness :
  ((∃ frame, (sample_written leaves_at_first).2 = Waiting [frame]) ∧ (sample_written leaves_at_first).1.2 = []) ∧
  (∃ frames, (sample_written stays).2 = Ended (frames ++ [SSE_DONE_FRAME]) None ∧ length frames = 2%nat) ∧
  length (spends (sample_written stays).1.2) = 1%nat.
Proof.
  pose proof (λ sk, stream_written sample_deps Router.sample_request sample_context (sample_server "A") "m" sample_first sample_chunks 0 0 sk 0) as H.
  split; [| split].
  - destruct (H leaves_at_first) as [_ H1]. destruct (H1 0%nat) as (E & Et & _); [by vm_compute; lia | by vm_compute | intros j Hj; lia |].
    split; [eexists; exact E | exact Et].
  - destruct (H stays) as [H1 _]. destruct H1 as (E & _); [by intros i _ |]. eexists. split; [exact E | by vm_compute].
  - destruct (H stays) as [H1 _]. destruct H1 as (_ & E & _); [by intros i _ |]. unfold sample_written. rewrite E. by vm_compute.
Defined.
