(* ===== verification/Metrics.v ===== *)
(** * Request metrics ([src/middleware/metrics.ts])

    The hooks that count HTTP requests, over the state they keep: the in-flight
    gauge, the counters by label, and two fields on each request. *)

From Stdlib Require Import ZArith Lia QArith String.
From stdpp Require Import base strings gmap list.
From S2P Require Import Prelude Numerals Constants.
Open Scope Z_scope.

(** ** State *)

(** The labels of a request's series. *)
Definition labels : Type := string * string * string.

(** The fields the hooks keep on a request, with what identifies it. *)
Record request_metrics := {
  rm_method : string;
  rm_route : option string;          (* [request.routeOptions.url] *)
  metricsStartNs : option Z;
  metricsSettled : bool
}.

Record metrics := {
  inFlight : Z;
  httpRequests : gmap labels Z;
  httpDuration : list (labels * Z); (* observations, in nanoseconds *)
  requests : gmap nat request_metrics
}.

Definition inc (l : labels) (m : gmap labels Z) : gmap labels Z := <[l := (m !! l ?? 0) + 1]> m.

(** ** Hooks *)

Definition metricsOnRequest (request : nat) (now : Z) (m : metrics) : metrics :=
  {| inFlight := inFlight m + 1; httpRequests := httpRequests m; httpDuration := httpDuration m;
     requests := alter (λ r, {| rm_method := rm_method r; rm_route := rm_route r; metricsStartNs := Some now;
                                metricsSettled := metricsSettled r |}) request (requests m) |}.

Definition settle (request : nat) (statusCode : string) (now : Z) (m : metrics) : metrics :=
  match requests m !! request with
  | None => m
  | Some r =>
      if metricsSettled r then m
      else
        let l := (rm_method r, rm_route r ?? "unknown"%string, statusCode) in
        {| inFlight := inFlight m - 1; httpRequests := inc l (httpRequests m);
           httpDuration := match metricsStartNs r with
                           | Some start => (httpDuration m ++ [(l, now - start)])%list
                           | None => httpDuration m
                           end;
           requests := <[request := {| rm_method := rm_method r; rm_route := rm_route r;
                                       metricsStartNs := metricsStartNs r; metricsSettled := true |}]> (requests m) |}
  end.

Definition metricsOnResponse (request : nat) (statusCode : Z) (now : Z) (m : metrics) : metrics :=
  settle request (dec statusCode) now m.
Definition metricsOnAbort (request : nat) (now : Z) (m : metrics) : metrics := settle request "499" now m.

(** Map a circuit state to its gauge value. *)
Definition circuitStateValue (state : string) : Z :=
  if String.eqb state "OPEN" then 2 else if String.eqb state "HALF_OPEN" then 1 else 0.

(** ** What the server does with requests *)

(** A request arrives once; its response and its abort may both be reported,
    in any order and more than once. *)
Inductive hook :=
| Arrives (request : nat) (method : string) (route : option string)
| Responds (request : nat) (statusCode : Z)
| Aborts (request : nat).

Definition fresh_request (method : string) (route : option string) : request_metrics :=
  {| rm_method := method; rm_route := route; metricsStartNs := None; metricsSettled := false |}.

(** The server never reuses a request object, and reports only requests that arrived. *)
Definition on_hook (now : Z) (h : hook) (m : metrics) : metrics :=
  match h with
  | Arrives request method route =>
      match requests m !! request with
      | Some _ => m
      | None => metricsOnRequest request now
                  {| inFlight := inFlight m; httpRequests := httpRequests m; httpDuration := httpDuration m;
                     requests := <[request := fresh_request method route]> (requests m) |}
      end
  | Responds request statusCode => metricsOnResponse request statusCode now m
  | Aborts request => metricsOnAbort request now m
  end.

Definition run_hooks (hs : list (Z * hook)) (m : metrics) : metrics := foldl (λ m x, on_hook x.1 x.2 m) m hs.

Definition no_metrics : metrics := {| inFlight := 0; httpRequests := ∅; httpDuration := []; requests := ∅ |}.

(** ** The gauge *)

Definition open_count (rs : gmap nat request_metrics) : nat := size (filter (λ x, metricsSettled x.2 = false) rs).
Definition counted (c : gmap labels Z) : Z := map_fold (λ _ n acc, n + acc) 0 c.

Record metrics_ok (m : metrics) : Prop := {
  gauge_open : inFlight m = Z.of_nat (open_count (requests m));
  counters_settled : counted (httpRequests m) = Z.of_nat (size (requests m)) - Z.of_nat (open_count (requests m));
  durations_settled : Z.of_nat (length (httpDuration m)) = counted (httpRequests m);
  started : ∀ i r, requests m !! i = Some r → is_Some (metricsStartNs r)
}.

Lemma open_insert_new i r rs : rs !! i = None →
  open_count (<[i := r]> rs) = if metricsSettled r then open_count rs else S (open_count rs).
Proof.
  intros Hi. unfold open_count. destruct (metricsSettled r) eqn:E.
  - rewrite map_filter_insert_not'; [done | simpl; congruence | intros y Hy; congruence].
  - rewrite map_filter_insert_True by done. apply map_size_insert_None. apply map_lookup_filter_None. by left.
Qed.

Lemma open_settle i r r' rs : rs !! i = Some r → metricsSettled r = false → metricsSettled r' = true →
  open_count rs = S (open_count (<[i := r']> rs)).
Proof.
  intros Hi Hr Hr'. unfold open_count. rewrite map_filter_insert_False by (simpl; congruence).
  rewrite map_filter_delete, map_size_delete. rewrite (proj2 (map_lookup_filter_Some _ _ _ r)) by (split; [done | exact Hr]).
  assert (Hpos : size (filter (λ x : nat * request_metrics, metricsSettled x.2 = false) rs) ≠ 0%nat).
  { intros E%map_size_empty_inv. assert (filter (λ x : nat * request_metrics, metricsSettled x.2 = false) rs !! i = Some r) as F
      by (by apply map_lookup_filter_Some). by rewrite E, lookup_empty in F. }
  lia.
Qed.

Lemma counted_inc l c : counted (inc l c) = counted c + 1.
Proof.
  unfold counted, inc.
  assert (Hf : ∀ (c : gmap labels Z) l n, c !! l = None → map_fold (λ _ n acc, n + acc) 0 (<[l := n]> c) =
    n + map_fold (λ _ n acc, n + acc) 0 c).
  { intros c' l' n Hl. rewrite map_fold_insert_L; [done | intros; lia | done]. }
  destruct (c !! l) as [n|] eqn:E; [| rewrite Hf by done; simpl; lia].
  assert (Hd : delete l c !! l = None) by apply lookup_delete_eq.
  rewrite <- insert_delete_eq, Hf by done. rewrite <- (insert_delete_id c l n E) at 2. rewrite Hf by done. simpl. lia.
Qed.

Lemma settle_ok i code now m : metrics_ok m → metrics_ok (settle i code now m).
Proof.
  intros [Hg Hc Hd Hs]. unfold settle. destruct (requests m !! i) as [r|] eqn:Ei; [| done].
  destruct (metricsSettled r) eqn:Er; [done |]. destruct (Hs i r Ei) as [start Est].
  set (r' := {| rm_method := _; rm_route := _; metricsStartNs := _; metricsSettled := true |}).
  pose proof (open_settle i r r' (requests m) Ei Er eq_refl) as Ho.
  split; cbn [inFlight httpRequests httpDuration requests].
  - lia.
  - rewrite counted_inc, map_size_insert_Some by by eexists. lia.
  - rewrite Est, length_app, counted_inc. simpl. lia.
  - intros j x Hj. destruct (decide (i = j)) as [<- | Hne]; [rewrite lookup_insert_eq in Hj | rewrite lookup_insert_ne in Hj by done; eauto].
    injection Hj as <-. simpl. eauto.
Qed.

Lemma on_hook_ok now h m : metrics_ok m → metrics_ok (on_hook now h m).
Proof.
  destruct h as [i method route | i code | i]; [| apply settle_ok | apply settle_ok]. intros [Hg Hc Hd Hs]. simpl.
  destruct (requests m !! i) as [r|] eqn:Ei; [done |]. unfold metricsOnRequest. cbn [inFlight httpRequests httpDuration requests].
  rewrite alter_insert_eq. split; cbn [inFlight httpRequests httpDuration requests].
  - rewrite open_insert_new by done. simpl. lia.
  - rewrite open_insert_new, map_size_insert_None by done. simpl. lia.
  - done.
  - intros j x Hj. destruct (decide (i = j)) as [<- | Hne]; [rewrite lookup_insert_eq in Hj | rewrite lookup_insert_ne in Hj by done; eauto].
    injection Hj as <-. simpl. eauto.
Qed.

(** The in-flight gauge neither leaks nor goes negative. After any
    sequence of arrivals, responses and aborts, however often and in whatever
    order a request's end is reported, the gauge is the number of requests that
    have arrived and not ended, and every ended request was counted once and
    timed once. *)
Lemma gauge_never_leaks hs : metrics_ok (run_hooks hs no_metrics).
Proof.
  unfold run_hooks. induction hs as [|h hs IH] using rev_ind; [by split |].
  rewrite foldl_snoc. by apply on_hook_ok.
Qed.
