(* ===== verification/HealthMonitor.v ===== *)
(** * The health monitor ([src/services/health-monitor.ts])

    What one probe records about a provider, the table the probes write, and
    the monitor's life cycle ([start], [tick], [stop] and the settling of a
    run's promises) as a state machine. *)

From Stdlib Require Import ZArith Lia QArith String.
From stdpp Require Import base strings gmap list.
From S2P Require Import Prelude Numerals Constants Errors Provider Registry Metrics.
Open Scope Z_scope.

Definition DEGRADED_LATENCY_MS : Z := 2000.

(** ** One probe *)

Record ProviderProbeRow := { pp_id : string; pp_name : string; healthCheckUrl : option string; pp_timeoutMs : Z }.

(** How the [fetch] of a probe ends, and after how long. *)
Inductive probe := Answered (status latencyMs : Z) | Threw (e : thrown).

(** A row of [provider_health]. *)
Record HealthRow := { h_status : HealthStatus; h_latencyMs : option Z; h_errorMessage : option string; h_checkedAt : Z }.
Abbreviation health_table := (gmap string HealthRow).

(** What happens around the probe of one row: the [fetch], and for each of the
    two writes it may make the clock and the database's error, if any. *)
Record observation := { seen : probe; write1 : Z * option thrown; write2 : Z * option thrown }.

(** INSERT ... ON CONFLICT DO UPDATE, whole or not at all. *)
Definition upsertHealth (w : Z * option thrown) (providerId : string) (status : HealthStatus) (latencyMs : option Z)
    (errorMessage : option string) (t : health_table) : health_table * result thrown unit :=
  match w.2 with
  | None => (<[providerId := {| h_status := status; h_latencyMs := latencyMs; h_errorMessage := errorMessage;
                                h_checkedAt := w.1 |}]> t, Ok tt)
  | Some e => (t, Err e)
  end.

Definition response_ok (status : Z) : bool := (200 <=? status) && (status <=? 299).

Definition checkProvider (row : ProviderProbeRow) (o : observation) (t : health_table)
    : health_table * result thrown unit :=
  match healthCheckUrl row with
  | None | Some ""%string => upsertHealth (write1 o) (pp_id row) UNKNOWN None None t
  | Some _ =>
      let caught := λ error (w : Z * option thrown) t,
        upsertHealth w (pp_id row) UNHEALTHY None (Some (toErrorMessage error)) t in
      match seen o with
      | Answered status latencyMs =>
          let verdict :=
            if response_ok status then if DEGRADED_LATENCY_MS <? latencyMs then DEGRADED else HEALTHY else UNHEALTHY in
          match upsertHealth (write1 o) (pp_id row) verdict (Some latencyMs)
                  (if response_ok status then None else Some ("HTTP " ++ dec status)%string) t with
          | (t, Ok _) => (t, Ok tt)
          | (t, Err e) => caught e (write2 o) t
          end
      | Threw e => caught e (write1 o) t
      end
  end.

(** [Promise.all] over the rows, in the order their checks complete: every check
    runs to its end; the first failure is the outcome. *)
Fixpoint check_all (l : list (ProviderProbeRow * observation)) (t : health_table) : health_table * result thrown unit :=
  match l with
  | [] => (t, Ok tt)
  | (row, o) :: l' =>
      let '(t, r) := checkProvider row o t in
      let '(t', r') := check_all l' t in
      (t', match r with Err e => Err e | Ok _ => r' end)
  end.

(** The gauge of each breaker's state, under the provider's name when it is loaded. *)
Definition gauge_samples (s : snapshot) (states : list (string * string)) : list (string * Z) :=
  map (λ x, (match getProvider s x.1 with Some p => p_name p | None => x.1 end, circuitStateValue x.2)) states.

(** [refreshCircuitGauge]: an outage of the store is logged and ignored. *)
Definition refreshCircuitGauge (s : snapshot) (states : result thrown (list (string * string))) : list (string * Z) :=
  match states with Ok l => gauge_samples s l | Err _ => [] end.

(** [runOnce], with the rows that the query returned. *)
Definition runOnce (rows : result thrown (list (ProviderProbeRow * observation))) (s : snapshot)
    (states : result thrown (list (string * string))) (t : health_table)
    : health_table * list (string * Z) * result thrown unit :=
  match rows with
  | Err e => (t, [], Err e)
  | Ok l =>
      match check_all l t with
      | (t, Ok _) => (t, refreshCircuitGauge s states, Ok tt)
      | (t, Err e) => (t, [], Err e)
      end
  end.

(** ** What a run records *)

(** The verdict of a check whose writes succeed. *)
Definition verdict_of (row : ProviderProbeRow) (o : observation) : HealthRow :=
  let at_ := (write1 o).1 in
  match healthCheckUrl row, seen o with
  | None, _ | Some ""%string, _ => {| h_status := UNKNOWN; h_latencyMs := None; h_errorMessage := None; h_checkedAt := at_ |}
  | Some _, Answered status latencyMs =>
      if response_ok status
      then {| h_status := if DEGRADED_LATENCY_MS <? latencyMs then DEGRADED else HEALTHY;
              h_latencyMs := Some latencyMs; h_errorMessage := None; h_checkedAt := at_ |}
      else {| h_status := UNHEALTHY; h_latencyMs := Some latencyMs;
              h_errorMessage := Some ("HTTP " ++ dec status)%string; h_checkedAt := at_ |}
  | Some _, Threw e =>
      {| h_status := UNHEALTHY; h_latencyMs := None; h_errorMessage := Some (toErrorMessage e); h_checkedAt := at_ |}
  end.

Lemma check_records row o t : (write1 o).2 = None →
  checkProvider row o t = (<[pp_id row := verdict_of row o]> t, Ok tt).
Proof.
  intros Hw. unfold checkProvider, verdict_of, upsertHealth. rewrite Hw.
  destruct (healthCheckUrl row) as [[|c u]|]; try done. destruct (seen o) as [status latency | e]; [| done].
  by destruct (response_ok status).
Qed.

(** The checks of a run write the table of their verdicts. *)
Lemma checks_record l : ∀ t, Forall (λ x, (write1 x.2).2 = None) l →
  check_all l t = (foldl (λ t x, <[pp_id x.1 := verdict_of x.1 x.2]> t) t l, Ok tt).
Proof.
  induction l as [|[row o] l IH]; intros t Hl; [done |]. apply Forall_cons in Hl as [Ho Hl].
  cbn [check_all foldl fst snd]. rewrite check_records by done. by rewrite IH.
Qed.

Lemma fold_verdicts l : ∀ (t : health_table) i, NoDup (map (pp_id ∘ fst) l) →
  foldl (λ t x, <[pp_id x.1 := verdict_of x.1 x.2]> t) t l !! i =
    match List.find (λ x, String.eqb (pp_id x.1) i) l with Some x => Some (verdict_of x.1 x.2) | None => t !! i end.
Proof.
  induction l as [|[row o] l IH]; intros t i Hnd; [done |]. cbn [map] in Hnd. apply NoDup_cons in Hnd as [Hn Hnd].
  cbn [foldl fst snd List.find]. rewrite IH by done. destruct (String.eqb_spec (pp_id row) i) as [<- | Hne].
  - destruct (List.find _ l) as [x|] eqn:Ef; [| by rewrite lookup_insert_eq].
    apply find_some in Ef as [Hx He]. apply String.eqb_eq in He. destruct Hn. simpl. rewrite <- He.
    apply (list_elem_of_fmap_2 (pp_id ∘ fst)). by apply list_elem_of_In.
  - destruct (List.find _ l); [done |]. by rewrite lookup_insert_ne.
Qed.

(** A run records what its probes saw. When the query and the writes
    succeed, then in whatever order the checks complete: every active provider's
    row is the verdict of its own probe (unknown without a URL, unhealthy when
    the request throws or the status is not 2xx, degraded when a 2xx took more
    than two seconds, else healthy) with its latency and error text; the rows of
    all other providers are unchanged; and the gauge is set for every breaker. *)
Theorem health_recorded l l' s states t :
  NoDup (map (pp_id ∘ fst) l) → Forall (λ x, (write1 x.2).2 = None) l → l' ≡ₚ l →
  let '(t', gauge, r) := runOnce (Ok l') s states t in
  r = Ok tt ∧ gauge = refreshCircuitGauge s states ∧
  (∀ row o, (row, o) ∈ l → t' !! pp_id row = Some (verdict_of row o)) ∧
  (∀ i, i ∉ map (pp_id ∘ fst) l → t' !! i = t !! i).
Proof.
  intros Hnd Hw Hp. unfold runOnce.
  assert (Hw' : Forall (λ x, (write1 x.2).2 = None) l') by (by rewrite Hp).
  assert (Hnd' : NoDup (map (pp_id ∘ fst) l')) by (by rewrite Hp).
  rewrite checks_record by done. split_and!; [done | done | |].
  - intros row o Hin. rewrite fold_verdicts by done. rewrite <- Hp in Hin.
    destruct (List.find _ l') as [[row' o']|] eqn:Ef.
    + apply find_some in Ef as [Hx He]. apply String.eqb_eq in He. apply list_elem_of_In in Hx.
      by rewrite (nodup_key (pp_id ∘ fst) l' (row', o') (row, o)).
    + apply list_elem_of_In in Hin. by pose proof (find_none _ _ Ef _ Hin) as Hne%String.eqb_neq.
  - intros i Hi. rewrite fold_verdicts by done. rewrite <- Hp in Hi.
    destruct (List.find _ l') as [x|] eqn:Ef; [| done]. apply find_some in Ef as [Hx He].
    apply String.eqb_eq in He. destruct Hi. rewrite <- He. apply (list_elem_of_fmap_2 (pp_id ∘ fst)). by apply list_elem_of_In.
Qed.

Definition slow_row : ProviderProbeRow := {| pp_id := "a"; pp_name := "a"; healthCheckUrl := Some "https://a"; pp_timeoutMs := 5000 |}.
Definition no_url_row : ProviderProbeRow := {| pp_id := "b"; pp_name := "b"; healthCheckUrl := None; pp_timeoutMs := 5000 |}.
Definition slow_answer : observation := {| seen := Answered 200 2500; write1 := (10, None); write2 := (11, None) |}.
Lemma health_recorded_witness :
  let l := [(slow_row, slow_answer); (no_url_row, slow_answer)] in
  let '(t', gauge, r) := runOnce (Ok l) (Snapshot [] []) (Ok [("a", "OPEN")]%string) ∅ in
  r = Ok tt ∧ gauge = [("a"%string, 2)] ∧
  (∀ row o, (row, o) ∈ l → t' !! pp_id row = Some (verdict_of row o)) ∧
  (∀ i, i ∉ map (pp_id ∘ fst) l → t' !! i = (∅ : health_table) !! i).
Proof.
  apply (health_recorded [(slow_row, slow_answer); (no_url_row, slow_answer)] _ (Snapshot [] []) (Ok [("a", "OPEN")]%string) ∅);
    [by apply (bool_decide_unpack _); vm_compute | by repeat constructor | done].
Defined.

(** A healthy probe whose write fails is written again, as unhealthy, with the
    database's error. *)
Example failed_write_reports_unhealthy :
  let down := TError "Error" "connection reset" [] in
  checkProvider slow_row {| seen := Answered 200 20; write1 := (10, Some down); write2 := (11, None) |} ∅ =
    (<["a"%string := {| h_status := UNHEALTHY; h_latencyMs := None; h_errorMessage := Some "connection reset"%string;
                        h_checkedAt := 11 |}]> ∅, Ok tt).
Proof. by vm_compute. Qed.

(** ** The life cycle *)

(** Where the current run is: waiting for its rows, for [left] of its checks, or
    for the gauge refresh; [Idle] when [this.running] is false. *)
Inductive phase := Idle | Selecting | Probing (left : nat) | Refreshing.

(** The fields of the monitor. [orphans] counts the checks of runs that have
    already been rejected: [Promise.all] does not wait for them. *)
Record monitor := { timer : bool; stopped : bool; ph : phase; orphans : nat }.
Definition initial : monitor := {| timer := false; stopped := false; ph := Idle; orphans := 0 |}.

Definition running (m : monitor) : bool := match ph m with Idle => false | _ => true end.
Definition at_phase (p : phase) (m : monitor) : monitor :=
  {| timer := timer m; stopped := stopped m; ph := p; orphans := orphans m |}.

Definition tick (m : monitor) : monitor := if running m || stopped m then m else at_phase Selecting m.

Definition start (enabled : bool) (m : monitor) : monitor :=
  if timer m || negb enabled then m
  else tick {| timer := true; stopped := stopped m; ph := ph m; orphans := orphans m |}.

(** [stop], up to its [await this.current], which is over when the phase is [Idle]. *)
Definition stop (m : monitor) : monitor :=
  {| timer := false; stopped := true; ph := ph m; orphans := orphans m |}.

Inductive label :=
| Start | Fire | Stop                             (* calls, and the interval *)
| Rows (n : nat) | QueryFailed                    (* the query settles *)
| CheckDone | CheckFailed | OrphanDone            (* a check settles *)
| Refreshed.                                      (* the gauge refresh settles *)

(** One step; [None] when it cannot happen. *)
Definition step (enabled : bool) (m : monitor) (l : label) : option monitor :=
  match l, ph m with
  | Start, _ => Some (start enabled m)
  | Fire, _ => if timer m then Some (tick m) else None
  | Stop, _ => Some (stop m)
  | Rows O, Selecting => Some (at_phase Refreshing m)
  | Rows n, Selecting => Some (at_phase (Probing n) m)
  | QueryFailed, Selecting => Some (at_phase Idle m)
  | CheckDone, Probing 1 => Some (at_phase Refreshing m)
  | CheckDone, Probing (S (S k)) => Some (at_phase (Probing (S k)) m)
  | CheckFailed, Probing (S k) =>
      Some {| timer := timer m; stopped := stopped m; ph := Idle; orphans := orphans m + k |}
  | OrphanDone, _ =>
      match orphans m with
      | S k => Some {| timer := timer m; stopped := stopped m; ph := ph m; orphans := k |}
      | O => None
      end
  | Refreshed, Refreshing => Some (at_phase Idle m)
  | _, _ => None
  end.

Fixpoint steps (enabled : bool) (m : monitor) (ls : list label) : option monitor :=
  match ls with [] => Some m | l :: ls' => step enabled m l ≫= λ m', steps enabled m' ls' end.

(** The probes whose requests may still be running. *)
Definition probes (m : monitor) : nat := (match ph m with Probing k => k | _ => 0 end + orphans m)%nat.

(** Once stopped and idle, nothing starts again. *)
Lemma stopped_step enabled m l m' : step enabled m l = Some m' → stopped m = true → ph m = Idle →
  stopped m' = true ∧ ph m' = Idle ∧ (probes m' <= probes m)%nat.
Proof.
  intros H Hs Hi. unfold probes. destruct m as [ti st p o]. simpl in Hs, Hi. subst st p.
  destruct l; simpl in H; unfold start, tick, stop, running, at_phase in H; simpl in H; try discriminate.
  - destruct (ti || negb enabled); injection H as <-; simpl; split_and!; try done; lia.
  - destruct ti; [| done]. injection H as <-. simpl. split_and!; try done; lia.
  - injection H as <-. simpl. split_and!; try done; lia.
  - by destruct n.
  - destruct o; [done |]. injection H as <-. simpl. split_and!; try done; lia.
Qed.

Lemma stopped_steps enabled ls : ∀ m m', steps enabled m ls = Some m' → stopped m = true → ph m = Idle →
  ph m' = Idle ∧ (probes m' <= probes m)%nat.
Proof.
  induction ls as [|l ls IH]; intros m m' H Hs Hi; [injection H as <-; by split |].
  simpl in H. destruct (step enabled m l) as [m1|] eqn:E; [| done].
  destruct (stopped_step enabled m l m1 E Hs Hi) as (Hs1 & Hi1 & Hp1).
  destruct (IH m1 m' H Hs1 Hi1) as [Hi' Hp']. split; [done | lia].
Qed.

Lemma no_orphans_step enabled m l m' : step enabled m l = Some m' → l ≠ CheckFailed → orphans m = 0%nat → orphans m' = 0%nat.
Proof.
  intros H Hl Ho. destruct m as [ti st p o]. simpl in Ho. subst o.
  destruct l; try done; simpl in H; unfold start, tick, stop, running, at_phase in H; simpl in H;
    repeat case_match; simplify_eq/=; done.
Qed.

(** A [stop] is final, and it is quiet when no check failed. In every
    reachable state of the monitor: once it is stopped and its current run has
    settled (so [stop] has returned), no sequence of calls, timer ticks or
    settlements starts a run or a probe again; and as long as no check of any
    run has been rejected, no probe is in flight then, so shutdown does not race
    one. *)
Theorem stop_quiesces enabled ls m :
  steps enabled initial ls = Some m →
  (stopped m = true → ph m = Idle → ∀ ls' m', steps enabled m ls' = Some m' → ph m' = Idle ∧ (probes m' <= probes m)%nat) ∧
  (CheckFailed ∉ ls → ph m = Idle → probes m = 0%nat).
Proof.
  intros H. split; [intros Hs Hi ls' m' H'; by eapply stopped_steps |].
  intros Hn Hi. unfold probes. rewrite Hi. simpl.
  assert (Ho : orphans initial = 0%nat) by done. revert Ho H Hn. generalize initial. clear Hi.
  induction ls as [|l ls IH]; intros m0 Ho H Hn; [by injection H as <- |].
  simpl in H. destruct (step enabled m0 l) as [m1|] eqn:E; [| done].
  apply not_elem_of_cons in Hn as [Hl Hn]. apply (IH m1); [| done | done]. by eapply no_orphans_step.
Qed.

Lemma stop_quiesces_witness :
  ∃ m, steps true initial [Start; Rows 2; Fire; Stop; CheckDone; CheckDone; Refreshed] = Some m ∧ probes m = 0%nat.
Proof.
  eexists. split; [reflexivity |].
  refine (proj2 (stop_quiesces true [Start; Rows 2; Fire; Stop; CheckDone; CheckDone; Refreshed] _ _) _ _); [reflexivity | | reflexivity].
  rewrite !not_elem_of_cons. repeat split; try discriminate. apply not_elem_of_nil.
Defined.

(** With a rejected check it is not: [Promise.all] settles the run while another
    probe is in flight, so [stop] returns before that probe has written. *)
Example stop_returns_before_probe :
  (λ m, (running m, probes m)) <$> steps true initial [Start; Rows 2; CheckFailed; Stop] = Some (false, 1%nat).
Proof. done. Qed.

(** A monitor that was stopped does not probe again when it is started. *)
Example restart_never_probes :
  (λ m, (timer m, running m)) <$> steps true initial [Stop; Start; Fire] = Some (true, false).
Proof. done. Qed.
