(* ===== verification/Configuration.v ===== *)
(** * Application configuration ([src/config/index.ts])

    The environment schema as an accumulating validator: each variable is
    coerced, defaulted and checked, every failing check is an issue, and the
    configuration exists only when there is none. *)

From Stdlib Require Import ZArith Lia QArith Qround String Ascii.
From stdpp Require Import base strings list option.
From S2P Require Import Prelude Numerals Bytes Json Errors Types Stream Values Crypto LoadBalancer CircuitBreaker RateLimiter.
Open Scope Z_scope.

(** ** Checks *)

Inductive issue_kind := invalid_type | not_integer | too_small | too_big | invalid_enum_value | invalid_string.
#[export] Instance issue_kind_eq_dec : EqDecision issue_kind.
Proof. solve_decision. Defined.

(** A variable's schema: what it makes of the variable, set or not. *)
Definition schema (A : Type) : Type := option string → result (list issue_kind) A.

Definition below (n : js_number) (lo : Q) : bool :=
  match n with NaN => false | Infinity neg => neg | Finite q => negb (Qle_bool lo q) end.
Definition above (n : js_number) (hi : Q) : bool :=
  match n with NaN => false | Infinity neg => negb neg | Finite q => negb (Qle_bool q hi) end.

Definition when (b : bool) (k : issue_kind) : list issue_kind := if b then [k] else [].
Definition over (n : js_number) (hi : option Q) : bool := match hi with Some h => above n h | None => false end.

(** [z.number().min(lo).max(hi)], and with [.int()]. *)
Definition check_number (lo : Q) (hi : option Q) (n : js_number) : result (list issue_kind) js_number :=
  match n with
  | NaN => Err [invalid_type]
  | _ => match (when (below n lo) too_small ++ when (over n hi) too_big)%list with [] => Ok n | ks => Err ks end
  end.
Definition integer_of (n : js_number) : option Z := match n with Finite q => to_int q | _ => None end.
Definition check_int (lo : Z) (hi : option Z) (n : js_number) : result (list issue_kind) Z :=
  match n with
  | NaN => Err [invalid_type]
  | _ =>
      let bounds := (when (below n (inject_Z lo)) too_small ++ when (over n (inject_Z <$> hi)) too_big)%list in
      match integer_of n, bounds with
      | Some z, [] => Ok z
      | Some _, ks => Err ks
      | None, ks => Err (not_integer :: ks)
      end
  end.

(** [z.coerce.number()...default(d)]. *)
Definition coerced (d : Q) (v : option string) : js_number :=
  match v with Some s => to_number s | None => Finite d end.
Definition int_min (lo d : Z) : schema Z := λ v, check_int lo None (coerced (inject_Z d) v).
Definition int_range (lo hi d : Z) : schema Z := λ v, check_int lo (Some hi) (coerced (inject_Z d) v).
Definition num_min (lo d : Q) : schema js_number := λ v, check_number lo None (coerced d v).
Definition num_range (lo hi d : Q) : schema Q := λ v,
  let! n := check_number lo (Some hi) (coerced d v) in
  match n with Finite q => Ok q | _ => Err [too_big] end.

Definition enum {A} (table : list (string * A)) (d : string) : schema A := λ v,
  match List.find (λ x, String.eqb (v ?? d) x.1) table with Some x => Ok x.2 | None => Err [invalid_enum_value] end.

Definition booleanFromString (d : string) : schema bool :=
  enum [("true", true); ("false", false); ("1", true); ("0", false); ("yes", true); ("no", false)]%string d.

Definition string_default (d : string) : schema string := λ v, Ok (v ?? d).
Definition string_min_default (n : nat) (d : string) : schema string := λ v,
  if (n <=? String.length (v ?? d))%nat then Ok (v ?? d) else Err [too_small].
Definition string_min (n : nat) : schema string := λ v,
  match v with
  | Some s => if (n <=? String.length s)%nat then Ok s else Err [too_small]
  | None => Err [invalid_type]
  end.

Definition is_hex_digit (c : ascii) : bool := match hex_rank c with Some _ => true | None => false end.
Definition hex64 (s : string) : bool :=
  (String.length s =? 64)%nat && forallb is_hex_digit (list_ascii_of_string s).
Definition hex32ByteKey : schema string := λ v,
  match v with Some s => if hex64 s then Ok s else Err [invalid_string] | None => Err [invalid_type] end.

(** [z.preprocess]: an empty string is an unset variable. *)
Definition optional_key : schema (option string) := λ v,
  match v with
  | None | Some ""%string => Ok None
  | Some s => if hex64 s then Ok (Some s) else Err [invalid_string]
  end.

(** ** Accumulation *)

Record issue := Issue { issue_path : string; issue_what : issue_kind }.

Definition validation (A : Type) : Type := list issue * option A.

Definition pure {A} (a : A) : validation A := ([], Some a).
Definition ap {A B} (f : validation (A → B)) (x : validation A) : validation B :=
  ((f.1 ++ x.1)%list, match f.2, x.2 with Some g, Some a => Some (g a) | _, _ => None end).

Definition Env : Type := string → option string.

Definition var {A} (env : Env) (name : string) (p : schema A) : validation A :=
  match p (env name) with
  | Ok a => ([], Some a)
  | Err ks => (map (Issue name) ks, None)
  end.

(** ** The schema *)

Inductive NodeEnv := development | production | test.

Record AppConfig := {
  NODE_ENV : NodeEnv; LOG_LEVEL : string; LOG_PRETTY : bool;
  HOST : string; PORT : Z; TRUST_PROXY : bool; MAX_REQUEST_BODY_BYTES : Z; SHUTDOWN_TIMEOUT_MS : Z;
  KEEP_ALIVE_TIMEOUT_MS : Z;
  DATABASE_URL : string; DATABASE_POOL_MAX : Z; DATABASE_POOL_MIN : Z; DATABASE_IDLE_TIMEOUT_MS : Z;
  DATABASE_CONNECTION_TIMEOUT_MS : Z; DATABASE_STATEMENT_TIMEOUT_MS : Z; DATABASE_SSL : bool;
  REDIS_URL : string; REDIS_KEY_PREFIX : string; REDIS_CONNECT_TIMEOUT_MS : Z; REDIS_MAX_RETRIES_PER_REQUEST : Z;
  ENCRYPTION_KEY : string; ENCRYPTION_KEY_PREVIOUS : option string; ADMIN_API_KEY : string;
  AUTH_CACHE_TTL_SECONDS : Z;
  REGISTRY_CACHE_TTL_SECONDS : Z; PROVIDER_TIMEOUT_MS : Z;
  LOAD_BALANCER_STRATEGY : StrategyName; LB_LATENCY_EMA_ALPHA : Q; LB_FAILURE_PENALTY_MS : Z;
  CB_FAILURE_THRESHOLD : Z; CB_SUCCESS_THRESHOLD : Z; CB_TIMEOUT_MS : Z; CB_WINDOW_MS : Z; CB_HALF_OPEN_MAX_PROBES : Z;
  RATE_LIMIT_ENABLED : bool; RATE_LIMIT_DEFAULT_RPM : Z; RATE_LIMIT_DEFAULT_TPM : Z; RATE_LIMIT_BURST_ENABLED : bool;
  RATE_LIMIT_BURST_MULTIPLIER : js_number; RATE_LIMIT_BURST_WINDOW_MS : Z;
  CACHE_ENABLED : bool; CACHE_DEFAULT_TTL_SECONDS : Z; CACHE_MAX_VALUE_BYTES : Z;
  RETRY_MAX_ATTEMPTS : Z; RETRY_BASE_DELAY_MS : Z; RETRY_MAX_DELAY_MS : Z;
  METRICS_ENABLED : bool; OTEL_ENABLED : bool; OTEL_SERVICE_NAME : string; OTEL_EXPORTER_OTLP_ENDPOINT : option string;
  OTEL_TRACES_SAMPLER_RATIO : Q;
  HEALTH_MONITOR_ENABLED : bool; HEALTH_MONITOR_INTERVAL_MS : Z
}.

Definition node_envs : list (string * NodeEnv) :=
  [("development", development); ("production", production); ("test", test)]%string.
Definition log_levels : list (string * string) :=
  map (λ s, (s, s)) ["trace"; "debug"; "info"; "warn"; "error"; "fatal"]%string.
Definition LOAD_BALANCER_STRATEGIES : list (string * StrategyName) :=
  [("ROUND_ROBIN", ROUND_ROBIN); ("WEIGHTED_ROUND_ROBIN", WEIGHTED_ROUND_ROBIN);
   ("LEAST_CONNECTIONS", LEAST_CONNECTIONS); ("LATENCY_BASED", LATENCY_BASED); ("RANDOM", RANDOM)]%string.

Declare Scope config_scope.
Delimit Scope config_scope with cfg.
Infix "<*>" := ap (at level 61, left associativity) : config_scope.

Section Schema.
(** [new URL(s)] does not throw. *)
Variable is_url : string → bool.
(** zod's text for an issue. *)
Variable issue_message : string → issue_kind → string.

Definition url_required : schema string := λ v,
  match v with Some s => if is_url s then Ok s else Err [invalid_string] | None => Err [invalid_type] end.
Definition url_optional : schema (option string) := λ v,
  match v with Some s => if is_url s then Ok (Some s) else Err [invalid_string] | None => Ok None end.

Definition configSchema (env : Env) : validation AppConfig :=
  (pure Build_AppConfig
   <*> var env "NODE_ENV" (enum node_envs "development")
   <*> var env "LOG_LEVEL" (enum log_levels "info")
   <*> var env "LOG_PRETTY" (booleanFromString "false")
   <*> var env "HOST" (string_min_default 1 "0.0.0.0")
   <*> var env "PORT" (int_range 1 65535 8080)
   <*> var env "TRUST_PROXY" (booleanFromString "true")
   <*> var env "MAX_REQUEST_BODY_BYTES" (int_min 1024 (10 * 1024 * 1024))
   <*> var env "SHUTDOWN_TIMEOUT_MS" (int_min 0 30000)
   <*> var env "KEEP_ALIVE_TIMEOUT_MS" (int_min 0 72000)
   <*> var env "DATABASE_URL" url_required
   <*> var env "DATABASE_POOL_MAX" (int_min 1 20)
   <*> var env "DATABASE_POOL_MIN" (int_min 0 2)
   <*> var env "DATABASE_IDLE_TIMEOUT_MS" (int_min 0 30000)
   <*> var env "DATABASE_CONNECTION_TIMEOUT_MS" (int_min 1 5000)
   <*> var env "DATABASE_STATEMENT_TIMEOUT_MS" (int_min 0 15000)
   <*> var env "DATABASE_SSL" (booleanFromString "false")
   <*> var env "REDIS_URL" url_required
   <*> var env "REDIS_KEY_PREFIX" (string_default "gw:")
   <*> var env "REDIS_CONNECT_TIMEOUT_MS" (int_min 1 5000)
   <*> var env "REDIS_MAX_RETRIES_PER_REQUEST" (int_min 1 3)
   <*> var env "ENCRYPTION_KEY" hex32ByteKey
   <*> var env "ENCRYPTION_KEY_PREVIOUS" optional_key
   <*> var env "ADMIN_API_KEY" (string_min 16)
   <*> var env "AUTH_CACHE_TTL_SECONDS" (int_min 1 30)
   <*> var env "REGISTRY_CACHE_TTL_SECONDS" (int_min 1 60)
   <*> var env "PROVIDER_TIMEOUT_MS" (int_min 1 60000)
   <*> var env "LOAD_BALANCER_STRATEGY" (enum LOAD_BALANCER_STRATEGIES "LATENCY_BASED")
   <*> var env "LB_LATENCY_EMA_ALPHA" (num_range (1 # 100) 1 (3 # 10))
   <*> var env "LB_FAILURE_PENALTY_MS" (int_min 0 30000)
   <*> var env "CB_FAILURE_THRESHOLD" (int_min 1 5)
   <*> var env "CB_SUCCESS_THRESHOLD" (int_min 1 2)
   <*> var env "CB_TIMEOUT_MS" (int_min 1 30000)
   <*> var env "CB_WINDOW_MS" (int_min 1 60000)
   <*> var env "CB_HALF_OPEN_MAX_PROBES" (int_min 1 1)
   <*> var env "RATE_LIMIT_ENABLED" (booleanFromString "true")
   <*> var env "RATE_LIMIT_DEFAULT_RPM" (int_min 1 60)
   <*> var env "RATE_LIMIT_DEFAULT_TPM" (int_min 1 100000)
   <*> var env "RATE_LIMIT_BURST_ENABLED" (booleanFromString "true")
   <*> var env "RATE_LIMIT_BURST_MULTIPLIER" (num_min 1 2)
   <*> var env "RATE_LIMIT_BURST_WINDOW_MS" (int_min 1 10000)
   <*> var env "CACHE_ENABLED" (booleanFromString "true")
   <*> var env "CACHE_DEFAULT_TTL_SECONDS" (int_min 1 3600)
   <*> var env "CACHE_MAX_VALUE_BYTES" (int_min 1 (256 * 1024))
   <*> var env "RETRY_MAX_ATTEMPTS" (int_min 1 3)
   <*> var env "RETRY_BASE_DELAY_MS" (int_min 1 200)
   <*> var env "RETRY_MAX_DELAY_MS" (int_min 1 5000)
   <*> var env "METRICS_ENABLED" (booleanFromString "true")
   <*> var env "OTEL_ENABLED" (booleanFromString "false")
   <*> var env "OTEL_SERVICE_NAME" (string_default "ai-gateway")
   <*> var env "OTEL_EXPORTER_OTLP_ENDPOINT" url_optional
   <*> var env "OTEL_TRACES_SAMPLER_RATIO" (num_range 0 1 (1 # 10))
   <*> var env "HEALTH_MONITOR_ENABLED" (booleanFromString "true")
   <*> var env "HEALTH_MONITOR_INTERVAL_MS" (int_min 1000 30000))%cfg.

Definition issue_line (i : issue) : string :=
  ("  - " ++ (if String.eqb (issue_path i) "" then "(root)" else issue_path i) ++ ": " ++
   issue_message (issue_path i) (issue_what i))%string.

Definition ConfigValidationError (issues : list issue) : thrown :=
  TError "ConfigValidationError"
    ("Invalid environment configuration:" ++ String nl (join (String nl "") (map issue_line issues)) ++ String nl
     "Refer to .env.example / docs/configuration.md for the full variable reference.") [].

Definition loadConfig (env : Env) : result thrown AppConfig :=
  match (configSchema env).2 with
  | Some c => Ok c
  | None => Err (ConfigValidationError (configSchema env).1)
  end.
End Schema.

Definition isProduction (c : AppConfig) : bool := match NODE_ENV c with production => true | _ => false end.
Definition isTest (c : AppConfig) : bool := match NODE_ENV c with test => true | _ => false end.

(** ** What a loaded configuration promises *)

Lemma ap_ok {A B} (f : validation (A → B)) x b : (ap f x).2 = Some b →
  ∃ g a, f.2 = Some g ∧ x.2 = Some a ∧ b = g a.
Proof. unfold ap. destruct f as [? [g|]], x as [? [a|]]; simpl; try done. intros [= <-]. eauto. Qed.

Lemma var_ok {A} env name (p : schema A) a : (var env name p).2 = Some a → p (env name) = Ok a.
Proof. unfold var. destruct (p (env name)); simpl; congruence. Qed.

Lemma below_spec q lo : below (Finite q) lo = false ↔ (lo <= q)%Q.
Proof. unfold below. rewrite negb_false_iff. apply Qle_bool_iff. Qed.
Lemma above_spec q hi : above (Finite q) hi = false ↔ (q <= hi)%Q.
Proof. unfold above. rewrite negb_false_iff. apply Qle_bool_iff. Qed.

Lemma check_int_spec lo hi n z : check_int lo hi n = Ok z →
  lo <= z ∧ ∀ h, hi = Some h → z <= h.
Proof.
  unfold check_int. destruct n as [| neg | q]; [done | done |].
  destruct (integer_of (Finite q)) as [z'|] eqn:E; [| done].
  destruct (below _ _) eqn:Eb; [done |]. destruct (over _ _) eqn:Eo; [done |]. intros [= ->].
  apply to_int_spec in E. apply below_spec in Eb. rewrite E, <- Zle_Qle in Eb. split; [done |].
  intros h ->. simpl in Eo. apply above_spec in Eo. by rewrite E, <- Zle_Qle in Eo.
Qed.

Lemma int_min_spec lo d v z : int_min lo d v = Ok z → lo <= z.
Proof. by intros [? _]%check_int_spec. Qed.
Lemma int_range_spec lo hi d v z : int_range lo hi d v = Ok z → lo <= z <= hi.
Proof. intros [? H]%check_int_spec. split; [done | by apply H]. Qed.

Lemma num_range_spec lo hi d v q : num_range lo hi d v = Ok q → (lo <= q <= hi)%Q.
Proof.
  unfold num_range, check_number. destruct (coerced d v) as [| neg | q']; simpl; [done | |].
  - by destruct neg.
  - destruct (Qle_bool lo q') eqn:E1; [| by destruct (Qle_bool q' hi)]. destruct (Qle_bool q' hi) eqn:E2; [| done].
    intros [= <-]. by rewrite <- !Qle_bool_iff.
Qed.

Lemma hex32_spec v s : hex32ByteKey v = Ok s → hex64 s = true.
Proof. destruct v as [s'|]; simpl; [| done]. destruct (hex64 s') eqn:E; [| done]. by intros [= <-]. Qed.
Lemma optional_key_spec v k s : optional_key v = Ok k → k = Some s → hex64 s = true.
Proof.
  intros H ->. destruct v as [t|]; [| done].
  assert (optional_key (Some t) = if String.eqb t "" then Ok None else if hex64 t then Ok (Some t) else Err [invalid_string])
    as E by by destruct t.
  rewrite E in H. destruct (String.eqb t ""); [done |]. destruct (hex64 t) eqn:Eh; [| done]. by injection H as ->.
Qed.
Lemma string_min_spec n v s : string_min n v = Ok s → (n <= String.length s)%nat.
Proof. destruct v as [s'|]; simpl; [| done]. destruct (_ <=? _)%nat eqn:E; [| done]. intros [= <-]. by apply Nat.leb_le. Qed.

(** 64 hexadecimal digits are 32 bytes. *)
Lemma hex_pairs s n : String.length s = (2 * n)%nat → forallb is_hex_digit (list_ascii_of_string s) = true →
  length (of_hex s) = n.
Proof.
  revert s. induction n as [|n IH]; intros s; [by destruct s |].
  destruct s as [|c [|d s]]; simpl; try lia. intros Hl. unfold is_hex_digit.
  destruct (hex_rank c), (hex_rank d); simpl; try done. intros Hs. f_equal. apply IH; [lia | done].
Qed.
Lemma hex64_bytes s : hex64 s = true → length (of_hex s) = MASTER_KEY_BYTES.
Proof. unfold hex64. intros [Hl Hs]%andb_true_iff. apply Nat.eqb_eq in Hl. by apply hex_pairs. Qed.

(** The options of the process's circuit breaker. *)
Definition breaker_options (c : AppConfig) : CircuitBreakerOptions :=
  {| failureThreshold := CB_FAILURE_THRESHOLD c; successThreshold := CB_SUCCESS_THRESHOLD c;
     CircuitBreaker.timeoutMs := CB_TIMEOUT_MS c; windowMs := CB_WINDOW_MS c; halfOpenMaxProbes := CB_HALF_OPEN_MAX_PROBES c |}.

(** What the rest of the process relies on. *)
Record config_ok (c : AppConfig) : Prop := {
  ok_port : 1 <= PORT c <= 65535;
  ok_body : 1024 <= MAX_REQUEST_BODY_BYTES c;
  ok_pool : 1 <= DATABASE_POOL_MAX c ∧ 0 <= DATABASE_POOL_MIN c;
  ok_master : ∃ key, MASTER_KEY (ENCRYPTION_KEY c) = Ok key ∧ length key = MASTER_KEY_BYTES;
  ok_previous : ∀ key, PREVIOUS_MASTER_KEY (ENCRYPTION_KEY_PREVIOUS c) = Some key → length key = MASTER_KEY_BYTES;
  ok_admin : (16 <= String.length (ADMIN_API_KEY c))%nat;
  ok_ttls : 1 <= AUTH_CACHE_TTL_SECONDS c ∧ 1 <= REGISTRY_CACHE_TTL_SECONDS c ∧ 1 <= CACHE_DEFAULT_TTL_SECONDS c;
  ok_timeout : 1 <= PROVIDER_TIMEOUT_MS c;
  ok_alpha : (1 # 100 <= LB_LATENCY_EMA_ALPHA c <= 1)%Q;
  ok_penalty : 0 <= LB_FAILURE_PENALTY_MS c;
  ok_breaker : options_ok (breaker_options c);
  ok_limits : 1 <= RATE_LIMIT_DEFAULT_RPM c ∧ 1 <= RATE_LIMIT_DEFAULT_TPM c ∧ 1 <= RATE_LIMIT_BURST_WINDOW_MS c;
  ok_cache : 1 <= CACHE_MAX_VALUE_BYTES c;
  ok_retry : 1 <= RETRY_MAX_ATTEMPTS c ∧ 1 <= RETRY_BASE_DELAY_MS c ∧ 1 <= RETRY_MAX_DELAY_MS c;
  ok_sampler : (0 <= OTEL_TRACES_SAMPLER_RATIO c <= 1)%Q;
  ok_monitor : 1000 <= HEALTH_MONITOR_INTERVAL_MS c
}.

(** The value of every variable, from a configuration that loaded. *)
Ltac schema_inv :=
  repeat match goal with
  | E : (ap _ _).2 = Some _ |- _ => apply ap_ok in E as (? & ? & E & ?%var_ok & ->)
  | E : (pure _).2 = Some _ |- _ => injection E as <-
  end.

Lemma MASTER_KEY_ok s : hex64 s = true → ∃ key, MASTER_KEY s = Ok key ∧ length key = MASTER_KEY_BYTES.
Proof. intros H%hex64_bytes. exists (of_hex s). split; [| done]. unfold MASTER_KEY. by rewrite H, Nat.eqb_refl. Qed.
Lemma PREVIOUS_MASTER_KEY_ok o key : (∀ s, o = Some s → hex64 s = true) → PREVIOUS_MASTER_KEY o = Some key →
  length key = MASTER_KEY_BYTES.
Proof. intros H. destruct o as [s|]; simpl; [| done]. intros [= <-]. by apply hex64_bytes, H. Qed.

Create HintDb config.
#[local] Hint Resolve int_min_spec int_range_spec num_range_spec hex32_spec optional_key_spec string_min_spec
  MASTER_KEY_ok PREVIOUS_MASTER_KEY_ok : config.

(** C33: A configuration that loads is well typed for every component. Whatever
    the environment, when [loadConfig] returns, the port is a port, both
    encryption keys decode to 32 bytes (so the module that parses them loads and
    decryption never meets a key of the wrong length), the breaker's options,
    the smoothing factor, limits, timeouts, delays and sizes are in the ranges
    the components assume. *)
Theorem loaded_config_ok is_url issue_message env c :
  loadConfig is_url issue_message env = Ok c → config_ok c.
Proof.
  unfold loadConfig. destruct (configSchema is_url env).2 as [c'|] eqn:E; [| done]. intros [= ->].
  unfold configSchema in E. schema_inv. constructor; cbn; first [by eauto with config | repeat split; by eauto with config].
Qed.

(** The variables the deployment guide requires, and a few others. *)
Definition sample_env : Env := λ n,
  snd <$> List.find (λ x, String.eqb n x.1)
    [("DATABASE_URL", "postgresql://db:5432/gateway"); ("REDIS_URL", "redis://cache:6379");
     ("ENCRYPTION_KEY", join "" (replicate 8 "0123abCD")); ("ADMIN_API_KEY", "an-admin-key-of-some-length");
     ("ENCRYPTION_KEY_PREVIOUS", ""); ("PORT", " 9000 "); ("LB_LATENCY_EMA_ALPHA", "0.5")]%string.
Definition any_url (s : string) : bool := (8 <=? String.length s)%nat.
Definition kind_text (_ : string) (k : issue_kind) : string :=
  match k with
  | invalid_type => "Required" | not_integer => "Expected integer" | too_small => "too small" | too_big => "too big"
  | invalid_enum_value => "Invalid enum value" | invalid_string => "Invalid"
  end%string.
Lemma loaded_config_ok_witness :
  ∃ c, loadConfig any_url kind_text sample_env = Ok c ∧ config_ok c ∧ PORT c = 9000 ∧ ENCRYPTION_KEY_PREVIOUS c = None.
Proof.
  eexists. split; [vm_compute; reflexivity |]. split; [| split; reflexivity].
  apply (loaded_config_ok any_url kind_text sample_env). vm_compute; reflexivity.
Defined.

(** ** What a rejected environment is told *)

(** A schema that rejects says why. *)
Definition strict {A} (p : schema A) : Prop := ∀ v, p v ≠ Err [].

Lemma check_int_strict lo hi n : check_int lo hi n ≠ Err [].
Proof. unfold check_int. destruct n; try done; destruct (integer_of _), (_ ++ _)%list; done. Qed.
Lemma check_number_strict lo hi n : check_number lo hi n ≠ Err [].
Proof. unfold check_number. destruct n; try done; destruct (_ ++ _)%list; done. Qed.

Lemma int_min_strict lo d : strict (int_min lo d).
Proof. intros v. apply check_int_strict. Qed.
Lemma int_range_strict lo hi d : strict (int_range lo hi d).
Proof. intros v. apply check_int_strict. Qed.
Lemma num_min_strict lo d : strict (num_min lo d).
Proof. intros v. apply check_number_strict. Qed.
Lemma num_range_strict lo hi d : strict (num_range lo hi d).
Proof.
  intros v. unfold num_range. pose proof (check_number_strict lo (Some hi) (coerced d v)) as H.
  destruct (check_number _ _ _) as [[]|[]]; done.
Qed.
Lemma enum_strict {A} table d : strict (@enum A table d).
Proof. intros v. unfold enum. by destruct (List.find _ _). Qed.
Lemma boolean_strict d : strict (booleanFromString d).
Proof. apply enum_strict. Qed.
Lemma string_min_default_strict n d : strict (string_min_default n d).
Proof. intros v. unfold string_min_default. by destruct (_ <=? _)%nat. Qed.
Lemma string_min_strict n : strict (string_min n).
Proof. intros [s|]; simpl; [by destruct (_ <=? _)%nat | done]. Qed.
Lemma hex32_strict : strict hex32ByteKey.
Proof. intros [s|]; simpl; [by destruct (hex64 s) | done]. Qed.
Lemma optional_key_strict : strict optional_key.
Proof. intros [[|c s]|]; try done. unfold optional_key. by destruct (hex64 _). Qed.
Lemma url_required_strict is_url : strict (url_required is_url).
Proof. intros [s|]; simpl; [by destruct (is_url s) | done]. Qed.
Lemma url_optional_strict is_url : strict (url_optional is_url).
Proof. intros [s|]; simpl; [by destruct (is_url s) | done]. Qed.
Lemma string_default_strict d : strict (string_default d).
Proof. done. Qed.

#[local] Hint Resolve int_min_strict int_range_strict num_min_strict num_range_strict enum_strict boolean_strict string_min_default_strict
  string_min_strict hex32_strict optional_key_strict url_required_strict url_optional_strict string_default_strict : config.

(** A validator rejects exactly when it has an issue, and the issues it reports
    at a path are a function of the variable there. *)
Record honest {A} (v : Env → validation A) : Prop := {
  honest_accepts : ∀ env a, (v env).2 = Some a → (v env).1 = [];
  honest_rejects : ∀ env, (v env).2 = None → (v env).1 ≠ [];
  honest_local : ∀ env env' i, env' (issue_path i) = env (issue_path i) → i ∈ (v env).1 → i ∈ (v env').1
}.

Lemma honest_pure {A} (a : A) : honest (λ _, pure a).
Proof. split; done. Qed.

Lemma honest_var {A} name (p : schema A) : strict p → honest (λ env, var env name p).
Proof.
  intros Hp. split; unfold var.
  - intros env a. by destruct (p (env name)).
  - intros env. pose proof (Hp (env name)) as Hn. destruct (p (env name)) as [|[|k ks]]; done.
  - intros env env' i He Hi. destruct (p (env name)) as [|ks] eqn:E; simpl in Hi; [by apply elem_of_nil in Hi |].
    apply list_elem_of_fmap in Hi as (k & -> & Hk). simpl in He. rewrite He, E. simpl. by apply list_elem_of_fmap_2.
Qed.

Lemma honest_ap {A B} (f : Env → validation (A → B)) x : honest f → honest x → honest (λ env, ap (f env) (x env)).
Proof.
  intros [Fa Fr Fl] [Xa Xr Xl]. split; intros env; specialize (Fa env); specialize (Fr env); specialize (Xa env);
    specialize (Xr env); simpl.
  - intros b. destruct ((f env).2) as [g|], ((x env).2) as [a|]; try done. intros _. by rewrite (Fa _ eq_refl), (Xa _ eq_refl).
  - destruct ((f env).2) as [g|]; [destruct ((x env).2) as [a|]; [done |] |]; intros _ [H1 H2]%app_eq_nil;
      [by apply Xr | by apply Fr].
  - intros env' i He. rewrite !elem_of_app. intros [Hi | Hi]; [left | right]; eauto.
Qed.

Lemma honest_listed {A} (v : Env → validation A) env env' i : honest v →
  i ∈ (v env).1 → env' (issue_path i) = env (issue_path i) → i ∈ (v env').1 ∧ (v env').2 = None.
Proof.
  intros [Ha _ Hl] Hi He. specialize (Hl _ _ _ He Hi). split; [done |]. specialize (Ha env').
  destruct (v env').2 as [a|]; [| done]. rewrite (Ha a eq_refl) in Hl. by apply elem_of_nil in Hl.
Qed.

Lemma configSchema_honest is_url : honest (configSchema is_url).
Proof. unfold configSchema. repeat apply honest_ap; [apply honest_pure | ..]; apply honest_var; auto with config. Qed.

(** Loading reports every offending variable at once. A rejected
    environment always has an issue to show, and an issue is only about the
    variable it names: in any other environment with that variable unchanged,
    whatever was corrected or broken elsewhere, loading fails and the same issue
    is in the list it reports, so no failure hides another. *)
Theorem every_offence_listed is_url issue_message env env' :
  (∀ e, loadConfig is_url issue_message env = Err e →
     (configSchema is_url env).1 ≠ [] ∧ e = ConfigValidationError issue_message (configSchema is_url env).1) ∧
  (∀ i, i ∈ (configSchema is_url env).1 → env' (issue_path i) = env (issue_path i) →
     i ∈ (configSchema is_url env').1 ∧
     loadConfig is_url issue_message env' = Err (ConfigValidationError issue_message (configSchema is_url env').1)).
Proof.
  pose proof (configSchema_honest is_url) as H. unfold loadConfig. split.
  - intros e. pose proof (honest_rejects _ H env) as Hr. destruct (configSchema is_url env) as [ks [c|]]; [done |].
    intros [= <-]. by auto.
  - intros i Hi He. destruct (honest_listed _ _ _ _ H Hi He) as [Hl E]. by rewrite E.
Qed.

Definition bad_env : Env := λ n,
  (if String.eqb n "PORT" then Some "70000.5" else if String.eqb n "ENCRYPTION_KEY" then Some "xyz" else sample_env n)%string.
Example bad_env_issues :
  (configSchema any_url bad_env).1 =
  [Issue "PORT" not_integer; Issue "PORT" too_big; Issue "ENCRYPTION_KEY" invalid_string].
Proof. by vm_compute. Qed.

(** With the port corrected, the key is still reported. *)
Definition half_fixed_env : Env := λ n, if String.eqb n "PORT" then None else bad_env n.
Lemma every_offence_listed_witness :
  Issue "ENCRYPTION_KEY" invalid_string ∈ (configSchema any_url half_fixed_env).1 ∧
  loadConfig any_url kind_text half_fixed_env =
    Err (ConfigValidationError kind_text (configSchema any_url half_fixed_env).1).
Proof.
  apply (every_offence_listed any_url kind_text bad_env half_fixed_env); [| reflexivity].
  rewrite bad_env_issues. apply list_elem_of_further, list_elem_of_further, list_elem_of_here.
Defined.
