(* ===== verification/Replies.v ===== *)
(** * Replies of Lua scripts ([src/database/redis.ts], the parsers)

    What a script returns goes through Redis's conversion to a reply and the
    parser of [RedisScript] before the code sees it. The components' models use
    the parsed values; here is the way they take, and that nothing is lost on it. *)

From Stdlib Require Import ZArith Lia QArith Qround Qabs String.
From stdpp Require Import base gmap strings list.
From S2P Require Import Prelude Redis Numerals Constants Errors CircuitBreaker RateLimiter Values Configuration.
Open Scope Z_scope.

(** ** Values *)

(** A value of a Lua script. *)
Inductive lua := LNil | LBool (b : bool) | LNumber (q : Q) | LString (s : string) | LTable (l : list lua).

(** A reply as ioredis hands it over. *)
Inductive raw := RawUndefined | RawNull | RawNumber (z : Z) | RawString (s : string) | RawArray (l : list raw).

(** C's cast to an integer. *)
Definition lua_integer (q : Q) : Z := if Qle_bool 0 q then Qfloor q else Qceiling q.

(** Redis's documented conversion of a script's return value: numbers lose their
    fraction, [false] is nil, a table ends at its first nil. *)
Fixpoint reply_of (v : lua) : raw :=
  match v with
  | LNil | LBool false => RawNull
  | LBool true => RawNumber 1
  | LNumber q => RawNumber (lua_integer q)
  | LString s => RawString s
  | LTable l =>
      RawArray ((fix items (l : list lua) : list raw :=
                   match l with [] => [] | LNil :: _ => [] | v :: l => reply_of v :: items l end) l)
  end.

(** ** Parsers *)

Definition typeof (r : raw) : string :=
  match r with
  | RawUndefined => "undefined" | RawNumber _ => "number" | RawString _ => "string" | RawNull | RawArray _ => "object"
  end.

Definition expected (what : string) (r : raw) : thrown :=
  TError "TypeError" ("Expected " ++ what ++ " Redis reply, got " ++ typeof r)%string [].

Definition parseReplyNumber (r : raw) : result thrown Q :=
  match r with
  | RawNumber z => Ok (inject_Z z)
  | RawString s => match to_number s with Finite q => Ok q | _ => Err (expected "a numeric" r) end
  | _ => Err (expected "a numeric" r)
  end.

Definition parseReplyString (r : raw) : result thrown string :=
  match r with
  | RawString s => Ok s
  | RawNumber z => Ok (dec z)
  | _ => Err (expected "a string" r)
  end.

Definition parseReplyArray (r : raw) : result thrown (list raw) :=
  match r with RawArray l => Ok l | _ => Err (expected "an array" r) end.

(** The parser returned. *)
Definition parsed {A} (r : result thrown A) : Prop := match r with Ok _ => True | Err _ => False end.

(** [arr[i]]. *)
Definition item (i : nat) (l : list raw) : raw := l !! i ?? RawUndefined.

(** [parseDecision] of the breaker. *)
Definition parse_decision (r : raw) : result thrown CircuitDecision :=
  let! arr := parseReplyArray r in
  let! state := parseReplyString (item 0 arr) in
  let! allowed := parseReplyNumber (item 1 arr) in
  Ok {| cd_state := state; cd_allowed := Qeq_bool allowed 1 |}.

(** [parseResult] of the rate limiter. *)
Definition parse_result (r : raw) : result thrown RateLimitResult :=
  let! arr := parseReplyArray r in
  let! reasonStr := parseReplyString (item 1 arr) in
  let reason := if String.eqb reasonStr "rpm" then Some rpm
                else if String.eqb reasonStr "tpm" then Some tpm
                else if String.eqb reasonStr "burst" then Some burst else None in
  let! allowed := parseReplyNumber (item 0 arr) in
  let! limit := parseReplyNumber (item 2 arr) in
  let! remaining := parseReplyNumber (item 3 arr) in
  let! resetUnixSec := parseReplyNumber (item 4 arr) in
  let! retryAfterSec := parseReplyNumber (item 5 arr) in
  Ok {| rl_allowed := Qeq_bool allowed 1; rl_reason := reason; rl_limit := Qfloor limit; rl_remaining := Qfloor remaining;
        rl_resetUnixSec := Qfloor resetUnixSec; rl_retryAfterSec := Qfloor retryAfterSec |}.

(** ** What the scripts return *)

(** [return {state, allowed}]. *)
Definition decision_table (r : string * Z) : lua := LTable [LString r.1; LNumber (inject_Z r.2)].

(** [return {allowed, reason, rpmLimit, rpmRemaining, resetSec, retryAfterSec}]. *)
Definition result_table (r : script_reply) : lua :=
  LTable [LNumber (if r_allowed r then 1 else 0)%Q; LString (r_reason r); LNumber (inject_Z (r_limit r)); LNumber (inject_Z (r_remaining r));
          LNumber (inject_Z (r_resetSec r)); LNumber (inject_Z (r_retryAfterSec r))].

Lemma truncate_integer z : lua_integer (inject_Z z) = z.
Proof. unfold lua_integer. destruct (Qle_bool _ _); [apply Qfloor_Z | apply Qceiling_Z]. Qed.

Lemma truncate_toward_zero q : (0 <= Z.abs (lua_integer q))%Z ∧ (inject_Z (Z.abs (lua_integer q)) <= Qabs q)%Q.
Proof.
  split; [lia |]. unfold lua_integer. destruct (Qle_bool 0 q) eqn:E.
  - apply Qle_bool_iff in E. assert (H : (0 <= Qfloor q)%Z) by (change 0 with (Qfloor 0); by apply Qfloor_resp_le).
    rewrite Z.abs_eq, Qabs.Qabs_pos by done. apply Qfloor_le.
  - assert (Hq : (q <= 0)%Q) by (destruct (Qlt_le_dec 0 q) as [H|]; [apply Qlt_le_weak, Qle_bool_iff in H; congruence | done]).
    assert (H : (Qceiling q <= 0)%Z) by (change 0 with (Qceiling 0); by apply Qceiling_resp_le).
    rewrite Z.abs_neq, Qabs.Qabs_neg by done. rewrite inject_Z_opp. apply Qopp_le_compat, Qle_ceiling.
Qed.

(** ** Theorem *)

(** What a script returns is what the code reads. The decision of a breaker
    script and the result of the limiter's come back through the reply and the
    parser as the components' models have them; a string comes back as it was
    and an integer as its digits or its value. A reply of the wrong kind (a
    nil, a table, a missing element, text that is not a number) is a TypeError,
    never a value. *)
Theorem replies_parse :
  (∀ r, parse_decision (reply_of (decision_table r)) = Ok (parseDecision r)) ∧
  (∀ r, parse_result (reply_of (result_table r)) = Ok (parseResult r)) ∧
  (∀ s, parseReplyString (reply_of (LString s)) = Ok s) ∧
  (∀ z, parseReplyString (reply_of (LNumber (inject_Z z))) = Ok (dec z) ∧ parseReplyNumber (reply_of (LNumber (inject_Z z))) = Ok (inject_Z z)) ∧
  ∀ r, (parsed (parseReplyString r) ↔ typeof r = "string" ∨ typeof r = "number")%string ∧
       (parsed (parseReplyNumber r) ↔ typeof r = "number"%string ∨ ∃ s q, r = RawString s ∧ to_number s = Finite q) ∧
       (parsed (parseReplyArray r) ↔ ∃ l, r = RawArray l).
Proof.
  split_and!.
  - intros [state allowed]. unfold parse_decision, parseDecision, decision_table. cbn. rewrite truncate_integer. do 2 f_equal.
    apply eq_bool_prop_intro. rewrite !Is_true_true. rewrite Z.eqb_eq. split; [intros H%Qeq_bool_iff | intros ->; done].
    unfold Qeq in H. cbn in H. lia.
  - intros [allowed reason limit remaining reset retry]. unfold parse_result, parseResult, result_table. cbn -[lua_integer Qfloor].
    rewrite !truncate_integer. cbn -[lua_integer Qfloor]. rewrite !Qfloor_Z. by destruct allowed.
  - done.
  - intros z. cbn. by rewrite truncate_integer.
  - intros r. split_and!.
    + destruct r; cbn; split; try naive_solver; intros [?|?]; done.
    + destruct r as [| | z | s | l]; cbn; [split; [done | by intros [? | (? & ? & ? & ?)]] .. | | |]; try (by split; [done | intros [? | (? & ? & ? & ?)]]).
      * split; [by left | done].
      * destruct (to_number s) as [|b|q] eqn:E; cbn; (split; [| intros [? | (s' & q' & [= <-] & E')]; congruence || done]); try done.
        intros _. right. by exists s, q.
    + destruct r; cbn; split; try done; try (by intros [? [=]]). intros _. by eexists.
Qed.
