(* ===== verification/BreakerListing.v ===== *)
(** * The operators' view of the breakers ([src/circuit-breaker/index.ts])

    [getAllStates]: the SCAN of the state keys, the provider id read out of each
    key, one status per key and the sort; what it shows of the breakers, and
    what it shows after a reset. *)

From Stdlib Require Import ZArith Lia String Ascii.
From stdpp Require Import base gmap strings list fin_maps.
From S2P Require Import Prelude Redis Constants CircuitBreaker.
Open Scope Z_scope.

(** ** Reading an id out of a key *)

Definition is_line_break (c : ascii) : bool := Ascii.eqb c "010" || Ascii.eqb c "013".
Definition one_line (s : string) : bool := forallb (λ c, negb (is_line_break c)) (list_ascii_of_string s).

(** What follows [cb:] as [(.+):state$] captures it. *)
Definition captured (rest : string) : option string :=
  match strip_suffix ":state" rest with
  | Some id => if negb (String.eqb id "") && one_line id then Some id else None
  | None => None
  end.

(** [/cb:(.+):state$/u.exec(key)?.[1]]: the leftmost match. *)
Fixpoint state_key_id (key : string) : option string :=
  match key with
  | EmptyString => None
  | String _ rest =>
      match (if starts_with "cb:" key then captured (string_drop 3 key) else None) with
      | Some id => Some id
      | None => state_key_id rest
      end
  end.

Section Listing.
Variable prefix : string.
(** [String.prototype.localeCompare], of the host's collation. *)
Variable localeCompare : string → string → Z.

(** The SCAN loop, from the batches the server returns for the pattern until the
    cursor is 0 again, or a failure in its place. *)
Fixpoint scanStateKeys (batches : list (option (list string))) : prog (list string) :=
  match batches with
  | [] => Done []
  | None :: _ => Raise "Command timed out"%string
  | Some batch :: rest => let* found := scanStateKeys rest in Done (batch ++ found)%list
  end.

Fixpoint statuses_of (keys : list string) : prog (list CircuitBreakerStatus) :=
  match keys with
  | [] => Done []
  | key :: keys' =>
      match state_key_id key with
      | Some id => let* status := getState prefix id in let* statuses := statuses_of keys' in Done (status :: statuses)
      | None => statuses_of keys'
      end
  end.

Definition by_id (a b : CircuitBreakerStatus) : bool := localeCompare (cs_providerId a) (cs_providerId b) <=? 0.

Definition getAllStates (batches : list (option (list string))) : prog (list CircuitBreakerStatus) :=
  let* stateKeys := scanStateKeys batches in
  let* statuses := statuses_of stateKeys in
  Done (sort_by by_id statuses).
End Listing.

(** ** Lemmas *)

(** A prefix that no match of [cb:] starts in. *)
Fixpoint no_mark (prefix : string) : bool :=
  match prefix with
  | EmptyString => true
  | String _ rest => negb (starts_with "cb:" (prefix ++ "cb:")) && no_mark rest
  end.

Definition id_ok (id : string) : bool := negb (String.eqb id "") && one_line id.

Lemma captured_id id : id_ok id = true → captured (id ++ ":state") = Some id.
Proof. intros H. unfold captured. rewrite strip_suffix_app. unfold id_ok in H. by rewrite H. Qed.

(** Three characters decide. *)
Lemma starts_with_cut s rest : starts_with "cb:" (s ++ "cb:") = false → s ≠ "" → starts_with "cb:" (s ++ "cb:" ++ rest) = false.
Proof.
  intros H Hs. destruct s as [|a [|b [|c s]]]; [done | | |]; revert H; cbn -[Ascii.eqb]; rewrite ?andb_false_r; try done.
  unfold starts_with. rewrite !string_app_cons. cbn [String.prefix]. repeat case_match; try done; by destruct (_ +:+ _).
Qed.

Lemma state_key_id_key prefix id : no_mark prefix = true → id_ok id = true →
  state_key_id (redisKeys.cbState prefix id) = Some id.
Proof.
  intros Hp Hi. unfold redisKeys.cbState. induction prefix as [|c prefix IH].
  - change ("" ++ "cb:" ++ id ++ ":state") with (String "c" ("b:" ++ id ++ ":state")). cbn [state_key_id].
    change (starts_with "cb:" (String "c" ("b:" ++ id ++ ":state"))) with (starts_with "cb:" ("cb:" ++ id ++ ":state")).
    rewrite starts_with_app. change (string_drop 3 (String "c" ("b:" ++ id ++ ":state"))) with (id ++ ":state")%string.
    by rewrite captured_id.
  - cbn [no_mark] in Hp. apply andb_true_iff in Hp as [Hc%negb_true_iff Hp]. rewrite string_app_cons.
    cbn [state_key_id]. rewrite <- string_app_cons, (starts_with_cut _ _ Hc) by done. by apply IH.
Qed.

Definition status_of (id : string) (b : breaker) (now : Z) : CircuitBreakerStatus :=
  {| cs_providerId := id; cs_state := circuit_state_str (state_of b);
     cs_failures := value_at now (b_failures b); cs_openedAt := b_openedAt b |}.

(** One status is that of the breaker the keys hold. *)
Lemma run_getState prefix id b now s : rep prefix id b s →
  run (getState prefix id) now s = (s, Ok (status_of id b now)).
Proof.
  intros (HS & HF & HO & _ & _). unfold getState. rewrite run_bind, run_redis_call. cbn [exec map].
  unfold get_scalar, look_val, look. rewrite HS, HF, HO. unfold status_of, state_of.
  destruct (b_state b), (b_failures b) as [[f d]|], (b_openedAt b); cbn; unfold live; cbn; try (by destruct (now <=? d)); done.
Qed.

Lemma run_scan batches now s :
  run (scanStateKeys (map Some batches)) now s = (s, Ok (concat batches)).
Proof. induction batches as [|b l IH]; [done |]. cbn [map scanStateKeys concat]. by rewrite run_bind, IH. Qed.

Section Shown.
Variables (prefix : string) (localeCompare : string → string → Z) (breakers : string → breaker) (now : Z) (s : db).
Hypothesis prefix_ok : no_mark prefix = true.
Hypothesis held : ∀ id, id_ok id = true → rep prefix id (breakers id) s.

Lemma run_statuses ids : Forall (λ id, id_ok id = true) ids →
  run (statuses_of prefix (map (redisKeys.cbState prefix) ids)) now s =
    (s, Ok (map (λ id, status_of id (breakers id) now) ids)).
Proof using held prefix_ok.
  induction 1 as [|id ids Hi _ IH]; [done |]. cbn [map statuses_of]. rewrite state_key_id_key by done.
  rewrite run_bind, (run_getState prefix id (breakers id)) by (by apply held). by rewrite run_bind, IH.
Qed.

Lemma run_listing ids batches : Forall (λ id, id_ok id = true) ids → concat batches = map (redisKeys.cbState prefix) ids →
  run (getAllStates prefix localeCompare (map Some batches)) now s =
    (s, Ok (sort_by (by_id localeCompare) (map (λ id, status_of id (breakers id) now) ids))).
Proof using held prefix_ok. intros Hi Hb. unfold getAllStates. by rewrite run_bind, run_scan, run_bind, Hb, run_statuses. Qed.
End Shown.

(** ** Theorem *)

(** Operators see every breaker as it is, and a reset one as closed. When
    SCAN has returned the state keys of some providers, in whatever batches, the
    listing reads the provider's id back out of each key and shows, once per
    returned key, the state, the failures counted in the current window and the
    opening time of that provider's breaker, changing nothing; after a reset of
    one provider the same listing shows it CLOSED with no failures and every
    other as before. *)
Theorem every_breaker_listed prefix localeCompare breakers ids batches now id s :
  no_mark prefix = true → (∀ i, id_ok i = true → rep prefix i (breakers i) s) →
  Forall (λ i, id_ok i = true) ids → concat batches = map (redisKeys.cbState prefix) ids →
  let list s := run (getAllStates prefix localeCompare (map Some batches)) now s in
  let s' := (run (reset prefix id) now s).1 in
  (∃ shown, list s = (s, Ok shown) ∧ shown ≡ₚ map (λ i, status_of i (breakers i) now) ids) ∧
  (run (reset prefix id) now s).2 = Ok tt ∧
  ∃ shown, list s' = (s', Ok shown) ∧
    shown ≡ₚ map (λ i, if decide (i = id) then {| cs_providerId := id; cs_state := "CLOSED"; cs_failures := 0; cs_openedAt := None |}
                       else status_of i (breakers i) now) ids.
Proof.
  intros Hp Hr Hi Hb list s'. split.
  { eexists. split; [by apply (run_listing prefix localeCompare breakers) | apply sort_by_perm]. }
  destruct (run_del now s (cb_keys prefix id)) as [r E]. unfold cb_keys in E.
  assert (Erun : run (reset prefix id) now s = (foldl (λ s k, delete k s) s (cb_keys prefix id), Ok tt))
    by (unfold reset; by rewrite run_bind, E).
  split; [by rewrite Erun |]. set (breakers' := λ i, if decide (i = id) then initial else breakers i).
  assert (Hr' : ∀ i, id_ok i = true → rep prefix i (breakers' i) s').
  { intros i Hio. unfold breakers'. destruct (decide (i = id)) as [-> | Hne].
    - unfold s'. rewrite Erun. unfold rep, rep_keys, cb_keys. cbn [fst foldl]. simpl.
      repeat split; repeat first [rewrite lookup_delete_eq; done | rewrite lookup_delete_ne by key_ne]; done.
    - apply (rep_frame prefix default_options default_options_ok (cb_keys prefix id) i (breakers i) s).
      + unfold s'. apply run_frame, reset_writes.
      + intros k Hk. by eapply (cb_keys_disjoint prefix i id k).
      + by apply Hr. }
  eexists. split; [by apply (run_listing prefix localeCompare breakers') |]. rewrite sort_by_perm.
  erewrite map_ext; [done |]. intros i. unfold breakers'. by destruct (decide (i = id)) as [-> |].
Qed.

Definition one_open (id : string) : breaker :=
  if decide (id = "p1"%string) then Breaker (Some OPEN) None (Some 500) None None else initial.
Definition one_open_store : db :=
  <[redisKeys.cbState "gw:" "p1" := text_entry OPEN]> {[redisKeys.cbOpenedAt "gw:" "p1" := int_entry 500]}.
Definition any_order (a b : string) : Z := 0.

Lemma one_open_held id : rep "gw:" id (one_open id) one_open_store.
Proof.
  unfold one_open, one_open_store. destruct (decide (id = "p1"%string)) as [-> | Hne]; [by vm_compute |].
  assert (Hk : ∀ k k', k ∈ cb_keys "gw:" id → k' ∈ cb_keys "gw:" "p1" → k' ≠ k)
    by (intros k k' Hk Hk' ->; by apply (cb_keys_disjoint "gw:" id "p1" k)).
  assert (Hno : ∀ k, k ∈ cb_keys "gw:" id → one_open_store !! k = None).
  { intros k Hin. unfold one_open_store. rewrite lookup_insert_ne by (apply Hk; [done | by left]).
    apply lookup_singleton_ne, Hk; [done |]. do 2 right. by left. }
  unfold rep, rep_keys. unfold one_open_store, cb_keys in Hno. cbn [b_state b_failures b_openedAt b_probes b_successes initial].
  split_and!; apply Hno; repeat (first [by left | right]).
Qed.

Lemma every_breaker_listed_witness :
  ∃ shown, (run (getAllStates "gw:" any_order [Some ["gw:cb:p1:state"%string]; Some []; Some ["gw:cb:p2:state"%string]]) 600
              one_open_store).2 = Ok shown ∧
    shown ≡ₚ [{| cs_providerId := "p1"; cs_state := "OPEN"; cs_failures := 0; cs_openedAt := Some 500 |};
              {| cs_providerId := "p2"; cs_state := "CLOSED"; cs_failures := 0; cs_openedAt := None |}].
Proof.
  destruct (every_breaker_listed "gw:" any_order one_open ["p1"%string; "p2"%string]
    [["gw:cb:p1:state"%string]; []; ["gw:cb:p2:state"%string]] 600 "p1" one_open_store) as [(shown & E & H) _].
  - done.
  - intros i _. apply one_open_held.
  - by repeat constructor.
  - done.
  - exists shown. cbn [map] in E. rewrite E. split; [done | exact H].
Defined.
