(* ===== verification/Admin.v ===== *)
(** * The admin API's common parts ([src/routes/admin/index.ts])

    What the files of [src/routes/admin/] share: replies, the surroundings of a
    request, the schemas and errors they repeat, tables of rows under an id, and
    the authentication of the administrator with the health report. *)

From Stdlib Require Import ZArith Lia QArith String Ascii.
From stdpp Require Import base strings list.
From S2P Require Import Prelude Redis Numerals Bytes Json Errors Types Crypto Cache Auth.
Open Scope Z_scope.

Definition INT32_MAX : Z := 2147483647.

(** What a route sends when it does not throw. *)
Record admin_reply := { ar_status : Z; ar_body : json }.

(** What happens around a request: the database's error, if its query fails, the
    fate of its command to the shared store, the clock (of the process and of
    the database, which fills [created_at] and, by a trigger, [updated_at]), and
    the id and random bytes that are generated. *)
Record admin_env := {
  db_error : option thrown; cache_fate : fault; clock : Z; new_id : string; random_bytes : Buffer
}.

(** ** Schemas *)

Definition hex_at (s : string) (i : nat) : bool :=
  match String.get i s with Some c => match hex_rank c with Some _ => true | None => false end | None => false end.
Definition dash_at (s : string) (i : nat) : bool :=
  match String.get i s with Some c => Ascii.eqb c "-" | None => false end.
(** [z.string().uuid()]: hexadecimal digits in groups of 8, 4, 4, 4 and 12. *)
Definition is_uuid (s : string) : bool :=
  (String.length s =? 36)%nat &&
  forallb (λ i, if existsb (Nat.eqb i) [8; 13; 18; 23]%nat then dash_at s i else hex_at s i) (seq 0 36).
Definition p_uuid (v : json) : option string := s ← p_string v; guard (is_uuid s = true);; Some s.

Definition p_nonnegative (v : json) : option Q := q ← p_num v; guard (Qle_bool 0 q = true);; Some q.
Definition p_int32 (lo : Z) : json → option Z := p_int_range lo (Some INT32_MAX).
(** [z.string().min(1)]. *)
Definition p_nonempty (v : json) : option string := s ← p_string v; guard (s ≠ ""%string);; Some s.

(** [request.body ?? {}]. *)
Definition body_or_empty (body : option json) : json :=
  match body with None | Some JNull => JObj [] | Some v => v end.

(** A refusal with zod's report on the value. *)
Definition invalid (zod_issues : json → json) (message : string) (body : json) : thrown :=
  TGateway (ValidationError (Some message)
    {| opt_code := None; opt_param := None; opt_retryable := None; opt_context := Some [("issues"%string, zod_issues body)] |}).
Definition invalid_param (message : string) (param : option string) : thrown :=
  TGateway (ValidationError (Some message)
    {| opt_code := None; opt_param := param; opt_retryable := None; opt_context := None |}).
Definition not_found (message : string) : thrown := TGateway (NotFoundError (Some message) no_options).

Definition parseId (id : string) : result thrown string :=
  if is_uuid id then Ok id else Err (invalid_param "Invalid id." (Some "id"%string)).

(** A uuid column stores and compares ids in lower case. *)
Definition uuid_column (id : string) : string := to_lower id.

(** ** Tables *)

(** What PostgreSQL raises for a row that breaks a constraint. *)
Definition constraint_error (message : string) : thrown := TError "error" message [].
Definition duplicate (constraint : string) : thrown :=
  constraint_error ("duplicate key value violates unique constraint " ++ constraint).

(** A query that fails has no effect. *)
Definition query {A} (env : admin_env) (r : result thrown A) : result thrown A :=
  match db_error env with Some e => Err e | None => r end.

(** A numeric value on its way into a column that may be null; [numeric] is what
    the column stores for a number, or its overflow error. *)
Definition numeric_column (numeric : Q → result thrown string) (b : option Q) : result thrown (option string) :=
  match b with None => Ok None | Some q => let! s := numeric q in Ok (Some s) end.

Section Table.
Context {R : Type} (key : R → string).

Definition has_key (id : string) (r : R) : bool := String.eqb (key r) id.
(** WHERE id = ..., for the first row. *)
Definition find_row (id : string) (l : list R) : option R := List.find (has_key id) l.
(** UPDATE ... WHERE id = ... *)
Definition update_rows (id : string) (f : R → R) (l : list R) : list R := map (λ r, if has_key id r then f r else r) l.

Lemma has_key_eq id r : has_key id r = true ↔ key r = id.
Proof using. apply String.eqb_eq. Qed.

Lemma find_row_in id l r : find_row id l = Some r → r ∈ l ∧ key r = id.
Proof using. intros [Hr He]%find_some. split; [by apply list_elem_of_In | by apply has_key_eq]. Qed.

Lemma find_row_none id l : find_row id l = None → ∀ r, r ∈ l → key r ≠ id.
Proof using.
  intros Hf r Hr He. apply list_elem_of_In in Hr. pose proof (find_none _ _ Hf r Hr) as Hn.
  by rewrite (proj2 (has_key_eq id r) He) in Hn.
Qed.

(** The rows after an update. *)
Lemma elem_of_update id f l x : x ∈ update_rows id f l ↔
  ∃ r, r ∈ l ∧ (key r = id ∧ x = f r ∨ key r ≠ id ∧ x = r).
Proof using.
  unfold update_rows. rewrite list_elem_of_fmap. split.
  - intros (r & -> & Hr). exists r. split; [done |]. destruct (has_key id r) eqn:E.
    + left. by apply has_key_eq in E.
    + right. split; [| done]. intros He%has_key_eq. congruence.
  - intros (r & Hr & [[He ->] | [Hne ->]]); exists r; (split; [| done]).
    + by rewrite (proj2 (has_key_eq id r) He).
    + destruct (has_key id r) eqn:E; [| done]. by apply has_key_eq in E.
Qed.

(** Where ids are unique an update changes the one row found. *)
Lemma update_found_row id f l r : NoDup (map key l) → find_row id l = Some r →
  ∃ j, l !! j = Some r ∧ update_rows id f l = <[j := f r]> l.
Proof using.
  induction l as [|x l IH]; [done |]. intros [Hx Hn]%NoDup_cons. unfold find_row, update_rows. cbn [List.find map].
  destruct (has_key id x) eqn:E.
  - intros [= <-]. exists 0%nat. split; [done |]. cbn. f_equal.
    rewrite <- (map_id l) at 2. apply map_ext_in. intros y Hy%list_elem_of_In.
    destruct (has_key id y) eqn:Ey; [| done]. apply has_key_eq in E, Ey. destruct Hx.
    rewrite E, <- Ey. apply list_elem_of_fmap. by exists y.
  - intros Hf. destruct (IH Hn Hf) as (j & Hj & Hu). exists (S j). split; [done |]. cbn. f_equal. exact Hu.
Qed.

(** A view of the rows that keeps the key commutes with the table's operations. *)
Context {V : Type} (view : R → V) (vkey : V → string) (Hkey : ∀ r, vkey (view r) = key r).

Lemma find_view id l : view <$> find_row id l = List.find (λ v, String.eqb (vkey v) id) (map view l).
Proof using Hkey.
  induction l as [| x l IH]; [done |]. unfold find_row. cbn [List.find map]. rewrite Hkey. unfold has_key at 1.
  by destruct (String.eqb (key x) id).
Qed.

Lemma same_view_found id l1 l2 : map view l1 = map view l2 → view <$> find_row id l1 = view <$> find_row id l2.
Proof using Hkey. intros H. by rewrite !find_view, H. Qed.

Lemma update_view id f g l : (∀ r, view (f r) = g (view r)) →
  map view (update_rows id f l) = map (λ v, if String.eqb (vkey v) id then g v else v) (map view l).
Proof using Hkey.
  intros Hf. unfold update_rows. rewrite !map_map. apply map_ext. intros r. rewrite Hkey. unfold has_key.
  by destruct (String.eqb (key r) id).
Qed.

Lemma same_view_updated id f g l1 l2 : (∀ r, view (f r) = g (view r)) → map view l1 = map view l2 →
  map view (update_rows id f l1) = map view (update_rows id f l2).
Proof using Hkey. intros Hf H. by rewrite !(update_view id f g), H. Qed.
End Table.

(** What is computed from a view of the rows is the same for rows that look the same. *)
Lemma same_view_map {R V W} (view : R → V) (show : R → W) (shown : V → W) l1 l2 : (∀ r, show r = shown (view r)) →
  map view l1 = map view l2 → map show l1 = map show l2.
Proof. intros Hs H. by rewrite !(map_ext show (λ r, shown (view r)) Hs), <- !(map_map view), H. Qed.

(** ** The administrator's authentication *)

Definition extractAdminKey (h : headers) : option string :=
  match h_authorization h with
  | Some auth => if starts_with "Bearer " auth then Some (trim (slice 7 auth)) else trim <$> h_x_api_key h
  | None => trim <$> h_x_api_key h
  end.

Definition adminAuthPreHandler (sha256 : Buffer → Buffer) (ADMIN_API_KEY : string) (h : headers) : result thrown unit :=
  let refused := Err (TGateway (PermissionError (Some "Admin authentication required."%string) no_options)) in
  match extractAdminKey h with
  | None => refused
  | Some key =>
      let! same := timingSafeEqual sha256 key ADMIN_API_KEY in
      if same then Ok tt else refused
  end.

(** GET /admin/health, from the two component checks. *)
Definition admin_health (database redis : bool) : admin_reply :=
  let healthy := database && redis in
  {| ar_status := if healthy then 200 else 503;
     ar_body := JObj [("status"%string, JStr (if healthy then "ok" else "degraded"));
                      ("components"%string, JObj [("database"%string, JBool database); ("redis"%string, JBool redis)])] |}.
