(* ===== verification/AdminKeys.v ===== *)
(** * Management of API keys ([src/routes/admin/keys.ts])

    The admin routes that create, list, read, update, disable and report on API
    keys, over the table of keys and the shared store that caches them. *)

From Stdlib Require Import ZArith Lia QArith String Ascii.
From stdpp Require Import base strings gmap list.
From S2P Require Import Prelude Redis Numerals Constants Bytes Json Errors Types Crypto CostTracker Cache Auth Admin.
Open Scope Z_scope.

(** ** The table *)

Record key_record := { kr_row : api_key_row; kr_createdAt : Z; kr_updatedAt : Z }.

(** The state the routes share with authentication and the cost tracker. *)
Record key_state := { keys : list key_record; store : db }.

(** ** Schemas *)

Record create_key := {
  ck_name : option string; ck_ownerId : option string; ck_monthlyBudgetUsd : option Q;
  ck_allowedModels : option (list string); ck_rpmLimit : option Z; ck_tpmLimit : option Z; ck_expiresAt : option Z
}.

(** A field that is left out stays; null clears it. *)
Record patch_key := {
  pk_name : option string; pk_isActive : option bool; pk_monthlyBudgetUsd : option (option Q);
  pk_allowedModels : option (option (list string)); pk_rpmLimit : option Z; pk_tpmLimit : option Z;
  pk_expiresAt : option (option Z)
}.

Section AdminKeys.
(** [z.string().datetime()] and [new Date(s)]: the instant of a timestamp the
    schema accepts; [Date.prototype.toJSON]. *)
Variable datetime : string → option Z.
Variable toISOString : Z → string.
(** The numeric column: what it stores for a number, or its overflow error. *)
Variable numeric : Q → result thrown string.
Variable sha256 : Buffer → Buffer.
(** zod's report on a value its schema rejects. *)
Variable zod_issues : json → json.
Variable prefix : string.

Definition p_datetime (v : json) : option Z := p_string v ≫= datetime.

Definition createKeySchema : json → option create_key :=
  p_obj (λ o,
    name ← opt "name" (p_string_len 0 256) o;
    ownerId ← opt "ownerId" p_uuid o;
    monthlyBudgetUsd ← opt "monthlyBudgetUsd" p_nonnegative o;
    allowedModels ← opt "allowedModels" (p_array p_string) o;
    rpmLimit ← opt "rpmLimit" (p_int32 1) o;
    tpmLimit ← opt "tpmLimit" (p_int32 1) o;
    expiresAt ← opt "expiresAt" p_datetime o;
    Some {| ck_name := name; ck_ownerId := ownerId; ck_monthlyBudgetUsd := monthlyBudgetUsd;
            ck_allowedModels := allowedModels; ck_rpmLimit := rpmLimit; ck_tpmLimit := tpmLimit;
            ck_expiresAt := expiresAt |}).

Definition patchKeySchema : json → option patch_key :=
  p_obj (λ o,
    name ← opt "name" (p_string_len 0 256) o;
    isActive ← opt "isActive" p_bool o;
    monthlyBudgetUsd ← nopt "monthlyBudgetUsd" p_nonnegative o;
    allowedModels ← nopt "allowedModels" (p_array p_string) o;
    rpmLimit ← opt "rpmLimit" (p_int32 1) o;
    tpmLimit ← opt "tpmLimit" (p_int32 1) o;
    expiresAt ← nopt "expiresAt" p_datetime o;
    Some {| pk_name := name; pk_isActive := isActive; pk_monthlyBudgetUsd := monthlyBudgetUsd;
            pk_allowedModels := allowedModels; pk_rpmLimit := rpmLimit; pk_tpmLimit := tpmLimit;
            pk_expiresAt := expiresAt |}).

(** ** What a route shows of a row *)

Definition toKeyDto (r : key_record) : fields :=
  let row := kr_row r in
  [("id"%string, JStr (k_id row)); ("name"%string, nullable (k_name row)); ("ownerId"%string, nullable (k_ownerId row));
   ("isActive"%string, JBool (k_isActive row)); ("expiresAt"%string, or_null (λ t, JStr (toISOString t)) (k_expiresAt row));
   ("monthlyBudgetUsd"%string, or_null JNum (k_monthlyBudgetUsd row ≫= parse_decimal));
   ("allowedModels"%string, or_null (λ l, JArr (map JStr l)) (k_allowedModels row));
   ("rpmLimit"%string, jint (k_rpmLimit row)); ("tpmLimit"%string, jint (k_tpmLimit row));
   ("createdAt"%string, JStr (toISOString (kr_createdAt r))); ("updatedAt"%string, JStr (toISOString (kr_updatedAt r)))].

(** ** Routes *)

Definition key_id (r : key_record) : string := k_id (kr_row r).

(** UPDATE ... WHERE id = ... RETURNING; ids are unique. *)
Definition update_key (env : admin_env) (id : string) (f : result thrown (key_record → key_record)) (st : key_state)
    : key_state * result thrown (option key_record) :=
  match query env f with
  | Err e => (st, Err e)
  | Ok f =>
      let id := uuid_column id in
      ({| keys := update_rows key_id id f (keys st); store := store st |}, Ok (f <$> find_row key_id id (keys st)))
  end.

Definition post_keys (env : admin_env) (body : option json) (st : key_state) : key_state * result thrown admin_reply :=
  let payload := body_or_empty body in
  match createKeySchema payload with
  | None => (st, Err (invalid zod_issues "Invalid key payload." payload))
  | Some body =>
      let '(raw, hash) := generateApiKey sha256 (random_bytes env) in
      let inserted :=
        let! budget := numeric_column numeric (ck_monthlyBudgetUsd body) in
        if existsb (λ r, String.eqb (k_keyHash (kr_row r)) hash) (keys st) then Err (duplicate "api_keys_key_hash_unique")
        else Ok {| kr_row := {| k_id := new_id env; k_keyHash := hash; k_ownerId := uuid_column <$> ck_ownerId body; k_name := ck_name body;
                                k_rpmLimit := ck_rpmLimit body ?? 60; k_tpmLimit := ck_tpmLimit body ?? 100000;
                                k_monthlyBudgetUsd := budget; k_allowedModels := ck_allowedModels body;
                                k_isActive := true; k_expiresAt := ck_expiresAt body |};
                   kr_createdAt := clock env; kr_updatedAt := clock env |} in
      match query env inserted with
      | Err e => (st, Err e)
      | Ok row =>
          ({| keys := (keys st ++ [row])%list; store := store st |},
           Ok {| ar_status := 201; ar_body := JObj (toKeyDto row ++ [("key"%string, JStr raw)])%list |})
      end
  end.

Definition list_keys (env : admin_env) (st : key_state) : key_state * result thrown admin_reply :=
  (st, let! rows := query env (Ok (keys st)) in
       Ok {| ar_status := 200; ar_body := JObj [("data"%string, JArr (map (λ r, JObj (toKeyDto r)) rows))] |}).

Definition get_key (env : admin_env) (id : string) (st : key_state) : key_state * result thrown admin_reply :=
  (st, let! id := parseId id in
       let! row := query env (Ok (find_row key_id (uuid_column id) (keys st))) in
       match row with
       | None => Err (not_found "API key not found.")
       | Some row => Ok {| ar_status := 200; ar_body := JObj (toKeyDto row) |}
       end).

Definition with_patch (now : Z) (p : patch_key) (budget : option (option string)) (r : key_record) : key_record :=
  let row := kr_row r in
  {| kr_row := {| k_id := k_id row; k_keyHash := k_keyHash row; k_ownerId := k_ownerId row;
                  k_name := match pk_name p with Some n => Some n | None => k_name row end;
                  k_rpmLimit := pk_rpmLimit p ?? k_rpmLimit row; k_tpmLimit := pk_tpmLimit p ?? k_tpmLimit row;
                  k_monthlyBudgetUsd := budget ?? k_monthlyBudgetUsd row;
                  k_allowedModels := pk_allowedModels p ?? k_allowedModels row;
                  k_isActive := pk_isActive p ?? k_isActive row;
                  k_expiresAt := pk_expiresAt p ?? k_expiresAt row |};
     kr_createdAt := kr_createdAt r; kr_updatedAt := now |}.

(** The end of an update: the row that was updated, its cached context dropped. *)
Definition updated (env : admin_env) (reply : key_record → admin_reply) (x : key_state * result thrown (option key_record))
    : key_state * result thrown admin_reply :=
  match x with
  | (st, Err e) => (st, Err e)
  | (st, Ok None) => (st, Err (not_found "API key not found."))
  | (st, Ok (Some row)) =>
      ({| keys := keys st;
          store := invalidateAuthCache prefix (cache_fate env) (k_keyHash (kr_row row)) (clock env) (store st) |},
       Ok (reply row))
  end.

Definition patch_budget (p : patch_key) : result thrown (option (option string)) :=
  match pk_monthlyBudgetUsd p with None => Ok None | Some b => let! s := numeric_column numeric b in Ok (Some s) end.

Definition patch_keys (env : admin_env) (id : string) (body : option json) (st : key_state)
    : key_state * result thrown admin_reply :=
  match parseId id with
  | Err e => (st, Err e)
  | Ok id =>
      let payload := body_or_empty body in
      match patchKeySchema payload with
      | None => (st, Err (invalid zod_issues "Invalid key update." payload))
      | Some p =>
          updated env (λ row, {| ar_status := 200; ar_body := JObj (toKeyDto row) |})
            (update_key env id (let! budget := patch_budget p in Ok (with_patch (clock env) p budget)) st)
      end
  end.

Definition deactivate (now : Z) (r : key_record) : key_record :=
  let row := kr_row r in
  {| kr_row := {| k_id := k_id row; k_keyHash := k_keyHash row; k_ownerId := k_ownerId row; k_name := k_name row;
                  k_rpmLimit := k_rpmLimit row; k_tpmLimit := k_tpmLimit row; k_monthlyBudgetUsd := k_monthlyBudgetUsd row;
                  k_allowedModels := k_allowedModels row; k_isActive := false; k_expiresAt := k_expiresAt row |};
     kr_createdAt := kr_createdAt r; kr_updatedAt := now |}.

Definition delete_key (env : admin_env) (id : string) (st : key_state) : key_state * result thrown admin_reply :=
  match parseId id with
  | Err e => (st, Err e)
  | Ok id =>
      updated env (λ row, {| ar_status := 200;
                             ar_body := JObj [("id"%string, JStr (k_id (kr_row row))); ("deleted"%string, JBool true)] |})
        (update_key env id (Ok (deactivate (clock env))) st)
  end.

(** The aggregate over [request_logs], as the driver returns it. *)
Record usage_row := { u_totalRequests : Z; u_totalTokens : string; u_totalCostUsd : string; u_cacheHits : Z }.

Definition key_usage (env : admin_env) (usage : option usage_row) (id : string) (st : key_state)
    : key_state * result thrown admin_reply :=
  (st, let! id := parseId id in
       let! agg := query env (Ok usage) in
       let spent := getMonthlySpendUsd prefix (cache_fate env) id (clock env) (store st) in
       Ok {| ar_status := 200;
             ar_body := JObj
               [("apiKeyId"%string, JStr id);
                ("totalRequests"%string, jint ((u_totalRequests <$> agg) ?? 0));
                ("totalTokens"%string, or_null JNum (parse_decimal ((u_totalTokens <$> agg) ?? "0"%string)));
                ("totalCostUsd"%string, or_null JNum (parse_decimal ((u_totalCostUsd <$> agg) ?? "0"%string)));
                ("cacheHits"%string, jint ((u_cacheHits <$> agg) ?? 0));
                ("monthToDateSpendUsd"%string, or_null JNum spent)] |}).

(** The routes of the file. *)
Inductive key_request :=
| PostKeys (body : option json)
| GetKeys
| GetKey (id : string)
| PatchKey (id : string) (body : option json)
| DeleteKey (id : string)
| GetUsage (id : string) (usage : option usage_row).

Definition keysRoutes (env : admin_env) (r : key_request) (st : key_state) : key_state * result thrown admin_reply :=
  match r with
  | PostKeys body => post_keys env body st
  | GetKeys => list_keys env st
  | GetKey id => get_key env id st
  | PatchKey id body => patch_keys env id body st
  | DeleteKey id => delete_key env id st
  | GetUsage id usage => key_usage env usage id st
  end.
End AdminKeys.

(** ** Changes take effect *)

(** What the table alone says of a key. *)
Definition table_verdict (row : api_key_row) (now : Z) : result thrown GatewayContext :=
  if k_isActive row then
    if expired (k_expiresAt row) now then Err (unauthorized "API key has expired.") else Ok (context_of row)
  else Err (unauthorized "Invalid API key.").

(** Ids and hashes are unique. *)
Definition keys_unique (st : key_state) : Prop :=
  NoDup (map (λ r, k_id (kr_row r)) (keys st)) ∧ NoDup (map (λ r, k_keyHash (kr_row r)) (keys st)).

Section Effect.
Variables (hash : string → string) (JSON_parse : string → option json) (prefix : string) (ttl : Z).

(** With nothing cached, authentication is the table's verdict. *)
Lemma uncached_auth f1 f2 f3 rows rawKey row now s :
  look_val now s (redisKeys.authKey prefix (hash rawKey)) = None →
  (∀ r, r ∈ rows → k_keyHash r = hash rawKey → r = row) → row ∈ rows → k_keyHash row = hash rawKey →
  (authenticateKey hash JSON_parse prefix ttl f1 f2 f3 (Ok rows) rawKey now s).2 = table_verdict row now.
Proof using.
  intros Hn Hu Hin Hh. unfold authenticateKey, cached_context.
  destruct (client_get f1 (redisKeys.authKey prefix (hash rawKey)) now s) as (r & -> & E). rewrite Hn in E.
  assert (Hf : List.find (λ x, String.eqb (k_keyHash x) (hash rawKey) && k_isActive x) rows =
    if k_isActive row then Some row else None).
  { destruct (List.find _ rows) as [x|] eqn:Ef.
    - apply find_some in Ef as [Hx Hb]. apply andb_true_iff in Hb as [He%String.eqb_eq Ha].
      apply list_elem_of_In in Hx. rewrite (Hu x Hx He) in *. by rewrite Ha.
    - destruct (k_isActive row) eqn:Ea; [| done]. apply list_elem_of_In in Hin.
      pose proof (find_none _ _ Ef row Hin) as Hb. cbv beta in Hb. by rewrite Hh, String.eqb_refl, Ea in Hb. }
  unfold table_verdict, find_key. cbn [res_bind]. rewrite Hf.
  destruct r as [[| raw | | | | | |]|]; try done; destruct (k_isActive row); cbn [snd]; try done;
    by destruct (expired (k_expiresAt row) now).
Qed.

(** A function on records that keeps the key. *)
Definition keeps_key (f : key_record → key_record) : Prop :=
  ∀ r, k_id (kr_row (f r)) = k_id (kr_row r) ∧ k_keyHash (kr_row (f r)) = k_keyHash (kr_row r).

(** The row an update returns. *)
Lemma update_found env id f st st' row : update_key env id (Ok f) st = (st', Ok (Some row)) →
  store st' = store st ∧ keys st' = update_rows key_id (uuid_column id) f (keys st) ∧ ∃ r, r ∈ keys st ∧ key_id r = uuid_column id ∧ row = f r.
Proof using.
  unfold update_key, query. destruct (db_error env); [done |]. intros [= <- Hf].
  destruct (find_row key_id (uuid_column id) (keys st)) as [r|] eqn:Ef; [| done]. injection Hf as <-.
  apply find_row_in in Ef as [Hr He]. split_and!; [done | done | by exists r].
Qed.

Lemma change_effective env id f st st' (reply : key_record → admin_reply) out r rawKey f1 f2 f3 t :
  keys_unique st → keeps_key f → cache_fate env = Up →
  updated prefix env reply (update_key env id (Ok f) st) = (st', Ok out) →
  r ∈ keys st → k_id (kr_row r) = uuid_column id → k_keyHash (kr_row r) = hash rawKey →
  f r ∈ keys st' ∧
  (authenticateKey hash JSON_parse prefix ttl f1 f2 f3 (Ok (map kr_row (keys st'))) rawKey t (store st')).2 =
    table_verdict (kr_row (f r)) t.
Proof using.
  intros [Hui Huh] Hf Hup E Hr Hid Hh.
  destruct (update_key env id (Ok f) st) as [st1 [[row|]|e]] eqn:Eu; [| done | done].
  destruct (update_found env id f st st1 row Eu) as (Hs & Hk & r1 & Hr1 & Hid1 & ->).
  assert (r1 = r) as -> by (apply (nodup_key key_id (keys st)); unfold key_id in *; congruence).
  simpl in E. injection E as <- <-. cbn [keys store]. rewrite Hk.
  assert (Hin : f r ∈ update_rows key_id (uuid_column id) f (keys st)) by (apply elem_of_update; exists r; split; [done | by left]).
  split; [done |]. destruct (Hf r) as [_ Hfh]. apply uncached_auth.
  - rewrite Hfh, Hh, Hup. unfold invalidateAuthCache. cbn [client]. rewrite run_redis_call. cbn [exec fst foldl].
    unfold look_val, look. by rewrite lookup_delete_eq.
  - intros x Hx Hxh. apply list_elem_of_fmap in Hx as (y & -> & Hy). f_equal.
    apply elem_of_update in Hy as (z & Hz & Hy). destruct (Hf z) as [_ Hz'].
    assert (z = r) as -> by (apply (nodup_key (λ r, k_keyHash (kr_row r)) (keys st)); [done | done | done |];
      destruct Hy as [[_ ->] | [_ ->]]; congruence).
    by destruct Hy as [[_ ->] | [Hne _]].
  - apply list_elem_of_fmap. by exists (f r).
  - congruence.
Qed.
End Effect.

Lemma with_patch_keeps now p budget : keeps_key (with_patch now p budget).
Proof. by split. Qed.
Lemma deactivate_keeps now : keeps_key (deactivate now).
Proof. by split. Qed.

(** C23: An administrator's change to a key takes effect at once. When an update
    or a deletion of a key succeeds and the store is reachable, the very next
    authentication with that key answers from the changed row, whatever was
    cached before and whatever then fails in the store: a key that was deleted
    or switched off is refused, one whose expiry was moved into the past is
    refused, and otherwise the context has the new name, limits, budget and
    models. *)
Theorem key_change_effective datetime toISOString numeric sha256 zod_issues JSON_parse prefix ttl env r id st st' reply rec rawKey
    f1 f2 f3 t :
  keys_unique st → cache_fate env = Up →
  (r = DeleteKey id ∨ ∃ body, r = PatchKey id body) →
  keysRoutes datetime toISOString numeric sha256 zod_issues prefix env r st = (st', Ok reply) →
  rec ∈ keys st → k_id (kr_row rec) = uuid_column id → k_keyHash (kr_row rec) = hashApiKey sha256 rawKey →
  ∃ rec', rec' ∈ keys st' ∧
    match r with
    | DeleteKey _ => k_isActive (kr_row rec') = false
    | PatchKey _ body => ∃ p budget, patchKeySchema datetime (body_or_empty body) = Some p ∧
        patch_budget numeric p = Ok budget ∧ rec' = with_patch (clock env) p budget rec
    | _ => False
    end ∧
    (authenticateKey (hashApiKey sha256) JSON_parse prefix ttl f1 f2 f3 (Ok (map kr_row (keys st'))) rawKey t (store st')).2 =
      table_verdict (kr_row rec') t.
Proof.
  intros Hu Hup Hr E Hin Hid Hh. destruct Hr as [-> | [body ->]]; cbn [keysRoutes] in E.
  - unfold delete_key, parseId in E. destruct (is_uuid id); [| done].
    exists (deactivate (clock env) rec).
    destruct (change_effective (hashApiKey sha256) JSON_parse prefix ttl env id (deactivate (clock env)) st st' _ reply rec
      rawKey f1 f2 f3 t Hu (deactivate_keeps _) Hup E Hin Hid Hh). by split_and!.
  - unfold patch_keys, parseId in E. destruct (is_uuid id); [| done].
    destruct (patchKeySchema datetime (body_or_empty body)) as [p|] eqn:Ep; [| done].
    destruct (patch_budget numeric p) as [budget|e] eqn:Eb; cbn [res_bind] in E.
    2: { unfold update_key, query in E. by destruct (db_error env). }
    exists (with_patch (clock env) p budget rec).
    destruct (change_effective (hashApiKey sha256) JSON_parse prefix ttl env id (with_patch (clock env) p budget) st st' _ reply rec
      rawKey f1 f2 f3 t Hu (with_patch_keeps _ _ _) Hup E Hin Hid Hh). split_and!; [done | by exists p, budget | done].
Qed.

(** ** A created key works *)

Lemma post_keys_ok datetime toISOString numeric sha256 zod_issues env body st st' reply :
  post_keys datetime toISOString numeric sha256 zod_issues env body st = (st', Ok reply) →
  ∃ p budget, let '(raw, hash) := generateApiKey sha256 (random_bytes env) in
    let row := {| k_id := new_id env; k_keyHash := hash; k_ownerId := uuid_column <$> ck_ownerId p; k_name := ck_name p;
                  k_rpmLimit := ck_rpmLimit p ?? 60; k_tpmLimit := ck_tpmLimit p ?? 100000;
                  k_monthlyBudgetUsd := budget; k_allowedModels := ck_allowedModels p;
                  k_isActive := true; k_expiresAt := ck_expiresAt p |} in
    let rec := {| kr_row := row; kr_createdAt := clock env; kr_updatedAt := clock env |} in
    createKeySchema datetime (body_or_empty body) = Some p ∧ numeric_column numeric (ck_monthlyBudgetUsd p) = Ok budget ∧
    (∀ r, r ∈ keys st → k_keyHash (kr_row r) ≠ hash) ∧
    st' = {| keys := (keys st ++ [rec])%list; store := store st |} ∧
    reply = {| ar_status := 201; ar_body := JObj (toKeyDto toISOString rec ++ [("key"%string, JStr raw)])%list |}.
Proof.
  unfold post_keys. destruct (createKeySchema datetime (body_or_empty body)) as [p|]; [| done].
  destruct (generateApiKey sha256 (random_bytes env)) as [raw hash]. intros E. exists p.
  destruct (numeric_column numeric (ck_monthlyBudgetUsd p)) as [budget|e]; cbn [res_bind] in E.
  2: { unfold query in E. by destruct (db_error env). }
  exists budget. destruct (existsb _ (keys st)) eqn:Ex; unfold query in E; destruct (db_error env); try done.
  injection E as <- <-. split_and!; try done. intros r Hr He.
  assert (Ht : existsb (λ r, String.eqb (k_keyHash (kr_row r)) hash) (keys st) = true).
  { apply existsb_exists. exists r. apply list_elem_of_In in Hr. by rewrite He, String.eqb_refl. }
  congruence.
Qed.

(** A created key works. When POST /admin/keys answers, it answers 201 with
    a key under [key], and a request that presents that key authenticates (as
    long as nothing is cached under its hash, which was new) with the limits,
    budget, models and expiry of the request, an omitted limit being the
    column's default. *)
Theorem created_key_works datetime toISOString numeric sha256 zod_issues JSON_parse prefix ttl env body st st' reply
    f1 f2 f3 t :
  keysRoutes datetime toISOString numeric sha256 zod_issues prefix env (PostKeys body) st = (st', Ok reply) →
  ∃ p budget raw, createKeySchema datetime (body_or_empty body) = Some p ∧
    numeric_column numeric (ck_monthlyBudgetUsd p) = Ok budget ∧
    ar_status reply = 201 ∧ field "key" (fields_of (ar_body reply)) = Some (JStr raw) ∧ starts_with "gw-" raw = true ∧
    (look_val t (store st) (redisKeys.authKey prefix (hashApiKey sha256 raw)) = None →
     expired (ck_expiresAt p) t = false →
     (authenticateKey (hashApiKey sha256) JSON_parse prefix ttl f1 f2 f3 (Ok (map kr_row (keys st'))) raw t (store st')).2 =
       Ok {| apiKeyId := new_id env; ownerId := uuid_column <$> ck_ownerId p; ctx_name := ck_name p; rpmLimit := ck_rpmLimit p ?? 60;
             tpmLimit := ck_tpmLimit p ?? 100000; monthlyBudgetUsd := budget ≫= parse_decimal;
             allowedModels := ck_allowedModels p; expiresAtMs := ck_expiresAt p |}).
Proof.
  intros (p & budget & H)%post_keys_ok. unfold generateApiKey in H. cbv zeta in H.
  set (raw := ("gw-" ++ to_hex (random_bytes env))%string) in *. destruct H as (Hp & Hb & Hnew & -> & ->).
  exists p, budget, raw. split_and!; try done; [apply starts_with_app |]. intros Hn Hx. cbn [keys store].
  rewrite map_app. cbn [map kr_row]. erewrite uncached_auth; [| exact Hn | | by apply elem_of_app; right; left | done].
  - unfold table_verdict. cbn [k_isActive k_expiresAt]. by rewrite Hx.
  - intros x [Hin | ->%list_elem_of_singleton]%elem_of_app Hxh; [| done].
    apply list_elem_of_fmap in Hin as (y & -> & Hy). by destruct (Hnew y Hy).
Qed.

(** ** What the replies do not depend on *)

Definition unhashed (r : key_record) : key_record :=
  let row := kr_row r in
  {| kr_row := {| k_id := k_id row; k_keyHash := ""; k_ownerId := k_ownerId row; k_name := k_name row;
                  k_rpmLimit := k_rpmLimit row; k_tpmLimit := k_tpmLimit row; k_monthlyBudgetUsd := k_monthlyBudgetUsd row;
                  k_allowedModels := k_allowedModels row; k_isActive := k_isActive row; k_expiresAt := k_expiresAt row |};
     kr_createdAt := kr_createdAt r; kr_updatedAt := kr_updatedAt r |}.

(** Two states that differ only in the hashes and what is cached under them. *)
Definition same_but_hashes (prefix : string) (st1 st2 : key_state) : Prop :=
  map unhashed (keys st1) = map unhashed (keys st2) ∧
  ∀ k, (∀ h, k ≠ redisKeys.authKey prefix h) → store st1 !! k = store st2 !! k.

(** The hash of a new key is in neither table: the hash function does not collide. *)
Definition new_hash_fresh (sha256 : Buffer → Buffer) (env : admin_env) (r : key_request) (st : key_state) : Prop :=
  match r with
  | PostKeys _ => ∀ x, x ∈ keys st → k_keyHash (kr_row x) ≠ (generateApiKey sha256 (random_bytes env)).2
  | _ => True
  end.

Section Secrecy.
Variables (prefix : string) (toISOString : Z → string).

Lemma invalidate_others f h now s k : (∀ h, k ≠ redisKeys.authKey prefix h) → invalidateAuthCache prefix f h now s !! k = s !! k.
Proof using.
  intros Hk. unfold invalidateAuthCache, client. destruct f; [| done |]; rewrite run_redis_call; cbn [exec fst foldl];
    by rewrite lookup_delete_ne by (intros E; by apply (Hk h)).
Qed.

(** An update and its end keep the relation and send the same reply. *)
Lemma same_updated env id f (reply : key_record → admin_reply) st1 st2 : same_but_hashes prefix st1 st2 →
  (∀ f', f = Ok f' → ∀ r, unhashed (f' r) = f' (unhashed r)) → (∀ r, reply r = reply (unhashed r)) →
  let x1 := updated prefix env reply (update_key env id f st1) in
  let x2 := updated prefix env reply (update_key env id f st2) in
  x1.2 = x2.2 ∧ same_but_hashes prefix x1.1 x2.1.
Proof using.
  intros Hs Hf Hr. unfold update_key, query. destruct (db_error env); [done |].
  destruct f as [f|e]; [| done]. destruct Hs as [Hk Hst].
  pose proof (same_view_found key_id unhashed key_id (λ _, eq_refl) (uuid_column id) _ _ Hk) as Hg.
  pose proof (same_view_updated key_id unhashed key_id (λ _, eq_refl) (uuid_column id) f f _ _ (Hf f eq_refl) Hk) as Hu.
  destruct (find_row key_id (uuid_column id) (keys st1)) as [r1|], (find_row key_id (uuid_column id) (keys st2)) as [r2|]; try done; cbn.
  apply (inj Some) in Hg.
  split; [| split; [exact Hu |]].
  - rewrite Hr, (Hr (f r2)), !(Hf f eq_refl). by rewrite Hg.
  - intros k Hne. cbn [store]. rewrite !invalidate_others by done. by apply Hst.
Qed.

Lemma same_spend f id now st1 st2 : same_but_hashes prefix st1 st2 →
  getMonthlySpendUsd prefix f id now (store st1) = getMonthlySpendUsd prefix f id now (store st2).
Proof using.
  intros [_ Hs]. assert (Hk : store st1 !! spendKey prefix id now = store st2 !! spendKey prefix id now).
  { apply Hs. intros h. unfold spendKey. key_ne. }
  unfold getMonthlySpendUsd, client. destruct f; rewrite ?run_redis_call; cbn [exec]; unfold look_val, look;
    rewrite ?Hk; try done. by destruct (match _ !! _ with Some e => _ | None => None end) as [[[] ?]|].
Qed.

(** A key is created alike where its hash is new. *)
Lemma same_created datetime numeric sha256 zod_issues env body st1 st2 : same_but_hashes prefix st1 st2 →
  new_hash_fresh sha256 env (PostKeys body) st1 → new_hash_fresh sha256 env (PostKeys body) st2 →
  let x1 := post_keys datetime toISOString numeric sha256 zod_issues env body st1 in
  let x2 := post_keys datetime toISOString numeric sha256 zod_issues env body st2 in
  x1.2 = x2.2 ∧ same_but_hashes prefix x1.1 x2.1.
Proof using.
  intros Hs F1 F2. unfold post_keys. destruct (createKeySchema datetime (body_or_empty body)) as [p|]; [| done].
  cbn [new_hash_fresh] in F1, F2. destruct (generateApiKey sha256 (random_bytes env)) as [raw hash]. cbn [snd] in F1, F2.
  assert (Hx : ∀ l, (∀ x, x ∈ l → k_keyHash (kr_row x) ≠ hash) →
    existsb (λ r, String.eqb (k_keyHash (kr_row r)) hash) l = false).
  { intros l Hl. apply not_true_iff_false. intros (x & Hx%list_elem_of_In & He%String.eqb_eq)%existsb_exists. by apply (Hl x). }
  rewrite !Hx by done. unfold query. destruct (db_error env); [done |].
  destruct (numeric_column numeric (ck_monthlyBudgetUsd p)); [| done]. cbn. split; [done |].
  destruct Hs as [Hk Hst]. split; [cbn [keys]; by rewrite !map_app, Hk | done].
Qed.
End Secrecy.

(** No route shows a stored hash, at once or over time. Run in two states
    that differ only in the hashes of the keys and in what is cached under them,
    every request of every route gets the same reply and leaves two states that
    again differ only so (a new key's hash being new in both); by induction no
    sequence of requests can tell the hashes apart, whatever it lists, reads,
    patches, deletes or asks the usage of. *)
Theorem hashes_never_shown datetime toISOString numeric sha256 zod_issues prefix env r st1 st2 :
  same_but_hashes prefix st1 st2 → new_hash_fresh sha256 env r st1 → new_hash_fresh sha256 env r st2 →
  let x1 := keysRoutes datetime toISOString numeric sha256 zod_issues prefix env r st1 in
  let x2 := keysRoutes datetime toISOString numeric sha256 zod_issues prefix env r st2 in
  x1.2 = x2.2 ∧ same_but_hashes prefix x1.1 x2.1.
Proof.
  intros Hs. destruct r as [body | | id | id body | id | id usage]; cbn [keysRoutes new_hash_fresh].
  - intros F1 F2. apply same_created; try done.
  - intros _ _. unfold list_keys, query. destruct (db_error env); [done |]. cbn. split; [| done].
    rewrite <- !(map_map (toKeyDto toISOString) JObj). by rewrite (same_view_map unhashed (toKeyDto toISOString) (toKeyDto toISOString) (keys st1) (keys st2) (λ _, eq_refl) (proj1 Hs)).
  - intros _ _. unfold get_key, parseId, query. destruct (is_uuid id); [| done]. destruct (db_error env); [done |].
    cbn. split; [| done]. pose proof (same_view_found key_id unhashed key_id (λ _, eq_refl) (uuid_column id) _ _ (proj1 Hs)) as Hg.
    destruct (find_row key_id (uuid_column id) (keys st1)) as [r1|], (find_row key_id (uuid_column id) (keys st2)) as [r2|]; try done.
    apply (inj Some) in Hg. do 3 f_equal. change (toKeyDto toISOString (unhashed r1) = toKeyDto toISOString (unhashed r2)).
    by rewrite Hg.
  - intros _ _. unfold patch_keys, parseId. destruct (is_uuid id); [| done].
    destruct (patchKeySchema datetime (body_or_empty body)) as [p|]; [| done]. apply same_updated; [done | | done].
    intros f'. destruct (patch_budget numeric p) as [b|]; [| done]. by intros [= <-].
  - intros _ _. unfold delete_key, parseId. destruct (is_uuid id); [| done]. apply same_updated; [done | | done].
    by intros f' [= <-].
  - intros _ _. unfold key_usage. cbn [fst snd]. split; [| done]. destruct (parseId id) as [i|]; [| done]. cbn [res_bind].
    unfold query. destruct (db_error env); [done |]. cbn [res_bind]. by rewrite (same_spend prefix (cache_fate env) i (clock env) st1 st2 Hs).
Qed.

(** ** Witnesses *)

Definition sample_id : string := "00000000-0000-4000-8000-000000000001".
Definition plain (b : Buffer) : Buffer := b.
Definition sample_key (hash : string) : key_record :=
  {| kr_row := {| k_id := sample_id; k_keyHash := hash; k_ownerId := None; k_name := Some "ci"%string; k_rpmLimit := 60;
                  k_tpmLimit := 1000; k_monthlyBudgetUsd := None; k_allowedModels := None; k_isActive := true;
                  k_expiresAt := None |};
     kr_createdAt := 0; kr_updatedAt := 0 |}.
Definition sample_keys (hash : string) : key_state :=
  {| keys := [sample_key hash];
     store := {[redisKeys.authKey "gw:" hash := Entry (VStr (SStr "{}")) None]} |}.
Definition sample_admin_env : admin_env :=
  {| db_error := None; cache_fate := Up; clock := 1000; new_id := "00000000-0000-4000-8000-000000000002";
     random_bytes := [Byte.x01; Byte.x02] |}.
Definition no_datetime (_ : string) : option Z := None.
Definition no_text (_ : Z) : string := "".
Definition any_numeric (_ : Q) : result thrown string := Ok "1"%string.
Definition no_issues (_ : json) : json := JNull.
Definition empty_parse (text : string) : option json := if String.eqb text "{}" then Some (JObj []) else None.
Definition sample_routes := keysRoutes no_datetime no_text any_numeric plain no_issues "gw:".

(** The cached context is not consulted once the key is deleted. *)
Lemma key_change_effective_witness :
  let st := sample_keys (hashApiKey plain "gw-1") in
  let auth st' := (authenticateKey (hashApiKey plain) empty_parse "gw:" 60 Up Up Up (Ok (map kr_row (keys st'))) "gw-1" 2000 (store st')).2 in
  (∃ c, auth st = Ok c) ∧
  auth (sample_routes sample_admin_env (DeleteKey sample_id) st).1 = Err (unauthorized "Invalid API key.").
Proof.
  cbv zeta. split; [eexists; by vm_compute |].
  set (st := sample_keys (hashApiKey plain "gw-1")).
  destruct (sample_routes sample_admin_env (DeleteKey sample_id) st) as [st' [reply|e]] eqn:E; [| by vm_compute in E].
  destruct (key_change_effective no_datetime no_text any_numeric plain no_issues empty_parse "gw:" 60 sample_admin_env
    (DeleteKey sample_id) sample_id st st' reply (sample_key (hashApiKey plain "gw-1")) "gw-1" Up Up Up 2000) as (r & _ & Ha & H).
  - split; apply NoDup_singleton.
  - done.
  - by left.
  - exact E.
  - by left.
  - done.
  - done.
  - cbn [fst]. rewrite H. unfold table_verdict. by rewrite Ha.
Defined.

Definition sample_payload : json := JObj [("name"%string, JStr "svc"); ("rpmLimit"%string, jint 5)].

Lemma created_key_works_witness :
  ∃ st' reply raw, sample_routes sample_admin_env (PostKeys (Some sample_payload)) (sample_keys "h") = (st', Ok reply) ∧
    field "key" (fields_of (ar_body reply)) = Some (JStr raw) ∧
    (authenticateKey (hashApiKey plain) empty_parse "gw:" 60 Up Up Up (Ok (map kr_row (keys st'))) raw 2000 (store st')).2 =
      Ok {| apiKeyId := new_id sample_admin_env; ownerId := None; ctx_name := Some "svc"%string; rpmLimit := 5;
            tpmLimit := 100000; monthlyBudgetUsd := None; allowedModels := None; expiresAtMs := None |}.
Proof.
  destruct (sample_routes sample_admin_env (PostKeys (Some sample_payload)) (sample_keys "h")) as [st' [reply|e]] eqn:E;
    [| by vm_compute in E].
  destruct (created_key_works no_datetime no_text any_numeric plain no_issues empty_parse "gw:" 60 sample_admin_env
    (Some sample_payload) (sample_keys "h") st' reply Up Up Up 2000 E) as (p & budget & raw & Hp & Hb & _ & Hr & _ & H).
  exists st', reply, raw. split; [done |]. split; [done |].
  vm_compute in Hp. injection Hp as <-. vm_compute in Hb. injection Hb as <-.
  apply H; [| done]. vm_compute in E. injection E as _ <-. vm_compute in Hr. injection Hr as <-. by vm_compute.
Defined.

Lemma hashes_never_shown_witness :
  same_but_hashes "gw:" (sample_routes sample_admin_env (PostKeys None) (sample_keys "h1")).1
                        (sample_routes sample_admin_env (PostKeys None) (sample_keys "h2")).1.
Proof.
  apply (hashes_never_shown no_datetime no_text any_numeric plain no_issues "gw:" sample_admin_env (PostKeys None)).
  - split; [done |]. intros k Hk. cbn [store sample_keys]. by rewrite !lookup_singleton_ne by (intros E; by apply (Hk _ (eq_sym E))).
  - intros x ->%list_elem_of_singleton. by vm_compute.
  - intros x ->%list_elem_of_singleton. by vm_compute.
Defined.
