(* ===== verification/AdminProviders.v ===== *)
(** * Management of providers and models ([src/routes/admin/providers.ts])

    The admin routes over the tables of providers, their models and their
    health, with the encryption of credentials and the reload of the registry
    that follows every change. *)

From Stdlib Require Import ZArith Lia QArith String Ascii.
From stdpp Require Import base strings gmap list.
From S2P Require Import Prelude Redis Numerals Constants Bytes Json Errors Types Crypto Provider Registry Cache Http HealthMonitor Admin.
Open Scope Z_scope.

(** ** The tables *)

Record provider_record := {
  pr_id : string; pr_name : string; pr_baseUrl : string; pr_adapterType : AdapterType; pr_encryptedApiKey : string;
  pr_weight : Z; pr_priority : Z; pr_isActive : bool; pr_healthCheckUrl : option string; pr_timeoutMs : Z;
  pr_createdAt : Z; pr_updatedAt : Z
}.

Record model_record := { mr_id : string; mr_providerId : string; mr_model : model_row; mr_isActive : bool; mr_createdAt : Z }.

(** The tables, and the registry of the process. *)
Record provider_state := {
  providers : list provider_record; provider_models : list model_record; health : health_table; reg : registry_state
}.

(** What happens around a request: also the error of the registry's query. *)
Record provider_env := { around : admin_env; load_error : option thrown }.

(** ** Loading the registry *)

Definition models_of (id : string) (l : list model_record) : list model_record := filter (λ m, mr_providerId m = id) l.

(** The query of [load]: active providers with their active models. *)
Definition active_row (ms : list model_record) (r : provider_record) : provider_row :=
  {| row_id := pr_id r; row_name := pr_name r; row_adapterType := pr_adapterType r; row_baseUrl := pr_baseUrl r;
     row_encryptedApiKey := pr_encryptedApiKey r; row_timeoutMs := pr_timeoutMs r; row_weight := pr_weight r;
     row_priority := pr_priority r;
     row_models := map mr_model (filter (λ m, mr_isActive m = true) (models_of (pr_id r) ms)) |}.
Definition active_rows (st : provider_state) : list provider_row :=
  map (active_row (provider_models st)) (filter (λ r, pr_isActive r = true) (providers st)).

(** ** Schemas *)

Definition ADAPTER_TYPES : list (string * AdapterType) :=
  map (λ a, (adapter_str a, a)) [openai; anthropic; gemini; cohere; mistral].
Definition p_adapter (v : json) : option AdapterType := p_string v ≫= λ s, assoc s ADAPTER_TYPES.

Record create_provider := {
  cp_name : string; cp_baseUrl : string; cp_adapterType : AdapterType; cp_apiKey : string; cp_weight : option Z;
  cp_priority : option Z; cp_isActive : option bool; cp_healthCheckUrl : option string; cp_timeoutMs : option Z
}.
Record patch_provider := {
  up_name : option string; up_baseUrl : option string; up_apiKey : option string; up_weight : option Z;
  up_priority : option Z; up_isActive : option bool; up_healthCheckUrl : option (option string); up_timeoutMs : option Z
}.
Record new_model := {
  nm_modelId : string; nm_displayName : option string; nm_contextWindow : option Z; nm_maxOutputTokens : option Z;
  nm_inputPricePer1k : option Q; nm_outputPricePer1k : option Q; nm_supportsStreaming : option bool;
  nm_supportsTools : option bool; nm_supportsVision : option bool; nm_isActive : option bool
}.

Section AdminProviders.
Context `{Cipher}.
(** The current and the previous master key. *)
Variables (master : Buffer) (previous : option Buffer).
(** [new URL(s)] accepts the string; [Date.prototype.toJSON]; the numeric column
    and zod's report, as for the keys. *)
Variable is_url : string → bool.
Variable toISOString : Z → string.
Variable numeric : Q → result thrown string.
Variable zod_issues : json → json.

Definition credential (envelope : string) : result thrown string := decrypt master previous envelope None.

Definition p_url (v : json) : option string := s ← p_string v; guard (is_url s = true);; Some s.

Definition createProviderSchema : json → option create_provider :=
  p_obj (λ o,
    name ← req "name" (p_string_len 1 128) o;
    baseUrl ← req "baseUrl" p_url o;
    adapterType ← req "adapterType" p_adapter o;
    apiKey ← req "apiKey" p_nonempty o;
    weight ← opt "weight" (p_int32 0) o;
    priority ← opt "priority" (p_int32 1) o;
    isActive ← opt "isActive" p_bool o;
    healthCheckUrl ← opt "healthCheckUrl" p_url o;
    timeoutMs ← opt "timeoutMs" (p_int32 1) o;
    Some {| cp_name := name; cp_baseUrl := baseUrl; cp_adapterType := adapterType; cp_apiKey := apiKey;
            cp_weight := weight; cp_priority := priority; cp_isActive := isActive;
            cp_healthCheckUrl := healthCheckUrl; cp_timeoutMs := timeoutMs |}).

Definition patchProviderSchema : json → option patch_provider :=
  p_obj (λ o,
    name ← opt "name" (p_string_len 1 128) o;
    baseUrl ← opt "baseUrl" p_url o;
    apiKey ← opt "apiKey" p_nonempty o;
    weight ← opt "weight" (p_int32 0) o;
    priority ← opt "priority" (p_int32 1) o;
    isActive ← opt "isActive" p_bool o;
    healthCheckUrl ← nopt "healthCheckUrl" p_url o;
    timeoutMs ← opt "timeoutMs" (p_int32 1) o;
    Some {| up_name := name; up_baseUrl := baseUrl; up_apiKey := apiKey; up_weight := weight; up_priority := priority;
            up_isActive := isActive; up_healthCheckUrl := healthCheckUrl; up_timeoutMs := timeoutMs |}).

Definition modelSchema : json → option new_model :=
  p_obj (λ o,
    modelId ← req "modelId" p_nonempty o;
    displayName ← opt "displayName" p_string o;
    contextWindow ← opt "contextWindow" (p_int32 1) o;
    maxOutputTokens ← opt "maxOutputTokens" (p_int32 1) o;
    inputPricePer1k ← opt "inputPricePer1k" p_nonnegative o;
    outputPricePer1k ← opt "outputPricePer1k" p_nonnegative o;
    supportsStreaming ← opt "supportsStreaming" p_bool o;
    supportsTools ← opt "supportsTools" p_bool o;
    supportsVision ← opt "supportsVision" p_bool o;
    isActive ← opt "isActive" p_bool o;
    Some {| nm_modelId := modelId; nm_displayName := displayName; nm_contextWindow := contextWindow;
            nm_maxOutputTokens := maxOutputTokens; nm_inputPricePer1k := inputPricePer1k;
            nm_outputPricePer1k := outputPricePer1k; nm_supportsStreaming := supportsStreaming;
            nm_supportsTools := supportsTools; nm_supportsVision := supportsVision; nm_isActive := isActive |}).

Definition parseModelParams (id modelId : string) : result thrown (string * string) :=
  if is_uuid id && negb (String.eqb modelId "") then Ok (id, modelId) else Err (invalid_param "Invalid id or modelId." None).

(** ** What the routes show *)

Definition toProviderDto (r : provider_record) : fields :=
  [("id"%string, JStr (pr_id r)); ("name"%string, JStr (pr_name r)); ("baseUrl"%string, JStr (pr_baseUrl r));
   ("adapterType"%string, JStr (adapter_str (pr_adapterType r))); ("weight"%string, jint (pr_weight r));
   ("priority"%string, jint (pr_priority r)); ("isActive"%string, JBool (pr_isActive r));
   ("healthCheckUrl"%string, nullable (pr_healthCheckUrl r)); ("timeoutMs"%string, jint (pr_timeoutMs r));
   ("hasApiKey"%string, JBool (0 <? String.length (pr_encryptedApiKey r))%nat);
   ("createdAt"%string, JStr (toISOString (pr_createdAt r))); ("updatedAt"%string, JStr (toISOString (pr_updatedAt r)))].

Definition model_row_json (r : model_record) : json :=
  let m := mr_model r in
  JObj [("id"%string, JStr (mr_id r)); ("providerId"%string, JStr (mr_providerId r)); ("modelId"%string, JStr (m_modelId m));
        ("displayName"%string, nullable (m_displayName m)); ("contextWindow"%string, or_null jint (m_contextWindow m));
        ("maxOutputTokens"%string, or_null jint (m_maxOutputTokens m));
        ("inputPricePer1k"%string, nullable (m_inputPricePer1k m)); ("outputPricePer1k"%string, nullable (m_outputPricePer1k m));
        ("supportsStreaming"%string, JBool (m_supportsStreaming m)); ("supportsTools"%string, JBool (m_supportsTools m));
        ("supportsVision"%string, JBool (m_supportsVision m)); ("isActive"%string, JBool (mr_isActive r));
        ("createdAt"%string, JStr (toISOString (mr_createdAt r)))].

Definition status_str (s : HealthStatus) : string :=
  match s with HEALTHY => "healthy" | DEGRADED => "degraded" | UNHEALTHY => "unhealthy" | UNKNOWN => "unknown" end.
Definition health_json (id : string) (r : HealthRow) : json :=
  JObj [("providerId"%string, JStr id); ("status"%string, JStr (status_str (h_status r)));
        ("latencyMs"%string, or_null jint (h_latencyMs r)); ("errorMessage"%string, nullable (h_errorMessage r));
        ("checkedAt"%string, JStr (toISOString (h_checkedAt r)))].

(** ** The effects of a change *)

(** [registry.load()], outside the refresh protocol. *)
Definition reload (env : provider_env) (st : provider_state) : provider_state * result thrown unit :=
  match load_error env with
  | Some e => (st, Err e)
  | None =>
      ({| providers := providers st; provider_models := provider_models st; health := health st;
          reg := RegistryState (load_rows credential (active_rows st)) (clock (around env)) (inflight (reg st)) |}, Ok tt)
  end.

(** The end of a change: reload, then answer. *)
Definition reloaded (env : provider_env) (reply : admin_reply) (st : provider_state) : provider_state * result thrown admin_reply :=
  match reload env st with
  | (st, Err e) => (st, Err e)
  | (st, Ok _) => (st, Ok reply)
  end.

Definition with_providers (l : list provider_record) (st : provider_state) : provider_state :=
  {| providers := l; provider_models := provider_models st; health := health st; reg := reg st |}.
Definition with_models (l : list model_record) (st : provider_state) : provider_state :=
  {| providers := providers st; provider_models := l; health := health st; reg := reg st |}.

(** Another provider has the name. *)
Definition name_taken (id name : string) (l : list provider_record) : bool :=
  existsb (λ r, String.eqb (pr_name r) name && negb (String.eqb (pr_id r) id)) l.

Definition duplicate_name : thrown := duplicate "providers_name_unique".

(** UPDATE providers ... WHERE id = ... RETURNING, and what the routes do with
    the row. *)
Definition update_provider (env : provider_env) (id : string) (f : provider_record → provider_record)
    (reply : provider_record → admin_reply) (st : provider_state) : provider_state * result thrown admin_reply :=
  let id := uuid_column id in
  let change :=
    match find_row pr_id id (providers st) with
    | Some r => if name_taken id (pr_name (f r)) (providers st) then Err duplicate_name else Ok (Some (f r))
    | None => Ok None
    end in
  match query (around env) change with
  | Err e => (st, Err e)
  | Ok None => (st, Err (not_found "Provider not found."))
  | Ok (Some row) => reloaded env (reply row) (with_providers (update_rows pr_id id f (providers st)) st)
  end.

(** ** Routes *)

Definition list_providers (env : provider_env) (st : provider_state) : provider_state * result thrown admin_reply :=
  (st, let! rows := query (around env) (Ok (providers st)) in
       Ok {| ar_status := 200; ar_body := JObj [("data"%string, JArr (map (λ r, JObj (toProviderDto r)) rows))] |}).

Definition post_providers (env : provider_env) (body : option json) (st : provider_state)
    : provider_state * result thrown admin_reply :=
  let payload := body_or_empty body in
  match createProviderSchema payload with
  | None => (st, Err (invalid zod_issues "Invalid provider payload." payload))
  | Some body =>
      match encrypt (random_bytes (around env)) (cp_apiKey body) master with
      | Err e => (st, Err e)
      | Ok encryptedApiKey =>
          let now := clock (around env) in
          let row := {| pr_id := new_id (around env); pr_name := cp_name body; pr_baseUrl := cp_baseUrl body;
                        pr_adapterType := cp_adapterType body; pr_encryptedApiKey := encryptedApiKey;
                        pr_weight := cp_weight body ?? 1; pr_priority := cp_priority body ?? 1;
                        pr_isActive := cp_isActive body ?? true; pr_healthCheckUrl := cp_healthCheckUrl body;
                        pr_timeoutMs := cp_timeoutMs body ?? 60000; pr_createdAt := now; pr_updatedAt := now |} in
          let inserted := if name_taken (pr_id row) (pr_name row) (providers st) then Err duplicate_name else Ok row in
          match query (around env) inserted with
          | Err e => (st, Err e)
          | Ok row =>
              (* a trigger adds the provider's row of [provider_health] *)
              let unknown := {| h_status := UNKNOWN; h_latencyMs := None; h_errorMessage := None; h_checkedAt := now |} in
              reloaded env {| ar_status := 201; ar_body := JObj (toProviderDto row) |}
                {| providers := (providers st ++ [row])%list; provider_models := provider_models st;
                   health := <[pr_id row := (health st !! pr_id row) ?? unknown]> (health st); reg := reg st |}
          end
      end
  end.

Definition get_provider (env : provider_env) (id : string) (st : provider_state) : provider_state * result thrown admin_reply :=
  (st, let! id := parseId id in
       let! row := query (around env) (Ok (find_row pr_id (uuid_column id) (providers st))) in
       match row with
       | None => Err (not_found "Provider not found.")
       | Some row => Ok {| ar_status := 200; ar_body := JObj (toProviderDto row) |}
       end).

Definition with_provider_patch (now : Z) (p : patch_provider) (encrypted : option string) (r : provider_record) : provider_record :=
  {| pr_id := pr_id r; pr_name := up_name p ?? pr_name r; pr_baseUrl := up_baseUrl p ?? pr_baseUrl r;
     pr_adapterType := pr_adapterType r; pr_encryptedApiKey := encrypted ?? pr_encryptedApiKey r;
     pr_weight := up_weight p ?? pr_weight r; pr_priority := up_priority p ?? pr_priority r;
     pr_isActive := up_isActive p ?? pr_isActive r; pr_healthCheckUrl := up_healthCheckUrl p ?? pr_healthCheckUrl r;
     pr_timeoutMs := up_timeoutMs p ?? pr_timeoutMs r; pr_createdAt := pr_createdAt r; pr_updatedAt := now |}.

Definition patch_credential (iv : Buffer) (p : patch_provider) : result thrown (option string) :=
  match up_apiKey p with None => Ok None | Some k => let! s := encrypt iv k master in Ok (Some s) end.

Definition patch_providers (env : provider_env) (id : string) (body : option json) (st : provider_state)
    : provider_state * result thrown admin_reply :=
  match parseId id with
  | Err e => (st, Err e)
  | Ok id =>
      let payload := body_or_empty body in
      match patchProviderSchema payload with
      | None => (st, Err (invalid zod_issues "Invalid provider update." payload))
      | Some p =>
          match patch_credential (random_bytes (around env)) p with
          | Err e => (st, Err e)
          | Ok encrypted =>
              update_provider env id (with_provider_patch (clock (around env)) p encrypted)
                (λ row, {| ar_status := 200; ar_body := JObj (toProviderDto row) |}) st
          end
      end
  end.

Definition disabled (now : Z) (r : provider_record) : provider_record :=
  {| pr_id := pr_id r; pr_name := pr_name r; pr_baseUrl := pr_baseUrl r; pr_adapterType := pr_adapterType r;
     pr_encryptedApiKey := pr_encryptedApiKey r; pr_weight := pr_weight r; pr_priority := pr_priority r; pr_isActive := false;
     pr_healthCheckUrl := pr_healthCheckUrl r; pr_timeoutMs := pr_timeoutMs r; pr_createdAt := pr_createdAt r;
     pr_updatedAt := now |}.

Definition delete_provider (env : provider_env) (id : string) (st : provider_state) : provider_state * result thrown admin_reply :=
  match parseId id with
  | Err e => (st, Err e)
  | Ok id =>
      update_provider env id (disabled (clock (around env)))
        (λ row, {| ar_status := 200; ar_body := JObj [("id"%string, JStr (pr_id row)); ("deleted"%string, JBool true)] |}) st
  end.

Definition list_models (env : provider_env) (id : string) (st : provider_state) : provider_state * result thrown admin_reply :=
  (st, let! id := parseId id in
       let! rows := query (around env) (Ok (models_of (uuid_column id) (provider_models st))) in
       Ok {| ar_status := 200; ar_body := JObj [("data"%string, JArr (map model_row_json rows))] |}).

Definition post_models (env : provider_env) (id : string) (body : option json) (st : provider_state)
    : provider_state * result thrown admin_reply :=
  match parseId id with
  | Err e => (st, Err e)
  | Ok id =>
      let payload := body_or_empty body in
      match modelSchema payload with
      | None => (st, Err (invalid zod_issues "Invalid model payload." payload))
      | Some body =>
          let id := uuid_column id in
          let inserted :=
            let! inputPrice := numeric_column numeric (nm_inputPricePer1k body) in
            let! outputPrice := numeric_column numeric (nm_outputPricePer1k body) in
            if existsb (λ m, String.eqb (m_modelId (mr_model m)) (nm_modelId body)) (models_of id (provider_models st))
            then Err (duplicate "provider_models_provider_model_unique")
            else match find_row pr_id id (providers st) with
            | Some _ =>
              Ok {| mr_id := new_id (around env); mr_providerId := id;
                    mr_model := {| m_modelId := nm_modelId body; m_displayName := nm_displayName body;
                                   m_contextWindow := nm_contextWindow body; m_maxOutputTokens := nm_maxOutputTokens body;
                                   m_inputPricePer1k := inputPrice; m_outputPricePer1k := outputPrice;
                                   m_supportsStreaming := nm_supportsStreaming body ?? true;
                                   m_supportsTools := nm_supportsTools body ?? false;
                                   m_supportsVision := nm_supportsVision body ?? false |};
                    mr_isActive := nm_isActive body ?? true; mr_createdAt := clock (around env) |}
            | None => Err (constraint_error "insert or update on table provider_models violates foreign key constraint")
            end in
          match query (around env) inserted with
          | Err e => (st, Err e)
          | Ok row =>
              reloaded env {| ar_status := 201; ar_body := model_row_json row |}
                (with_models (provider_models st ++ [row]) st)
          end
      end
  end.

Definition is_model (id modelId : string) (m : model_record) : bool :=
  String.eqb (mr_providerId m) id && String.eqb (m_modelId (mr_model m)) modelId.

Definition delete_model (env : provider_env) (id modelId : string) (st : provider_state)
    : provider_state * result thrown admin_reply :=
  match parseModelParams id modelId with
  | Err e => (st, Err e)
  | Ok (id, modelId) =>
      let id := uuid_column id in
      match query (around env) (Ok (List.find (is_model id modelId) (provider_models st))) with
      | Err e => (st, Err e)
      | Ok None => (st, Err (not_found "Model not found for this provider."))
      | Ok (Some _) =>
          reloaded env {| ar_status := 200; ar_body := JObj [("modelId"%string, JStr modelId); ("deleted"%string, JBool true)] |}
            (with_models (filter (λ m, is_model id modelId m = false) (provider_models st)) st)
      end
  end.

Definition get_health (env : provider_env) (id : string) (st : provider_state) : provider_state * result thrown admin_reply :=
  (st, let! id := parseId id in
       let! row := query (around env) (Ok (health st !! uuid_column id)) in
       match row with
       | None => Err (not_found "No health record for this provider.")
       | Some row => Ok {| ar_status := 200; ar_body := health_json (uuid_column id) row |}
       end).

(** The routes of the file. *)
Inductive provider_request :=
| GetProviders
| PostProviders (body : option json)
| GetProvider (id : string)
| PatchProvider (id : string) (body : option json)
| DeleteProvider (id : string)
| GetModels (id : string)
| PostModels (id : string) (body : option json)
| DeleteModel (id modelId : string)
| GetHealth (id : string).

Definition providersRoutes (env : provider_env) (r : provider_request) (st : provider_state)
    : provider_state * result thrown admin_reply :=
  match r with
  | GetProviders => list_providers env st
  | PostProviders body => post_providers env body st
  | GetProvider id => get_provider env id st
  | PatchProvider id body => patch_providers env id body st
  | DeleteProvider id => delete_provider env id st
  | GetModels id => list_models env id st
  | PostModels id body => post_models env id body st
  | DeleteModel id modelId => delete_model env id modelId st
  | GetHealth id => get_health env id st
  end.
End AdminProviders.

(** ** What a change leaves behind *)

Section Changes.
Context `{C : Cipher} `{L : !LawfulCipher}.
Variables (master : Buffer) (previous : option Buffer).

(** The registry holds what the tables say, as of [now]. *)
Definition in_sync (now : Z) (st : provider_state) : Prop :=
  snap (reg st) = load_rows (credential master previous) (active_rows st) ∧ loadedAtMs (reg st) = now.

Lemma reloaded_ok env reply st st' out : reloaded master previous env reply st = (st', Ok out) →
  out = reply ∧ in_sync (clock (around env)) st' ∧
  providers st' = providers st ∧ provider_models st' = provider_models st ∧ health st' = health st.
Proof using. unfold reloaded, reload. destruct (load_error env); [done |]. by intros [= <- <-]. Qed.

(** A reload keeps the tables, whatever becomes of the query. *)
Lemma reloaded_tables env reply st : let st' := (reloaded master previous env reply st).1 in
  providers st' = providers st ∧ provider_models st' = provider_models st ∧ health st' = health st.
Proof using. unfold reloaded, reload. by destruct (load_error env). Qed.

Lemma update_provider_ok env id f reply st st' out :
  update_provider master previous env id f reply st = (st', Ok out) →
  in_sync (clock (around env)) st' ∧ provider_models st' = provider_models st ∧
  providers st' = update_rows pr_id (uuid_column id) f (providers st) ∧
  ∃ r, find_row pr_id (uuid_column id) (providers st) = Some r ∧ out = reply (f r).
Proof using.
  unfold update_provider, query. destruct (db_error (around env)); [done |].
  destruct (find_row pr_id (uuid_column id) (providers st)) as [r|]; [| done].
  destruct (name_taken _ _ _); [done |]. intros (-> & Hs & Hp & Hm & _)%reloaded_ok.
  split_and!; [done | by rewrite Hm | by rewrite Hp | by exists r].
Qed.

(** A credential that was encrypted on the way in is read back on loading. *)
Lemma credential_own iv k text : length master = MASTER_KEY_BYTES → length iv = IV_BYTES →
  encrypt iv k master = Ok text → credential master previous text = Ok k.
Proof using L.
  intros Hm Hi. rewrite encrypt_envelope by done. intros [= <-]. unfold credential, decrypt, decryptWithKeys.
  cbn [decrypt_loop]. by rewrite decrypt_own.
Qed.

(** The provider of a loaded row. *)
Lemma loads_active st p : loads (credential master previous) (active_rows st) p →
  ∃ r k, r ∈ providers st ∧ pr_isActive r = true ∧ credential master previous (pr_encryptedApiKey r) = Ok k ∧
    p = row_provider (active_row (provider_models st) r) k.
Proof using.
  intros (row & k & Hr & Hk & ->). apply list_elem_of_fmap in Hr as (r & -> & Hr).
  apply list_elem_of_filter in Hr as [Ha Hr]. by exists r, k.
Qed.

Lemma active_loads st r k : r ∈ providers st → pr_isActive r = true →
  credential master previous (pr_encryptedApiKey r) = Ok k →
  loads (credential master previous) (active_rows st) (row_provider (active_row (provider_models st) r) k).
Proof using.
  intros Hr Ha Hk. exists (active_row (provider_models st) r), k. split_and!; [| done | done].
  apply list_elem_of_fmap. exists r. split; [done |]. by apply list_elem_of_filter.
Qed.

(** The models of a loaded provider are active rows of the table. *)
Lemma row_infos_in row k i : (k, i) ∈ row_infos row → ∃ m, m ∈ row_models row ∧ i = model_info m.
Proof using.
  unfold row_infos. assert (Hgen : ∀ ms l, (∀ k i, (k, i) ∈ l → ∃ m, m ∈ row_models row ∧ i = model_info m) →
    (∀ m, m ∈ ms → m ∈ row_models row) →
    ∀ k i, (k, i) ∈ foldl (λ l m, map_set (m_modelId m) (model_info m) l) l ms → ∃ m, m ∈ row_models row ∧ i = model_info m).
  { induction ms as [|m ms IH]; intros l Hl Hms; [done |]. cbn [foldl]. apply IH; [| intros; apply Hms; by right].
    intros k' i' [[= -> ->] | Hx]%map_set_in; [exists m; split; [apply Hms; by left | done] | by eapply Hl]. }
  apply Hgen; [by intros ? ? ?%elem_of_nil | done].
Qed.

(** A provider's model, seen from the index. *)
Lemma candidate_row st m c now : in_sync now st → c ∈ candidates (resolveCandidates (snap (reg st)) m) →
  ∃ r k mr, r ∈ providers st ∧ pr_isActive r = true ∧ credential master previous (pr_encryptedApiKey r) = Ok k ∧
    c_provider c = row_provider (active_row (provider_models st) r) k ∧
    mr ∈ models_of (pr_id r) (provider_models st) ∧ mr_isActive mr = true ∧ c_model c = model_info (mr_model mr).
Proof using.
  intros [-> _] [(r & k & Hr & Ha & Hk & Hp)%loads_active Hm]%candidate_loads. rewrite Hp in Hm.
  apply row_infos_in in Hm as (mr & Hmr & Hi). cbn [row_models active_row] in Hmr.
  apply list_elem_of_fmap in Hmr as (x & -> & Hx). apply list_elem_of_filter in Hx as [Hxa Hx]. by exists r, k, x.
Qed.
End Changes.

(** What a request that was answered has changed in the routing of models. *)
Definition change_visible (r : provider_request) (is_url : string → bool) (st st' : provider_state) : Prop :=
  let routed c := ∃ m, c ∈ candidates (resolveCandidates (snap (reg st')) m) in
  match r with
  | DeleteProvider id => ∀ c, routed c → p_id (c_provider c) ≠ uuid_column id
  | DeleteModel id model => ∀ c, routed c → ¬ (p_id (c_provider c) = uuid_column id ∧ modelId (c_model c) = model)
  | PatchProvider id body => ∃ p, patchProviderSchema is_url (body_or_empty body) = Some p ∧
      ∀ c, routed c → p_id (c_provider c) = uuid_column id → up_isActive p ≠ Some false ∧
        (∀ k, up_apiKey p = Some k → p_apiKey (c_provider c) = k) ∧
        (∀ u, up_baseUrl p = Some u → baseUrl (c_provider c) = u) ∧
        (∀ w, up_weight p = Some w → p_weight (c_provider c) = w) ∧
        (∀ w, up_priority p = Some w → p_priority (c_provider c) = w) ∧
        (∀ t, up_timeoutMs p = Some t → timeoutMs (c_provider c) = t)
  | PostProviders _ | PostModels _ _ => True
  | _ => st' = st
  end.

Definition changes (r : provider_request) : bool :=
  match r with GetProviders | GetProvider _ | GetModels _ | GetHealth _ => false | _ => true end.

Section Effect.
Context `{C : Cipher} `{L : !LawfulCipher}.
Variables (master : Buffer) (previous : option Buffer) (is_url : string → bool).

Lemma patch_visible env id p encrypted reply st st' out : length master = MASTER_KEY_BYTES →
  length (random_bytes (around env)) = IV_BYTES → patch_credential master (random_bytes (around env)) p = Ok encrypted →
  update_provider master previous env id (with_provider_patch (clock (around env)) p encrypted) reply st = (st', Ok out) →
  in_sync master previous (clock (around env)) st' ∧
  ∀ c m, c ∈ candidates (resolveCandidates (snap (reg st')) m) → p_id (c_provider c) = uuid_column id →
    up_isActive p ≠ Some false ∧
    (∀ k, up_apiKey p = Some k → p_apiKey (c_provider c) = k) ∧ (∀ u, up_baseUrl p = Some u → baseUrl (c_provider c) = u) ∧
    (∀ w, up_weight p = Some w → p_weight (c_provider c) = w) ∧ (∀ w, up_priority p = Some w → p_priority (c_provider c) = w) ∧
    (∀ t, up_timeoutMs p = Some t → timeoutMs (c_provider c) = t).
Proof using L.
  intros Hm Hi He (Hs & _ & Hp & _)%update_provider_ok. split; [done |]. intros c m Hc Hid.
  destruct (candidate_row master previous st' m c _ Hs Hc) as (r & k & _ & Hr & Ha & Hk & E & _).
  rewrite Hp in Hr. apply elem_of_update in Hr as (r0 & _ & [[_ ->] | [Hne ->]]); [| by rewrite E in Hid].
  rewrite E. cbn -[credential] in Ha, Hk |- *. split_and!.
  - intros Hf. by rewrite Hf in Ha.
  - intros k' Hk'. unfold patch_credential in He. rewrite Hk' in He.
    destruct (encrypt (random_bytes (around env)) k' master) as [text|] eqn:Et; [| done]. cbn in He. injection He as <-. cbn -[credential] in Hk.
    rewrite (credential_own master previous _ k' text) in Hk by done. by injection Hk.
  - by intros u ->.
  - by intros u ->.
  - by intros u ->.
  - by intros u ->.
Qed.

Lemma delete_visible env id reply st st' out :
  update_provider master previous env id (disabled (clock (around env))) reply st = (st', Ok out) →
  in_sync master previous (clock (around env)) st' ∧
  ∀ c m, c ∈ candidates (resolveCandidates (snap (reg st')) m) → p_id (c_provider c) ≠ uuid_column id.
Proof using.
  intros (Hs & _ & Hp & _)%update_provider_ok. split; [done |]. intros c m Hc Hid.
  destruct (candidate_row master previous st' m c _ Hs Hc) as (r & k & _ & Hr & Ha & _ & E & _).
  rewrite Hp in Hr. apply elem_of_update in Hr as (r0 & _ & [[_ ->] | [Hne ->]]); [done | by rewrite E in Hid].
Qed.

Lemma model_gone env id modelId' st st' out :
  delete_model master previous env id modelId' st = (st', Ok out) →
  in_sync master previous (clock (around env)) st' ∧
  ∀ c m, c ∈ candidates (resolveCandidates (snap (reg st')) m) →
    ¬ (p_id (c_provider c) = uuid_column id ∧ modelId (c_model c) = modelId').
Proof using.
  unfold delete_model, parseModelParams, query. destruct (is_uuid id && _); [| done].
  destruct (db_error (around env)); [done |].
  destruct (List.find _ (provider_models st)) as [x|]; [| done]. intros (_ & Hs & _ & Hms & _)%reloaded_ok.
  split; [done |]. intros c m Hc [Hid Hm].
  destruct (candidate_row master previous st' m c _ Hs Hc) as (r & k & mr & _ & _ & _ & E & Hmr & _ & Ei).
  unfold models_of in Hmr. rewrite Hms in Hmr. apply list_elem_of_filter in Hmr as [Hpr [Hno _]%list_elem_of_filter].
  unfold is_model in Hno. rewrite E in Hid. rewrite Ei in Hm. cbn in Hid, Hm.
  by rewrite Hpr, Hid, Hm, !String.eqb_refl in Hno.
Qed.
End Effect.

(** C25: A change to the providers reaches routing at once. When a request that
    changes the tables is answered, the registry holds exactly what the tables
    now say: a provider that was deleted is a candidate for no model; a model
    that was deleted is served by that provider no more; after an update every
    candidate of the provider has the new endpoint, weight, priority, timeout
    and credential (encrypted on the way in, decrypted on loading), and there is
    none if the provider was switched off. A request that only reads changes
    nothing. *)
Theorem provider_change_effective `{LawfulCipher} master previous is_url toISOString numeric zod_issues env r st st' reply :
  length master = MASTER_KEY_BYTES → length (random_bytes (around env)) = IV_BYTES →
  providersRoutes master previous is_url toISOString numeric zod_issues env r st = (st', Ok reply) →
  (changes r = true → in_sync master previous (clock (around env)) st') ∧ change_visible r is_url st st'.
Proof.
  intros Hm Hi. destruct r as [| body | id | id body | id | id | id body | id model | id];
    cbn [providersRoutes changes change_visible].
  1, 3, 6, 9: intros [= <- _]; by split.
  - unfold post_providers. destruct (createProviderSchema _ _); [| done]. destruct (encrypt _ _ _); [| done].
    destruct (query _ _); [| done]. by intros (_ & Hs & _)%reloaded_ok.
  - unfold patch_providers, parseId. destruct (is_uuid id); [| done].
    destruct (patchProviderSchema is_url _) as [p|]; [| done].
    destruct (patch_credential _ _ p) as [encrypted|] eqn:Ep; [| done].
    intros [Hs Hv]%(patch_visible master previous env id p encrypted _ st st' reply Hm Hi Ep). split; [done |].
    exists p. split; [done |]. intros c [m Hc]. by apply (Hv c m).
  - unfold delete_provider, parseId. destruct (is_uuid id); [| done].
    intros [Hs Hv]%delete_visible. split; [done |]. intros c [m Hc]. by apply (Hv c m).
  - unfold post_models, parseId. destruct (is_uuid id); [| done]. destruct (modelSchema _); [| done].
    cbv zeta. destruct (query _ _); [| done]. by intros (_ & Hs & _)%reloaded_ok.
  - intros [Hs Hv]%model_gone. split; [done |]. intros c [m Hc]. by apply (Hv c m).
Qed.

(** ** Creation *)

(** The provider a payload describes, once it serves one model. *)
Definition provider_for (id : string) (p : create_provider) (info : ProviderModelInfo) : ProviderInstanceConfig :=
  {| p_id := id; p_name := cp_name p; adapterType := cp_adapterType p; baseUrl := cp_baseUrl p; p_apiKey := cp_apiKey p;
     timeoutMs := cp_timeoutMs p ?? 60000; p_weight := cp_weight p ?? 1; p_priority := cp_priority p ?? 1;
     models := [(modelId info, info)] |}.

(** The metadata a model payload describes, with its prices as the columns store them. *)
Definition info_for (m : new_model) (inputPrice outputPrice : option string) : ProviderModelInfo :=
  {| modelId := nm_modelId m; displayName := nm_displayName m; contextWindow := nm_contextWindow m;
     maxOutputTokens := nm_maxOutputTokens m; inputPricePer1k := parseNumeric inputPrice;
     outputPricePer1k := parseNumeric outputPrice; supportsStreaming := nm_supportsStreaming m ?? true;
     supportsTools := nm_supportsTools m ?? false; supportsVision := nm_supportsVision m ?? false |}.

Section Creation.
Context `{C : Cipher} `{L : !LawfulCipher}.
Variables (master : Buffer) (previous : option Buffer) (is_url : string → bool) (toISOString : Z → string)
  (numeric : Q → result thrown string) (zod_issues : json → json).

Lemma post_provider_row env body st st' out : length master = MASTER_KEY_BYTES →
  post_providers master previous is_url toISOString zod_issues env body st = (st', Ok out) →
  ∃ p row, createProviderSchema is_url (body_or_empty body) = Some p ∧
    encrypt (random_bytes (around env)) (cp_apiKey p) master = Ok (pr_encryptedApiKey row) ∧
    providers st' = (providers st ++ [row])%list ∧ provider_models st' = provider_models st ∧
    pr_isActive row = cp_isActive p ?? true ∧ pr_id row = new_id (around env) ∧
    ∀ ms key info, key = cp_apiKey p → row_infos (active_row ms row) = [(modelId info, info)] →
      row_provider (active_row ms row) key = provider_for (new_id (around env)) p info.
Proof using.
  intros Hm. unfold post_providers. destruct (createProviderSchema _ _) as [p|]; [| done].
  destruct (encrypt _ _ _) as [enc|] eqn:Ee; [| done]. cbv zeta. unfold query.
  destruct (db_error (around env)); [done |]. destruct (name_taken _ _ _); [done |].
  intros (_ & _ & Hp & Hms & _)%reloaded_ok. cbn [providers provider_models] in Hp, Hms.
  eexists p, _. split; [done |]. rewrite Hp, Hms. split_and!; [| done | done | done | done |]; [done |].
  intros ms key info -> Hi. unfold row_provider, provider_for. by rewrite Hi.
Qed.

Lemma post_model_row env id body st st' out :
  post_models master previous toISOString numeric zod_issues env id body st = (st', Ok out) →
  ∃ m i o row, modelSchema (body_or_empty body) = Some m ∧
    numeric_column numeric (nm_inputPricePer1k m) = Ok i ∧ numeric_column numeric (nm_outputPricePer1k m) = Ok o ∧
    in_sync master previous (clock (around env)) st' ∧
    providers st' = providers st ∧ provider_models st' = (provider_models st ++ [row])%list ∧
    mr_providerId row = uuid_column id ∧ mr_isActive row = nm_isActive m ?? true ∧ model_info (mr_model row) = info_for m i o.
Proof using.
  unfold post_models, parseId. destruct (is_uuid id); [| done]. destruct (modelSchema _) as [m|]; [| done].
  cbv zeta. unfold query. destruct (db_error (around env)); [done |].
  destruct (numeric_column numeric (nm_inputPricePer1k m)) as [i|] eqn:Ei; [| done]. cbn [res_bind].
  destruct (numeric_column numeric (nm_outputPricePer1k m)) as [o|] eqn:Eo; [| done]. cbn [res_bind].
  destruct (existsb _ _); [done |]. destruct (find_row _ _ _); [| done].
  intros (_ & Hs & Hp & Hms & _)%reloaded_ok. exists m, i, o. eexists. rewrite Hp, Hms. by split_and!.
Qed.

(** The one model of a provider. *)
Lemma only_model id ms row : (∀ x, x ∈ ms → mr_providerId x ≠ id) → mr_providerId row = id → mr_isActive row = true →
  ∀ r, pr_id r = id → row_infos (active_row (ms ++ [row]) r) = [(m_modelId (mr_model row), model_info (mr_model row))].
Proof using.
  intros Hms Hid Ha r Hr. unfold row_infos, active_row, models_of. cbn [row_models]. rewrite Hr.
  assert (Hnil : filter (λ m, mr_providerId m = id) ms = []).
  { clear -Hms. induction ms as [|x ms IH]; [done |]. rewrite filter_cons_False by (apply Hms; by left).
    apply IH. intros y Hy. apply Hms. by right. }
  rewrite filter_app, Hnil, filter_cons_True by done. cbn. rewrite decide_True by done. done.
Qed.
End Creation.

(** A new provider goes live with the credential it was given. After a
    provider was posted and then a model for the id it got, both answered and
    neither switched off, a request for that model resolves to it unaliased,
    and among its candidates is the provider with the posted endpoint, weight,
    priority and timeout (or the columns' defaults), with the posted credential
    in the clear although the table holds its envelope only, and with the
    model's posted metadata and prices. *)
Theorem provider_goes_live `{LawfulCipher} master previous is_url toISOString numeric zod_issues env1 env2 body1 body2
    st st1 st2 reply1 reply2 p m :
  length master = MASTER_KEY_BYTES → length (random_bytes (around env1)) = IV_BYTES →
  let routes := providersRoutes master previous is_url toISOString numeric zod_issues in
  routes env1 (PostProviders body1) st = (st1, Ok reply1) →
  routes env2 (PostModels (new_id (around env1)) body2) st1 = (st2, Ok reply2) →
  uuid_column (new_id (around env1)) = new_id (around env1) →
  (∀ x, x ∈ provider_models st → mr_providerId x ≠ new_id (around env1)) →
  createProviderSchema is_url (body_or_empty body1) = Some p → modelSchema (body_or_empty body2) = Some m →
  cp_isActive p ≠ Some false → nm_isActive m ≠ Some false →
  ∃ i o, numeric_column numeric (nm_inputPricePer1k m) = Ok i ∧ numeric_column numeric (nm_outputPricePer1k m) = Ok o ∧
    let r := resolveCandidates (snap (reg st2)) (nm_modelId m) in
    canonicalModel r = nm_modelId m ∧
    {| c_provider := provider_for (new_id (around env1)) p (info_for m i o); c_model := info_for m i o |} ∈ candidates r.
Proof.
  intros Hm Hi routes E1 E2 Hid Hno Hp Hb Hpa Hma. unfold routes in *. cbn [providersRoutes] in E1, E2.
  apply post_provider_row in E1 as (p' & row & Hp' & He & Hps & Hms & Ha & Hrid & Hcfg); [| done].
  rewrite Hp in Hp'. injection Hp' as <-.
  apply post_model_row in E2 as (m' & i & o & mrow & Hm' & Hin & Hout & Hs & Hps2 & Hms2 & Hmid & Hmact & Hinfo).
  rewrite Hb in Hm'. injection Hm' as <-. exists i, o. split; [done |]. split; [done |].
  rewrite Hid in Hmid. rewrite Hms in Hms2.
  assert (Hact : pr_isActive row = true) by (rewrite Ha; by destruct (cp_isActive p) as [[]|]).
  assert (Hmactive : mr_isActive mrow = true) by (rewrite Hmact; by destruct (nm_isActive m) as [[]|]).
  pose proof (only_model _ (provider_models st) mrow Hno Hmid Hmactive row Hrid) as Hrow.
  assert (Hk : m_modelId (mr_model mrow) = nm_modelId m) by (change (modelId (model_info (mr_model mrow)) = nm_modelId m); by rewrite Hinfo).
  rewrite Hinfo, Hk in Hrow. change (nm_modelId m) with (modelId (info_for m i o)) in Hrow.
  destruct Hs as [-> _]. cbv zeta. apply (loads_candidate (credential master previous)); [| by left].
  rewrite <- (Hcfg (provider_models st ++ [mrow])%list (cp_apiKey p) (info_for m i o) eq_refl Hrow), <- Hms2.
  apply active_loads; [| done | by eapply credential_own].
  rewrite Hps2, Hps. apply elem_of_app. right. by left.
Qed.

(** ** What the replies do not depend on *)

(** A row whose envelope is only known to be there or not. *)
Definition sealed (r : provider_record) : provider_record :=
  {| pr_id := pr_id r; pr_name := pr_name r; pr_baseUrl := pr_baseUrl r; pr_adapterType := pr_adapterType r;
     pr_encryptedApiKey := if (0 <? String.length (pr_encryptedApiKey r))%nat then "*" else "";
     pr_weight := pr_weight r; pr_priority := pr_priority r; pr_isActive := pr_isActive r;
     pr_healthCheckUrl := pr_healthCheckUrl r; pr_timeoutMs := pr_timeoutMs r; pr_createdAt := pr_createdAt r;
     pr_updatedAt := pr_updatedAt r |}.

(** Two states that differ only in the stored credentials and in the registry,
    which holds them in the clear. *)
Definition same_but_credentials (st1 st2 : provider_state) : Prop :=
  map sealed (providers st1) = map sealed (providers st2) ∧
  provider_models st1 = provider_models st2 ∧ health st1 = health st2.

(** Two requests that differ at most in the credential they carry. *)
Definition without_key (p : create_provider) : create_provider :=
  {| cp_name := cp_name p; cp_baseUrl := cp_baseUrl p; cp_adapterType := cp_adapterType p; cp_apiKey := "";
     cp_weight := cp_weight p; cp_priority := cp_priority p; cp_isActive := cp_isActive p;
     cp_healthCheckUrl := cp_healthCheckUrl p; cp_timeoutMs := cp_timeoutMs p |}.
Definition without_new_key (p : patch_provider) : patch_provider :=
  {| up_name := up_name p; up_baseUrl := up_baseUrl p; up_apiKey := (λ _, ""%string) <$> up_apiKey p;
     up_weight := up_weight p; up_priority := up_priority p; up_isActive := up_isActive p;
     up_healthCheckUrl := up_healthCheckUrl p; up_timeoutMs := up_timeoutMs p |}.
Definition same_but_key (is_url : string → bool) (r1 r2 : provider_request) : Prop :=
  r1 = r2 ∨
  match r1, r2 with
  | PostProviders body1, PostProviders body2 =>
      ∃ p1 p2, createProviderSchema is_url (body_or_empty body1) = Some p1 ∧
        createProviderSchema is_url (body_or_empty body2) = Some p2 ∧ without_key p1 = without_key p2
  | PatchProvider id1 body1, PatchProvider id2 body2 =>
      id1 = id2 ∧ ∃ p1 p2, patchProviderSchema is_url (body_or_empty body1) = Some p1 ∧
        patchProviderSchema is_url (body_or_empty body2) = Some p2 ∧ without_new_key p1 = without_new_key p2
  | _, _ => False
  end.

Section Secrecy.
Context `{C : Cipher}.
Variables (master1 master2 : Buffer) (previous1 previous2 : option Buffer) (is_url : string → bool) (toISOString : Z → string)
  (numeric : Q → result thrown string) (zod_issues : json → json).

Lemma same_reloaded env reply1 reply2 st1 st2 : same_but_credentials st1 st2 → reply1 = reply2 →
  let x1 := reloaded master1 previous1 env reply1 st1 in let x2 := reloaded master2 previous2 env reply2 st2 in
  x1.2 = x2.2 ∧ same_but_credentials x1.1 x2.1.
Proof using. intros Hs ->. unfold reloaded, reload. by destruct (load_error env). Qed.

Lemma same_name_taken id name st1 st2 : same_but_credentials st1 st2 →
  name_taken id name (providers st1) = name_taken id name (providers st2).
Proof using.
  intros [Hs _]. assert (Hv : ∀ l, name_taken id name l = name_taken id name (map sealed l)).
  { intros l. unfold name_taken. induction l as [|r l IH]; [done |]. cbn [existsb map]. by rewrite IH. }
  by rewrite (Hv (providers st1)), Hs, <- Hv.
Qed.

Lemma same_updated_provider env id f1 f2 g reply1 reply2 st1 st2 : same_but_credentials st1 st2 →
  (∀ r, sealed (f1 r) = g (sealed r)) → (∀ r, sealed (f2 r) = g (sealed r)) →
  (∀ r1 r2, sealed r1 = sealed r2 → reply1 r1 = reply2 r2) →
  let x1 := update_provider master1 previous1 env id f1 reply1 st1 in
  let x2 := update_provider master2 previous2 env id f2 reply2 st2 in
  x1.2 = x2.2 ∧ same_but_credentials x1.1 x2.1.
Proof using.
  intros Hs Hf1 Hf2 Hr. unfold update_provider, query. destruct (db_error (around env)); [done |].
  pose proof (same_view_found pr_id sealed pr_id (λ _, eq_refl) (uuid_column id) _ _ (proj1 Hs)) as Hg.
  destruct (find_row pr_id (uuid_column id) (providers st1)) as [r1|],
    (find_row pr_id (uuid_column id) (providers st2)) as [r2|]; try done.
  apply (inj Some) in Hg. assert (Hfr : sealed (f1 r1) = sealed (f2 r2)) by (by rewrite Hf1, Hf2, Hg).
  assert (Hn : pr_name (f1 r1) = pr_name (f2 r2)) by (change (pr_name (sealed (f1 r1)) = pr_name (sealed (f2 r2))); by rewrite Hfr).
  rewrite Hn, (same_name_taken (uuid_column id) (pr_name (f2 r2)) st1 st2 Hs). destruct (name_taken _ _ _); [done |].
  apply same_reloaded; [| by apply Hr]. destruct Hs as [Hp Hms]. split; [| done]. cbn [providers with_providers].
  by rewrite (update_view pr_id sealed pr_id (λ _, eq_refl) (uuid_column id) f1 g),
    (update_view pr_id sealed pr_id (λ _, eq_refl) (uuid_column id) f2 g), Hp.
Qed.

Lemma sealed_dto r1 r2 : sealed r1 = sealed r2 → toProviderDto toISOString r1 = toProviderDto toISOString r2.
Proof using.
  intros H. assert (Hv : ∀ r, toProviderDto toISOString r = toProviderDto toISOString (sealed r)).
  { intros r. unfold toProviderDto. cbn [sealed pr_encryptedApiKey pr_id pr_name pr_baseUrl pr_adapterType pr_weight pr_priority
      pr_isActive pr_healthCheckUrl pr_timeoutMs pr_createdAt pr_updatedAt].
    by destruct (pr_encryptedApiKey r). }
  by rewrite (Hv r1), H, <- Hv.
Qed.

Lemma same_sealed_dtos st1 st2 : same_but_credentials st1 st2 →
  map (toProviderDto toISOString) (providers st1) = map (toProviderDto toISOString) (providers st2).
Proof using.
  intros [Hp _]. apply (same_view_map sealed _ (toProviderDto toISOString) _ _); [| done].
  intros r. apply sealed_dto. unfold sealed. cbn -[Nat.ltb]. by destruct (pr_encryptedApiKey r).
Qed.

(** An envelope is never empty. *)
Lemma encrypt_nonempty key iv s text : encrypt iv s key = Ok text → (0 <? String.length text)%nat = true.
Proof using.
  unfold encrypt, assertKeyLength. destruct (_ =? _)%nat; [| done]. cbn [res_bind]. destruct (seal _ _ _). by intros [= <-].
Qed.

Lemma encrypt_total key iv s : length key = MASTER_KEY_BYTES → ∃ text, encrypt iv s key = Ok text.
Proof using.
  intros Hk. unfold encrypt, assertKeyLength. rewrite Hk. cbn. destruct (seal _ _ _). by eexists.
Qed.

(** Both credentials of two payloads are encrypted. *)
Lemma same_post env body1 body2 st1 st2 : length master1 = MASTER_KEY_BYTES → length master2 = MASTER_KEY_BYTES →
  same_but_credentials st1 st2 →
  body1 = body2 ∨ (∃ p1 p2, createProviderSchema is_url (body_or_empty body1) = Some p1 ∧
    createProviderSchema is_url (body_or_empty body2) = Some p2 ∧ without_key p1 = without_key p2) →
  let x1 := post_providers master1 previous1 is_url toISOString zod_issues env body1 st1 in
  let x2 := post_providers master2 previous2 is_url toISOString zod_issues env body2 st2 in
  x1.2 = x2.2 ∧ same_but_credentials x1.1 x2.1.
Proof using.
  intros Hm1 Hm2 Hs Hb. unfold post_providers.
  assert (Hp : body1 = body2 ∧ createProviderSchema is_url (body_or_empty body2) = None ∨
    ∃ p1 p2, createProviderSchema is_url (body_or_empty body1) = Some p1 ∧
      createProviderSchema is_url (body_or_empty body2) = Some p2 ∧ without_key p1 = without_key p2).
  { destruct Hb as [-> | ?]; [| by right]. destruct (createProviderSchema is_url (body_or_empty body2)) as [p|]; [right | by left].
    by exists p, p. }
  destruct Hp as [[-> E] | (p1 & p2 & -> & -> & Hp)]; [by rewrite E |].
  destruct (encrypt_total master1 (random_bytes (around env)) (cp_apiKey p1) Hm1) as [t1 E1].
  destruct (encrypt_total master2 (random_bytes (around env)) (cp_apiKey p2) Hm2) as [t2 E2].
  rewrite E1, E2. apply encrypt_nonempty in E1, E2. cbv zeta. cbn [pr_id pr_name]. unfold query.
  destruct (db_error (around env)); [done |].
  destruct p1 as [n1 u1 a1 k1 w1 o1 i1 h1 m1], p2 as [n2 u2 a2 k2 w2 o2 i2 h2 m2]. unfold without_key in Hp. cbn in Hp. injection Hp as -> -> -> -> -> -> -> ->. cbn [cp_name cp_baseUrl cp_adapterType cp_apiKey cp_weight cp_priority cp_isActive cp_healthCheckUrl cp_timeoutMs].
  rewrite (same_name_taken _ _ st1 st2 Hs). destruct (name_taken _ _ _); [done |].
  destruct Hs as (Hps & Hms & Hh).
  match goal with |- (reloaded _ _ _ _ {| providers := _ ++ [?r1] |}).2 = (reloaded _ _ _ _ {| providers := _ ++ [?r2] |}).2 ∧ _ =>
    assert (Hr : sealed r1 = sealed r2) by (unfold sealed; cbn [pr_encryptedApiKey]; by rewrite E1, E2) end.
  apply same_reloaded; [| by rewrite (sealed_dto _ _ Hr)].
  split_and!; cbn [providers provider_models health]; [| done | by rewrite Hh].
  by rewrite !map_app, Hps; cbn [map]; rewrite Hr.
Qed.

Lemma same_credentials env p1 p2 : length master1 = MASTER_KEY_BYTES → length master2 = MASTER_KEY_BYTES →
  ((λ _, ""%string) <$> up_apiKey p1) = ((λ _, ""%string) <$> up_apiKey p2) →
  ∃ c1 c2, patch_credential master1 (random_bytes (around env)) p1 = Ok c1 ∧
    patch_credential master2 (random_bytes (around env)) p2 = Ok c2 ∧
    (c1 = None ∧ c2 = None ∨
     ∃ t1 t2, c1 = Some t1 ∧ c2 = Some t2 ∧ (0 <? String.length t1)%nat = true ∧ (0 <? String.length t2)%nat = true).
Proof using.
  intros Hm1 Hm2. unfold patch_credential. destruct (up_apiKey p1) as [k1|], (up_apiKey p2) as [k2|]; try done.
  - intros _. destruct (encrypt_total master1 (random_bytes (around env)) k1 Hm1) as [t1 E1].
    destruct (encrypt_total master2 (random_bytes (around env)) k2 Hm2) as [t2 E2].
    exists (Some t1), (Some t2). rewrite E1, E2. split_and!; [done | done |]. right. exists t1, t2.
    apply encrypt_nonempty in E1, E2. by split_and!.
  - intros _. exists None, None. split_and!; [done | done | by left].
Qed.

Lemma same_patch env id body1 body2 st1 st2 : length master1 = MASTER_KEY_BYTES → length master2 = MASTER_KEY_BYTES →
  same_but_credentials st1 st2 →
  body1 = body2 ∨ (∃ p1 p2, patchProviderSchema is_url (body_or_empty body1) = Some p1 ∧
    patchProviderSchema is_url (body_or_empty body2) = Some p2 ∧ without_new_key p1 = without_new_key p2) →
  let x1 := patch_providers master1 previous1 is_url toISOString zod_issues env id body1 st1 in
  let x2 := patch_providers master2 previous2 is_url toISOString zod_issues env id body2 st2 in
  x1.2 = x2.2 ∧ same_but_credentials x1.1 x2.1.
Proof using.
  intros Hm1 Hm2 Hs Hb. unfold patch_providers. destruct (parseId id) as [i|]; [| done].
  assert (Hp : body1 = body2 ∧ patchProviderSchema is_url (body_or_empty body2) = None ∨
    ∃ p1 p2, patchProviderSchema is_url (body_or_empty body1) = Some p1 ∧
      patchProviderSchema is_url (body_or_empty body2) = Some p2 ∧ without_new_key p1 = without_new_key p2).
  { destruct Hb as [-> | ?]; [| by right]. destruct (patchProviderSchema is_url (body_or_empty body2)) as [p|]; [right | by left].
    by exists p, p. }
  destruct Hp as [[-> E] | (p1 & p2 & -> & -> & Hp)]; [by rewrite E |].
  destruct (same_credentials env p1 p2 Hm1 Hm2 (f_equal up_apiKey Hp)) as (c1 & c2 & -> & -> & Hc).
  apply (same_updated_provider env i _ _ (with_provider_patch (clock (around env)) (without_new_key p1) ((λ _, "*"%string) <$> c1))).
  - done.
  - intros r. destruct Hc as [[-> ->] | (t1 & t2 & -> & -> & E1 & E2)]; unfold sealed, with_provider_patch, without_new_key; cbn -[Nat.ltb]; by rewrite ?E1.
  - intros r. rewrite Hp. destruct Hc as [[-> ->] | (t1 & t2 & -> & -> & E1 & E2)]; unfold sealed, with_provider_patch, without_new_key; cbn -[Nat.ltb]; by rewrite ?E2.
  - intros r1 r2 Hr. by rewrite (sealed_dto r1 r2 Hr).
Qed.
End Secrecy.

(** C26: No route shows a credential, stored or just sent, at once or over time.
    Run under any two master keys, in two states that differ only in the stored
    credentials (and in the registry, which holds them in the clear), two
    requests that differ at most in the credential they carry get the same reply
    and leave two states that again differ only so; by induction no sequence of
    requests tells one credential from another. *)
Theorem credentials_never_shown `{Cipher} master1 master2 previous1 previous2 is_url toISOString numeric zod_issues env
    r1 r2 st1 st2 :
  length master1 = MASTER_KEY_BYTES → length master2 = MASTER_KEY_BYTES →
  same_but_credentials st1 st2 → same_but_key is_url r1 r2 →
  let x1 := providersRoutes master1 previous1 is_url toISOString numeric zod_issues env r1 st1 in
  let x2 := providersRoutes master2 previous2 is_url toISOString numeric zod_issues env r2 st2 in
  x1.2 = x2.2 ∧ same_but_credentials x1.1 x2.1.
Proof.
  intros Hm1 Hm2 Hs Hr. pose proof Hs as (Hp & Hms & Hh).
  assert (Hfound : ∀ id, sealed <$> find_row pr_id id (providers st1) = sealed <$> find_row pr_id id (providers st2))
    by (intros id; by apply (same_view_found pr_id sealed pr_id (λ _, eq_refl))).
  destruct r1 as [| body1 | id1 | id1 body1 | id1 | id1 | id1 body1 | id1 model1 | id1];
    (destruct Hr as [<- | Hr]; [| destruct r2 as [| body2 | id2 | id2 body2 | id2 | id2 | id2 body2 | id2 model2 | id2]; try done]);
    cbn [providersRoutes].
  - split; [| done]. cbn [list_providers snd]. unfold list_providers, query. cbn [snd].
    destruct (db_error (around env)); [done |]. cbn [res_bind]. do 4 f_equal.
    by rewrite <- !(map_map (toProviderDto toISOString) JObj), (same_sealed_dtos toISOString st1 st2 Hs).
  - apply same_post; [done | done | done | by left].
  - apply same_post; [done | done | done | by right].
  - split; [| done]. unfold get_provider, parseId, query. cbn [snd]. destruct (is_uuid id1); [| done]. cbn [res_bind].
    destruct (db_error (around env)); [done |]. cbn [res_bind]. specialize (Hfound (uuid_column id1)).
    destruct (find_row _ _ (providers st1)), (find_row _ _ (providers st2)); try done.
    apply (inj Some) in Hfound. by rewrite (sealed_dto toISOString _ _ Hfound).
  - apply same_patch; [done | done | done | by left].
  - destruct Hr as [-> Hr]. apply same_patch; [done | done | done | by right].
  - unfold delete_provider. destruct (parseId id1) as [i|]; [| done].
    apply (same_updated_provider master1 master2 previous1 previous2 env i _ _ (disabled (clock (around env)))); try done.
    intros a b Hab. assert (Hid : pr_id a = pr_id b) by (change (pr_id (sealed a) = pr_id (sealed b)); by rewrite Hab). by rewrite Hid.
  - split; [| done]. unfold list_models. cbn [snd]. by rewrite Hms.
  - unfold post_models. destruct (parseId id1) as [i|]; [| done]. destruct (modelSchema _) as [m|]; [| done]. cbv zeta. rewrite Hms.
    specialize (Hfound (uuid_column i)). unfold query. destruct (db_error (around env)); [done |].
    destruct (numeric_column _ _); [| done]. cbn [res_bind]. destruct (numeric_column _ _); [| done]. cbn [res_bind].
    destruct (existsb _ _); [done |].
    destruct (find_row _ _ (providers st1)), (find_row _ _ (providers st2)); try done. by apply same_reloaded.
  - unfold delete_model. destruct (parseModelParams id1 model1) as [[i mo]|]; [| done]. rewrite Hms. unfold query.
    destruct (db_error (around env)); [done |]. destruct (List.find _ _); [| done]. by apply same_reloaded.
  - split; [| done]. unfold get_health. cbn [snd]. by rewrite Hh.
Qed.

(** ** Witnesses *)

Definition provider_uuid : string := "00000000-0000-4000-8000-00000000000a".
Definition provider_around (iv : Byte.byte) : provider_env :=
  {| around := {| db_error := None; cache_fate := Up; clock := 1000; new_id := provider_uuid; random_bytes := iv_of iv |};
     load_error := None |}.
Definition no_providers : provider_state :=
  {| providers := []; provider_models := []; health := ∅; reg := RegistryState (Snapshot [] []) 0 false |}.
Definition http_url (s : string) : bool := starts_with "https://" s.
Definition no_stamp (_ : Z) : string := "".
Definition one_dollar (_ : Q) : result thrown string := Ok "1"%string.
Definition silent (_ : json) : json := JNull.
Definition provider_body (key : string) : json :=
  JObj [("name"%string, JStr "acme"); ("baseUrl"%string, JStr "https://acme"); ("adapterType"%string, JStr "openai");
        ("apiKey"%string, JStr key); ("weight"%string, jint 3)].
Definition model_body : json := JObj [("modelId"%string, JStr "m-1"); ("inputPricePer1k"%string, JNum 1)].
Definition sample_provider_routes := providersRoutes (key_of Byte.x01) None http_url no_stamp one_dollar silent.
Definition one_provider (key : string) : provider_state :=
  (sample_provider_routes (provider_around Byte.x07) (PostProviders (Some (provider_body key))) no_providers).1.
Definition one_model : provider_state :=
  (sample_provider_routes (provider_around Byte.x07) (PostModels provider_uuid (Some model_body)) (one_provider "sk-1")).1.

Lemma provider_change_effective_witness :
  let st' := (sample_provider_routes (provider_around Byte.x08)
                (PatchProvider provider_uuid (Some (JObj [("apiKey"%string, JStr "sk-2")]))) one_model).1 in
  (∃ c, c ∈ candidates (resolveCandidates (snap (reg st')) "m-1") ∧ p_apiKey (c_provider c) = "sk-2"%string) ∧
  ∀ c, c ∈ candidates (resolveCandidates (snap (reg st')) "m-1") → p_id (c_provider c) = provider_uuid →
    p_apiKey (c_provider c) = "sk-2"%string.
Proof.
  split.
  { eexists. split; [vm_compute; by left | done]. }
  set (r := PatchProvider provider_uuid (Some (JObj [("apiKey"%string, JStr "sk-2")]))).
  destruct (sample_provider_routes (provider_around Byte.x08) r one_model) as [st' [reply|e]] eqn:E; [| by vm_compute in E].
  destruct (provider_change_effective (key_of Byte.x01) None http_url no_stamp one_dollar silent (provider_around Byte.x08)
    r one_model st' reply) as [_ (p & Hp & Hv)]; [done | done | exact E |].
  intros c Hc Hid. destruct (Hv c) as (_ & Hk & _); [by exists "m-1"%string | done |]. apply Hk.
  vm_compute in Hp. by injection Hp as <-.
Defined.

Lemma provider_goes_live_witness :
  ∃ c, c ∈ candidates (resolveCandidates (snap (reg one_model)) "m-1") ∧
    p_apiKey (c_provider c) = "sk-1"%string ∧ p_weight (c_provider c) = 3 ∧ p_priority (c_provider c) = 1.
Proof.
  destruct (sample_provider_routes (provider_around Byte.x07) (PostProviders (Some (provider_body "sk-1"))) no_providers)
    as [st1 [reply1|]] eqn:E1; [| by vm_compute in E1].
  destruct (sample_provider_routes (provider_around Byte.x07) (PostModels provider_uuid (Some model_body)) (one_provider "sk-1"))
    as [st2 [reply2|]] eqn:E2; [| by vm_compute in E2].
  assert (E1' : one_provider "sk-1" = st1) by (unfold one_provider; by rewrite E1).
  assert (E2' : one_model = st2) by (unfold one_model; by rewrite E2).
  rewrite E2'. rewrite E1' in E2.
  destruct (createProviderSchema http_url (body_or_empty (Some (provider_body "sk-1")))) as [p|] eqn:Ep; [| by vm_compute in Ep].
  destruct (modelSchema (body_or_empty (Some model_body))) as [m|] eqn:Em; [| by vm_compute in Em].
  destruct (provider_goes_live (key_of Byte.x01) None http_url no_stamp one_dollar silent (provider_around Byte.x07)
    (provider_around Byte.x07) (Some (provider_body "sk-1")) (Some model_body) no_providers st1 st2 reply1 reply2 p m)
    as (i & o & _ & _ & _ & Hc); try done.
  - by intros x ?%elem_of_nil.
  - vm_compute in Ep. by injection Ep as <-.
  - vm_compute in Em. by injection Em as <-.
  - vm_compute in Ep. injection Ep as <-. vm_compute in Em. injection Em as <-. eexists. split; [exact Hc | done].
Defined.

Lemma credentials_never_shown_witness :
  let go master key := providersRoutes master None http_url no_stamp one_dollar silent (provider_around Byte.x07)
    (PostProviders (Some (provider_body key))) no_providers in
  (go (key_of Byte.x01) "sk-1"%string).2 = (go (key_of Byte.x02) "sk-two"%string).2 ∧
  providers (go (key_of Byte.x01) "sk-1"%string).1 ≠ providers (go (key_of Byte.x02) "sk-two"%string).1.
Proof.
  split; [| by vm_compute].
  apply (credentials_never_shown (key_of Byte.x01) (key_of Byte.x02) None None http_url no_stamp one_dollar silent
    (provider_around Byte.x07) (PostProviders (Some (provider_body "sk-1"))) (PostProviders (Some (provider_body "sk-two")))
    no_providers no_providers); [done | done | done |].
  right. eexists _, _. split; [by vm_compute |]. by split; [vm_compute |].
Defined.
