(* ===== verification/AdminLogs.v ===== *)
(** * The request log query ([src/routes/admin/logs.ts])

    The filters and the pagination of GET /admin/logs over the table of request
    logs, and what the pages of one query add up to. *)

From Stdlib Require Import ZArith Lia QArith String Ascii.
From stdpp Require Import base strings list.
From S2P Require Import Prelude Numerals Json Errors Types Cache Values Configuration Admin.
Open Scope Z_scope.

(** A row of [request_logs]; [created_at] is in microseconds, the numeric cost
    its numeral. *)
Record log_row := {
  lr_id : string; lr_apiKeyId : option string; lr_providerId : option string; lr_modelId : option string;
  lr_promptTokens : option Z; lr_completionTokens : option Z; lr_totalTokens : option Z; lr_costUsd : option string;
  lr_latencyMs : option Z; lr_statusCode : option Z; lr_cacheHit : bool; lr_failoverCount : Z;
  lr_errorMessage : option string; lr_createdAt : Z
}.

(** A parsed query string: every value of each parameter. *)
Definition query_string : Type := string → list string.

Record log_query := {
  q_apiKeyId : option string; q_providerId : option string; q_modelId : option string; q_statusCode : option Z;
  q_cacheHit : option bool; q_from : option Z; q_to : option Z; q_limit : Z; q_offset : Z
}.

(** A parameter that is given once; one that is repeated is an array, which no
    field of the schema accepts. *)
Definition q_opt {A} (name : string) (p : string → option A) (q : query_string) : option (option A) :=
  match q name with [] => Some None | [v] => Some <$> p v | _ => None end.
Definition q_default {A} (name : string) (p : string → option A) (d : A) (q : query_string) : option A :=
  (λ v, v ?? d) <$> q_opt name p q.

Definition s_uuid (s : string) : option string := if is_uuid s then Some s else None.
Definition s_bool (s : string) : option bool :=
  if String.eqb s "true" then Some true else if String.eqb s "false" then Some false else None.
(** [z.coerce.number().int()], between bounds. *)
Definition s_int (lo hi : option Z) (s : string) : option Z :=
  z ← integer_of (to_number s);
  guard (match lo with Some l => l <=? z | None => true end && match hi with Some h => z <=? h | None => true end = true);;
  Some z.

Section Logs.
(** As for the keys: the instant of a timestamp, in milliseconds; its text. *)
Variable datetime : string → option Z.
Variable toISOString : Z → string.
(** zod's report on the query. *)
Variable zod_issues : query_string → json.

Definition querySchema (q : query_string) : option log_query :=
  apiKeyId ← q_opt "apiKeyId" s_uuid q;
  providerId ← q_opt "providerId" s_uuid q;
  modelId ← q_opt "modelId" Some q;
  statusCode ← q_opt "statusCode" (s_int None None) q;
  cacheHit ← q_opt "cacheHit" s_bool q;
  from ← q_opt "from" datetime q;
  to ← q_opt "to" datetime q;
  limit ← q_default "limit" (s_int (Some 1) (Some 1000)) 50 q;
  offset ← q_default "offset" (s_int (Some 0) None) 0 q;
  Some {| q_apiKeyId := apiKeyId; q_providerId := providerId; q_modelId := modelId; q_statusCode := statusCode;
          q_cacheHit := cacheHit; q_from := from; q_to := to; q_limit := limit; q_offset := offset |}.

(** A condition that is present; a comparison with NULL is not true. *)
Definition holds {A} (c : option A) (p : A → bool) : bool := match c with Some a => p a | None => true end.
Definition column {A} (c : option A) (p : A → bool) : bool := match c with Some a => p a | None => false end.

(** WHERE. *)
Definition matches (q : log_query) (r : log_row) : bool :=
  holds (q_apiKeyId q) (λ v, column (lr_apiKeyId r) (String.eqb (uuid_column v))) &&
  holds (q_providerId q) (λ v, column (lr_providerId r) (String.eqb (uuid_column v))) &&
  holds (q_modelId q) (λ v, column (lr_modelId r) (String.eqb v)) &&
  holds (q_statusCode q) (λ v, column (lr_statusCode r) (Z.eqb v)) &&
  holds (q_cacheHit q) (Bool.eqb (lr_cacheHit r)) &&
  holds (q_from q) (λ v, v * 1000 <=? lr_createdAt r) &&
  holds (q_to q) (λ v, lr_createdAt r <=? v * 1000).

Definition newer (a b : log_row) : bool := lr_createdAt b <=? lr_createdAt a.

(** ORDER BY created_at DESC, rows of one instant in the order of the table. *)
Definition matching (q : log_query) (rows : list log_row) : list log_row :=
  sort_by newer (filter (λ r, matches q r = true) rows).

(** LIMIT and OFFSET, which PostgreSQL holds in 64 bits, as it does the status
    code in 32. *)
Definition fits_columns (q : log_query) : bool :=
  (q_offset q <? 2 ^ 63) && holds (q_statusCode q) (λ v, (- 2 ^ 31 <=? v) && (v <? 2 ^ 31)).
Definition out_of_range : thrown := constraint_error "value is out of range".

Definition select_logs (q : log_query) (rows : list log_row) : result thrown (list log_row) :=
  if fits_columns q then Ok (take (Z.to_nat (q_limit q)) (drop (Z.to_nat (q_offset q)) (matching q rows)))
  else Err out_of_range.

Definition log_json (r : log_row) : json :=
  JObj [("id"%string, JStr (lr_id r)); ("apiKeyId"%string, nullable (lr_apiKeyId r));
        ("providerId"%string, nullable (lr_providerId r)); ("modelId"%string, nullable (lr_modelId r));
        ("promptTokens"%string, or_null jint (lr_promptTokens r)); ("completionTokens"%string, or_null jint (lr_completionTokens r));
        ("totalTokens"%string, or_null jint (lr_totalTokens r)); ("costUsd"%string, nullable (lr_costUsd r));
        ("latencyMs"%string, or_null jint (lr_latencyMs r)); ("statusCode"%string, or_null jint (lr_statusCode r));
        ("cacheHit"%string, JBool (lr_cacheHit r)); ("failoverCount"%string, jint (lr_failoverCount r));
        ("errorMessage"%string, nullable (lr_errorMessage r)); ("createdAt"%string, JStr (toISOString (lr_createdAt r / 1000)))].

Definition invalid_query (q : query_string) : thrown :=
  TGateway (ValidationError (Some "Invalid log query parameters."%string)
    {| opt_code := None; opt_param := None; opt_retryable := None; opt_context := Some [("issues"%string, zod_issues q)] |}).

(** GET /admin/logs. *)
Definition logsRoutes (env : admin_env) (query : query_string) (rows : list log_row) : result thrown admin_reply :=
  match querySchema query with
  | None => Err (invalid_query query)
  | Some q =>
      let! rows := Admin.query env (select_logs q rows) in
      Ok {| ar_status := 200;
            ar_body := JObj [("data"%string, JArr (map log_json rows));
                             ("pagination"%string, JObj [("limit"%string, jint (q_limit q)); ("offset"%string, jint (q_offset q));
                                                         ("count"%string, jint (Z.of_nat (length rows)))])] |}
  end.
End Logs.

(** ** Lemmas *)

Lemma s_int_range lo hi s z : s_int (Some lo) (Some hi) s = Some z → lo <= z <= hi.
Proof.
  unfold s_int. intros (x & _ & H)%bind_Some. apply bind_Some in H as (Hb & _ & [= <-]). bool_props. lia.
Qed.

Lemma s_int_least lo s z : s_int (Some lo) None s = Some z → lo <= z.
Proof.
  unfold s_int. intros (x & _ & H)%bind_Some. apply bind_Some in H as (Hb & _ & [= <-]). bool_props. lia.
Qed.

Lemma q_default_range {A} name (p : string → option A) d q (P : A → Prop) a :
  (∀ s a, p s = Some a → P a) → P d → q_default name p d q = Some a → P a.
Proof.
  intros Hp Hd. unfold q_default, q_opt. destruct (q name) as [|v [|]]; [by intros [= <-] | | done].
  destruct (p v) as [b|] eqn:E; [| done]. intros [= <-]. by apply (Hp v).
Qed.

Lemma querySchema_bounds datetime q l : querySchema datetime q = Some l → 1 <= q_limit l <= 1000 ∧ 0 <= q_offset l.
Proof.
  unfold querySchema. intros H. repeat (apply bind_Some in H as (? & ? & H)). injection H as <-. cbn [q_limit q_offset]. split.
  - eapply (q_default_range "limit" _ 50 q (λ z, 1 <= z <= 1000)); [intros s a; apply s_int_range | lia | done].
  - eapply (q_default_range "offset" _ 0 q (λ z, 0 <= z)); [intros s a; apply s_int_least | lia | done].
Qed.

(** Newest first. *)
Fixpoint newest_first (l : list log_row) : Prop :=
  match l with [] => True | r :: l' => (∀ x, x ∈ l' → lr_createdAt x <= lr_createdAt r) ∧ newest_first l' end.

Lemma insert_newest r l : newest_first l → newest_first (insert_by newer r l).
Proof.
  induction l as [|y l IH]; cbn [insert_by newest_first]; [intros _; split; [by intros ? ?%elem_of_nil | done] |].
  intros [Hy Hl]. unfold newer. destruct (lr_createdAt y <=? lr_createdAt r) eqn:E; bool_props; cbn [newest_first].
  - split; [| by split]. intros x [-> | Hx]%elem_of_cons; [done |]. specialize (Hy x Hx). lia.
  - split; [| by apply IH]. intros x Hx. rewrite insert_by_perm in Hx.
    apply elem_of_cons in Hx as [-> | Hx]; [lia | by apply Hy].
Qed.

Lemma matching_newest q rows : newest_first (matching q rows).
Proof. unfold matching, sort_by. induction (filter _ rows) as [|r l IH]; [done |]. by apply insert_newest. Qed.

Lemma newest_drop n l : newest_first l → newest_first (drop n l).
Proof. revert n. induction l as [|r l IH]; intros [|n]; cbn [drop newest_first]; try done. intros [_ Hl]. by apply IH. Qed.

Lemma newest_take n l : newest_first l → newest_first (take n l).
Proof.
  revert n. induction l as [|r l IH]; intros [|n]; cbn [take newest_first]; try done. intros [Hr Hl].
  split; [| by apply IH]. intros x Hx. apply Hr. eapply subseteq_take, Hx.
Qed.

(** The query with another offset. *)
Definition at_offset (o : Z) (q : log_query) : log_query :=
  {| q_apiKeyId := q_apiKeyId q; q_providerId := q_providerId q; q_modelId := q_modelId q; q_statusCode := q_statusCode q;
     q_cacheHit := q_cacheHit q; q_from := q_from q; q_to := q_to q; q_limit := q_limit q; q_offset := o |}.

(** The pages a client walks, one after the other. *)
Fixpoint walk (q : log_query) (rows : list log_row) (n : nat) : result thrown (list log_row) :=
  match n with
  | O => Ok []
  | S n' =>
      let! before := walk q rows n' in
      let! page := select_logs (at_offset (q_limit q * Z.of_nat n') q) rows in
      Ok (before ++ page)%list
  end.

Lemma walk_take q rows n : 0 <= q_limit q → fits_columns (at_offset (q_limit q * Z.of_nat n) q) = true →
  walk q rows n = Ok (take (Z.to_nat (q_limit q) * n) (matching q rows)).
Proof.
  intros Hl. induction n as [|n IH]; intros Hf; [by rewrite Nat.mul_0_r |]. cbn [walk].
  assert (Hf' : fits_columns (at_offset (q_limit q * Z.of_nat n) q) = true).
  { unfold fits_columns in *. cbn [at_offset q_offset q_statusCode] in *. apply andb_true_iff in Hf as [Ho Hs].
    rewrite Hs, andb_true_r. bool_props. nia. }
  rewrite IH by done. cbn [res_bind]. unfold select_logs. rewrite Hf'. cbn [at_offset q_limit q_offset res_bind].
  change (matching (at_offset _ q) rows) with (matching q rows). f_equal.
  rewrite Z2Nat.inj_mul, Nat2Z.id by lia. rewrite take_take_drop. f_equal. lia.
Qed.

(** ** Theorem *)

(** The log pages are sound and complete. A query the schema accepts has a
    limit of 1 to 1000; each page holds at most that many rows, newest first,
    every one a row of the table that meets all filters given; and walking the
    pages of an unchanged table from the start, one limit at a time, until the
    matching rows are used up returns each of them exactly once, newest first. *)
Theorem log_pages datetime qs q rows n :
  querySchema datetime qs = Some q →
  fits_columns (at_offset (q_limit q * Z.of_nat n) q) = true →
  (length (matching q rows) <= Z.to_nat (q_limit q) * n)%nat →
  1 <= q_limit q <= 1000 ∧
  (∀ page, select_logs q rows = Ok page →
    Z.of_nat (length page) <= q_limit q ∧ newest_first page ∧ ∀ r, r ∈ page → r ∈ rows ∧ matches q r = true) ∧
  ∃ all, walk q rows n = Ok all ∧ all ≡ₚ filter (λ r, matches q r = true) rows ∧ newest_first all.
Proof.
  intros [Hl Ho]%querySchema_bounds Hf Hn. split; [done |]. split.
  - unfold select_logs. intros page. destruct (fits_columns q); [| done]. intros [= <-]. split_and!.
    + rewrite length_take. lia.
    + apply newest_take, newest_drop, matching_newest.
    + intros r Hr. apply subseteq_take, subseteq_drop in Hr. unfold matching in Hr. rewrite sort_by_perm in Hr.
      by apply list_elem_of_filter in Hr as [? ?].
  - exists (matching q rows). rewrite walk_take, take_ge by (lia || done). split_and!; [done | apply sort_by_perm | apply matching_newest].
Qed.

Definition blank_log (id : string) (model : string) (at_ : Z) : log_row :=
  {| lr_id := id; lr_apiKeyId := None; lr_providerId := None; lr_modelId := Some model; lr_promptTokens := None;
     lr_completionTokens := None; lr_totalTokens := None; lr_costUsd := None; lr_latencyMs := None; lr_statusCode := Some 200;
     lr_cacheHit := false; lr_failoverCount := 0; lr_errorMessage := None; lr_createdAt := at_ |}.
Definition sample_logs : list log_row :=
  [blank_log "a" "m" 10; blank_log "b" "x" 20; blank_log "c" "m" 30; blank_log "d" "m" 5].
Definition sample_query : query_string := λ name,
  if String.eqb name "modelId" then ["m"%string] else if String.eqb name "limit" then ["2"%string] else [].

Lemma log_pages_witness :
  ∃ q all, querySchema (λ _, None) sample_query = Some q ∧ walk q sample_logs 2 = Ok all ∧
    map lr_id all = ["c"; "a"; "d"]%string ∧ newest_first all.
Proof.
  destruct (querySchema (λ _, None) sample_query) as [q|] eqn:E; [| by vm_compute in E].
  destruct (log_pages (λ _, None) sample_query q sample_logs 2 E) as (_ & _ & all & Hw & _ & Hs).
  - vm_compute in E. by injection E as <-.
  - vm_compute in E. injection E as <-. vm_compute. lia.
  - exists q, all. split_and!; [done | done | | done].
    vm_compute in E. injection E as <-. vm_compute in Hw. by injection Hw as <-.
Defined.
