(* ===== verification/Seed.v ===== *)
(** * Development data ([scripts/seed-dev.ts])

    The script that seeds one provider with its models and an API key, query by
    query without a transaction, over the tables of the admin API. *)

From Stdlib Require Import ZArith Lia QArith String Ascii.
From stdpp Require Import base gmap strings list.
From S2P Require Import Prelude Redis Numerals Constants Bytes Json Errors Types Crypto Provider Registry Cache Auth Router Http HealthMonitor Admin AdminKeys AdminProviders.
Open Scope Z_scope.

(** ** Data *)

Definition seed_model (modelId displayName : string) (contextWindow maxOutputTokens : Z) (input output : string) (supports : bool) : model_row :=
  {| m_modelId := modelId; m_displayName := Some displayName; m_contextWindow := Some contextWindow;
     m_maxOutputTokens := Some maxOutputTokens; m_inputPricePer1k := Some input; m_outputPricePer1k := Some output;
     m_supportsStreaming := supports; m_supportsTools := supports; m_supportsVision := supports |}.

Definition OPENAI_MODELS : list model_row :=
  [seed_model "gpt-4o" "GPT-4o" 128000 16384 "0.002500" "0.010000" true;
   seed_model "gpt-4o-mini" "GPT-4o mini" 128000 16384 "0.000150" "0.000600" true;
   seed_model "text-embedding-3-small" "Text Embedding 3 Small" 8191 0 "0.000020" "0.000000" false].

Definition seed_name : string := "openai-primary".
Definition seed_url : string := "https://api.openai.com/v1".

(** The tables the script writes. *)
Record seed_db := { sd_providers : list provider_record; sd_models : list model_record; sd_health : health_table; sd_keys : list key_record }.

(** A run: the environment variable, the random bytes, the clock, the ids the
    database draws, and which of its queries fail. *)
Record seed_env := {
  OPENAI_API_KEY : option string; se_iv : Buffer; se_key : Buffer; se_now : Z; se_provider_id : string; se_key_id : string;
  se_model_id : nat → string; se_fails : nat → option thrown
}.

Section Seed.
Context `{Cipher}.
Variables (master : Buffer) (sha256 : Buffer → Buffer).

Definition upstreamKey (env : seed_env) : string := OPENAI_API_KEY env ?? "sk-dev-placeholder-key"%string.

Definition named (r : provider_record) : bool := String.eqb (pr_name r) seed_name.

(** [onConflictDoUpdate]: the address and the date, not the credential. *)
Definition renewed (now : Z) (r : provider_record) : provider_record :=
  {| pr_id := pr_id r; pr_name := pr_name r; pr_baseUrl := seed_url; pr_adapterType := pr_adapterType r;
     pr_encryptedApiKey := pr_encryptedApiKey r; pr_weight := pr_weight r; pr_priority := pr_priority r; pr_isActive := pr_isActive r;
     pr_healthCheckUrl := pr_healthCheckUrl r; pr_timeoutMs := pr_timeoutMs r; pr_createdAt := pr_createdAt r; pr_updatedAt := now |}.

Definition new_provider (env : seed_env) (encryptedApiKey : string) : provider_record :=
  {| pr_id := se_provider_id env; pr_name := seed_name; pr_baseUrl := seed_url; pr_adapterType := openai;
     pr_encryptedApiKey := encryptedApiKey; pr_weight := 10; pr_priority := 1; pr_isActive := true;
     pr_healthCheckUrl := Some "https://api.openai.com/v1/models"%string; pr_timeoutMs := 60000;
     pr_createdAt := se_now env; pr_updatedAt := se_now env |}.

Definition upsert_provider (env : seed_env) (d : seed_db) : seed_db * result thrown provider_record :=
  match encrypt (se_iv env) (upstreamKey env) master with
  | Err e => (d, Err e)
  | Ok enc =>
      match se_fails env 0 with
      | Some e => (d, Err e)
      | None =>
          match List.find named (sd_providers d) with
          | Some r =>
              ({| sd_providers := map (λ r, if named r then renewed (se_now env) r else r) (sd_providers d);
                  sd_models := sd_models d; sd_health := sd_health d; sd_keys := sd_keys d |}, Ok (renewed (se_now env) r))
          | None =>
              let row := new_provider env enc in
              let unknown := {| h_status := UNKNOWN; h_latencyMs := None; h_errorMessage := None; h_checkedAt := se_now env |} in
              ({| sd_providers := (sd_providers d ++ [row])%list; sd_models := sd_models d;
                  sd_health := <[pr_id row := (sd_health d !! pr_id row) ?? unknown]> (sd_health d); sd_keys := sd_keys d |}, Ok row)
          end
      end
  end.

Definition same_model (id model : string) (x : model_record) : bool :=
  String.eqb (mr_providerId x) id && String.eqb (m_modelId (mr_model x)) model.

(** The loop over the models, from query [i]. *)
Fixpoint insert_models (env : seed_env) (id : string) (i : nat) (ms : list model_row) (d : seed_db) : seed_db * result thrown unit :=
  match ms with
  | [] => (d, Ok tt)
  | m :: ms =>
      match se_fails env i with
      | Some e => (d, Err e)
      | None =>
          let row := {| mr_id := se_model_id env i; mr_providerId := id; mr_model := m; mr_isActive := true; mr_createdAt := se_now env |} in
          let l := if existsb (same_model id (m_modelId m)) (sd_models d) then sd_models d else (sd_models d ++ [row])%list in
          insert_models env id (S i) ms
            {| sd_providers := sd_providers d; sd_models := l; sd_health := sd_health d; sd_keys := sd_keys d |}
      end
  end.

Definition dev_key : string := "dev-key".
Definition is_dev_key (r : key_record) : bool := bool_decide (k_name (kr_row r) = Some dev_key).

(** The sample key; what is printed, if it is created. *)
Definition create_dev_key (env : seed_env) (d : seed_db) : seed_db * result thrown (option string) :=
  match se_fails env 4 with
  | Some e => (d, Err e)
  | None =>
      match List.find is_dev_key (sd_keys d) with
      | Some _ => (d, Ok None)
      | None =>
          let '(raw, hash) := generateApiKey sha256 (se_key env) in
          match se_fails env 5 with
          | Some e => (d, Err e)
          | None =>
              if existsb (λ r, String.eqb (k_keyHash (kr_row r)) hash) (sd_keys d) then (d, Err (duplicate "api_keys_key_hash_unique"))
              else
                let row := {| kr_row := {| k_id := se_key_id env; k_keyHash := hash; k_ownerId := None; k_name := Some dev_key;
                                           k_rpmLimit := 600; k_tpmLimit := 1000000; k_monthlyBudgetUsd := Some "100.0000"%string;
                                           k_allowedModels := None; k_isActive := true; k_expiresAt := None |};
                              kr_createdAt := se_now env; kr_updatedAt := se_now env |} in
                ({| sd_providers := sd_providers d; sd_models := sd_models d; sd_health := sd_health d; sd_keys := (sd_keys d ++ [row])%list |},
                 Ok (Some raw))
          end
      end
  end.

Definition seed (env : seed_env) (d : seed_db) : seed_db * result thrown (option string) :=
  match upsert_provider env d with
  | (d, Err e) => (d, Err e)
  | (d, Ok provider) =>
      match insert_models env (pr_id provider) 1 OPENAI_MODELS d with
      | (d, Err e) => (d, Err e)
      | (d, Ok _) => create_dev_key env d
      end
  end.
End Seed.

(** ** What a run leaves *)

(** A row without its date of change. *)
Definition undated (r : provider_record) : provider_record :=
  {| pr_id := pr_id r; pr_name := pr_name r; pr_baseUrl := pr_baseUrl r; pr_adapterType := pr_adapterType r;
     pr_encryptedApiKey := pr_encryptedApiKey r; pr_weight := pr_weight r; pr_priority := pr_priority r; pr_isActive := pr_isActive r;
     pr_healthCheckUrl := pr_healthCheckUrl r; pr_timeoutMs := pr_timeoutMs r; pr_createdAt := pr_createdAt r; pr_updatedAt := 0 |}.

(** The seeded provider, all its models, and the key are there. *)
Definition seeded (d : seed_db) : Prop :=
  (∃ p, List.find named (sd_providers d) = Some p ∧ pr_baseUrl p = seed_url ∧
     Forall (λ m, existsb (same_model (pr_id p) (m_modelId m)) (sd_models d) = true) OPENAI_MODELS) ∧
  is_Some (List.find is_dev_key (sd_keys d)).

(** Rows that were there are there, but for the address of the seeded provider. *)
Definition keeps_rows (d d' : seed_db) : Prop :=
  (∀ r, r ∈ sd_providers d → named r = false → r ∈ sd_providers d') ∧
  (∃ l, sd_models d' = sd_models d ++ l)%list ∧ (∃ l, sd_keys d' = sd_keys d ++ l)%list.

Lemma keeps_rows_refl d : keeps_rows d d.
Proof. split; [done |]. split; exists []; by rewrite app_nil_r. Qed.
Lemma keeps_rows_trans d1 d2 d3 : keeps_rows d1 d2 → keeps_rows d2 d3 → keeps_rows d1 d3.
Proof.
  intros (P1 & [m1 M1] & [k1 K1]) (P2 & [m2 M2] & [k2 K2]). split; [intros r Hr Hn; apply P2; [by apply P1 | done] |].
  split; eexists; [rewrite M2, M1, <- app_assoc | rewrite K2, K1, <- app_assoc]; done.
Qed.

Definition names_unique (d : seed_db) : Prop := NoDup (map pr_name (sd_providers d)).

Lemma find_renewed now l :
  List.find named (map (λ r, if named r then renewed now r else r) l) = renewed now <$> List.find named l.
Proof.
  induction l as [|r l IH]; [done |]. cbn [map List.find]. destruct (named r) eqn:E; [by change (named (renewed now r)) with (named r); rewrite E | by rewrite E].
Qed.
Lemma renewed_names now l : map pr_name (map (λ r, if named r then renewed now r else r) l) = map pr_name l.
Proof. induction l as [|r l IH]; [done |]. cbn [map]. rewrite IH. by destruct (named r). Qed.
Lemma find_snoc {A} (f : A → bool) l x : List.find f l = None → f x = true → List.find f (l ++ [x]) = Some x.
Proof. intros Hl Hx. induction l as [|y l IH]; cbn in *; [by rewrite Hx |]. destruct (f y); [done | by apply IH]. Qed.
Lemma existsb_snoc {A} (f : A → bool) l l' : existsb f l = true → existsb f (l ++ l') = true.
Proof. intros H. by rewrite existsb_app, H. Qed.

Ltac unchanged := split; [apply keeps_rows_refl | by split_and!].

Section Runs.
Context `{Cipher}.
Variables (master : Buffer) (sha256 : Buffer → Buffer).

(** The upsert: the provider it returns is the one of that name. *)
Lemma upsert_run env d : names_unique d → let x := upsert_provider master env d in
  keeps_rows d x.1 ∧ names_unique x.1 ∧ sd_models x.1 = sd_models d ∧ sd_keys x.1 = sd_keys d ∧
  match x.2 with Ok p => List.find named (sd_providers x.1) = Some p ∧ pr_baseUrl p = seed_url | Err _ => x.1 = d end.
Proof using.
  intros Hu. cbv zeta. unfold upsert_provider.
  destruct (encrypt _ _ _) as [enc|e]; [| unchanged].
  destruct (se_fails env 0) as [e|]; [unchanged |].
  destruct (List.find named (sd_providers d)) as [r|] eqn:Ef; cbn [fst snd sd_providers sd_models sd_keys].
  - split_and!; try done.
    + split; [| split; exists []; by rewrite app_nil_r]. intros x Hx Hn. apply list_elem_of_fmap. exists x. by rewrite Hn.
    + unfold names_unique. cbn [sd_providers]. by rewrite renewed_names.
    + by rewrite find_renewed, Ef.
  - split_and!; try done.
    + split; [intros x Hx _; apply elem_of_app; by left | split; exists []; by rewrite app_nil_r].
    + unfold names_unique. cbn [sd_providers]. rewrite map_app. apply NoDup_app. split; [done |]. split; [| apply NoDup_singleton].
      intros n Hn ->%list_elem_of_singleton. apply list_elem_of_fmap in Hn as (x & E & Hx). apply list_elem_of_In in Hx.
      pose proof (find_none _ _ Ef x Hx) as Hf. unfold named in Hf. by rewrite <- E, String.eqb_refl in Hf.
    + by apply find_snoc.
Qed.

Lemma models_run env id ms : ∀ i d, let x := insert_models env id i ms d in
  sd_providers x.1 = sd_providers d ∧ sd_keys x.1 = sd_keys d ∧ sd_health x.1 = sd_health d ∧ (∃ l, sd_models x.1 = sd_models d ++ l)%list ∧
  (x.2 = Ok tt → Forall (λ m, existsb (same_model id (m_modelId m)) (sd_models x.1) = true) ms).
Proof using.
  induction ms as [|m ms IH]; intros i d; cbv zeta; cbn [insert_models]; [split_and!; try done; exists []; by rewrite app_nil_r |].
  destruct (se_fails env i) as [e|]; [split_and!; try done; exists []; by rewrite app_nil_r |]. cbv zeta.
  set (row := {| mr_id := _ |}). set (l := if existsb _ _ then _ else _).
  assert (Hl : existsb (same_model id (m_modelId m)) l = true ∧ ∃ l', l = (sd_models d ++ l')%list).
  { unfold l. destruct (existsb _ (sd_models d)) eqn:E; [split; [done | exists []; by rewrite app_nil_r] |]. split; [| by eexists].
    rewrite existsb_app. cbn. unfold same_model at 2. cbn. by rewrite !String.eqb_refl, orb_true_r. }
  destruct Hl as [Hm [l' El]]. destruct (IH (S i) {| sd_providers := sd_providers d; sd_models := l; sd_health := sd_health d; sd_keys := sd_keys d |})
    as (Hp & Hk & Hh & [l2 El2] & Hf). cbn [sd_models] in El2. split_and!; [done | done | done | exists (l' ++ l2)%list; by rewrite El2, El, app_assoc |].
  intros Hok. constructor; [| by apply Hf]. rewrite El2. by apply existsb_snoc.
Qed.

(** Nothing is inserted for models that are there. *)
Lemma models_there env id ms : (∀ i, se_fails env i = None) → ∀ i d,
  Forall (λ m, existsb (same_model id (m_modelId m)) (sd_models d) = true) ms → insert_models env id i ms d = (d, Ok tt).
Proof using.
  intros Hn i d Hf. revert i. induction Hf as [|m ms Hm _ IH]; intros i; cbn [insert_models]; [done |].
  rewrite Hn, Hm. destruct d; apply IH.
Qed.

Lemma key_run env d : let x := create_dev_key sha256 env d in
  keeps_rows d x.1 ∧ sd_providers x.1 = sd_providers d ∧ sd_models x.1 = sd_models d ∧
  match x.2 with
  | Ok raw => is_Some (List.find is_dev_key (sd_keys x.1)) ∧ (raw = None ↔ is_Some (List.find is_dev_key (sd_keys d)))
  | Err _ => x.1 = d
  end.
Proof using.
  cbv zeta. unfold create_dev_key. destruct (se_fails env 4) as [e|]; [unchanged |].
  destruct (List.find is_dev_key (sd_keys d)) as [r|] eqn:Ef; [split; [apply keeps_rows_refl |]; cbn; rewrite Ef; by split_and! |].
  unfold generateApiKey. destruct (se_fails env 5) as [e|]; [unchanged |].
  destruct (existsb _ _); [unchanged |]. cbn [fst snd sd_providers sd_models sd_keys]. split; [| split; [done | split; [done |]]].
  - split; [done |]. split; [exists []; by rewrite app_nil_r | by eexists].
  - rewrite find_snoc by done. split; [by eexists |]. split; [done |]. by intros [? ?].
Qed.

Lemma seed_run env d : names_unique d → let x := seed master sha256 env d in
  keeps_rows d x.1 ∧ names_unique x.1 ∧
  match x.2 with Ok raw => seeded x.1 ∧ (raw = None ↔ is_Some (List.find is_dev_key (sd_keys d))) | Err _ => True end.
Proof using.
  intros Hu. cbv zeta. unfold seed. pose proof (upsert_run env d Hu) as (K1 & U1 & M1 & E1 & R1).
  destruct (upsert_provider master env d) as [d1 [p|e]]; cbn [fst snd] in *; [| done]. destruct R1 as [Hp Hurl].
  pose proof (models_run env (pr_id p) OPENAI_MODELS 1 d1) as (P2 & E2 & _ & [l2 M2] & F2).
  destruct (insert_models env (pr_id p) 1 OPENAI_MODELS d1) as [d2 [[]|e]]; cbn [fst snd] in *.
  2: { split; [| split; [unfold names_unique; by rewrite P2 | done]]. apply (keeps_rows_trans d d1); [done |].
       split; [intros r Hr _; by rewrite P2 |]. split; [by exists l2 | exists []; by rewrite E2, app_nil_r]. }
  assert (K2 : keeps_rows d d2).
  { apply (keeps_rows_trans d d1); [done |]. split; [intros r Hr _; by rewrite P2 |]. split; [by exists l2 | exists []; by rewrite E2, app_nil_r]. }
  pose proof (key_run env d2) as (K3 & P3 & M3 & R3). destruct (create_dev_key sha256 env d2) as [d3 [raw|e]]; cbn [fst snd] in *;
    (split; [by apply (keeps_rows_trans d d2) | split; [unfold names_unique; by rewrite P3, P2 |]]); try done.
  rewrite E2, E1 in R3. destruct R3 as [Hd Hr]. split; [| done]. split; [| done].
  exists p. rewrite P3, P2, M3. split_and!; [done | done | by apply F2].
Qed.

(** A run over seeded tables. *)
Lemma seed_again env d p : names_unique d → seeded d → assertKeyLength master = Ok p → (∀ i, se_fails env i = None) →
  ∃ d2, seed master sha256 env d = (d2, Ok None) ∧ map undated (sd_providers d2) = map undated (sd_providers d) ∧
    sd_models d2 = sd_models d ∧ sd_health d2 = sd_health d ∧ sd_keys d2 = sd_keys d.
Proof using.
  intros Hu [(r & Hr & Hurl & Hm) [k Hk]] Hlen Hn. unfold seed, upsert_provider, encrypt. rewrite Hlen. cbn [res_bind].
  destruct (seal _ _ _) as [ct tag]. rewrite Hn, Hr. cbn [fst snd].
  rewrite models_there; [| done | exact Hm]. unfold create_dev_key. rewrite Hn. cbn [sd_keys]. rewrite Hk.
  eexists. split; [done |]. cbn [sd_providers sd_models sd_health sd_keys]. split_and!; try done.
  rewrite map_map. apply map_ext_in. intros x Hx%list_elem_of_In. destruct (named x) eqn:En; [| done].
  pose proof (find_some _ _ Hr) as [Hin%list_elem_of_In Hnr].
  assert (x = r) as ->.
  { apply (nodup_key pr_name (sd_providers d)); [done | done | done |]. unfold named in *. apply String.eqb_eq in En, Hnr. congruence. }
  unfold undated. cbn. by rewrite Hurl.
Qed.
End Runs.

(** ** Theorem *)

(** The seed is repeatable. However far a run gets, it removes and changes no
    row but the address of the provider of its own name, so an interrupted run
    can be run again; a run that ends well leaves the provider, all its models
    and the development key in place, and prints a key exactly when there was
    none; and any later undisturbed run changes nothing but that provider's date
    of change, and prints no key. *)
Theorem seed_repeatable `{Cipher} master sha256 env d : names_unique d →
  let '(d', r) := seed master sha256 env d in
  keeps_rows d d' ∧ names_unique d' ∧
  match r with
  | Err _ => True
  | Ok raw => seeded d' ∧ (raw = None ↔ is_Some (List.find is_dev_key (sd_keys d))) ∧
      ∀ env', (∀ i, se_fails env' i = None) → ∃ d2, seed master sha256 env' d' = (d2, Ok None) ∧
        map undated (sd_providers d2) = map undated (sd_providers d') ∧ sd_models d2 = sd_models d' ∧
        sd_health d2 = sd_health d' ∧ sd_keys d2 = sd_keys d'
  end.
Proof.
  intros Hu. pose proof (seed_run master sha256 env d Hu) as (Hk & Hn & Hr). destruct (seed master sha256 env d) as [d' [raw|e]] eqn:E; [| done].
  cbn [fst snd] in *. destruct Hr as [Hs Hraw]. do 4 (split; [done |]). intros env' He.
  destruct (assertKeyLength master) as [p|e] eqn:El; [by apply (seed_again master sha256 env' d' p) |].
  unfold seed, upsert_provider, encrypt in E. by rewrite El in E.
Qed.

(** ** A seeded gateway *)

Lemma none_there id m l : (∀ x, x ∈ l → mr_providerId x ≠ id) → existsb (same_model id m) l = false.
Proof.
  intros H. apply not_true_iff_false. intros (x & Hx%list_elem_of_In & Hb)%existsb_exists. apply andb_true_iff in Hb as [E%String.eqb_eq _].
  by apply (H x).
Qed.

(** The rows of the models of a new provider. *)
Definition new_models (env : seed_env) : list model_record :=
  imap (λ i m, {| mr_id := se_model_id env (S i); mr_providerId := se_provider_id env; mr_model := m; mr_isActive := true; mr_createdAt := se_now env |})
    OPENAI_MODELS.

Definition fresh_model (env : seed_env) (id : string) (i : nat) (m : model_row) : model_record :=
  {| mr_id := se_model_id env i; mr_providerId := id; mr_model := m; mr_isActive := true; mr_createdAt := se_now env |}.

Lemma insert_new env id i m ms d d' : existsb (same_model id (m_modelId m)) (sd_models d) = false →
  insert_models env id i (m :: ms) d = (d', Ok tt) →
  insert_models env id (S i) ms {| sd_providers := sd_providers d; sd_models := (sd_models d ++ [fresh_model env id i m])%list;
                                   sd_health := sd_health d; sd_keys := sd_keys d |} = (d', Ok tt).
Proof. intros He. cbn [insert_models]. rewrite He. by destruct (se_fails env i). Qed.

Lemma still_none id m m' l env i : existsb (same_model id m) l = false → m_modelId m' ≠ m →
  existsb (same_model id m) (l ++ [fresh_model env id i m']) = false.
Proof.
  intros Hl Hm. rewrite existsb_app, Hl. cbn [existsb orb]. rewrite orb_false_r. apply andb_false_iff. right. by apply String.eqb_neq.
Qed.

Lemma models_new env d d' : (∀ x, x ∈ sd_models d → mr_providerId x ≠ se_provider_id env) →
  insert_models env (se_provider_id env) 1 OPENAI_MODELS d = (d', Ok tt) →
  d' = {| sd_providers := sd_providers d; sd_models := (sd_models d ++ new_models env)%list; sd_health := sd_health d; sd_keys := sd_keys d |}.
Proof.
  intros Hn. pose proof (λ m, none_there _ m _ Hn) as Hf.
  intros E%insert_new; [| apply Hf]. apply insert_new in E; [| apply still_none; [apply Hf | done]].
  apply insert_new in E; [| apply still_none; [apply still_none; [apply Hf | done] | done]].
  injection E as <-. cbn [sd_providers sd_models sd_health sd_keys]. by rewrite <- !app_assoc.
Qed.

Lemma models_of_new env l : (∀ x, x ∈ l → mr_providerId x ≠ se_provider_id env) →
  models_of (se_provider_id env) (l ++ new_models env) = new_models env.
Proof.
  intros Hn. unfold models_of. rewrite filter_app.
  assert (E : filter (λ m, mr_providerId m = se_provider_id env) l = []).
  { induction l as [|x l IH]; [done |]. rewrite filter_cons_False by (apply Hn; by left). apply IH. intros y Hy. apply Hn. by right. }
  rewrite E. unfold new_models, OPENAI_MODELS. cbn [imap]. by rewrite !filter_cons_True.
Qed.

(** The seed makes a gateway that works. On tables without the provider and the
    development key, a run that ends well prints a key that authenticates with
    the seeded limits and budget, and the registry that loads the tables offers,
    for each seeded model, the provider at OpenAI's address with the upstream
    key of the environment (or the placeholder), which the tables hold encrypted. *)
Theorem seed_serves `{LawfulCipher} master previous sha256 JSON_parse prefix ttl env d d' printed f1 f2 f3 t s :
  length master = MASTER_KEY_BYTES → length (se_iv env) = IV_BYTES →
  List.find named (sd_providers d) = None → List.find is_dev_key (sd_keys d) = None →
  (∀ x, x ∈ sd_models d → mr_providerId x ≠ se_provider_id env) →
  seed master sha256 env d = (d', Ok printed) →
  (∃ raw, printed = Some raw ∧
    (look_val t s (redisKeys.authKey prefix (hashApiKey sha256 raw)) = None →
     (authenticateKey (hashApiKey sha256) JSON_parse prefix ttl f1 f2 f3 (Ok (map kr_row (sd_keys d'))) raw t s).2 =
       Ok {| apiKeyId := se_key_id env; ownerId := None; ctx_name := Some dev_key; rpmLimit := 600; tpmLimit := 1000000;
             monthlyBudgetUsd := parse_decimal "100.0000"; allowedModels := None; expiresAtMs := None |})) ∧
  ∀ health reg, let st := {| providers := sd_providers d'; provider_models := sd_models d'; health := health; reg := reg |} in
    Forall (λ m, let r := resolveCandidates (load_rows (credential master previous) (active_rows st)) (m_modelId m) in
      canonicalModel r = m_modelId m ∧ ∃ c, c ∈ candidates r ∧ c_model c = model_info m ∧ p_name (c_provider c) = seed_name ∧
        baseUrl (c_provider c) = seed_url ∧ p_apiKey (c_provider c) = upstreamKey env) OPENAI_MODELS.
Proof.
  intros Hm Hi Hp Hk Hn. unfold seed, upsert_provider. destruct (encrypt _ _ _) as [enc|e] eqn:Ee; [| done].
  destruct (se_fails env 0); [done |]. rewrite Hp. cbn [pr_id new_provider]. set (row := new_provider env enc).
  destruct (insert_models _ _ _ _ _) as [d1 [[]|e]] eqn:Em; [| done]. apply models_new in Em; [| exact Hn]. subst d1.
  cbn [sd_providers sd_models sd_health sd_keys]. unfold create_dev_key. destruct (se_fails env 4); [done |]. cbn [sd_keys]. rewrite Hk.
  unfold generateApiKey. set (raw := ("gw-" ++ _)%string). destruct (se_fails env 5); [done |].
  destruct (existsb _ _) eqn:Ex; [done |]. intros [= <- <-]. cbn [sd_providers sd_models sd_health sd_keys]. split.
  - exists raw. split; [done |]. intros Hc. rewrite map_app. cbn [map kr_row].
    erewrite uncached_auth; [| exact Hc | | by apply elem_of_app; right; left | done]; [done |].
    intros x [Hin | ->%list_elem_of_singleton]%elem_of_app Hxh; [| done].
    apply list_elem_of_fmap in Hin as (y & -> & Hy). apply not_true_iff_false in Ex. exfalso. apply Ex, existsb_exists. exists y.
    split; [by apply list_elem_of_In | by rewrite Hxh, String.eqb_refl].
  - intros health reg. cbv zeta. set (st := {| providers := _ |}).
    assert (Hl : loads (credential master previous) (active_rows st) (row_provider (active_row (provider_models st) row) (upstreamKey env))).
    { apply active_loads; [apply elem_of_app; right; by left | done | by eapply credential_own]. }
    assert (Hr : models (row_provider (active_row (provider_models st) row) (upstreamKey env)) =
      map (λ m, (m_modelId m, model_info m)) OPENAI_MODELS).
    { unfold row_provider, row_infos, active_row. cbn [models row_models provider_models st pr_id row new_provider].
      rewrite models_of_new by done. reflexivity. }
    apply list.Forall_forall. intros m Hin. destruct (loads_candidate (credential master previous) _ _ (m_modelId m) (model_info m) Hl) as [Hc Hcand].
    { rewrite Hr. apply list_elem_of_fmap. by exists m. }
    split; [exact Hc |]. eexists. split; [exact Hcand | done].
Qed.

(** An empty database, seeded once, interrupted once before. *)
Definition empty_db : seed_db := {| sd_providers := []; sd_models := []; sd_health := ∅; sd_keys := [] |}.
Definition sample_seed (fails : nat → option thrown) : seed_env := {|
  OPENAI_API_KEY := Some "sk-live"%string; se_iv := iv_of Byte.x07; se_key := [Byte.x01; Byte.x02]; se_now := 1000;
  se_provider_id := "p-1"; se_key_id := "k-1"; se_model_id i := dec (Z.of_nat i); se_fails := fails |}.
Definition third_query_fails (i : nat) : option thrown := if (i =? 2)%nat then Some (TError "Error" "connection lost" []) else None.
Definition interrupted : seed_db := (seed (key_of Byte.x01) (λ b, b) (sample_seed third_query_fails) empty_db).1.

Lemma seed_repeatable_witness :
  length (sd_models interrupted) = 1%nat ∧
  let d := (seed (key_of Byte.x01) (λ b, b) (sample_seed (λ _, None)) interrupted).1 in
  length (sd_models d) = 3%nat ∧ length (sd_providers d) = 1%nat ∧ seeded d.
Proof.
  split; [by vm_compute |]. cbv zeta. split; [by vm_compute |]. split; [by vm_compute |].
  assert (Hu : names_unique interrupted) by (apply NoDup_singleton).
  pose proof (seed_repeatable (key_of Byte.x01) (λ b, b) (sample_seed (λ _, None)) interrupted Hu) as H.
  destruct (seed _ _ (sample_seed (λ _, None)) interrupted) as [d r] eqn:E. destruct H as (_ & _ & H).
  assert (Hr : ∃ raw, r = Ok raw) by (vm_compute in E; injection E as _ <-; by eexists). destruct Hr as [raw ->]. exact (proj1 H).
Defined.
