(* ===== verification/KeyRotation.v ===== *)
(** * Rotation of the master key ([scripts/rotate-encryption-key.ts])

    The script that re-encrypts every stored credential in one transaction, and
    the zero-downtime procedure of its header as a state machine over a fleet of
    replicas that keep serving and keep accepting changes meanwhile. *)

From Stdlib Require Import ZArith Lia QArith String Ascii.
From stdpp Require Import base strings list relations.
From S2P Require Import Prelude Redis Bytes Json Errors Types Crypto Provider Registry Values Configuration Admin AdminProviders.
Open Scope Z_scope.

(** ** The script *)

(** What happens around the script: the IVs and database errors of the rows in
    turn, the error of the query, the fate of the commit, the clock. *)
Record rotation_env := {
  r_iv : nat → Buffer; r_update : nat → option thrown; r_select : option thrown; r_commit : fault; r_clock : Z
}.

Definition with_envelope (now : Z) (envelope : string) (r : provider_record) : provider_record :=
  {| pr_id := pr_id r; pr_name := pr_name r; pr_baseUrl := pr_baseUrl r; pr_adapterType := pr_adapterType r;
     pr_encryptedApiKey := envelope; pr_weight := pr_weight r; pr_priority := pr_priority r; pr_isActive := pr_isActive r;
     pr_healthCheckUrl := pr_healthCheckUrl r; pr_timeoutMs := pr_timeoutMs r; pr_createdAt := pr_createdAt r;
     pr_updatedAt := now |}.

Definition no_new_key : thrown := TError "Error" "NEW_ENCRYPTION_KEY must be a 32-byte key as 64 hex chars." [].
Definition commit_lost : thrown := TError "Error" "Connection terminated unexpectedly" [].

Section Rotate.
Context `{Cipher}.
Variables (master : Buffer) (previous : option Buffer).

(** The loop over the locked rows, from the [i]-th. *)
Fixpoint rotate_rows (env : rotation_env) (newKey : Buffer) (i : nat) (rows : list provider_record)
    : result thrown (list provider_record) :=
  match rows with
  | [] => Ok []
  | row :: rows' =>
      let! plaintext := credential master previous (pr_encryptedApiKey row) in
      let! reEncrypted := encrypt (r_iv env i) plaintext newKey in
      match r_update env i with
      | Some e => Err e
      | None =>
          let! rest := rotate_rows env newKey (S i) rows' in
          Ok (with_envelope (r_clock env) reEncrypted row :: rest)
      end
  end.

(** [db.transaction]: what throws inside rolls everything back; a commit whose
    reply is lost has happened. *)
Definition rotate (env : rotation_env) (NEW_ENCRYPTION_KEY : option string) (rows : list provider_record)
    : list provider_record * result thrown Z :=
  match NEW_ENCRYPTION_KEY with
  | Some newKeyHex =>
      if hex64 newKeyHex then
        match (match r_select env with Some e => Err e | None => rotate_rows env (of_hex newKeyHex) 0 rows end) with
        | Ok rows' =>
            match r_commit env with
            | Up => (rows', Ok (Z.of_nat (length rows')))
            | Lost => (rows', Err commit_lost)
            | Down => (rows, Err commit_lost)
            end
        | Err e => (rows, Err e)
        end
      else (rows, Err no_new_key)
  | None => (rows, Err no_new_key)
  end.
End Rotate.

(** ** Lemmas *)

Section Facts.
Context `{C : Cipher} `{L : !LawfulCipher}.

(** The row's credential is [s], sealed under [key]. *)
Definition under (key : Buffer) (row : provider_record) (s : string) : Prop :=
  ∃ iv, length iv = IV_BYTES ∧ pr_encryptedApiKey row = envelope key iv s.

(** Same row, whatever its envelope and its time of update. *)
Definition same_settings (r r' : provider_record) : Prop :=
  with_envelope 0 "" r = with_envelope 0 "" r'.

Lemma of_hex_length s : hex64 s = true → length (of_hex s) = MASTER_KEY_BYTES.
Proof using.
  unfold hex64. intros [Hl Hd]%andb_true_iff. apply Nat.eqb_eq in Hl.
  assert (Hgen : ∀ n u, String.length u = (2 * n)%nat → forallb is_hex_digit (list_ascii_of_string u) = true → length (of_hex u) = n).
  { clear. induction n as [|n IH]; intros u Hl Hd; [by destruct u |].
    destruct u as [|a [|b u]]; simpl in Hl; try lia. simpl in Hd. apply andb_true_iff in Hd as [Ha Hd].
    apply andb_true_iff in Hd as [Hb Hd]. unfold is_hex_digit in Ha, Hb. cbn [of_hex].
    destruct (hex_rank a), (hex_rank b); try done. cbn. f_equal. apply IH; [lia | done]. }
  by apply (Hgen 32%nat).
Qed.

Lemma under_own key previous row s : length key = MASTER_KEY_BYTES → under key row s →
  credential key previous (pr_encryptedApiKey row) = Ok s.
Proof using L.
  intros Hk (iv & Hi & ->). unfold credential, decrypt, decryptWithKeys. cbn [decrypt_loop]. by rewrite decrypt_own.
Qed.

(** Rotation of rows whose credentials are known. *)
Lemma rotate_rows_ok master previous env newKey i rows rows' : length newKey = MASTER_KEY_BYTES →
  (∀ j, length (r_iv env j) = IV_BYTES) → rotate_rows master previous env newKey i rows = Ok rows' →
  Forall2 (λ r r', same_settings r r' ∧ ∃ s, credential master previous (pr_encryptedApiKey r) = Ok s ∧ under newKey r' s) rows rows'.
Proof using.
  intros Hk Hi. revert i rows'. induction rows as [|r rows IH]; intros i rows'; cbn [rotate_rows]; [by intros [= <-] |].
  destruct (credential master previous (pr_encryptedApiKey r)) as [s|] eqn:Es; [| done]. cbn [res_bind].
  rewrite encrypt_envelope by done. cbn [res_bind]. destruct (r_update env i); [done |].
  destruct (rotate_rows _ _ _ _ _ rows) as [rest|] eqn:Er; [| done]. cbn [res_bind]. intros [= <-].
  constructor; [| by apply (IH (S i))]. split; [done |]. exists s. split; [done |]. by exists (r_iv env i).
Qed.

Lemma rotate_rows_total master previous env newKey i rows : length newKey = MASTER_KEY_BYTES →
  (∀ j, r_update env j = None) → Forall (λ r, ∃ s, credential master previous (pr_encryptedApiKey r) = Ok s) rows →
  ∃ rows', rotate_rows master previous env newKey i rows = Ok rows'.
Proof using.
  intros Hk Hu Hr. revert i. induction Hr as [|r rows [s Hs] _ IH]; intros i; cbn [rotate_rows]; [by eexists |].
  rewrite Hs. cbn [res_bind]. rewrite encrypt_envelope by done. cbn [res_bind]. rewrite Hu.
  destruct (IH (S i)) as [rows' ->]. cbn [res_bind]. by eexists.
Qed.
End Facts.

(** ** The script *)

(** Rotation is all or nothing and loses no credential. Whatever fails, the
    table is either untouched or wholly rotated: row by row the same settings,
    and the same credential, now readable under the new key alone. It reports
    success only when it rotated every row; and with the database up and every
    credential readable it does succeed, while one unreadable credential leaves
    the table untouched. *)
Theorem rotation_atomic `{LawfulCipher} master previous env newKeyHex rows :
  hex64 newKeyHex = true → (∀ j, length (r_iv env j) = IV_BYTES) →
  let x := rotate master previous env (Some newKeyHex) rows in
  let readable r := ∃ s, credential master previous (pr_encryptedApiKey r) = Ok s in
  let rotated := Forall2 (λ r r', same_settings r r' ∧ ∃ s, credential master previous (pr_encryptedApiKey r) = Ok s ∧
                            credential (of_hex newKeyHex) None (pr_encryptedApiKey r') = Ok s) rows x.1 in
  (x.1 = rows ∨ rotated) ∧
  (∀ n, x.2 = Ok n → rotated ∧ n = Z.of_nat (length rows)) ∧
  ((∀ j, r_update env j = None) → r_select env = None → r_commit env = Up → Forall readable rows →
   x.2 = Ok (Z.of_nat (length rows))) ∧
  (Exists (λ r, ¬ readable r) rows → x.1 = rows ∧ ∃ e, x.2 = Err e).
Proof.
  intros Hh Hi x readable rotated. pose proof (of_hex_length _ Hh) as Hk.
  assert (Hrot : ∀ rows', rotate_rows master previous env (of_hex newKeyHex) 0 rows = Ok rows' →
    Forall2 (λ r r', same_settings r r' ∧ ∃ s, credential master previous (pr_encryptedApiKey r) = Ok s ∧
               credential (of_hex newKeyHex) None (pr_encryptedApiKey r') = Ok s) rows rows').
  { intros rows' E. eapply Forall2_impl; [by eapply rotate_rows_ok |]. intros r r' [Hs (s & Hc & Hu)].
    split; [done |]. exists s. split; [done | by apply under_own]. }
  unfold rotated, x, rotate. rewrite Hh. destruct (r_select env) as [e|].
  { split_and!; [by left | done | done |]. intros _. split; [done | by eexists]. }
  destruct (rotate_rows master previous env (of_hex newKeyHex) 0 rows) as [rows'|e] eqn:Er.
  - specialize (Hrot rows' eq_refl). pose proof (Forall2_length _ _ _ Hrot) as Hl. split_and!.
    + destruct (r_commit env); [by right | by left | by right].
    + destruct (r_commit env); try done. intros n [= <-]. by rewrite Hl.
    + intros _ _ -> _. by rewrite Hl.
    + intros (r & Hr & Hno)%Exists_exists. apply list_elem_of_lookup in Hr as [i Hr].
      destruct (Forall2_lookup_l _ _ _ _ _ Hrot Hr) as (r' & _ & _ & s & Hs & _). destruct Hno. by exists s.
  - split_and!; [by left | done | | intros _; split; [done | by eexists]].
    intros Hu _ _ Hr. destruct (rotate_rows_total master previous env (of_hex newKeyHex) 0 rows Hk Hu Hr) as [? ?]. congruence.
Qed.

(** ** The procedure *)

(** Rolling the gateway to the two keys; all replicas there, and the script run;
    rolling it to the new key alone. *)
Inductive stage := RollIn | Rotatable | RollOut.

(** The keys of each replica, the table, and the credential each row was given. *)
Record fleet := { at_stage : stage; replicas : list (Buffer * option Buffer); table : list provider_record; secrets : list string }.

Section Procedure.
Context `{C : Cipher}.
Variables (OLD : Buffer) (new_hex : string).
Abbreviation NEW := (of_hex new_hex).

Definition before : Buffer * option Buffer := (OLD, None).
Definition between : Buffer * option Buffer := (NEW, Some OLD).
Definition after : Buffer * option Buffer := (NEW, None).

(** One event. A replica with [keys] stores a credential by [encrypt] under its
    current key, for a new row or an existing one. In a [quiet] roll-in only the
    replicas still on the old key do so while the gateway is rolled in. *)
Variable quiet : bool.
Inductive event : fleet → fleet → Prop :=
| roll_in i f : at_stage f = RollIn → replicas f !! i = Some before →
    event f {| at_stage := RollIn; replicas := <[i := between]> (replicas f); table := table f; secrets := secrets f |}
| rolled_in f : at_stage f = RollIn → Forall (eq between) (replicas f) →
    event f {| at_stage := Rotatable; replicas := replicas f; table := table f; secrets := secrets f |}
| rotated env f : at_stage f = Rotatable → (∀ j, length (r_iv env j) = IV_BYTES) →
    let x := rotate NEW (Some OLD) env (Some new_hex) (table f) in
    event f {| at_stage := match x.2 with Ok _ => RollOut | Err _ => Rotatable end; replicas := replicas f; table := x.1;
               secrets := secrets f |}
| roll_out i f : at_stage f = RollOut → replicas f !! i = Some between →
    event f {| at_stage := RollOut; replicas := <[i := after]> (replicas f); table := table f; secrets := secrets f |}
| created keys iv row s f : keys ∈ replicas f → (quiet = true → at_stage f = RollIn → keys = before) → length iv = IV_BYTES →
    encrypt iv s keys.1 = Ok (pr_encryptedApiKey row) →
    event f {| at_stage := at_stage f; replicas := replicas f; table := table f ++ [row]; secrets := secrets f ++ [s] |}
| replaced keys iv j row s f : keys ∈ replicas f → (quiet = true → at_stage f = RollIn → keys = before) → length iv = IV_BYTES →
    encrypt iv s keys.1 = Ok (pr_encryptedApiKey row) →
    event f {| at_stage := at_stage f; replicas := replicas f; table := <[j := row]> (table f); secrets := <[j := s]> (secrets f) |}
| edited j row row' f : table f !! j = Some row → pr_encryptedApiKey row' = pr_encryptedApiKey row →
    event f {| at_stage := at_stage f; replicas := replicas f; table := <[j := row']> (table f); secrets := secrets f |}.

(** Every replica reads every row's credential. *)
Definition all_readable (f : fleet) : Prop :=
  ∀ keys, keys ∈ replicas f → Forall2 (λ row s, credential keys.1 keys.2 (pr_encryptedApiKey row) = Ok s) (table f) (secrets f).

(** A row stored by a rolled-in replica before the others are: those cannot read
    it, and report so. *)
Definition too_early (f : fleet) (keys : Buffer * option Buffer) (row : provider_record) (s : string) : Prop :=
  at_stage f = RollIn ∧ keys = before ∧ under NEW row s ∧
  credential keys.1 keys.2 (pr_encryptedApiKey row) = Err decryption_failed.

(** What holds at each stage. *)
Definition sealed_for (st : stage) (row : provider_record) (s : string) : Prop :=
  match st with RollIn => under OLD row s ∨ (quiet = false ∧ under NEW row s) | Rotatable => under OLD row s ∨ under NEW row s | RollOut => under NEW row s end.
Definition keys_at (st : stage) (keys : Buffer * option Buffer) : Prop :=
  match st with RollIn => keys = before ∨ keys = between | Rotatable => keys = between | RollOut => keys = between ∨ keys = after end.
Definition fleet_ok (f : fleet) : Prop :=
  Forall (keys_at (at_stage f)) (replicas f) ∧ Forall2 (sealed_for (at_stage f)) (table f) (secrets f).

Context `{L : !LawfulCipher}.
Hypothesis old_length : length OLD = MASTER_KEY_BYTES.
Hypothesis new_ok : hex64 new_hex = true.
(** Authentication: what was sealed under one key does not open under the other. *)
Hypothesis foreign : ∀ iv plain, unseal NEW iv (seal OLD iv plain).2 (seal OLD iv plain).1 = None.
Hypothesis foreign' : ∀ iv plain, unseal OLD iv (seal NEW iv plain).2 (seal NEW iv plain).1 = None.

Lemma new_length : length NEW = MASTER_KEY_BYTES.
Proof using new_ok. by apply of_hex_length. Qed.

(** The two keys read both. *)
Lemma between_reads row s : under OLD row s ∨ under NEW row s → credential NEW (Some OLD) (pr_encryptedApiKey row) = Ok s.
Proof using L old_length new_ok foreign.
  intros [(iv & Hi & ->) | Hu]; [| by apply under_own; [apply new_length |]].
  unfold credential, decrypt, decryptWithKeys. cbn [decrypt_loop].
  rewrite decrypt_envelope, foreign by (apply new_length || done). change (fatal decryption_failed) with false.
  change (option_list (Some OLD)) with [OLD]. cbn [decrypt_loop]. by rewrite decrypt_own.
Qed.

(** The old key alone does not. *)
Lemma before_unread row s : under NEW row s → credential OLD None (pr_encryptedApiKey row) = Err decryption_failed.
Proof using L old_length new_ok foreign'.
  intros (iv & Hi & ->). unfold credential, decrypt, decryptWithKeys. cbn [decrypt_loop].
  by rewrite decrypt_envelope, foreign' by (done || apply new_length).
Qed.

Lemma stage_reads f keys row s : keys_at (at_stage f) keys → sealed_for (at_stage f) row s →
  credential keys.1 keys.2 (pr_encryptedApiKey row) = Ok s ∨ quiet = false ∧ too_early f keys row s.
Proof using L old_length new_ok foreign foreign'.
  unfold too_early. destruct (at_stage f); cbn [keys_at sealed_for].
  - intros [-> | ->] [Hu | [Hq Hu]]; [left; by apply under_own | right | left; apply between_reads; by left | left; apply between_reads; by right].
    split_and!; [done.. | by apply (before_unread row s)].
  - intros ->. left. by apply between_reads.
  - intros [-> | ->] Hu; left; [apply between_reads; by right | by apply under_own; [apply new_length |]].
Qed.

Lemma fleet_reads f : fleet_ok f → ∀ keys, keys ∈ replicas f →
  Forall2 (λ row s, credential keys.1 keys.2 (pr_encryptedApiKey row) = Ok s ∨ quiet = false ∧ too_early f keys row s) (table f) (secrets f).
Proof using L old_length new_ok foreign foreign'.
  intros [Hk Ht] keys Hin. pose proof (proj1 (list.Forall_forall _ _) Hk keys Hin) as Hkeys.
  eapply Forall2_impl; [exact Ht |]. intros row s. by apply stage_reads.
Qed.

(** A credential stored by a replica is sealed for the stage. *)
Lemma stored_sealed st keys iv row s : keys_at st keys → (quiet = true → st = RollIn → keys = before) → length iv = IV_BYTES →
  encrypt iv s keys.1 = Ok (pr_encryptedApiKey row) → sealed_for st row s.
Proof using old_length new_ok.
  intros Hk Hb Hi. assert (Hu : ∀ k, length k = MASTER_KEY_BYTES → encrypt iv s k = Ok (pr_encryptedApiKey row) → under k row s).
  { intros k Hkl. rewrite encrypt_envelope by done. intros [= E]. by exists iv. }
  pose proof new_length. destruct st; cbn [keys_at sealed_for] in *.
  - destruct quiet; [rewrite (Hb eq_refl eq_refl); left; by apply Hu |].
    destruct Hk as [-> | ->]; intros E; [left | right; split; [done |]]; by apply Hu.
  - rewrite Hk. intros E. right. by apply Hu.
  - destruct Hk as [-> | ->]; by apply Hu.
Qed.

Lemma replica_keys f keys : fleet_ok f → keys ∈ replicas f → keys_at (at_stage f) keys.
Proof using. intros [Hk _]. by apply list.Forall_forall. Qed.

Lemma rotated_ok env f : at_stage f = Rotatable → (∀ j, length (r_iv env j) = IV_BYTES) → fleet_ok f →
  let x := rotate NEW (Some OLD) env (Some new_hex) (table f) in
  Forall2 (sealed_for Rotatable) x.1 (secrets f) ∧ (∀ n, x.2 = Ok n → Forall2 (sealed_for RollOut) x.1 (secrets f)).
Proof using L old_length new_ok foreign.
  intros Hst Hi [_ Ht] x. rewrite Hst in Ht. cbn [sealed_for] in Ht. unfold x, rotate. rewrite new_ok.
  destruct (r_select env); [done |]. destruct (rotate_rows _ _ _ _ _ _) as [rows'|] eqn:Er; [| done].
  assert (Hr : Forall2 (λ row s, under NEW row s) rows' (secrets f)).
  { pose proof (rotate_rows_ok _ _ _ _ _ _ _ new_length Hi Er) as Hrot. apply Forall2_flip in Hrot.
    eapply Forall2_trans; [| exact Hrot | exact Ht]. intros r' r s [_ (s' & Hs' & Hu)] Hrs.
    rewrite (between_reads r s Hrs) in Hs'. by injection Hs' as <-. }
  assert (Hmix : Forall2 (λ row s, under OLD row s ∨ under NEW row s) rows' (secrets f))
    by (eapply Forall2_impl; [exact Hr | by right]).
  destruct (r_commit env); (split; [done | done]).
Qed.

Lemma event_ok f f' : fleet_ok f → event f f' → fleet_ok f'.
Proof using L old_length new_ok foreign.
  intros Hok He. pose proof Hok as [Hk Ht].
  destruct He as [i f Hst Hi | f Hst Hall | env f Hst Hi x | i f Hst Hi | keys iv row s f Hin Hb Hiv Henc
    | keys iv j row s f Hin Hb Hiv Henc | j row row' f Hj Henc]; unfold fleet_ok; cbn [at_stage replicas table secrets].
  - rewrite Hst in *. split; [| done]. apply Forall_insert; [done | by right].
  - rewrite Hst in *. split; [eapply list.Forall_impl; [exact Hall | by intros ? <-] |].
    eapply Forall2_impl; [exact Ht |]. intros row s [? | [_ ?]]; [by left | by right].
  - destruct (rotated_ok env f Hst Hi Hok) as [Hmix Hdone]. fold x in Hmix, Hdone. rewrite Hst in Hk.
    destruct x.2 as [n|e]; (split; [| by eauto]); [| done].
    eapply list.Forall_impl; [exact Hk |]. by left.
  - rewrite Hst in *. split; [| done]. apply Forall_insert; [done | by right].
  - split; [done |]. apply Forall2_app; [done |]. constructor; [| done].
    eapply (stored_sealed _ keys iv); [by eapply replica_keys | done..].
  - split; [done |]. apply Forall2_insert; [done |]. eapply (stored_sealed _ keys iv); [by eapply replica_keys | done..].
  - split; [done |]. apply Forall2_same_length_lookup. apply Forall2_same_length_lookup in Ht as [Hl Ht].
    rewrite length_insert. split; [done |]. intros i x s Hx Hs.
    destruct (decide (i = j)) as [-> | Hne]; [| rewrite list_lookup_insert_ne in Hx by done; by apply (Ht i)].
    rewrite list_lookup_insert_eq in Hx by (by eapply lookup_lt_Some). injection Hx as <-.
    specialize (Ht j row s Hj Hs). unfold sealed_for, under in *. by rewrite Henc.
Qed.
End Procedure.

(** The admin routes of a replica are events: whatever the request and its
    outcome, the providers it leaves come about by them. *)
Lemma request_is_event `{C : Cipher} OLD new_hex quiet keys is_url toISOString numeric zod_issues env r st f :
  keys ∈ replicas f → (quiet = true → at_stage f = RollIn → keys = before OLD) → length (random_bytes (around env)) = IV_BYTES →
  table f = providers st → NoDup (map pr_id (providers st)) →
  ∃ secrets', rtc (event OLD new_hex quiet) f
    {| at_stage := at_stage f; replicas := replicas f;
       table := providers (providersRoutes keys.1 keys.2 is_url toISOString numeric zod_issues env r st).1; secrets := secrets' |}.
Proof.
  intros Hin Hb Hi Ht Hn.
  assert (Hsame : ∀ st', providers st' = providers st → ∃ secrets', rtc (event OLD new_hex quiet) f
    {| at_stage := at_stage f; replicas := replicas f; table := providers st'; secrets := secrets' |}).
  { intros st' E. exists (secrets f). rewrite E, <- Ht. destruct f. constructor. }
  assert (Hup : ∀ id g reply, (∀ row, pr_encryptedApiKey (g row) = pr_encryptedApiKey row) ∨
      (∃ s, ∀ row, encrypt (random_bytes (around env)) s keys.1 = Ok (pr_encryptedApiKey (g row))) →
    ∃ secrets', rtc (event OLD new_hex quiet) f
    {| at_stage := at_stage f; replicas := replicas f;
       table := providers (update_provider keys.1 keys.2 env id g reply st).1; secrets := secrets' |}).
  { intros id g reply Hg. unfold update_provider, query. destruct (db_error (around env)); [by apply Hsame |].
    destruct (find_row pr_id (uuid_column id) (providers st)) as [row|] eqn:Ef; [| by apply Hsame].
    destruct (name_taken _ _ _); [by apply Hsame |].
    destruct (reloaded_tables keys.1 keys.2 env (reply (g row)) (with_providers (update_rows pr_id (uuid_column id) g (providers st)) st))
      as (-> & _). cbn [providers with_providers].
    destruct (update_found_row pr_id (uuid_column id) g (providers st) row Hn Ef) as (j & Hj & ->). rewrite <- Ht in *.
    destruct Hg as [Hg | [s Hg]].
    - exists (secrets f). apply rtc_once. by apply (edited OLD new_hex quiet j row).
    - exists (<[j := s]> (secrets f)). apply rtc_once. by eapply replaced. }
  destruct r as [| body | id | id body | id | id | id body | id model | id]; cbn [providersRoutes]; try (by apply Hsame).
  - unfold post_providers. destruct (createProviderSchema _ _) as [p|]; [| by apply Hsame].
    destruct (encrypt _ _ _) as [enc|] eqn:Ee; [| by apply Hsame]. cbv zeta. unfold query.
    destruct (db_error (around env)); [by apply Hsame |]. destruct (name_taken _ _ _); [by apply Hsame |].
    match goal with |- context [reloaded _ _ _ ?reply ?x] => destruct (reloaded_tables keys.1 keys.2 env reply x) as (-> & _) end.
    cbn [providers]. rewrite <- Ht. exists (secrets f ++ [cp_apiKey p]). apply rtc_once. by eapply created.
  - unfold patch_providers. destruct (parseId id); [| by apply Hsame]. destruct (patchProviderSchema _ _) as [p|]; [| by apply Hsame].
    unfold patch_credential. destruct (up_apiKey p) as [k|]; [| apply Hup; by left].
    destruct (encrypt _ k _) as [enc|] eqn:Ee; [| by apply Hsame]. apply Hup. right. by exists k.
  - unfold delete_provider. destruct (parseId id); [| by apply Hsame]. apply Hup. by left.
  - unfold post_models. destruct (parseId id); [| by apply Hsame]. destruct (modelSchema _); [| by apply Hsame]. cbv zeta.
    destruct (query _ _); [| by apply Hsame].
    match goal with |- context [reloaded _ _ _ ?reply ?x] => destruct (reloaded_tables keys.1 keys.2 env reply x) as (-> & _) end.
    by apply (Hsame st).
  - unfold delete_model. destruct (parseModelParams id model) as [[i m]|]; [| by apply Hsame].
    destruct (query _ _) as [[x|]|]; [| by apply Hsame..].
    match goal with |- context [reloaded _ _ _ ?reply ?x] => destruct (reloaded_tables keys.1 keys.2 env reply x) as (-> & _) end.
    by apply (Hsame st).
Qed.

(** C31: Which credentials can be read throughout the procedure of the script's
    header. Start with every row under the old key and every replica on it; roll
    the replicas in any order to the new key with the old one as previous, run the
    script (as often as it fails and is run again), roll them to the new key
    alone, while any replica goes on storing and editing credentials at any time.
    At every instant every replica that reloads its registry reads every row's
    credential as it was given, with one exception, which the header does not
    mention: until the first roll is over, a replica still on the old key fails to
    decrypt what a replica that was already rolled in has stored. Once it is over
    there is no exception, and there is none at all when during it only replicas
    still on the old key store credentials ([quiet]). *)
Theorem rotation_without_downtime `{LawfulCipher} OLD new_hex quiet f f' :
  length OLD = MASTER_KEY_BYTES → hex64 new_hex = true →
  (∀ iv plain, unseal (of_hex new_hex) iv (seal OLD iv plain).2 (seal OLD iv plain).1 = None) →
  (∀ iv plain, unseal OLD iv (seal (of_hex new_hex) iv plain).2 (seal (of_hex new_hex) iv plain).1 = None) →
  at_stage f = RollIn → Forall (eq (before OLD)) (replicas f) → Forall2 (under OLD) (table f) (secrets f) →
  rtc (event OLD new_hex quiet) f f' →
  (∀ keys, keys ∈ replicas f' →
    Forall2 (λ row s, credential keys.1 keys.2 (pr_encryptedApiKey row) = Ok s ∨ too_early OLD new_hex f' keys row s)
      (table f') (secrets f')) ∧
  (quiet = true ∨ at_stage f' ≠ RollIn → all_readable f').
Proof.
  intros Ho Hn Hf Hf' Hst Hr Ht Hsteps.
  assert (Hok : fleet_ok OLD new_hex quiet f').
  { assert (Hok : fleet_ok OLD new_hex quiet f).
    { split; rewrite Hst; [eapply list.Forall_impl; [exact Hr |]; intros ? <-; by left | eapply Forall2_impl; [exact Ht |]; by left]. }
    clear Hst Hr Ht. induction Hsteps as [| f1 f2 f3 He _ IH]; [done |].
    apply IH. by apply (event_ok OLD new_hex quiet Ho Hn Hf f1). }
  pose proof (fleet_reads OLD new_hex quiet Ho Hn Hf Hf' f' Hok) as Hreads. split.
  - intros keys Hin. eapply Forall2_impl; [by apply Hreads |]. intros row s [? | [_ ?]]; [by left | by right].
  - intros Hq keys Hin. eapply Forall2_impl; [by apply Hreads |]. intros row s [? | [Hf0 (He & _)]]; [done |].
    destruct Hq as [Hq | Hq]; [congruence | done].
Qed.

(** ** Witnesses *)

Definition old_key : Buffer := key_of Byte.x01.
Definition new_key_hex : string := to_hex (key_of Byte.x02).
Definition calm_rotation : rotation_env :=
  {| r_iv := λ _, iv_of Byte.x09; r_update := λ _, None; r_select := None; r_commit := Up; r_clock := 5 |}.
Definition old_row (id s : string) : provider_record :=
  {| pr_id := id; pr_name := id; pr_baseUrl := "https://acme"; pr_adapterType := Constants.openai;
     pr_encryptedApiKey := envelope old_key (iv_of Byte.x07) s; pr_weight := 1; pr_priority := 1; pr_isActive := true;
     pr_healthCheckUrl := None; pr_timeoutMs := 1; pr_createdAt := 0; pr_updatedAt := 0 |}.
Definition two_rows : list provider_record := [old_row "a" "sk-a"; old_row "b" "sk-b"].

(** Run again once committed, it rotates the rotated rows. *)
Lemma rotation_atomic_witness :
  (rotate (of_hex new_key_hex) (Some old_key) calm_rotation (Some new_key_hex) two_rows).2 = Ok 2 ∧
  ∀ rows', rows' = (rotate (of_hex new_key_hex) (Some old_key) calm_rotation (Some new_key_hex) two_rows).1 →
    (rotate (of_hex new_key_hex) (Some old_key) calm_rotation (Some new_key_hex) rows').2 = Ok 2.
Proof.
  split.
  - destruct (rotation_atomic (of_hex new_key_hex) (Some old_key) calm_rotation new_key_hex two_rows) as (_ & _ & H & _);
      [by vm_compute | done |]. apply H; [done | done | done |]. constructor; [| constructor; [| constructor]]; eexists; by vm_compute.
  - intros rows' E. destruct (rotation_atomic (of_hex new_key_hex) (Some old_key) calm_rotation new_key_hex rows') as (_ & _ & H & _);
      [by vm_compute | done |]. vm_compute in E. rewrite E in H |- *. apply H; [done | done | done |].
    constructor; [| constructor; [| constructor]]; eexists; by vm_compute.
Defined.

Definition small_fleet : fleet :=
  {| at_stage := RollIn; replicas := [before old_key; before old_key]; table := two_rows; secrets := ["sk-a"%string; "sk-b"%string] |}.

(** Half rolled in, a provider is created by the replica on the old key, which
    both then read; and one by the replica on the new key, which the other does
    not. *)
Definition half_rolled (row : provider_record) (s : string) : fleet :=
  {| at_stage := RollIn; replicas := [between old_key new_key_hex; before old_key];
     table := two_rows ++ [row]; secrets := ["sk-a"; "sk-b"; s]%string |}.
Definition new_row (id s : string) : provider_record :=
  {| pr_id := id; pr_name := id; pr_baseUrl := "https://acme"; pr_adapterType := Constants.openai;
     pr_encryptedApiKey := envelope (of_hex new_key_hex) (iv_of Byte.x07) s; pr_weight := 1; pr_priority := 1; pr_isActive := true;
     pr_healthCheckUrl := None; pr_timeoutMs := 1; pr_createdAt := 0; pr_updatedAt := 0 |}.

Lemma half_rolled_reached keys row s quiet : keys ∈ [between old_key new_key_hex; before old_key] →
  (quiet = true → keys = before old_key) → encrypt (iv_of Byte.x07) s keys.1 = Ok (pr_encryptedApiKey row) →
  rtc (event old_key new_key_hex quiet) small_fleet (half_rolled row s).
Proof.
  intros Hk Hq He. eapply rtc_l; [by apply (roll_in old_key new_key_hex quiet 0) |]. apply rtc_once.
  apply (created old_key new_key_hex quiet keys (iv_of Byte.x07) row s
      {| at_stage := RollIn; replicas := [between old_key new_key_hex; before old_key]; table := two_rows;
         secrets := ["sk-a"%string; "sk-b"%string] |}); [done | by intros Hq' _; apply Hq | done | done].
Qed.

Lemma rotation_without_downtime_witness :
  all_readable (half_rolled (old_row "c" "sk-c") "sk-c") ∧
  Forall2 (λ row s, credential old_key None (pr_encryptedApiKey row) = Ok s ∨
      too_early old_key new_key_hex (half_rolled (new_row "c" "sk-c") "sk-c") (before old_key) row s)
    (two_rows ++ [new_row "c" "sk-c"]) ["sk-a"; "sk-b"; "sk-c"]%string ∧
  credential old_key None (pr_encryptedApiKey (new_row "c" "sk-c")) = Err decryption_failed.
Proof.
  split; [| split; [| by vm_compute]].
  - apply (rotation_without_downtime old_key new_key_hex true small_fleet);
      [done | by vm_compute | intros iv plain; by vm_compute | intros iv plain; by vm_compute | done | by repeat constructor
      | constructor; [| constructor; [| constructor]]; by exists (iv_of Byte.x07)
      | apply (half_rolled_reached (before old_key)); [by right; left | done | by vm_compute] | by left].
  - destruct (rotation_without_downtime old_key new_key_hex false small_fleet (half_rolled (new_row "c" "sk-c") "sk-c")) as [H _];
      [done | by vm_compute | intros iv plain; by vm_compute | intros iv plain; by vm_compute | done | by repeat constructor
      | constructor; [| constructor; [| constructor]]; by exists (iv_of Byte.x07)
      | apply (half_rolled_reached (between old_key new_key_hex)); [by left | done | by vm_compute] |].
    apply (H (before old_key)). by right; left.
Defined.
