(* ===== verification/Logger.v ===== *)
(** * Structured logging ([src/utils/logger.ts])

    The paths that are redacted and what that hides and leaves, the options of
    the logger, and the fields every line carries. The redaction itself is
    pino's: a parameter with its documented behaviour. *)

From Stdlib Require Import ZArith Lia String Ascii.
From stdpp Require Import base strings list.
From S2P Require Import Prelude Json Stream.
Open Scope string_scope.

(** ** Paths *)

Inductive segment := Name (k : string) | Any.
Definition path : Type := list segment.

Definition quoted (s : string) : string := String "034" (s ++ String "034" "").
Definition secret_names : list string :=
  ["apiKey"; "api_key"; "rawKey"; "encryptedApiKey"; "encrypted_api_key"; "password"; "secret"].

Definition REDACTION_PATHS : list string :=
  ["req.headers.authorization"; "req.headers[" ++ quoted "x-api-key" ++ "]";
   "request.headers.authorization"; "request.headers[" ++ quoted "x-api-key" ++ "]";
   "headers.authorization"; "headers[" ++ quoted "x-api-key" ++ "]";
   "authorization";
   "apiKey"; "*.apiKey"; "api_key"; "*.api_key"; "rawKey"; "*.rawKey"; "encryptedApiKey"; "*.encryptedApiKey";
   "encrypted_api_key"; "*.encrypted_api_key"; "ENCRYPTION_KEY"; "ADMIN_API_KEY"; "password"; "*.password"; "secret"; "*.secret"].

(** pino's path syntax: names and stars between dots, quoted names in brackets. *)
Definition segment_of (s : string) : segment := if String.eqb s "*" then Any else Name s.
Definition piece (s : string) : path :=
  match split_at "[" s with
  | None => [segment_of s]
  | Some (a, b) => [segment_of a; Name (substring 1 (String.length b - 3) b)]
  end.
Definition parse_path (s : string) : path := concat (map piece (split_on "." s)).
Definition redaction_paths : list path := map parse_path REDACTION_PATHS.

(** The place in a record a path names. *)
Definition matches_segment (s : segment) (k : string) : bool := match s with Name n => String.eqb n k | Any => true end.
Fixpoint selects (p : path) (loc : list string) : bool :=
  match p, loc with
  | [], [] => true
  | s :: p, k :: loc => matches_segment s k && selects p loc
  | _, _ => false
  end.

Fixpoint lookup_at (loc : list string) (v : json) : option json :=
  match loc with
  | [] => Some v
  | k :: loc => match v with JObj o => match field k o with Some w => lookup_at loc w | None => None end | _ => None end
  end.

(** ** Redaction *)

Definition redaction : Type := list path → string → json → json.

(** What pino documents: a value at a selected place is replaced by the censor,
    and a place that is neither selected, nor within a selected one, nor above
    one, is left as it is. *)
Class Redactor (redact : redaction) : Prop := {
  redact_hides ps censor v loc : existsb (λ p, selects p loc) ps = true → loc ≠ [] →
    lookup_at loc (redact ps censor v) = None ∨ lookup_at loc (redact ps censor v) = Some (JStr censor);
  redact_keeps ps censor v loc :
    (∀ l, existsb (λ p, selects p l) ps = true → ¬ l `prefix_of` loc ∧ ¬ loc `prefix_of` l) →
    lookup_at loc (redact ps censor v) = lookup_at loc v
}.

(** ** Options and lines *)

Record LoggerOptions := { level : string; base : fields; redact_paths : list path; censor : string; transport : option string }.

(** [traceContextMixin]: the ids of the active span. *)
Definition traceContextMixin (span : option (string * string)) : fields :=
  match span with None => [] | Some (traceId, spanId) => [("traceId", JStr traceId); ("spanId", JStr spanId)] end.

Definition baseOptions (LOG_LEVEL OTEL_SERVICE_NAME NODE_ENV : string) : LoggerOptions :=
  {| level := LOG_LEVEL; base := [("service", JStr OTEL_SERVICE_NAME); ("env", JStr NODE_ENV)];
     redact_paths := redaction_paths; censor := "[REDACTED]"; transport := None |}.

Definition transport_of (LOG_PRETTY : bool) (NODE_ENV : string) : option string :=
  if LOG_PRETTY && negb (String.eqb NODE_ENV "production") then Some "pino-pretty" else None.

Definition loggerOptions (LOG_LEVEL OTEL_SERVICE_NAME NODE_ENV : string) (LOG_PRETTY : bool) : LoggerOptions :=
  let o := baseOptions LOG_LEVEL OTEL_SERVICE_NAME NODE_ENV in
  match transport_of LOG_PRETTY NODE_ENV with
  | Some t => {| level := level o; base := base o; redact_paths := redact_paths o; censor := censor o; transport := Some t |}
  | None => o
  end.

(** The bindings of [createRequestLogger]. *)
Definition createRequestLogger (requestId : string) : fields := [("requestId", JStr requestId)].

(** What is written of the fields of a call: they, the bindings and the mixin, redacted. *)
Definition logged (redact : redaction) (o : LoggerOptions) (bindings : fields) (span : option (string * string)) (fs : fields) : json :=
  redact (redact_paths o) (censor o) (JObj (base o ++ bindings ++ traceContextMixin span ++ fs)).

(** ** Theorem *)

Definition hidden (v : json) (loc : list string) : Prop := lookup_at loc v = None ∨ lookup_at loc v = Some (JStr "[REDACTED]").

Definition selected (loc : list string) : bool := existsb (λ p, selects p loc) redaction_paths.

Lemma secret_selected n k : n ∈ secret_names → selected [n] = true ∧ selected [k; n] = true.
Proof.
  unfold secret_names. rewrite !elem_of_cons, elem_of_nil.
  intros [-> | [-> | [-> | [-> | [-> | [-> | [-> | []]]]]]]]; (split; [by vm_compute |]); unfold selected, redaction_paths; cbn; by rewrite ?orb_true_r.
Qed.

(** A selected place: a name of the list, one deep at most, or a header. *)
Lemma selected_shape l : selected l = true →
  (∃ n, l = [n]) ∨ (∃ k n, l = [k; n] ∧ (n ∈ secret_names ∨ k = "headers")) ∨
  ∃ k h, l = [k; "headers"; h] ∧ k ∈ ["req"; "request"] ∧ h ∈ ["authorization"; "x-api-key"].
Proof.
  unfold selected. let ps := eval vm_compute in redaction_paths in change redaction_paths with ps.
  destruct l as [|a [|b [|c [|d l]]]]; cbn [existsb selects matches_segment]; intros H; [done | left; by eexists | | |];
    repeat match type of H with (_ || _)%bool = true => apply orb_true_iff in H as [H | H] end; try done;
    repeat match goal with H : (_ && _)%bool = true |- _ => apply andb_true_iff in H as [? ?] end; try done;
    repeat match goal with H : String.eqb _ _ = true |- _ => apply String.eqb_eq in H; subst end.
  all: first [right; left; eexists _, _; split; [reflexivity |]; first [by right | left; by repeat (first [left | right])]
             | right; right; eexists _, _; split; [reflexivity |]; split; by repeat (first [left | right])].
Qed.


Section Hidden.
#[local] Opaque redaction_paths.
Context (redact : redaction) `{!Redactor redact} (o : LoggerOptions).
Hypothesis paths : redact_paths o = redaction_paths.
Hypothesis censored : censor o = "[REDACTED]".

Lemma selected_hidden bindings span fs loc : selected loc = true → loc ≠ [] → hidden (logged redact o bindings span fs) loc.
Proof using All. intros Hs Hl. unfold selected in Hs. unfold hidden, logged. rewrite paths, censored. exact (redact_hides redaction_paths _ _ _ Hs Hl). Qed.

Lemma unselected_written bindings span fs loc : (∀ l, selected l = true → ¬ l `prefix_of` loc ∧ ¬ loc `prefix_of` l) →
  lookup_at loc (logged redact o bindings span fs) = lookup_at loc (JObj (base o ++ bindings ++ traceContextMixin span ++ fs)).
Proof using Redactor0 paths. intros Hs. unfold selected in Hs. unfold logged. rewrite paths. exact (redact_keeps redaction_paths _ _ _ Hs). Qed.
End Hidden.

(** What the logger hides, and what it does not. Whatever is logged, with
    whatever bindings and span: a field with a secret name at the top or one
    level down is not written, nor are the two credential headers under headers,
    req.headers or request.headers. A place two levels down or deeper, outside
    those headers and outside such a field, is written as it is, whatever its
    name; and so is an encryption key one level down. *)
Theorem logged_fields_redacted redact LOG_LEVEL service env pretty bindings span fs : Redactor redact →
  let o := loggerOptions LOG_LEVEL service env pretty in
  let line := logged redact o bindings span fs in
  let written loc := lookup_at loc line = lookup_at loc (JObj (base o ++ bindings ++ traceContextMixin span ++ fs)) in
  (∀ n k, n ∈ secret_names → hidden line [n] ∧ hidden line [k; n]) ∧
  (∀ r h, r ∈ ["req"; "request"] → h ∈ ["authorization"; "x-api-key"] → hidden line ["headers"; h] ∧ hidden line [r; "headers"; h]) ∧
  (∀ a b c loc, selected [a] = false → b ∉ secret_names → a ≠ "headers" → b ≠ "headers" → written (a :: b :: c :: loc)) ∧
  ∀ a, selected [a] = false → a ≠ "headers" → written [a; "ENCRYPTION_KEY"].
Proof.
  intros Hr. cbv zeta. set (o := loggerOptions _ _ _ _).
  assert (Hp : redact_paths o = redaction_paths) by (unfold o, loggerOptions; by destruct (transport_of _ _)).
  assert (Hc : censor o = "[REDACTED]") by (unfold o, loggerOptions; by destruct (transport_of _ _)).
  split_and!.
  - intros n k Hn. destruct (secret_selected n k Hn) as [H1 H2]. by split; apply selected_hidden.
  - intros r h Hr' Hh. rewrite !elem_of_cons, elem_of_nil in Hr', Hh.
    destruct Hr' as [-> | [-> | []]], Hh as [-> | [-> | []]]; by split; apply selected_hidden.
  - intros a b c loc Ha Hb Hna Hnb. apply unselected_written; [done | done |].
    intros l Hl. destruct (selected_shape l Hl) as [(n & ->) | [(k & n & -> & Hn) | (k & h & -> & _ & _)]]; split; intros [x E];
      cbn [app] in E; try discriminate E; injection E; intros; subst; try done; [congruence | by destruct Hn].
  - intros a Ha Hna. apply unselected_written; [done | done |].
    intros l Hl. destruct (selected_shape l Hl) as [(n & ->) | [(k & n & -> & Hn) | (k & h & -> & _ & _)]]; split; intros [x E];
      cbn [app] in E; try discriminate E; injection E; intros; subst; try done; [congruence | | ];
      (destruct Hn as [Hn | Hn]; [| done]); discriminate (bool_decide_eq_true_2 _ Hn).
Qed.

(** ** A redaction that does what is documented *)

Definition heads (k : string) (ps : list path) : list path :=
  omap (λ p, match p with s :: p => if matches_segment s k then Some p else None | [] => None end) ps.

Fixpoint redactor (ps : list path) (censor : string) (v : json) {struct v} : json :=
  match v with
  | JObj o =>
      JObj ((fix fields_ (o : fields) : fields :=
               match o with
               | [] => []
               | (k, w) :: o =>
                   (k, if existsb (λ p, match p with [] => true | _ => false end) (heads k ps) then JStr censor
                       else redactor (heads k ps) censor w) :: fields_ o
               end) o)
  | _ => v
  end.

Definition redacted_field (ps : list path) (censor k : string) (w : json) : json :=
  if existsb (λ p, match p with [] => true | _ => false end) (heads k ps) then JStr censor else redactor (heads k ps) censor w.

Lemma redactor_lookup ps censor k loc v : lookup_at (k :: loc) (redactor ps censor v) =
  match v with JObj o => match field k o with Some w => lookup_at loc (redacted_field ps censor k w) | None => None end | _ => None end.
Proof.
  destruct v as [| | | | | o]; try done. cbn [lookup_at redactor]. induction o as [|[k' w] o IH]; [done |].
  cbn [field]. destruct (String.eqb k k') eqn:E; [by apply String.eqb_eq in E as -> | exact IH].
Qed.

Lemma selects_heads ps k loc : existsb (λ p, selects p (k :: loc)) ps = existsb (λ p, selects p loc) (heads k ps).
Proof.
  induction ps as [|[|s p] ps IH]; [done | exact IH |]. cbn [existsb heads omap list_omap selects]. rewrite IH.
  by destruct (matches_segment s k).
Qed.
Lemma heads_nil k ps : existsb (λ p, match p with [] => true | _ => false end) (heads k ps) = existsb (λ p, selects p [k]) ps.
Proof. rewrite selects_heads. induction (heads k ps) as [|[|] l IH]; [done | done | cbn [existsb selects]; exact IH]. Qed.

(** Every path selects some place. *)
Lemma some_place p : ∃ l, selects p l = true.
Proof.
  induction p as [|s p [l IH]]; [by exists [] |]. exists (match s with Name n => n | Any => "" end :: l). cbn [selects]. rewrite IH, andb_true_r.
  destruct s; [apply String.eqb_refl | done].
Qed.

Lemma redactor_nothing censor v : redactor [] censor v = v.
Proof.
  induction v as [| b | q | s | l IH | o IH] using json_ind_nested; try done. cbn [redactor]. f_equal.
  induction o as [|[k w] o IHo]; [done |]. change (heads k []) with (@nil path). cbn [existsb].
  pose proof (IH (k, w) ltac:(by left)) as E. cbn [snd] in E. rewrite E. f_equal. apply IHo. intros x Hx. apply IH. by right.
Qed.

#[export] Instance redactor_lawful : Redactor redactor.
Proof.
  split.
  - intros ps censor v loc Hs Hl. revert ps v Hs. induction loc as [|k loc IH]; intros ps v Hs; [done |].
    rewrite redactor_lookup. destruct v as [| | | | | o]; try (by left). destruct (field k o) as [w|]; [| by left].
    unfold redacted_field. rewrite heads_nil. destruct (existsb (λ p, selects p [k]) ps) eqn:E.
    + destruct loc as [|k' loc]; [right; reflexivity | left; reflexivity].
    + destruct loc as [|k' loc]; [congruence |]. rewrite selects_heads in Hs. by apply IH.
  - intros ps censor v loc. revert ps v. induction loc as [|k loc IH]; intros ps v Hs.
    + destruct ps as [|p ps]; [by rewrite redactor_nothing |]. destruct (some_place p) as [l Hp].
      destruct (Hs l) as [_ Hn]; [cbn [existsb]; by rewrite Hp | destruct Hn; apply prefix_nil].
    + rewrite redactor_lookup. destruct v as [| | | | | o]; try done. cbn [lookup_at]. destruct (field k o) as [w|]; [| done].
      unfold redacted_field. rewrite heads_nil. destruct (existsb (λ p, selects p [k]) ps) eqn:E.
      { destruct (Hs [k] E) as [Hn _]. destruct Hn. by exists loc. }
      apply IH. intros l Hl. rewrite <- selects_heads in Hl. destruct (Hs _ Hl) as [H1 H2].
      split; intros [x Hx]; [apply H1 | apply H2]; exists x; by rewrite Hx.
Qed.

(** The admin key in the header of a request is hidden; the encryption key of a
    configuration that is logged whole is not. *)
Lemma logged_fields_redacted_witness :
  let config := JObj [("ENCRYPTION_KEY", JStr "k"); ("apiKey", JStr "sk-1")] in
  let req := JObj [("headers", JObj [("authorization", JStr "Bearer admin")])] in
  let line := logged redactor (loggerOptions "info" "gateway" "production" false) (createRequestLogger "r-1") None [("config", config); ("req", req)] in
  hidden line ["config"; "apiKey"] ∧ hidden line ["req"; "headers"; "authorization"] ∧
  lookup_at ["config"; "ENCRYPTION_KEY"] line = Some (JStr "k").
Proof.
  cbv zeta. set (fs := [("config", _); ("req", _)]).
  destruct (logged_fields_redacted redactor "info" "gateway" "production" false (createRequestLogger "r-1") None fs redactor_lawful) as (H1 & H2 & _ & H4).
  split_and!; [by apply (H1 "apiKey" "config"); left | by apply (H2 "req" "authorization"); left |].
  by rewrite (H4 "config").
Defined.
