(* ===== verification/Lifecycle.v ===== *)
(** * Start-up and shutdown of the process ([src/index.ts], [src/database/])

    What [main] brings up before it listens, the shared connections and their
    closing, and the graceful shutdown as a state machine over signals and over
    the promises it awaits. *)

From Stdlib Require Import ZArith Lia String.
From stdpp Require Import base strings list.
From S2P Require Import Prelude Numerals Errors.
Open Scope Z_scope.

(** ** Start-up *)

(** [warmUpPool]: how many connections were opened and how many were given back;
    [connects i] says whether the [i]-th attempt succeeds. *)
Fixpoint open_clients (target : nat) (connects : nat → bool) (i : nat) : nat :=
  match target with
  | O => 0
  | S target' => if connects i then S (open_clients target' connects (S i)) else 0
  end.
Definition warmUpPool (target : Z) (connects : nat → bool) : nat * nat :=
  if target <=? 0 then (0, 0)%nat
  else let clients := open_clients (Z.to_nat target) connects 0 in (clients, clients).

(** [checkDatabaseHealth] and [checkRedisHealth]: what the query or the command
    returned, [None] when it threw. *)
Definition checkDatabaseHealth (rows : option nat) : bool := match rows with Some n => (n =? 1)%nat | None => false end.
Definition checkRedisHealth (pong : option string) : bool := match pong with Some p => String.eqb p "PONG" | None => false end.

Inductive brought_up := Tracing | Pool | RedisClient | RegistryLoaded | RouterReady | MonitorStarted | AppBuilt | Listening | Handlers.

(** [main]: what it has brought up, and whether it exits; only the registry, the
    application and the socket can fail it. *)
Definition main (load build listen : option thrown) : list brought_up * option Z :=
  match load with
  | Some _ => ([Tracing; Pool; RedisClient], Some 1)
  | None =>
      match build with
      | Some _ => ([Tracing; Pool; RedisClient; RegistryLoaded; RouterReady; MonitorStarted], Some 1)
      | None =>
          match listen with
          | Some _ => ([Tracing; Pool; RedisClient; RegistryLoaded; RouterReady; MonitorStarted; AppBuilt], Some 1)
          | None => ([Tracing; Pool; RedisClient; RegistryLoaded; RouterReady; MonitorStarted; AppBuilt; Listening; Handlers], None)
          end
      end
  end.

(** ** Shutdown *)

(** What shutdown does to the rest of the process, in the order it does it. *)
Inductive action := CloseApp | StopMonitor | FlushLogs | QuitRedis | DisconnectRedis | EndPool | StopTracing.
#[export] Instance action_eq_dec : EqDecision action.
Proof. solve_decision. Defined.

(** The promise shutdown awaits. *)
Inductive awaiting := Running | Closing | Stopping | Flushing | Quitting | Ending | Untracing | Exited (code : Z).

(** What happens in the process: shutdown starts an action; its promise settles. *)
Inductive event := Did (a : action) | Settled (a : action) (ok : bool).
#[export] Instance event_eq_dec : EqDecision event.
Proof. solve_decision. Defined.

(** [shuttingDown], the shared connections, where shutdown stands, and what has
    happened so far. *)
Record process := { shuttingDown : bool; client_open : bool; pool_open : bool; at_ : awaiting; history : list event }.

(** A signal or an uncaught error; the promise of an action settles.
    [withTimeout] makes the one of [app.close] reject when it takes too long. *)
Inductive happening := Signal | Settles (a : action) (ok : bool).

Definition note (p : process) (e : event) : process :=
  {| shuttingDown := shuttingDown p; client_open := client_open p; pool_open := pool_open p; at_ := at_ p;
     history := history p ++ [e] |}.
Definition await (p : process) (w : awaiting) (a : action) : process :=
  {| shuttingDown := shuttingDown p; client_open := client_open p; pool_open := pool_open p; at_ := w;
     history := history p ++ [Did a] |}.
Definition exit (p : process) (code : Z) : process :=
  {| shuttingDown := shuttingDown p; client_open := client_open p; pool_open := pool_open p; at_ := Exited code;
     history := history p |}.

Definition stopTracing (p : process) : process := await p Untracing StopTracing.

(** [closeDatabase], then the rest. *)
Definition closeDatabase (p : process) : process :=
  if pool_open p then
    await {| shuttingDown := shuttingDown p; client_open := client_open p; pool_open := false; at_ := at_ p; history := history p |} Ending EndPool
  else stopTracing p.

(** [closeRedis], then the rest; a quit that fails is a disconnect. *)
Definition closeRedis (p : process) : process :=
  if client_open p then
    await {| shuttingDown := shuttingDown p; client_open := false; pool_open := pool_open p; at_ := at_ p; history := history p |} Quitting QuitRedis
  else closeDatabase p.
Definition disconnect (p : process) : process := note p (Did DisconnectRedis).

Definition shutdown (p : process) : process :=
  if shuttingDown p then p
  else await {| shuttingDown := true; client_open := client_open p; pool_open := pool_open p; at_ := at_ p; history := history p |} Closing CloseApp.

(** The action whose promise shutdown awaits. *)
Definition awaited (w : awaiting) : option action :=
  match w with
  | Running | Exited _ => None
  | Closing => Some CloseApp | Stopping => Some StopMonitor | Flushing => Some FlushLogs
  | Quitting => Some QuitRedis | Ending => Some EndPool | Untracing => Some StopTracing
  end.

(** The statement after the [await], or the [catch]. *)
Definition resumed (p : process) (ok : bool) : process :=
  match at_ p, ok with
  | Running, _ | Exited _, _ => p
  | Closing, true => await p Stopping StopMonitor
  | Stopping, true => await p Flushing FlushLogs
  | Flushing, true => closeRedis p
  | Quitting, true => closeDatabase p
  | Quitting, false => closeDatabase (disconnect p)
  | Ending, true => stopTracing p
  | Untracing, true => exit p 0
  | (Closing | Stopping | Flushing | Ending | Untracing), false => exit p 1
  end.

(** A promise nobody awaits changes nothing: it was not made yet, or it has
    settled before. *)
Definition lifecycle_step (p : process) (h : happening) : process :=
  match h with
  | Signal => match at_ p with Exited _ => p | _ => shutdown p end
  | Settles a ok => if decide (awaited (at_ p) = Some a) then resumed (note p (Settled a ok)) ok else p
  end.
Definition lifecycle (p : process) (hs : list happening) : process := foldl lifecycle_step p hs.

(** The process as [main] leaves it. *)
Definition serving : process := {| shuttingDown := false; client_open := true; pool_open := true; at_ := Running; history := [] |}.

(** ** Lemmas *)

(** The chronology of a complete shutdown; [quit] says whether Redis
    acknowledged the quit. *)
Definition chronology (quit : bool) : list event :=
  [Did CloseApp; Settled CloseApp true; Did StopMonitor; Settled StopMonitor true; Did FlushLogs; Settled FlushLogs true;
   Did QuitRedis; Settled QuitRedis quit] ++ (if quit then [] else [Did DisconnectRedis]) ++
  [Did EndPool; Settled EndPool true; Did StopTracing; Settled StopTracing true].

(** How far a shutdown that awaits [w] has got. *)
Definition reached (quit : bool) (w : awaiting) : list event :=
  match w with
  | Running => []
  | Closing => take 1 (chronology quit)
  | Stopping => take 3 (chronology quit)
  | Flushing => take 5 (chronology quit)
  | Quitting => take 7 (chronology quit)
  | Ending => take (if quit then 9 else 10) (chronology quit)
  | Untracing => take (if quit then 11 else 12) (chronology quit)
  | Exited _ => chronology quit
  end.

(** The connections that are still open meanwhile. *)
Definition client_kept (w : awaiting) : bool := match w with Running | Closing | Stopping | Flushing => true | _ => false end.
Definition pool_kept (w : awaiting) : bool := match w with Ending | Untracing | Exited _ => false | _ => true end.

(** A shutdown that a rejected promise cut short. *)
Definition cut_short (quit : bool) (l : list event) : Prop :=
  ∃ past a, l = past ++ [Settled a false] ∧ (past ++ [Settled a true]) `prefix_of` chronology quit.

Definition kept_open (p : process) : Prop :=
  client_open p = negb (bool_decide (Did QuitRedis ∈ history p)) ∧ pool_open p = negb (bool_decide (Did EndPool ∈ history p)).

Definition orderly (p : process) : Prop :=
  shuttingDown p = match at_ p with Running => false | _ => true end ∧ kept_open p ∧
  ∃ quit, match at_ p with
          | Exited 0 => history p = chronology quit
          | Exited 1 => cut_short quit (history p)
          | Exited _ => False
          | w => history p = reached quit w ∧ client_open p = client_kept w ∧ pool_open p = pool_kept w
          end.

Lemma reached_prefix quit w : reached quit w `prefix_of` chronology quit.
Proof. destruct w, quit; eexists; reflexivity. Qed.

(** The history ends with the rejection that cut it short. *)
Ltac cut_there :=
  match goal with |- cut_short _ ?l => exists (removelast l); eexists; split; [reflexivity | by eexists] end.

Lemma orderly_signal p : orderly p → orderly (lifecycle_step p Signal).
Proof.
  destruct p as [sd co po w d]. intros (Hs & Hk & quit & H). cbn in Hs. subst sd.
  destruct w; cbn in H |- *; try (split; [done | split; [done |]]; by exists quit).
  destruct H as (-> & -> & ->). split; [done | split; [done |]]. by exists quit.
Qed.

Lemma orderly_settled p a ok : orderly p → orderly (lifecycle_step p (Settles a ok)).
Proof.
  intros Hp. cbn [lifecycle_step]. destruct (decide (awaited (at_ p) = Some a)) as [Ha | _]; [| done].
  destruct p as [sd co po w d], Hp as (Hs & _ & quit & H). cbn in Hs, H, Ha. subst sd.
  destruct w as [| | | | | | | code]; try done; destruct H as (-> & -> & ->); injection Ha as <-; destruct ok, quit;
    (split; [done | split; [done |]]); cbn; first [by exists true | by exists false | exists true; cut_there | exists false; cut_there].
Qed.

Lemma orderly_run hs p : orderly p → orderly (lifecycle p hs).
Proof.
  revert p. induction hs as [|h hs IH]; intros p Hp; [done |]. apply IH.
  destruct h; [by apply orderly_signal | by apply orderly_settled].
Qed.

Lemma serving_orderly : orderly serving.
Proof. split; [done | split; [done | by exists true]]. Qed.

(** The actions whose promises are still to settle. *)
Definition remaining (w : awaiting) : list action :=
  let all := [CloseApp; StopMonitor; FlushLogs; QuitRedis; EndPool; StopTracing] in
  match w with
  | Running | Closing => all | Stopping => drop 1 all | Flushing => drop 2 all | Quitting => drop 3 all
  | Ending => drop 4 all | Untracing => drop 5 all | Exited _ => []
  end.

(** The settlements of these promises happen, in this order, whatever happens
    between them. *)
Definition all_settle (l : list action) (hs : list happening) : Prop :=
  ∃ ok : action → bool, ((λ a, Settles a (ok a)) <$> l) `sublist_of` hs.

Lemma exited_stays hs : ∀ p code, at_ p = Exited code → lifecycle p hs = p.
Proof.
  induction hs as [|h hs IH]; intros p code E; [done |].
  assert (Hp : lifecycle_step p h = p) by (destruct h; cbn; by rewrite E).
  change (lifecycle p (h :: hs)) with (lifecycle (lifecycle_step p h) hs). rewrite Hp. by apply (IH p code).
Qed.

(** A settlement of the awaited promise goes on to the next one, or exits. *)
Lemma awaited_step p a ok : orderly p → awaited (at_ p) = Some a →
  let p' := lifecycle_step p (Settles a ok) in
  (∃ code, at_ p' = Exited code) ∨ (at_ p' ≠ Running ∧ remaining (at_ p) = a :: remaining (at_ p')).
Proof.
  intros Hp Ha. destruct p as [sd co po w d], Hp as (Hs & _ & quit & H). cbn in Hs, H, Ha |- *. rewrite decide_True by done.
  destruct w as [| | | | | | | code]; try done; destruct H as (-> & -> & ->); injection Ha as <-; destruct ok; cbn;
    first [left; by eexists | by right].
Qed.

Lemma unawaited_step p h : orderly p → at_ p ≠ Running → (∀ a ok, h = Settles a ok → awaited (at_ p) ≠ Some a) →
  lifecycle_step p h = p.
Proof.
  intros (Hs & _ & _) Hw Hn. destruct h as [|a ok]; cbn.
  - unfold shutdown. rewrite Hs. by destruct (at_ p).
  - by rewrite decide_False by (by apply (Hn a ok)).
Qed.

Lemma awaited_or_not p h :
  (∃ a ok, h = Settles a ok ∧ awaited (at_ p) = Some a) ∨ ∀ a ok, h = Settles a ok → awaited (at_ p) ≠ Some a.
Proof.
  destruct h as [|a ok]; [by right |]. destruct (decide (awaited (at_ p) = Some a)); [left; by exists a, ok |].
  right. by intros ? ? [= <- <-].
Qed.

Lemma all_settled_exit hs : ∀ p, orderly p → at_ p ≠ Running → all_settle (remaining (at_ p)) hs →
  ∃ code, at_ (lifecycle p hs) = Exited code.
Proof.
  induction hs as [|h hs IH]; intros p Hp Hw [ok Hl].
  - cbn [lifecycle foldl]. destruct (at_ p); first [done | by eexists | by apply sublist_nil_r in Hl].
  - pose proof (orderly_run [h] p Hp) as Ho. cbn [lifecycle foldl] in Ho.
    change (lifecycle p (h :: hs)) with (lifecycle (lifecycle_step p h) hs).
    destruct (awaited_or_not p h) as [(a & b & -> & Ha) | Hn].
    + destruct (awaited_step p a b Hp Ha) as [[code E] | [Hw' Hr]].
      * exists code. by rewrite (exited_stays hs _ code).
      * apply IH; [done | done |]. exists ok. rewrite Hr in Hl.
        apply sublist_cons_r in Hl as [Hl | (l' & [= _ <-] & Hl)]; [| done]. etrans; [| exact Hl]. by apply sublist_cons.
    + rewrite unawaited_step by done. apply IH; [done | done |]. exists ok.
      apply sublist_cons_r in Hl as [Hl | (l' & E & _)]; [done |]. exfalso.
      destruct (at_ p); cbn in E, Hn; try done; injection E as <- _; by eapply Hn.
Qed.

Lemma signalled_stays hs : ∀ p, orderly p → at_ p ≠ Running → at_ (lifecycle p hs) ≠ Running.
Proof.
  induction hs as [|h hs IH]; intros p Hp Hw; [done |].
  change (lifecycle p (h :: hs)) with (lifecycle (lifecycle_step p h) hs). apply IH; [by apply (orderly_run [h]) |].
  destruct (awaited_or_not p h) as [(a & ok & -> & Ha) | Hn]; [| by rewrite unawaited_step].
  destruct (awaited_step p a ok Hp Ha) as [[code E] | [Hw' _]]; [by rewrite E | done].
Qed.

Lemma unsignalled hs : Signal ∉ hs → lifecycle serving hs = serving.
Proof.
  induction hs as [|h hs IH]; intros Hn; [done |]. apply not_elem_of_cons in Hn as [Hh Hn].
  change (lifecycle serving (h :: hs)) with (lifecycle (lifecycle_step serving h) hs). destruct h; [done | by apply IH].
Qed.

(** ** Theorem *)

(** C37: Shutdown is orderly, awaits each step, happens once and ends. However
    signals, uncaught errors and the settlements of the promises interleave, what
    has happened is an initial part of one chronology: the application is closed;
    when that resolved, the monitor is stopped; when that resolved, the log queue
    is flushed; when that resolved, Redis is quit (and disconnected by force if
    the quit is refused); then the pool is ended; when that resolved, tracing is
    stopped. So nothing is done twice, Redis stays open until the flush resolved
    and the pool until the quit settled. A rejection, of anything but the quit,
    is the last thing that happens: the process exits with 1. It exits with 0
    only when the whole chronology is through, does nothing before a signal, and
    exits once the six promises settle. *)
Theorem shutdown_orderly before_signal after_signal :
  Signal ∉ before_signal →
  let p := lifecycle serving (before_signal ++ Signal :: after_signal) in
  lifecycle serving before_signal = serving ∧ shuttingDown p = true ∧ kept_open p ∧
  (∃ quit, match at_ p with
           | Exited 0 => history p = chronology quit
           | Exited code => code = 1 ∧ cut_short quit (history p)
           | _ => history p `prefix_of` chronology quit ∧ history p ≠ []
           end) ∧
  (all_settle (remaining Running) after_signal → ∃ code, at_ p = Exited code).
Proof.
  intros Hb p.
  assert (Hp : p = lifecycle (lifecycle_step serving Signal) after_signal)
    by (unfold p, lifecycle; rewrite foldl_app; fold (lifecycle serving before_signal); by rewrite unsignalled).
  pose proof (orderly_run after_signal _ (orderly_signal _ serving_orderly)) as Ho. rewrite <- Hp in Ho.
  assert (Hw : at_ p ≠ Running) by (rewrite Hp; apply signalled_stays; [apply orderly_signal, serving_orderly | done]).
  destruct Ho as (Hs & Hk & quit & Hd). split; [by apply unsignalled |]. split; [| split; [done | split]].
  - rewrite Hs. by destruct (at_ p).
  - exists quit. destruct (at_ p) as [| | | | | | | [|[]|]]; try done; destruct Hd as [-> _]; (split; [apply reached_prefix | by destruct quit]).
  - intros Hl. rewrite Hp. by apply all_settled_exit; [apply orderly_signal, serving_orderly | ..].
Qed.

Lemma shutdown_orderly_witness :
  let p := lifecycle serving ([Settles EndPool true] ++ Signal :: [Settles CloseApp true; Signal; Settles QuitRedis true;
    Settles StopMonitor true; Settles FlushLogs true; Settles QuitRedis false; Signal; Settles EndPool true; Settles StopTracing true]) in
  (∃ quit, history p = chronology quit) ∧ at_ p = Exited 0 ∧ kept_open p ∧ ∃ code, at_ p = Exited code.
Proof.
  destruct (shutdown_orderly [Settles EndPool true] [Settles CloseApp true; Signal; Settles QuitRedis true;
    Settles StopMonitor true; Settles FlushLogs true; Settles QuitRedis false; Signal; Settles EndPool true; Settles StopTracing true])
    as (_ & _ & Hk & [quit Hq] & He).
  - apply not_elem_of_cons. split; [done | apply not_elem_of_nil].
  - split; [by exists quit |]. split; [done |]. split; [done |]. apply He.
    exists (λ a, negb (bool_decide (a = QuitRedis))). cbn. repeat (apply sublist_skip || apply sublist_cons). apply sublist_nil_l.
Defined.

(** Connections are given back, whatever fails. *)
Lemma warm_up_returns target connects : (warmUpPool target connects).1 = (warmUpPool target connects).2 ∧
  (Z.of_nat (warmUpPool target connects).1 <= Z.max 0 target).
Proof.
  unfold warmUpPool. destruct (target <=? 0) eqn:E; cbn; (split; [done |]); bool_props; [lia |].
  assert (Hn : ∀ n i, (open_clients n connects i <= n)%nat) by (induction n as [|n IH]; intros i; cbn; [lia |]; destruct (connects i); [specialize (IH (S i)) |]; lia).
  specialize (Hn (Z.to_nat target) 0%nat). lia.
Qed.

(** A drain that takes too long: what follows it is skipped. *)
Example drain_timeout :
  let p := lifecycle serving [Signal; Settles CloseApp false] in history p = [Did CloseApp; Settled CloseApp false] ∧ at_ p = Exited 1 ∧ client_open p = true ∧ pool_open p = true.
Proof. by vm_compute. Qed.
