(* ===== verification/Connections.v ===== *)
(** * Shared connections and singletons ([database/index.ts], [database/redis.ts],
    [index.ts] and the [get...] function of each service)

    The options the drivers are made with, the module variables that hold the one
    pool, the one client and the one instance of each service, and tracing. *)

From Stdlib Require Import ZArith Lia QArith String.
From stdpp Require Import base strings list.
From S2P Require Import Prelude Redis Numerals Errors CircuitBreaker Values Configuration Lifecycle.
Open Scope Z_scope.

(** ** Options *)

Record PoolConfig := {
  connectionString : string; max : Z; idleTimeoutMillis : Z; connectionTimeoutMillis : Z; statement_timeout : Z;
  query_timeout : Z; application_name : string; rejectUnauthorized : option bool
}.
Definition buildPoolConfig (c : AppConfig) : PoolConfig := {|
  connectionString := DATABASE_URL c; max := DATABASE_POOL_MAX c; idleTimeoutMillis := DATABASE_IDLE_TIMEOUT_MS c;
  connectionTimeoutMillis := DATABASE_CONNECTION_TIMEOUT_MS c; statement_timeout := DATABASE_STATEMENT_TIMEOUT_MS c;
  query_timeout := DATABASE_STATEMENT_TIMEOUT_MS c; application_name := OTEL_SERVICE_NAME c;
  rejectUnauthorized := if DATABASE_SSL c then Some true else None |}.

Record RedisOptions := {
  connectTimeout : Z; maxRetriesPerRequest : Z; enableReadyCheck : bool; enableAutoPipelining : bool;
  retry_after : Z → Z; reconnectOnError : string → bool; lazyConnect : bool
}.
Definition buildOptions (c : AppConfig) : RedisOptions := {|
  connectTimeout := REDIS_CONNECT_TIMEOUT_MS c; maxRetriesPerRequest := REDIS_MAX_RETRIES_PER_REQUEST c; enableReadyCheck := true;
  enableAutoPipelining := true; retry_after := retryStrategy; reconnectOnError message := includes "READONLY" message; lazyConnect := false |}.

(** [CircuitBreaker]'s constructor: given options over the configured ones. *)
Record partial_options := {
  po_failureThreshold : option Z; po_successThreshold : option Z; po_timeoutMs : option Z; po_windowMs : option Z;
  po_halfOpenMaxProbes : option Z
}.
Definition no_partial : partial_options := Build_partial_options None None None None None.
Definition breaker_with (c : AppConfig) (o : partial_options) : CircuitBreakerOptions := {|
  failureThreshold := po_failureThreshold o ?? CB_FAILURE_THRESHOLD c;
  successThreshold := po_successThreshold o ?? CB_SUCCESS_THRESHOLD c;
  CircuitBreaker.timeoutMs := po_timeoutMs o ?? CB_TIMEOUT_MS c;
  windowMs := po_windowMs o ?? CB_WINDOW_MS c;
  halfOpenMaxProbes := po_halfOpenMaxProbes o ?? CB_HALF_OPEN_MAX_PROBES c |}.

(** ** Tracing *)

Record Tracer := { sampler_ratio : Q; service_name : string; exporter_url : option string }.
Definition tracer_of (c : AppConfig) : Tracer := {|
  sampler_ratio := OTEL_TRACES_SAMPLER_RATIO c; service_name := OTEL_SERVICE_NAME c;
  exporter_url := (λ e, e ++ "/v1/traces")%string <$> OTEL_EXPORTER_OTLP_ENDPOINT c |}.

(** [initTracing]: the tracer that was started, which the stop function shuts
    down; [failure] is what importing or starting the SDK throws. *)
Definition initTracing (c : AppConfig) (failure : option thrown) : option Tracer :=
  if negb (OTEL_ENABLED c) then None
  else match failure with Some _ => None | None => Some (tracer_of c) end.

(** What a parent-based sampler over a ratio does: the parent's decision, else
    that of the trace id, a number in [0, 1). *)
Definition sampled (t : Tracer) (parent : option bool) (trace : Q) : bool :=
  match parent with Some b => b | None => negb (Qle_bool (sampler_ratio t) trace) end.

(** ** Module variables *)

(** Pools and clients are numbered as they are made. [db] is the pool the ORM's
    client is over; a service holds the Redis client it was constructed with. *)
Inductive service := Breaker | Balancer | Limiter | CacheService.
#[export] Instance service_eq_dec : EqDecision service.
Proof. solve_decision. Defined.

Record resources := {
  pool : option nat; db : option nat; client : option nat; holds : service → option nat;
  router : option nat; pools_made : nat; clients_made : nat; pools_ended : list nat; clients_ended : list nat
}.
Definition fresh : resources := {|
  pool := None; db := None; client := None; holds _ := None; router := None; pools_made := 0; clients_made := 0;
  pools_ended := []; clients_ended := [] |}.

Definition getPool (s : resources) : resources * nat :=
  match pool s with
  | Some p => (s, p)
  | None =>
      let p := pools_made s in
      ({| pool := Some p; db := db s; client := client s; holds := holds s; router := router s; pools_made := S p;
          clients_made := clients_made s; pools_ended := pools_ended s; clients_ended := clients_ended s |}, p)
  end.

Definition getDb (s : resources) : resources * nat :=
  match db s with
  | Some p => (s, p)
  | None =>
      let '(s, p) := getPool s in
      ({| pool := pool s; db := Some p; client := client s; holds := holds s; router := router s; pools_made := pools_made s;
          clients_made := clients_made s; pools_ended := pools_ended s; clients_ended := clients_ended s |}, p)
  end.

(** [closeDatabase]; the pool is ended even if [end] rejects. *)
Definition close_pool (s : resources) : resources :=
  match pool s with
  | None => s
  | Some p => {| pool := None; db := None; client := client s; holds := holds s; router := router s; pools_made := pools_made s;
                 clients_made := clients_made s; pools_ended := (pools_ended s ++ [p])%list; clients_ended := clients_ended s |}
  end.

Definition getRedis (s : resources) : resources * nat :=
  match client s with
  | Some c => (s, c)
  | None =>
      let c := clients_made s in
      ({| pool := pool s; db := db s; client := Some c; holds := holds s; router := router s; pools_made := pools_made s;
          clients_made := S c; pools_ended := pools_ended s; clients_ended := clients_ended s |}, c)
  end.

(** [closeRedis]: quit, or disconnect when that rejects. *)
Definition close_client (s : resources) : resources :=
  match client s with
  | None => s
  | Some c => {| pool := pool s; db := db s; client := None; holds := holds s; router := router s; pools_made := pools_made s;
                 clients_made := clients_made s; pools_ended := pools_ended s; clients_ended := (clients_ended s ++ [c])%list |}
  end.

(** [getCircuitBreaker], [getLoadBalancer], [getRateLimiter] and [getCache]: the
    instance, made over the shared client on first call. *)
Definition get_service (x : service) (s : resources) : resources * nat :=
  match holds s x with
  | Some c => (s, c)
  | None =>
      let '(s, c) := getRedis s in
      ({| pool := pool s; db := db s; client := client s; holds y := if decide (y = x) then Some c else holds s y; router := router s;
          pools_made := pools_made s; clients_made := clients_made s; pools_ended := pools_ended s; clients_ended := clients_ended s |}, c)
  end.

Definition getCircuitBreaker : resources → resources * nat := get_service Breaker.
Definition getLoadBalancer : resources → resources * nat := get_service Balancer.
Definition getRateLimiter : resources → resources * nat := get_service Limiter.
Definition getCache : resources → resources * nat := get_service CacheService.

Definition initRouter (deps : nat) (s : resources) : resources :=
  {| pool := pool s; db := db s; client := client s; holds := holds s; router := Some deps; pools_made := pools_made s;
     clients_made := clients_made s; pools_ended := pools_ended s; clients_ended := clients_ended s |}.
Definition getRouter (s : resources) : result thrown nat :=
  match router s with
  | None => Err (TError "Error" "Router not initialised. Call initRouter() during startup." [])
  | Some deps => Ok deps
  end.

Inductive resource_op := GetPool | GetDb | CloseDatabase | GetRedis | CloseRedis | GetService (x : service) | InitRouter (deps : nat).
Definition resource_step (s : resources) (o : resource_op) : resources :=
  match o with
  | GetPool => (getPool s).1
  | GetDb => (getDb s).1
  | CloseDatabase => close_pool s
  | GetRedis => (getRedis s).1
  | CloseRedis => close_client s
  | GetService x => (get_service x s).1
  | InitRouter deps => initRouter deps s
  end.
Definition resources_after (ops : list resource_op) : resources := foldl resource_step fresh ops.

(** ** Invariant *)

Definition listed (o : option nat) : list nat := match o with Some p => [p] | None => [] end.

(** Every pool and client made was ended, in order, but the current one; the
    ORM's client is over the current pool; a service holds a client that was
    made, the current one if none was closed. *)
Record well_kept (s : resources) : Prop := {
  pools_kept : (pools_ended s ++ listed (pool s))%list = seq 0 (pools_made s);
  clients_kept : (clients_ended s ++ listed (client s))%list = seq 0 (clients_made s);
  db_current p : db s = Some p → pool s = Some p;
  holds_made x c : holds s x = Some c → (c < clients_made s)%nat ∧ (clients_ended s = [] → client s = Some c)
}.

Lemma listed_new l o n : o = None → (l ++ listed o)%list = seq 0 n → (l ++ [n])%list = seq 0 (S n).
Proof. intros ->. rewrite app_nil_r. intros ->. by rewrite seq_S. Qed.

Lemma getPool_kept s : well_kept s → well_kept (getPool s).1.
Proof.
  intros Hk. unfold getPool. destruct (pool s) as [p|] eqn:E; [exact Hk |]. destruct Hk as [Hp Hc Hd Hh].
  split; cbn [fst pool db client holds pools_made clients_made pools_ended clients_ended listed]; try done.
  - rewrite E in Hp. exact (listed_new _ None _ eq_refl Hp).
  - intros p Hdb. specialize (Hd p Hdb). congruence.
Qed.
Lemma getPool_current s : pool (getPool s).1 = Some (getPool s).2.
Proof. unfold getPool. by destruct (pool s) eqn:E. Qed.

Lemma getRedis_kept s : well_kept s → well_kept (getRedis s).1.
Proof.
  intros Hk. unfold getRedis. destruct (client s) as [c|] eqn:E; [exact Hk |]. destruct Hk as [Hp Hc Hd Hh].
  split; cbn [fst pool db client holds pools_made clients_made pools_ended clients_ended listed]; try done.
  - rewrite E in Hc. exact (listed_new _ None _ eq_refl Hc).
  - intros x c Hx. destruct (Hh x c Hx) as [H1 H2]. split; [lia |]. intros He. specialize (H2 He). congruence.
Qed.
Lemma getRedis_current s : well_kept s → client (getRedis s).1 = Some (getRedis s).2 ∧ ((getRedis s).2 < clients_made (getRedis s).1)%nat.
Proof.
  intros Hk. unfold getRedis. destruct (client s) as [c|] eqn:E; cbn; [| split; [done | lia]]. split; [done |].
  assert (Hin : c ∈ seq 0 (clients_made s)) by (rewrite <- (clients_kept s Hk), E; apply elem_of_app; right; by left).
  apply elem_of_seq in Hin. lia.
Qed.

Lemma step_kept s o : well_kept s → well_kept (resource_step s o).
Proof.
  intros Hk. destruct o; cbn [resource_step].
  - by apply getPool_kept.
  - unfold getDb. destruct (db s) eqn:E; [done |]. pose proof (getPool_kept s Hk) as [Hp Hc Hd Hh]. pose proof (getPool_current s) as Hcur.
    destruct (getPool s) as [s' p]. cbn [fst snd] in *. split; cbn; try done. by intros q [= <-].
  - unfold close_pool. destruct (pool s) as [p|] eqn:E; [| done]. destruct Hk as [Hp Hc Hd Hh]. rewrite E in Hp.
    split; cbn; try done. by rewrite app_nil_r.
  - by apply getRedis_kept.
  - unfold close_client. destruct (client s) as [c|] eqn:E; [| done]. destruct Hk as [Hp Hc Hd Hh]. rewrite E in Hc.
    split; cbn; try done; [by rewrite app_nil_r |]. intros x c' Hx. destruct (Hh x c' Hx) as [H1 _]. split; [done |].
    intros He. by apply app_nil in He as [_ ?].
  - unfold get_service. destruct (holds s x) eqn:E; [done |]. pose proof (getRedis_kept s Hk) as [Hp Hc Hd Hh].
    destruct (getRedis_current s Hk) as [Hcur Hlt]. destruct (getRedis s) as [s' c]. cbn [fst snd] in *. split; cbn; try done.
    intros y c'. case_decide; [intros [= <-]; by split | apply Hh].
  - by destruct Hk.
Qed.

Lemma after_kept ops : well_kept (resources_after ops).
Proof.
  unfold resources_after. induction ops as [|o ops IH] using rev_ind; [by split |]. rewrite foldl_app. by apply step_kept.
Qed.

Lemma nothing_closed ops : CloseRedis ∉ ops → clients_ended (resources_after ops) = [].
Proof.
  unfold resources_after. induction ops as [|o ops IH] using rev_ind; [done |]. rewrite foldl_app. cbn [foldl].
  rewrite not_elem_of_app. intros [Hn Ho]. specialize (IH Hn). destruct o; cbn [resource_step]; try done.
  - unfold getPool. by destruct (pool _).
  - unfold getDb, getPool. destruct (db _); [done |]. by destruct (pool _).
  - unfold close_pool. by destruct (pool _).
  - unfold getRedis. by destruct (client _).
  - by destruct Ho; left.
  - unfold get_service, getRedis. destruct (holds _ _); [done |]. by destruct (client _).
Qed.

(** Asking and closing leave the services that exist, and the router. *)
Lemma step_holds s o x c : holds s x = Some c → holds (resource_step s o) x = Some c.
Proof.
  intros Hx. destruct o as [| | | | | y |]; cbn [resource_step]; try done.
  - unfold getPool. by destruct (pool s).
  - unfold getDb, getPool. destruct (db s); [done |]. by destruct (pool s).
  - unfold close_pool. by destruct (pool s).
  - unfold getRedis. by destruct (client s).
  - unfold close_client. by destruct (client s).
  - unfold get_service, getRedis. destruct (holds s y) eqn:E; [done |]. destruct (client s); cbn; case_decide; congruence.
Qed.
Lemma steps_hold more : ∀ s x c, holds s x = Some c → holds (foldl resource_step s more) x = Some c.
Proof. induction more as [|o more IH]; intros s x c Hx; [done |]. cbn [foldl]. by apply IH, step_holds. Qed.

Lemma step_router s o : router (resource_step s o) = match o with InitRouter deps => Some deps | _ => router s end.
Proof.
  destruct o; cbn [resource_step]; try done.
  - unfold getPool. by destruct (pool s).
  - unfold getDb, getPool. destruct (db s); [done |]. by destruct (pool s).
  - unfold close_pool. by destruct (pool s).
  - unfold getRedis. by destruct (client s).
  - unfold close_client. by destruct (client s).
  - unfold get_service, getRedis. destruct (holds s x); [done |]. by destruct (client s).
Qed.

Lemma router_last ops : router (resources_after ops) = last (omap (λ o, match o with InitRouter deps => Some deps | _ => None end) ops).
Proof.
  unfold resources_after. induction ops as [|o ops IH] using rev_ind; [done |]. rewrite foldl_app, omap_app. cbn [foldl].
  rewrite step_router, IH. destruct o; cbn; by rewrite ?app_nil_r, ?last_snoc.
Qed.

(** What is numbered in order is distinct, and the next number is new. *)
Lemma in_order_distinct l o n : (l ++ listed o)%list = seq 0 n → NoDup l ∧ (∀ p, o = Some p → p ∉ l) ∧ n ∉ l.
Proof.
  intros E. pose proof (NoDup_seq 0 n) as Hn. rewrite <- E, NoDup_app in Hn. destruct Hn as (H1 & H2 & _). split; [done |]. split.
  - intros p -> Hp. apply (H2 p Hp). by left.
  - intros Hin. assert (H : n ∈ seq 0 n) by (rewrite <- E; apply elem_of_app; by left). apply elem_of_seq in H. lia.
Qed.

Lemma service_shares ops x : CloseRedis ∉ ops → (get_service x (resources_after ops)).2 = (getRedis (resources_after ops)).2.
Proof.
  intros Hn. pose proof (after_kept ops) as Hk. set (s := resources_after ops) in *. unfold get_service.
  destruct (holds s x) as [c|] eqn:E; [| by destruct (getRedis s)].
  destruct (holds_made s Hk x c E) as [_ Hc]. unfold getRedis. by rewrite (Hc (nothing_closed ops Hn)).
Qed.

(** ** Theorem *)

(** One connection of each kind. Whatever is asked for and closed, in any order:
    at most one pool and one client exist at a time, each one made was ended
    exactly once before the next; neither the ORM nor a caller is given an ended
    one; and until the client is closed every service holds the one client. A
    service keeps its client for good, also when that was closed. The router is
    the one initialised last, and an error before. *)
Theorem connections_shared ops :
  let s := resources_after ops in
  ((pools_ended s ++ listed (pool s))%list = seq 0 (pools_made s) ∧
   (clients_ended s ++ listed (client s))%list = seq 0 (clients_made s) ∧ NoDup (pools_ended s) ∧ NoDup (clients_ended s)) ∧
  (¬ (snd (getDb s) ∈ pools_ended s) ∧ ¬ (snd (getRedis s) ∈ clients_ended s)) ∧
  (CloseRedis ∉ ops → ∀ x, (get_service x s).2 = (getRedis s).2) ∧
  (∀ x c more, holds s x = Some c → (get_service x (foldl resource_step s more)).2 = c) ∧
  getRouter s = match last (omap (λ o, match o with InitRouter deps => Some deps | _ => None end) ops) with
                | Some deps => Ok deps
                | None => Err (TError "Error" "Router not initialised. Call initRouter() during startup." [])
                end.
Proof.
  cbv zeta. pose proof (after_kept ops) as Hk. unfold getRouter. rewrite router_last.
  destruct (in_order_distinct _ _ _ (pools_kept _ Hk)) as (P1 & P2 & P3). destruct (in_order_distinct _ _ _ (clients_kept _ Hk)) as (C1 & C2 & C3).
  split; [split_and!; [apply Hk | apply Hk | done | done] |]. split; [split |]; [| | split; [| split]].
  - unfold getDb. destruct (db _) as [p|] eqn:E; [apply P2; by apply Hk |]. unfold getPool. destruct (pool _) eqn:Ep; cbn; [by apply P2 | done].
  - unfold getRedis. destruct (client _) eqn:E; cbn; [by apply C2 | done].
  - intros Hn x. by apply service_shares.
  - intros x c more Hx. unfold get_service. by rewrite (steps_hold more _ x c Hx).
  - by destruct (last _).
Qed.

(** The options are the configuration's: every statement is bounded by the same
    time on both sides, certificates are checked whenever TLS is on, the delay
    before a reconnection is bounded, and a breaker without options of its own
    has the configured, valid ones. *)
Theorem options_configured c times : config_ok c → 1 <= times →
  (query_timeout (buildPoolConfig c) = statement_timeout (buildPoolConfig c) ∧ 1 <= max (buildPoolConfig c) ∧
   (rejectUnauthorized (buildPoolConfig c) = Some true ↔ DATABASE_SSL c = true)) ∧
  200 <= retry_after (buildOptions c) times <= 2000 ∧
  options_ok (breaker_with c no_partial) ∧
  (∀ failure, is_Some (initTracing c failure) ↔ OTEL_ENABLED c = true ∧ failure = None) ∧
  ∀ trace, (0 <= trace < 1)%Q →
    ((OTEL_TRACES_SAMPLER_RATIO c == 0)%Q → sampled (tracer_of c) None trace = false) ∧
    ((OTEL_TRACES_SAMPLER_RATIO c == 1)%Q → sampled (tracer_of c) None trace = true) ∧
    ∀ b, sampled (tracer_of c) (Some b) trace = b.
Proof.
  intros Hc Ht. split_and!.
  - done.
  - by apply Hc.
  - cbn. by destruct (DATABASE_SSL c).
  - by apply retryStrategy_bounds.
  - by apply retryStrategy_bounds.
  - exact (ok_breaker c Hc).
  - intros failure. unfold initTracing. destruct (OTEL_ENABLED c), failure; cbn; split; try done; try (by intros [? ?]); by eexists.
  - intros trace [H0 H1]. unfold sampled, tracer_of, sampler_ratio. split_and!; [| | done]; intros E.
    + apply negb_false_iff, Qle_bool_iff. by rewrite E.
    + apply negb_true_iff, not_true_iff_false. rewrite Qle_bool_iff, E. by apply Qlt_not_le.
Qed.

(** Warming up the pool opens what the pool can hold: a minimum above the maximum
    is accepted by the configuration, and its warm-up ends at the maximum, when
    the next connection times out. *)
Lemma warm_up_reaches target (limit : nat) : warmUpPool target (λ i, (i <? limit)%nat) =
  (Nat.min (Z.to_nat target) limit, Nat.min (Z.to_nat target) limit).
Proof.
  assert (H : ∀ n i, (i <= limit)%nat → open_clients n (λ i, (i <? limit)%nat) i = Nat.min n (limit - i)).
  { induction n as [|n IH]; intros i Hi; [done |]. cbn [open_clients]. destruct (Nat.ltb_spec i limit); [rewrite IH by lia; lia | lia]. }
  unfold warmUpPool. destruct (Z.leb_spec target 0); [by rewrite Z2Nat.nonpos |]. rewrite H by lia. by rewrite Nat.sub_0_r.
Qed.
