(* ===== verification/Operations.v ===== *)
(** * Operational scripts ([scripts/migrate.ts], [scripts/create-partition.ts])

    The migration runner over a ledger of applied files, and the month whose
    partition is created. *)

From Stdlib Require Import ZArith Lia QArith String Ascii.
From stdpp Require Import base strings list.
From S2P Require Import Prelude Redis Numerals Json Errors Types CostTracker Values Configuration.
Open Scope Z_scope.

(** ** Migrations *)

Definition NO_TX_DIRECTIVE : string := "-- migrate:no-transaction".

Section Migrate.
(** The schema, and what running a file's SQL makes of it: where it fails, the
    effects of the statements before. *)
Context {Schema : Type}.
Variable exec_sql : string → Schema → Schema * option thrown.
(** [String.prototype.localeCompare], of the host's collation. *)
Variable localeCompare : string → string → Z.

Record database := { schema : Schema; ledger : list string }.

(** What happens around a run: the files, their contents, and for each file the
    error of its entry in the ledger and the fate of its commit. *)
Record migration_env := {
  m_dir : list string; m_read : string → result thrown string; m_insert : string → option thrown; m_commit : string → fault
}.

Definition interrupted : thrown := TError "Error" "Connection terminated unexpectedly" [].

Definition record_name (name : string) (s : Schema) (db : database) : database :=
  {| schema := s; ledger := (ledger db ++ [name])%list |}.

(** BEGIN, the file, its entry, COMMIT; or ROLLBACK. *)
Definition applyTransactional (env : migration_env) (name sql : string) (db : database) : database * result thrown unit :=
  match exec_sql sql (schema db) with
  | (_, Some e) => (db, Err e)
  | (s, None) =>
      match m_insert env name with
      | Some e => (db, Err e)
      | None =>
          match m_commit env name with
          | Up => (record_name name s db, Ok tt)
          | Lost => (record_name name s db, Err interrupted)
          | Down => (db, Err interrupted)
          end
      end
  end.

Definition applyNonTransactional (env : migration_env) (name sql : string) (db : database) : database * result thrown unit :=
  match exec_sql sql (schema db) with
  | (s, Some e) => ({| schema := s; ledger := ledger db |}, Err e)
  | (s, None) =>
      match m_insert env name with
      | Some e => ({| schema := s; ledger := ledger db |}, Err e)
      | None => (record_name name s db, Ok tt)
      end
  end.

Definition apply_file (env : migration_env) (file : string) (db : database) : database * result thrown unit :=
  match m_read env file with
  | Err e => (db, Err e)
  | Ok sql =>
      if includes NO_TX_DIRECTIVE sql then applyNonTransactional env file sql db else applyTransactional env file sql db
  end.

(** The loop, over the names read from the ledger before it. *)
Fixpoint apply_all (env : migration_env) (applied : list string) (files : list string) (db : database) (appliedCount : Z)
    : database * result thrown Z :=
  match files with
  | [] => (db, Ok appliedCount)
  | file :: files' =>
      if bool_decide (file ∈ applied) then apply_all env applied files' db appliedCount
      else match apply_file env file db with
           | (db, Ok _) => apply_all env applied files' db (appliedCount + 1)
           | (db, Err e) => (db, Err e)
           end
  end.

Definition migration_files (env : migration_env) : list string :=
  sort_by (λ a b, localeCompare a b <=? 0) (filter (λ f, ends_with ".sql" f = true) (m_dir env)).

Definition run_migrations (env : migration_env) (db : database) : database * result thrown Z :=
  apply_all env (ledger db) (migration_files env) db 0.

(** *** Lemmas *)

(** The files that are not in the ledger yet, in order. *)
Definition pending (applied files : list string) : list string := filter (λ f, f ∉ applied) files.

(** The schema after some files, all of whose SQL runs. *)
Fixpoint schema_after (env : migration_env) (names : list string) (s : Schema) : option Schema :=
  match names with
  | [] => Some s
  | name :: names' =>
      match m_read env name with
      | Ok sql => match exec_sql sql s with (s', None) => schema_after env names' s' | _ => None end
      | Err _ => None
      end
  end.

Definition transactional (env : migration_env) (file : string) : Prop :=
  ∀ sql, m_read env file = Ok sql → includes NO_TX_DIRECTIVE sql = false.

(** One file: applied and recorded, or not recorded; a transactional one leaves
    no trace then. *)
Lemma apply_file_cases env file db db' r : apply_file env file db = (db', r) →
  (ledger db' = (ledger db ++ [file])%list ∧ schema_after env [file] (schema db) = Some (schema db')) ∨
  (∃ e, r = Err e) ∧ ledger db' = ledger db ∧ (transactional env file → db' = db).
Proof using.
  unfold apply_file. cbn [schema_after]. unfold transactional. destruct (m_read env file) as [sql|e] eqn:Er.
  2: { intros [= <- <-]. right. split_and!; [by eexists | done | done]. }
  destruct (includes NO_TX_DIRECTIVE sql) eqn:Ei.
  - unfold applyNonTransactional. destruct (exec_sql sql (schema db)) as [s [e|]].
    + intros [= <- <-]. right. split_and!; [by eexists | done |]. intros Ht. by rewrite (Ht sql) in Ei.
    + destruct (m_insert env file); intros [= <- <-]; [| by left].
      right. split_and!; [by eexists | done |]. intros Ht. by rewrite (Ht sql) in Ei.
  - unfold applyTransactional. destruct (exec_sql sql (schema db)) as [s [e|]].
    + intros [= <- <-]. right. by split_and!; [eexists | |].
    + destruct (m_insert env file); [intros [= <- <-]; right; by split_and!; [eexists | |] |].
      destruct (m_commit env file); intros [= <- <-]; [by left | right; by split_and!; [eexists | |] | by left].
Qed.

Lemma schema_after_app env l1 l2 s : schema_after env (l1 ++ l2) s = schema_after env l1 s ≫= schema_after env l2.
Proof using.
  revert s. induction l1 as [|n l1 IH]; intros s; [done |]. cbn [app schema_after].
  destruct (m_read env n) as [sql|]; [| done]. destruct (exec_sql sql s) as [s' [e|]]; [done | apply IH].
Qed.

Lemma apply_all_pending env applied files : ∀ db k db' r, apply_all env applied files db k = (db', r) →
  ∃ done_, done_ `prefix_of` pending applied files ∧ ledger db' = (ledger db ++ done_)%list ∧
    (Forall (transactional env) files → schema_after env done_ (schema db) = Some (schema db')) ∧
    (∀ n, r = Ok n → done_ = pending applied files ∧ n = k + Z.of_nat (length done_) ∧
       schema_after env done_ (schema db) = Some (schema db')).
Proof using.
  induction files as [|file files IH]; intros db k db' r; cbn [apply_all].
  { intros [= <- <-]. exists []. rewrite app_nil_r. split_and!; [apply prefix_nil | done | done |].
    intros n [= <-]. split_and!; [done | cbn [length]; lia | done]. }
  unfold pending. destruct (decide (file ∈ applied)) as [E | E]; [rewrite bool_decide_true by done | rewrite bool_decide_false by done].
  - rewrite filter_cons_False by (intros H; by apply H). intros (l & H1 & H2 & H3 & H4)%IH. exists l. split_and!; try done.
    intros Ht. apply H3. by inv Ht.
  - rewrite filter_cons_True by done. destruct (apply_file env file db) as [db1 [[]|e]] eqn:Ea.
    + intros (l & H1 & H2 & H3 & H4)%IH.
      destruct (apply_file_cases env file db db1 _ Ea) as [[Hl Hs] | [[e He] _]]; [| done]. exists (file :: l).
      change (file :: l) with ([file] ++ l)%list. split_and!.
      * by apply prefix_cons.
      * by rewrite H2, Hl, <- app_assoc.
      * intros Ht. rewrite schema_after_app, Hs. cbn. apply H3. by inv Ht.
      * intros n Hn. destruct (H4 n Hn) as (-> & -> & Hsc). split_and!; [done | cbn [app length]; lia |].
        rewrite schema_after_app, Hs. exact Hsc.
    + intros [= <- <-]. destruct (apply_file_cases env file db db1 _ Ea) as [[Hl Hs] | (_ & Hl & Ht)].
      * exists [file]. split_and!; [by exists (filter (λ f, f ∉ applied) files) | done | done | done].
      * exists []. rewrite app_nil_r. split_and!; [by apply prefix_nil | done | | done].
        intros Hall. inv Hall. rewrite (Ht ltac:(done)). done.
Qed.

Lemma all_applied env applied files db k : Forall (λ f, f ∈ applied) files → apply_all env applied files db k = (db, Ok k).
Proof using.
  induction 1 as [|f files Hf _ IH]; [done |]. cbn [apply_all]. by rewrite bool_decide_eq_true_2.
Qed.
End Migrate.

(** ** The partition of a month *)

(** [targetYearMonth]: the arguments, else the month after now ([Date.UTC] carries
    a month past December into the next year). *)
Definition targetYearMonth (args : option (js_number * js_number)) (nowMs : Z) : js_number * js_number :=
  match args with
  | Some ym => ym
  | None =>
      let '(year, month) := month_of nowMs in
      (* [getUTCMonth() + 1], counted from 0 *)
      let index := month in
      (Finite (inject_Z (year + index / 12)), Finite (inject_Z (index mod 12 + 1)))
  end.

(** The year and month the partition function is called with. *)
Definition create_partition (args : option (js_number * js_number)) (nowMs : Z) : result thrown (Z * Z) :=
  let '(year, month) := targetYearMonth args nowMs in
  match integer_of year, integer_of month with
  | Some y, Some m => if (m <? 1) || (12 <? m) then Err (TError "Error" "Invalid year/month" []) else Ok (y, m)
  | _, _ => Err (TError "Error" "Invalid year/month" [])
  end.

(** ** Theorems *)

(** The migration runner is safe to interrupt and to run again. Whatever
    fails and wherever, the ledger grows by an initial part of the files that
    were not in it, in order; if every file is transactional the schema is what
    exactly the recorded files make of it, nothing half applied; a run that
    succeeds has recorded all of them; and a further run over the same files
    then applies none and changes nothing. *)
Theorem migrations_resumable {Schema} (exec_sql : string → Schema → Schema * option thrown) localeCompare env env' db db' r :
  run_migrations exec_sql localeCompare env db = (db', r) → m_dir env' = m_dir env →
  ∃ applied, applied `prefix_of` pending (ledger db) (migration_files localeCompare env) ∧
    ledger db' = (ledger db ++ applied)%list ∧
    (Forall (transactional env) (migration_files localeCompare env) →
       schema_after exec_sql env applied (schema db) = Some (schema db')) ∧
    ∀ n, r = Ok n →
      applied = pending (ledger db) (migration_files localeCompare env) ∧ n = Z.of_nat (length applied) ∧
      schema_after exec_sql env applied (schema db) = Some (schema db') ∧
      run_migrations exec_sql localeCompare env' db' = (db', Ok 0).
Proof.
  intros E Hd. destruct (apply_all_pending exec_sql env (ledger db) _ db 0 db' r E) as (l & H1 & H2 & H3 & H4).
  exists l. split_and!; [done | done | done |]. intros n Hn. destruct (H4 n Hn) as (Hl & Hk & Hs).
  split_and!; [done | lia | done |]. unfold run_migrations.
  assert (Hf : migration_files localeCompare env' = migration_files localeCompare env) by (unfold migration_files; by rewrite Hd).
  rewrite Hf. apply all_applied, list.Forall_forall. intros f Hin. rewrite H2, Hl. apply elem_of_app.
  destruct (decide (f ∈ ledger db)) as [? | Hno]; [by left | right]. unfold pending. by apply list_elem_of_filter.
Qed.

(** Statements are words; [boom] fails after the first. *)
Definition toy_sql (sql : string) (s : list string) : list string * option thrown :=
  if String.eqb sql "boom" then ((s ++ ["half"])%list, Some interrupted) else ((s ++ [sql])%list, None).
Definition toy_env (second : string) : migration_env :=
  {| m_dir := ["b.sql"; "README.md"; "a.sql"]%string;
     m_read := λ f, Ok (if String.eqb f "a.sql" then "create"%string else second);
     m_insert := λ _, None; m_commit := λ _, Up |}.
Definition by_bytes (a b : string) : Z := match String.compare a b with Lt => -1 | Eq => 0 | Gt => 1 end.

(** The second file fails and leaves nothing; mended, it is applied alone. *)
Lemma migrations_resumable_witness :
  let db1 := (run_migrations toy_sql by_bytes (toy_env "boom") {| schema := []; ledger := [] |}).1 in
  (ledger db1 = ["a.sql"%string] ∧ schema_after toy_sql (toy_env "boom") ["a.sql"%string] [] = Some (schema db1)) ∧
  let db2 := (run_migrations toy_sql by_bytes (toy_env "alter") db1).1 in
  schema db2 = ["create"; "alter"]%string ∧
  run_migrations toy_sql by_bytes (toy_env "boom") db2 = (db2, Ok 0).
Proof.
  intros db1.
  destruct (run_migrations toy_sql by_bytes (toy_env "boom") {| schema := []; ledger := [] |}) as [d1 r1] eqn:E1.
  destruct (migrations_resumable toy_sql by_bytes (toy_env "boom") (toy_env "boom") {| schema := []; ledger := [] |} d1 r1 E1 eq_refl)
    as (l & _ & Hl & Hs & _).
  assert (Hd : ledger d1 = ["a.sql"%string]) by (vm_compute in E1; by injection E1 as <- _).
  rewrite Hd in Hl. cbn [ledger app] in Hl. subst l.
  split; [split; [exact Hd | apply Hs; vm_compute migration_files; repeat constructor; by intros sql [= <-]] |].
  intros db2. split; [vm_compute in E1; injection E1 as <- _; by vm_compute |].
  destruct (run_migrations toy_sql by_bytes (toy_env "alter") db1) as [d2 r2] eqn:E2.
  destruct (migrations_resumable toy_sql by_bytes (toy_env "alter") (toy_env "boom") db1 d2 r2 E2 eq_refl) as (l & _ & _ & _ & H).
  assert (Hr : r2 = Ok 1) by (unfold db1 in E2; vm_compute in E1; injection E1 as <- _; vm_compute in E2; by injection E2 as _ <-).
  unfold db2. cbn [fst]. by destruct (H 1 Hr) as (_ & _ & _ & ->).
Defined.

(** The months named by number, from 0. *)
Definition month_number (ym : Z * Z) : Z := 12 * ym.1 + ym.2 - 1.

Lemma month_range nowMs : 1 <= (month_of nowMs).2 <= 12.
Proof.
  unfold month_of, civil_month. cbv zeta. cbn [snd]. set (z := nowMs / MS_PER_DAY + 719468).
  pose proof (day_of_year_bounds (z mod 146097) (Z.mod_pos_bound z 146097 eq_refl)) as [_ Hd]. cbv zeta in Hd.
  set (doy := z mod 146097 - _) in *.
  pose proof (Z.div_mod (5 * doy + 2) 153 ltac:(lia)). pose proof (Z.mod_pos_bound (5 * doy + 2) 153 eq_refl).
  destruct (_ <? 10) eqn:E; bool_props; lia.
Qed.

(** Without arguments the partition is that of the month after now. *)
Lemma partition_next_month nowMs :
  ∃ ym, create_partition None nowMs = Ok ym ∧ month_number ym = month_number (month_of nowMs) + 1 ∧ 1 <= ym.2 <= 12.
Proof.
  unfold create_partition, targetYearMonth. pose proof (month_range nowMs) as Hm.
  destruct (month_of nowMs) as [y m]. cbn [snd] in Hm.
  assert (Hi : ∀ z, integer_of (Finite (inject_Z z)) = Some z) by (intros z; unfold integer_of; apply to_int_of_Z).
  rewrite !Hi. pose proof (Z.mod_pos_bound m 12 eq_refl). pose proof (Z.div_mod m 12 ltac:(lia)).
  rewrite (proj2 (Z.ltb_ge _ _)), (proj2 (Z.ltb_ge 12 _)) by lia. eexists. split; [done |].
  unfold month_number. cbn [fst snd orb]. lia.
Qed.
