(* ===== verification/Catalog.v ===== *)
(** * Tables and the catalogue of the database

    Columns, tables and indexes as both [database/schema.ts] and the migrations
    declare them, the catalogue that DDL statements build, and what executing a
    migration file does to it.  Every statement the repository uses is guarded
    (IF NOT EXISTS, OR REPLACE); the lemmas show that a file is idempotent. *)

From Stdlib Require Import ZArith Lia QArith String.
From stdpp Require Import base gmap strings list.
From S2P Require Import Prelude Json Errors.
Open Scope Z_scope.

(** ** Columns and tables *)

Inductive column_type := Uuid | Text | TextArray | Boolean | Integer | Numeric (precision scale : Z) | Timestamptz | EnumType (name : string).
Inductive column_default := DefaultRandom | DefaultNow | DefaultBool (b : bool) | DefaultInt (z : Z) | DefaultText (s : string).
Inductive on_delete := Cascade | SetNull.

Record column := Column {
  col_name : string; col_type : column_type; col_notNull : bool; col_default : option column_default;
  col_unique : bool; col_primary : bool; col_references : option (string * string * on_delete)
}.

(** An index over columns of a table, the rows it covers ([WHERE c = true]), and
    whether it is unique. *)
Record index := Index { ix_table : string; ix_columns : list string; ix_where : option string; ix_unique : bool }.

(** [t_primary] is the table's own key, when it is not a column's; [t_unique] the
    unique constraints over several columns. *)
Record table := Table {
  t_columns : list column; t_primary : list string; t_unique : list (list string); t_partitioned : option string
}.

(** ** The catalogue *)

(** What a name in the schema stands for: tables, indexes and views share their
    names. *)
Inductive relation := RTable (t : table) | RIndex (i : index) | RView (source : string).

Record trigger := Trigger { tr_before : bool; tr_event : string; tr_function : string }.

(** The partitions of the log table are known by their months (year, month),
    which determine their names; [unrouted] are the months of rows that are in
    the default partition. *)
Record catalog := Catalog {
  enums : gmap string (list string);
  relations : gmap string relation;
  functions : gmap string string;
  triggers : gmap (string * string) trigger;
  partitions : gset (Z * Z);
  default_partition : bool;
  unrouted : list (Z * Z)
}.
Definition empty_catalog : catalog := Catalog ∅ ∅ ∅ ∅ ∅ false [].

(** The statements of the migrations. *)
Inductive statement :=
| CreateEnum (name : string) (labels : list string)
| AddEnumValue (name label : string)
| CreateFunction (name body : string)
| CreateTable (name : string) (t : table)
| CreateIndex (name : string) (i : index)
| RecreateTrigger (table name : string) (t : trigger)
| CreateDefaultPartition (parent : string)
| CreatePartition (parent helper : string) (month : Z * Z)
| CreateView (name source : string)
| RefreshView (name : string).

Definition sql_error (message : string) : thrown := TError "error" message [].
Definition undefined_object (what name : string) : thrown := sql_error (what ++ " " ++ name ++ " does not exist").

(** Tables and materialised views can be indexed. *)
Definition indexable (r : option relation) : bool := match r with Some (RTable _) | Some (RView _) => true | _ => false end.
Definition is_table (r : option relation) : bool := match r with Some (RTable _) => true | _ => false end.
Definition partitioned (r : option relation) : bool :=
  match r with Some (RTable t) => match t_partitioned t with Some _ => true | None => false end | _ => false end.
Definition is_view (r : option relation) : bool := match r with Some (RView _) => true | _ => false end.

(** The types and tables a table's columns need: an enum that exists, a table
    that exists (or is this one). *)
Definition column_ok (c : catalog) (name : string) (x : column) : bool :=
  match col_type x with EnumType e => bool_decide (is_Some (enums c !! e)) | _ => true end &&
  match col_references x with Some (t, _, _) => String.eqb t name || is_table (relations c !! t) | None => true end.

Definition set_relation (n : string) (r : relation) (c : catalog) : catalog :=
  Catalog (enums c) (<[n := r]> (relations c)) (functions c) (triggers c) (partitions c) (default_partition c) (unrouted c).
Definition set_enum (n : string) (ls : list string) (c : catalog) : catalog :=
  Catalog (<[n := ls]> (enums c)) (relations c) (functions c) (triggers c) (partitions c) (default_partition c) (unrouted c).
Definition set_function (n body : string) (c : catalog) : catalog :=
  Catalog (enums c) (relations c) (<[n := body]> (functions c)) (triggers c) (partitions c) (default_partition c) (unrouted c).
Definition set_trigger (k : string * string) (t : trigger) (c : catalog) : catalog :=
  Catalog (enums c) (relations c) (functions c) (<[k := t]> (triggers c)) (partitions c) (default_partition c) (unrouted c).
Definition set_partitions (ps : gset (Z * Z)) (d : bool) (c : catalog) : catalog :=
  Catalog (enums c) (relations c) (functions c) (triggers c) ps d (unrouted c).

(** One statement; one that fails changes nothing. *)
Definition exec_statement (s : statement) (c : catalog) : catalog * option thrown :=
  match s with
  | CreateEnum n ls => (match enums c !! n with Some _ => c | None => set_enum n ls c end, None)
  | AddEnumValue n l =>
      match enums c !! n with
      | None => (c, Some (undefined_object "type" n))
      | Some ls => (if bool_decide (l ∈ ls) then c else set_enum n (ls ++ [l])%list c, None)
      end
  | CreateFunction n body => (set_function n body c, None)
  | CreateTable n t =>
      match relations c !! n with
      | Some _ => (c, None)
      | None => if forallb (column_ok c n) (t_columns t) then (set_relation n (RTable t) c, None)
                else (c, Some (undefined_object "type or relation of" n))
      end
  | CreateIndex n i =>
      if indexable (relations c !! ix_table i) then
        (match relations c !! n with Some _ => c | None => set_relation n (RIndex i) c end, None)
      else (c, Some (undefined_object "relation" (ix_table i)))
  | RecreateTrigger t n tr =>
      if negb (is_table (relations c !! t)) then (c, Some (undefined_object "relation" t))
      else match functions c !! tr_function tr with
           | None => (c, Some (undefined_object "function" (tr_function tr)))
           | Some _ => (set_trigger (t, n) tr c, None)
           end
  | CreateDefaultPartition p =>
      if partitioned (relations c !! p) then (set_partitions (partitions c) true c, None)
      else (c, Some (undefined_object "partitioned table" p))
  | CreatePartition p f m =>
      if negb (partitioned (relations c !! p)) then (c, Some (undefined_object "partitioned table" p))
      else match functions c !! f with
           | None => (c, Some (undefined_object "function" f))
           | Some _ =>
               (* A row of the month in the default partition would belong to the new one. *)
               if existsb (λ x, bool_decide (x = m)) (unrouted c) && bool_decide (m ∉ partitions c)
               then (c, Some (sql_error "updated partition constraint for default partition would be violated by some row"))
               else (set_partitions ({[m]} ∪ partitions c) (default_partition c) c, None)
           end
  | CreateView n source =>
      if is_table (relations c !! source) then
        (match relations c !! n with Some _ => c | None => set_relation n (RView source) c end, None)
      else (c, Some (undefined_object "relation" source))
  | RefreshView n => (c, if is_view (relations c !! n) then None else Some (undefined_object "materialized view" n))
  end.

Fixpoint exec_statements (l : list statement) (c : catalog) : catalog * option thrown :=
  match l with
  | [] => (c, None)
  | s :: l => match exec_statement s c with (c, None) => exec_statements l c | (c, Some e) => (c, Some e) end
  end.

(** A file is one query of the driver; PostgreSQL runs the statements of a query
    as one transaction. *)
Definition exec_file (l : list statement) (c : catalog) : catalog * option thrown :=
  match exec_statements l c with (c', None) => (c', None) | (_, Some e) => (c, Some e) end.

(** ** Idempotence *)

(** The state a statement asks for. *)
Definition holds_in (s : statement) (c : catalog) : Prop :=
  match s with
  | CreateEnum n _ => is_Some (enums c !! n)
  | AddEnumValue n l => ∃ ls, enums c !! n = Some ls ∧ l ∈ ls
  | CreateFunction n body => functions c !! n = Some body
  | CreateTable n _ => is_Some (relations c !! n)
  | CreateIndex n i => indexable (relations c !! ix_table i) = true ∧ is_Some (relations c !! n)
  | RecreateTrigger t n tr =>
      is_table (relations c !! t) = true ∧ is_Some (functions c !! tr_function tr) ∧ triggers c !! (t, n) = Some tr
  | CreateDefaultPartition p => partitioned (relations c !! p) = true ∧ default_partition c = true
  | CreatePartition p f m => partitioned (relations c !! p) = true ∧ is_Some (functions c !! f) ∧ m ∈ partitions c
  | CreateView n source => is_table (relations c !! source) = true ∧ is_Some (relations c !! n)
  | RefreshView n => is_view (relations c !! n) = true
  end.

(** A statement finds what it asks for and does nothing. *)
Lemma holds_noop s c : holds_in s c → exec_statement s c = (c, None).
Proof.
  destruct c as [en re fu tr pa de un], s; cbn [holds_in exec_statement enums relations functions triggers partitions default_partition unrouted];
    unfold set_function, set_trigger, set_partitions; cbn [enums relations functions triggers partitions default_partition unrouted].
  - by intros [? ->].
  - intros (ls & -> & Hin). by rewrite bool_decide_true.
  - intros Hf. by rewrite insert_id.
  - by intros [? ->].
  - by intros [-> [? ->]].
  - intros (-> & [? Hf] & Ht). cbn [negb]. rewrite Hf. by rewrite insert_id.
  - by intros [-> ->].
  - intros (-> & [? ->] & Hm). cbn [negb]. rewrite (bool_decide_false (month ∉ pa)), andb_false_r by (intros H; by apply H).
    by rewrite (subseteq_union_1_L {[month]} pa) by set_solver.
  - by intros [-> [? ->]].
  - by intros ->.
Qed.

Lemma done_holds s c c' : exec_statement s c = (c', None) → holds_in s c'.
Proof.
  destruct s; cbn [holds_in exec_statement]; intros H.
  - destruct (enums c !! name) as [ls|] eqn:E; injection H as <-; [by exists ls |]. cbn. rewrite lookup_insert_eq. by eexists.
  - destruct (enums c !! name) as [ls|] eqn:E; [| done]. injection H as <-. case_bool_decide as Hin; [by exists ls |].
    cbn. rewrite lookup_insert_eq. eexists. split; [done |]. apply elem_of_app. right. by left.
  - injection H as <-. cbn. by rewrite lookup_insert_eq.
  - destruct (relations c !! name) eqn:E; [injection H as <-; by rewrite E |].
    destruct (forallb _ _); [| done]. injection H as <-. cbn. by rewrite lookup_insert_eq.
  - destruct (indexable (relations c !! ix_table i)) eqn:Ei; [| done]. injection H as <-.
    destruct (relations c !! name) eqn:E; [by rewrite E |]. cbn. rewrite lookup_insert_eq.
    destruct (decide (name = ix_table i)) as [-> |]; [by rewrite E in Ei | by rewrite lookup_insert_ne].
  - destruct (negb _) eqn:Ei; [done |]. destruct (functions c !! _) eqn:Ef; [| done]. injection H as <-. cbn.
    apply negb_false_iff in Ei. by rewrite lookup_insert_eq, Ef.
  - destruct (partitioned _) eqn:Ei; [| done]. by injection H as <-.
  - destruct (negb _) eqn:Ei; [done |]. destruct (functions c !! _) eqn:Ef; [| done]. apply negb_false_iff in Ei.
    destruct (_ && _)%bool; [done |]. injection H as <-. cbn. rewrite Ef. split_and!; [done | done | set_solver].
  - destruct (is_table _) eqn:Ei; [| done]. injection H as <-.
    destruct (relations c !! name) eqn:E; [by rewrite E |]. cbn. rewrite lookup_insert_eq.
    destruct (decide (name = source)) as [-> |]; [by rewrite E in Ei | by rewrite lookup_insert_ne].
  - by destruct (is_view (relations c !! name)) eqn:Ei; [injection H as <- |].
Qed.

(** Two statements that do not replace each other's work. *)
Definition compatible (s t : statement) : Prop :=
  match s, t with
  | CreateFunction n b, CreateFunction n' b' => n = n' → b = b'
  | RecreateTrigger t n tr, RecreateTrigger t' n' tr' => (t, n) = (t', n') → tr = tr'
  | _, _ => True
  end.
#[export] Instance trigger_eq_dec : EqDecision trigger.
Proof. solve_decision. Defined.
#[export] Instance compatible_dec s t : Decision (compatible s t).
Proof. destruct s, t; simpl; apply _. Defined.

(** What a statement leaves alone: relations stay, labels stay, partitions stay,
    and so do functions and triggers but the one it replaces. *)
Record grows (t : statement) (c c' : catalog) : Prop := {
  keeps_relations : relations c ⊆ relations c';
  keeps_partitions : partitions c ⊆ partitions c';
  keeps_default : default_partition c = true → default_partition c' = true;
  keeps_labels n ls : enums c !! n = Some ls → ∃ ls', enums c' !! n = Some ls' ∧ ls ⊆ ls';
  keeps_functions n b : functions c !! n = Some b → ∃ b', functions c' !! n = Some b' ∧ (b' = b ∨ t = CreateFunction n b');
  keeps_triggers k tr : triggers c !! k = Some tr → ∃ tr', triggers c' !! k = Some tr' ∧ (tr' = tr ∨ t = RecreateTrigger k.1 k.2 tr')
}.

Lemma grows_refl t c : grows t c c.
Proof. split; try done; intros; eexists; split; eauto. Qed.

Lemma grows_relation t n r c : relations c !! n = None → grows t c (set_relation n r c).
Proof. intros Hn. destruct (grows_refl t c). split; try done. by apply insert_subseteq. Qed.

Lemma grows_enum t n ls c : (∀ ls0, enums c !! n = Some ls0 → ls0 ⊆ ls) → grows t c (set_enum n ls c).
Proof.
  intros Hl. destruct (grows_refl t c). split; try done. intros m ls' Hm. cbn.
  destruct (decide (m = n)) as [-> |]; [rewrite lookup_insert_eq | rewrite lookup_insert_ne by done; eauto].
  exists ls. by split; [| apply Hl].
Qed.

Lemma grows_function n b c : grows (CreateFunction n b) c (set_function n b c).
Proof.
  destruct (grows_refl (CreateFunction n b) c). split; try done. intros m b' Hm. cbn.
  destruct (decide (m = n)) as [-> |]; [rewrite lookup_insert_eq; eexists; by eauto | rewrite lookup_insert_ne by done; eauto].
Qed.

Lemma grows_trigger t n tr c : grows (RecreateTrigger t n tr) c (set_trigger (t, n) tr c).
Proof.
  destruct (grows_refl (RecreateTrigger t n tr) c). split; try done. intros k tr' Hk. cbn.
  destruct (decide (k = (t, n))) as [-> |]; [rewrite lookup_insert_eq; eexists; by eauto | rewrite lookup_insert_ne by done; eauto].
Qed.

Lemma grows_partitions t ps d c : partitions c ⊆ ps → (default_partition c = true → d = true) → grows t c (set_partitions ps d c).
Proof. intros. by destruct (grows_refl t c); split. Qed.

Lemma exec_grows t c c' : exec_statement t c = (c', None) → grows t c c'.
Proof.
  destruct t; cbn [exec_statement]; intros H.
  - destruct (enums c !! name) as [ls|] eqn:E; injection H as <-; [apply grows_refl | by apply grows_enum; rewrite E].
  - destruct (enums c !! name) as [ls|] eqn:E; [| done]. injection H as <-. case_bool_decide; [apply grows_refl |].
    apply grows_enum. rewrite E. intros ? [= <-]. set_solver.
  - injection H as <-. apply grows_function.
  - destruct (relations c !! name) eqn:E; [injection H as <-; apply grows_refl |]. destruct (forallb _ _); [| done].
    injection H as <-. by apply grows_relation.
  - destruct (indexable _); [| done]. injection H as <-. destruct (relations c !! name) eqn:E; [apply grows_refl | by apply grows_relation].
  - destruct (negb _); [done |]. destruct (functions c !! _); [| done]. injection H as <-. apply grows_trigger.
  - destruct (partitioned _); [| done]. injection H as <-. by apply grows_partitions.
  - destruct (negb _); [done |]. destruct (functions c !! _); [| done]. destruct (_ && _)%bool; [done |]. injection H as <-.
    apply grows_partitions; [set_solver | done].
  - destruct (is_table _); [| done]. injection H as <-. destruct (relations c !! name) eqn:E; [apply grows_refl | by apply grows_relation].
  - destruct (is_view _); [| done]. injection H as <-. apply grows_refl.
Qed.

(** A test that a relation passes is passed after relations were added. *)
Lemma test_grows (f : option relation → bool) (m m' : gmap string relation) n :
  f None = false → m ⊆ m' → f (m !! n) = true → f (m' !! n) = true.
Proof. intros Hn Hs Hf. destruct (m !! n) as [r|] eqn:E; [| congruence]. by rewrite (lookup_weaken _ _ _ _ E Hs). Qed.

Lemma some_grows {A} (m m' : gmap string A) n : m ⊆ m' → is_Some (m !! n) → is_Some (m' !! n).
Proof. intros Hs [x Hx]. exists x. by eapply lookup_weaken. Qed.

(** So what holds goes on holding through compatible statements. *)
Lemma holds_kept s t c c' : compatible s t → holds_in s c → exec_statement t c = (c', None) → holds_in s c'.
Proof.
  intros Hcomp Hs [Hr Hp Hd He Hf Ht]%exec_grows.
  assert (Hfs : ∀ n, is_Some (functions c !! n) → is_Some (functions c' !! n)) by (intros n [b Hb]; destruct (Hf n b Hb) as (b' & H & _); by exists b').
  destruct s; cbn [holds_in] in *.
  - destruct Hs as [ls Hs]. destruct (He _ _ Hs) as (ls' & H & _). by exists ls'.
  - destruct Hs as (ls & Hs & Hl). destruct (He _ _ Hs) as (ls' & H & Hsub). exists ls'. split; [done | by apply Hsub].
  - destruct (Hf _ _ Hs) as (b' & -> & [-> | ->]); [done |]. by rewrite (Hcomp eq_refl).
  - by eapply some_grows.
  - destruct Hs. split; [by eapply test_grows | by eapply some_grows].
  - destruct Hs as (H1 & H2 & H3). split_and!; [by eapply (test_grows is_table) | by apply Hfs |].
    destruct (Ht _ _ H3) as (tr' & -> & [-> | ->]); [done |]. by rewrite (Hcomp eq_refl).
  - destruct Hs. split; [by eapply (test_grows partitioned) | by apply Hd].
  - destruct Hs as (H1 & H2 & H3). split_and!; [by eapply (test_grows partitioned) | by apply Hfs | set_solver].
  - destruct Hs. split; [by eapply (test_grows is_table) | by eapply some_grows].
  - by eapply (test_grows is_view).
Qed.

Lemma holds_kept_all s l c c' : Forall (compatible s) l → holds_in s c → exec_statements l c = (c', None) → holds_in s c'.
Proof.
  intros Hl. revert c. induction Hl as [|t l Ht _ IH]; intros c Hs; cbn [exec_statements]; [by intros [= <-] |].
  destruct (exec_statement t c) as [c1 [e|]] eqn:E; [done |]. apply IH. by eapply holds_kept.
Qed.

(** The statements of a file, none of which replaces what another made. *)
Definition coherent (l : list statement) : Prop := ForallPairs compatible l.

Lemma all_hold l : ∀ c c', coherent l → exec_statements l c = (c', None) → Forall (λ s, holds_in s c') l.
Proof.
  induction l as [|s l IH]; intros c c' Hc; cbn [exec_statements]; [by constructor |].
  destruct (exec_statement s c) as [c1 [e|]] eqn:E; [done |]. intros Hl. constructor.
  - eapply holds_kept_all; [| by eapply done_holds | exact Hl]. apply list.Forall_forall. intros t Hin.
    apply Hc; apply list_elem_of_In; [by left | by right].
  - eapply IH; [| exact Hl]. intros x y Hx Hy. apply Hc; by right.
Qed.

Lemma all_noop l c : Forall (λ s, holds_in s c) l → exec_statements l c = (c, None).
Proof. induction 1 as [|s l Hs _ IH]; cbn [exec_statements]; [done |]. by rewrite holds_noop. Qed.

(** A file that ran, whatever was there before, does nothing when it runs again. *)
Lemma file_idempotent l c c' : coherent l → exec_file l c = (c', None) → exec_file l c' = (c', None).
Proof.
  unfold exec_file. intros Hc. destruct (exec_statements l c) as [c1 [e|]] eqn:E; [done |]. intros [= <-].
  by rewrite (all_noop l c1) by (by eapply all_hold).
Qed.
