(* ===== verification/Schema.v ===== *)
(** * The schema, twice ([database/schema.ts], [database/migrations/])

    The tables as the ORM declares them and as the migrations create them, what
    the migrations make of any database, and the theorem that the two agree
    however the runs of the migration script were interrupted. *)

From Stdlib Require Import ZArith Lia QArith String.
From stdpp Require Import base gmap strings list.
From S2P Require Import Prelude Redis Json Errors Operations Catalog.
Open Scope Z_scope.

(** ** [database/schema.ts] *)

(** The ORM's column builders. *)
Notation "x '|>' f" := (f x) (at level 50, left associativity, only parsing) : gateway_scope.
Definition plain_column (ty : column_type) (name : string) : column := Column name ty false None false false None.
Definition uuid := plain_column Uuid.
Definition text := plain_column Text.
Definition boolean := plain_column Boolean.
Definition integer := plain_column Integer.
Definition numeric_of (precision scale : Z) := plain_column (Numeric precision scale).
Definition timestamp := plain_column Timestamptz.

Definition notNull (c : column) : column :=
  Column (col_name c) (col_type c) true (col_default c) (col_unique c) (col_primary c) (col_references c).
Definition default (d : column_default) (c : column) : column :=
  Column (col_name c) (col_type c) (col_notNull c) (Some d) (col_unique c) (col_primary c) (col_references c).
Definition unique (c : column) : column :=
  Column (col_name c) (col_type c) (col_notNull c) (col_default c) true (col_primary c) (col_references c).
(** A primary key is not null. *)
Definition primary_key (c : column) : column :=
  Column (col_name c) (col_type c) true (col_default c) (col_unique c) true (col_references c).
Definition references (t x : string) (d : on_delete) (c : column) : column :=
  Column (col_name c) (col_type c) (col_notNull c) (col_default c) (col_unique c) (col_primary c) (Some (t, x, d)).
Definition array (c : column) : column :=
  Column (col_name c) TextArray (col_notNull c) (col_default c) (col_unique c) (col_primary c) (col_references c).

(** A table of the ORM: its name, columns, composite key, and indexes. *)
Record pgTable := PgTable { pg_name : string; pg_columns : list column; pg_key : list string; pg_indexes : list (string * index) }.

Section Declarations.
Local Open Scope gateway_scope.
Local Open Scope string_scope.

Definition adapterTypeEnum : string * list string := ("adapter_type", ["openai"; "anthropic"; "gemini"; "mistral"; "cohere"]).

Definition apiKeys : pgTable := PgTable "api_keys"
  [uuid "id" |> default DefaultRandom |> primary_key;
   text "key_hash" |> notNull |> unique;
   text "name";
   uuid "owner_id";
   boolean "is_active" |> notNull |> default (DefaultBool true);
   timestamp "expires_at";
   numeric_of 10 4 "monthly_budget_usd";
   text "allowed_models" |> array;
   integer "rpm_limit" |> notNull |> default (DefaultInt 60);
   integer "tpm_limit" |> notNull |> default (DefaultInt 100000);
   timestamp "created_at" |> notNull |> default DefaultNow;
   timestamp "updated_at" |> notNull |> default DefaultNow] []
  [("api_keys_active_key_hash_idx", Index "api_keys" ["key_hash"] (Some "is_active") false);
   ("api_keys_owner_idx", Index "api_keys" ["owner_id"] None false)].

Definition providers : pgTable := PgTable "providers"
  [uuid "id" |> default DefaultRandom |> primary_key;
   text "name" |> notNull |> unique;
   text "base_url" |> notNull;
   plain_column (EnumType adapterTypeEnum.1) "adapter_type" |> notNull;
   text "encrypted_api_key" |> notNull;
   integer "weight" |> notNull |> default (DefaultInt 1);
   integer "priority" |> notNull |> default (DefaultInt 1);
   boolean "is_active" |> notNull |> default (DefaultBool true);
   text "health_check_url";
   integer "timeout_ms" |> notNull |> default (DefaultInt 60000);
   timestamp "created_at" |> notNull |> default DefaultNow;
   timestamp "updated_at" |> notNull |> default DefaultNow] []
  [("providers_active_idx", Index "providers" ["is_active"] (Some "is_active") false);
   ("providers_priority_idx", Index "providers" ["priority"] None false)].

Definition providerModels : pgTable := PgTable "provider_models"
  [uuid "id" |> default DefaultRandom |> primary_key;
   uuid "provider_id" |> notNull |> references "providers" "id" Cascade;
   text "model_id" |> notNull;
   text "display_name";
   integer "context_window";
   integer "max_output_tokens";
   numeric_of 10 6 "input_price_per_1k";
   numeric_of 10 6 "output_price_per_1k";
   boolean "supports_streaming" |> notNull |> default (DefaultBool true);
   boolean "supports_tools" |> notNull |> default (DefaultBool false);
   boolean "supports_vision" |> notNull |> default (DefaultBool false);
   boolean "is_active" |> notNull |> default (DefaultBool true);
   timestamp "created_at" |> notNull |> default DefaultNow] []
  [("provider_models_provider_idx", Index "provider_models" ["provider_id"] None false);
   ("provider_models_model_active_idx", Index "provider_models" ["model_id"] (Some "is_active") false)].

Definition providerHealth : pgTable := PgTable "provider_health"
  [uuid "provider_id" |> primary_key |> references "providers" "id" Cascade;
   text "status" |> notNull |> default (DefaultText "unknown");
   integer "latency_ms";
   text "error_message";
   timestamp "checked_at" |> notNull |> default DefaultNow] [] [].

Definition requestLogs : pgTable := PgTable "request_logs"
  [uuid "id" |> notNull |> default DefaultRandom;
   uuid "api_key_id" |> references "api_keys" "id" SetNull;
   uuid "provider_id" |> references "providers" "id" SetNull;
   text "model_id";
   integer "prompt_tokens";
   integer "completion_tokens";
   integer "total_tokens";
   numeric_of 10 6 "cost_usd";
   integer "latency_ms";
   integer "status_code";
   boolean "cache_hit" |> notNull |> default (DefaultBool false);
   integer "failover_count" |> notNull |> default (DefaultInt 0);
   text "error_message";
   timestamp "created_at" |> notNull |> default DefaultNow] ["id"; "created_at"]
  [("request_logs_api_key_created_idx", Index "request_logs" ["api_key_id"; "created_at"] None false);
   ("request_logs_provider_created_idx", Index "request_logs" ["provider_id"; "created_at"] None false)].

(** The tables the process queries through. *)
Definition schema_tables : list pgTable := [apiKeys; providers; providerModels; providerHealth; requestLogs].

(** Relations: the table, the field's name, and the columns that are joined when
    this side holds the reference. *)
Inductive relation_decl := Many (table : pgTable) | One (fields : list string) (table : pgTable) (refs : list string).
Definition providersRelations : pgTable * list (string * relation_decl) :=
  (providers, [("models", Many providerModels); ("health", One ["id"] providerHealth ["provider_id"]); ("requestLogs", Many requestLogs)]).
Definition providerModelsRelations : pgTable * list (string * relation_decl) :=
  (providerModels, [("provider", One ["provider_id"] providers ["id"])]).
Definition providerHealthRelations : pgTable * list (string * relation_decl) :=
  (providerHealth, [("provider", One ["provider_id"] providers ["id"])]).
Definition apiKeysRelations : pgTable * list (string * relation_decl) := (apiKeys, [("requestLogs", Many requestLogs)]).
Definition requestLogsRelations : pgTable * list (string * relation_decl) :=
  (requestLogs, [("apiKey", One ["api_key_id"] apiKeys ["id"]); ("provider", One ["provider_id"] providers ["id"])]).
Definition schema_relations : list (pgTable * list (string * relation_decl)) :=
  [providersRelations; providerModelsRelations; providerHealthRelations; apiKeysRelations; requestLogsRelations].

(** ** [database/migrations/] *)

(** A column of CREATE TABLE with its constraints. *)
Inductive constraint := PRIMARY_KEY | NOT_NULL | UNIQUE | DEFAULT (d : column_default) | REFERENCES (t x : string) (d : on_delete).
Definition constrain (c : column) (k : constraint) : column :=
  match k with
  | PRIMARY_KEY => primary_key c | NOT_NULL => notNull c | UNIQUE => unique c | DEFAULT d => default d c
  | REFERENCES t x d => references t x d c
  end.
Definition col (name : string) (ty : column_type) (ks : list constraint) : column := foldl constrain (plain_column ty name) ks.

Definition api_keys_table : table := Table
  [col "id" Uuid [PRIMARY_KEY; DEFAULT DefaultRandom];
   col "key_hash" Text [NOT_NULL; UNIQUE];
   col "name" Text [];
   col "owner_id" Uuid [];
   col "is_active" Boolean [NOT_NULL; DEFAULT (DefaultBool true)];
   col "expires_at" Timestamptz [];
   col "monthly_budget_usd" (Numeric 10 4) [];
   col "allowed_models" TextArray [];
   col "rpm_limit" Integer [NOT_NULL; DEFAULT (DefaultInt 60)];
   col "tpm_limit" Integer [NOT_NULL; DEFAULT (DefaultInt 100000)];
   col "created_at" Timestamptz [NOT_NULL; DEFAULT DefaultNow];
   col "updated_at" Timestamptz [NOT_NULL; DEFAULT DefaultNow]] [] [] None.

Definition providers_table : table := Table
  [col "id" Uuid [PRIMARY_KEY; DEFAULT DefaultRandom];
   col "name" Text [NOT_NULL; UNIQUE];
   col "base_url" Text [NOT_NULL];
   col "adapter_type" (EnumType "adapter_type") [NOT_NULL];
   col "encrypted_api_key" Text [NOT_NULL];
   col "weight" Integer [NOT_NULL; DEFAULT (DefaultInt 1)];
   col "priority" Integer [NOT_NULL; DEFAULT (DefaultInt 1)];
   col "is_active" Boolean [NOT_NULL; DEFAULT (DefaultBool true)];
   col "health_check_url" Text [];
   col "timeout_ms" Integer [NOT_NULL; DEFAULT (DefaultInt 60000)];
   col "created_at" Timestamptz [NOT_NULL; DEFAULT DefaultNow];
   col "updated_at" Timestamptz [NOT_NULL; DEFAULT DefaultNow]] [] [] None.

Definition provider_models_table : table := Table
  [col "id" Uuid [PRIMARY_KEY; DEFAULT DefaultRandom];
   col "provider_id" Uuid [NOT_NULL; REFERENCES "providers" "id" Cascade];
   col "model_id" Text [NOT_NULL];
   col "display_name" Text [];
   col "context_window" Integer [];
   col "max_output_tokens" Integer [];
   col "input_price_per_1k" (Numeric 10 6) [];
   col "output_price_per_1k" (Numeric 10 6) [];
   col "supports_streaming" Boolean [NOT_NULL; DEFAULT (DefaultBool true)];
   col "supports_tools" Boolean [NOT_NULL; DEFAULT (DefaultBool false)];
   col "supports_vision" Boolean [NOT_NULL; DEFAULT (DefaultBool false)];
   col "is_active" Boolean [NOT_NULL; DEFAULT (DefaultBool true)];
   col "created_at" Timestamptz [NOT_NULL; DEFAULT DefaultNow]] [] [["provider_id"; "model_id"]] None.

Definition provider_health_table : table := Table
  [col "provider_id" Uuid [PRIMARY_KEY; REFERENCES "providers" "id" Cascade];
   col "status" Text [NOT_NULL; DEFAULT (DefaultText "unknown")];
   col "latency_ms" Integer [];
   col "error_message" Text [];
   col "checked_at" Timestamptz [NOT_NULL; DEFAULT DefaultNow]] [] [] None.

Definition request_logs_table : table := Table
  [col "id" Uuid [NOT_NULL; DEFAULT DefaultRandom];
   col "api_key_id" Uuid [REFERENCES "api_keys" "id" SetNull];
   col "provider_id" Uuid [REFERENCES "providers" "id" SetNull];
   col "model_id" Text [];
   col "prompt_tokens" Integer [];
   col "completion_tokens" Integer [];
   col "total_tokens" Integer [];
   col "cost_usd" (Numeric 10 6) [];
   col "latency_ms" Integer [];
   col "status_code" Integer [];
   col "cache_hit" Boolean [NOT_NULL; DEFAULT (DefaultBool false)];
   col "failover_count" Integer [NOT_NULL; DEFAULT (DefaultInt 0)];
   col "error_message" Text [];
   col "created_at" Timestamptz [NOT_NULL; DEFAULT DefaultNow]] ["id"; "created_at"] [] (Some "created_at").

(** [now() + interval '1 month']. *)
Definition next_month (m : Z * Z) : Z * Z := (if m.2 =? 12 then (m.1 + 1, 1) else (m.1, m.2 + 1))%Z.

Definition partition_helper : string := "create_request_logs_partition".

(** [0001_initial.sql], run in a month. *)
Definition migration_0001 (now : Z * Z) : list statement :=
  [CreateEnum "adapter_type" ["openai"; "anthropic"; "gemini"; "mistral"];
   CreateFunction "set_updated_at" "NEW.updated_at = now(); RETURN NEW";
   CreateFunction "create_provider_health_row"
     "INSERT INTO provider_health (provider_id, status, checked_at) VALUES (NEW.id, 'unknown', now()) ON CONFLICT (provider_id) DO NOTHING; RETURN NEW";
   CreateTable "api_keys" api_keys_table;
   CreateIndex "api_keys_active_key_hash_idx" (Index "api_keys" ["key_hash"] (Some "is_active") false);
   CreateIndex "api_keys_owner_idx" (Index "api_keys" ["owner_id"] None false);
   RecreateTrigger "api_keys" "api_keys_set_updated_at" (Trigger true "UPDATE" "set_updated_at");
   CreateTable "providers" providers_table;
   CreateIndex "providers_active_idx" (Index "providers" ["is_active"] (Some "is_active") false);
   CreateIndex "providers_priority_idx" (Index "providers" ["priority"] None false);
   RecreateTrigger "providers" "providers_set_updated_at" (Trigger true "UPDATE" "set_updated_at");
   RecreateTrigger "providers" "providers_create_health" (Trigger false "INSERT" "create_provider_health_row");
   CreateTable "provider_models" provider_models_table;
   CreateIndex "provider_models_provider_idx" (Index "provider_models" ["provider_id"] None false);
   CreateIndex "provider_models_model_active_idx" (Index "provider_models" ["model_id"] (Some "is_active") false);
   CreateTable "provider_health" provider_health_table;
   CreateTable "request_logs" request_logs_table;
   CreateIndex "request_logs_api_key_created_idx" (Index "request_logs" ["api_key_id"; "created_at"] None false);
   CreateIndex "request_logs_provider_created_idx" (Index "request_logs" ["provider_id"; "created_at"] None false);
   CreateFunction partition_helper "CREATE TABLE IF NOT EXISTS request_logs_YYYY_MM PARTITION OF request_logs FOR VALUES FROM (month) TO (month + 1)";
   CreateDefaultPartition "request_logs";
   CreatePartition "request_logs" partition_helper now;
   CreatePartition "request_logs" partition_helper (next_month now);
   CreateView "monthly_usage" "request_logs";
   CreateIndex "monthly_usage_pk" (Index "monthly_usage" ["api_key_id"; "year_month"] None true);
   RefreshView "monthly_usage"].

(** [0002_add_cohere.sql]. *)
Definition migration_0002 : list statement := [AddEnumValue "adapter_type" "cohere"].
End Declarations.

(** Both files in order. *)
Definition migrated (now : Z * Z) (c : catalog) : catalog * option thrown :=
  match exec_file (migration_0001 now) c with (c, None) => exec_file migration_0002 c | (c, Some e) => (c, Some e) end.
Definition migrated_catalog (now : Z * Z) : catalog := (migrated now empty_catalog).1.

(** ** The two declarations compared *)

(** What the migrations declare of a table and the ORM does not: unique
    constraints over several columns, and the partitioning. *)
Definition only_migrated (name : string) : list (list string) * option string :=
  if String.eqb name "provider_models" then ([["provider_id"; "model_id"]]%string, None)
  else if String.eqb name "request_logs" then ([], Some "created_at"%string)
  else ([], None).

(** What the ORM declares of a table is what the database has: its columns and
    key, and its indexes and no other; besides there is only what [only_migrated]
    says. *)
Definition mirrors (c : catalog) (t : pgTable) : Prop :=
  (∃ d, relations c !! pg_name t = Some (RTable d) ∧ t_columns d = pg_columns t ∧ t_primary d = pg_key t ∧
        (t_unique d, t_partitioned d) = only_migrated (pg_name t)) ∧
  ∀ n i, (relations c !! n = Some (RIndex i) ∧ ix_table i = pg_name t) ↔ (n, i) ∈ pg_indexes t.

(** The tables of the ORM are all the tables there are; the only other relations
    are the view of monthly usage and its index. *)
Definition nothing_else (c : catalog) : Prop := ∀ n,
  match relations c !! n with
  | Some (RTable _) => n ∈ map pg_name schema_tables
  | Some (RView source) => n = "monthly_usage"%string ∧ source = "request_logs"%string
  | Some (RIndex i) => ix_table i ∈ map pg_name schema_tables ∨
      n = "monthly_usage_pk"%string ∧ i = Index "monthly_usage" ["api_key_id"; "year_month"] None true
  | None => True
  end.

(** A relation of the ORM that joins columns is backed by a reference, on one
    side or the other. *)
Definition references_to (t : pgTable) (fields : list string) (u : pgTable) (refs : list string) : bool :=
  match fields, refs with
  | [f], [x] => existsb (λ c, String.eqb (col_name c) f &&
      match col_references c with Some (n, y, _) => String.eqb n (pg_name u) && String.eqb y x | None => false end) (pg_columns t)
  | _, _ => false
  end.
Definition backed (t : pgTable) (r : relation_decl) : bool :=
  match r with
  | One fields u refs => references_to t fields u refs || references_to u refs t fields
  | Many u => existsb (λ c, references_to u [col_name c] t ["id"%string]) (pg_columns u)
  end.

Lemma migration_0001_coherent now : coherent (migration_0001 now).
Proof.
  unfold coherent, ForallPairs, migration_0001. intros s t. cbn [In].
  intros Hs Ht. repeat destruct Hs as [<- | Hs]; try done; repeat destruct Ht as [<- | Ht]; done.
Qed.
Lemma migration_0002_coherent : coherent migration_0002.
Proof. intros s t [<- | []] [<- | []]. done. Qed.

Definition first_catalog (now : Z * Z) : catalog := (exec_file (migration_0001 now) empty_catalog).1.

Lemma first_run now : exec_file (migration_0001 now) empty_catalog = (first_catalog now, None).
Proof.
  unfold first_catalog. rewrite (surjective_pairing (exec_file _ _)) at 1. by f_equal.
Qed.
Lemma second_run now : exec_file migration_0002 (first_catalog now) = (migrated_catalog now, None).
Proof.
  unfold migrated_catalog, migrated. rewrite first_run, (surjective_pairing (exec_file migration_0002 _)) at 1. by f_equal.
Qed.
Lemma second_again now : exec_file migration_0002 (migrated_catalog now) = (migrated_catalog now, None).
Proof. eapply file_idempotent; [apply migration_0002_coherent | apply second_run]. Qed.
Lemma each {A} (P : A → Prop) l : Forall P l → ∀ x, x ∈ l → P x.
Proof. apply list.Forall_forall. Qed.

(** All relations of the migrated database. *)
Definition all_relations : list (string * relation) :=
  (map (λ x, (pg_name x.1, RTable x.2))
     [(apiKeys, api_keys_table); (providers, providers_table); (providerModels, provider_models_table);
      (providerHealth, provider_health_table); (requestLogs, request_logs_table)] ++
   map (λ x, (x.1, RIndex x.2)) (concat (map pg_indexes schema_tables)) ++
   [("monthly_usage"%string, RView "request_logs");
    ("monthly_usage_pk"%string, RIndex (Index "monthly_usage" ["api_key_id"; "year_month"] None true))])%list.

Lemma relations_listed now : relations (migrated_catalog now) = list_to_map all_relations.
Proof. vm_cast_no_check (eq_refl (list_to_map all_relations : gmap string relation)). Qed.

Lemma relation_listed now n r : relations (migrated_catalog now) !! n = Some r ↔ (n, r) ∈ all_relations.
Proof.
  rewrite relations_listed. symmetry. apply elem_of_list_to_map. apply (bool_decide_unpack _). by vm_compute.
Qed.

Lemma indexes_mirrored now t : t ∈ schema_tables → ∀ n i,
  (relations (migrated_catalog now) !! n = Some (RIndex i) ∧ ix_table i = pg_name t) ↔ (n, i) ∈ pg_indexes t.
Proof.
  intros Ht n i. rewrite relation_listed. unfold all_relations. rewrite !elem_of_app. split.
  - intros [[H | [H | H]] Hi].
    + by apply list_elem_of_In, in_map_iff in H as ([? ?] & ? & _).
    + apply list_elem_of_In, in_map_iff in H as ([n' i'] & [= -> ->] & H). cbn in H.
      repeat destruct H as [[= <- <-] | H]; try done; revert t Ht Hi; refine (each _ _ _);
        repeat apply list.Forall_cons_2; try apply list.Forall_nil_2;
        intros Hi; try discriminate Hi; cbn; rewrite ?elem_of_cons; auto.
    + rewrite !elem_of_cons, elem_of_nil in H. destruct H as [H | [H | []]]; [done |]. injection H as -> ->.
      revert t Ht Hi. refine (each _ _ _). by repeat apply list.Forall_cons_2; try apply list.Forall_nil_2.
  - intros Hi. split.
    + right. left. apply list_elem_of_In, in_map_iff. exists (n, i). split; [done |]. apply in_concat. exists (pg_indexes t).
      split; [| by apply list_elem_of_In]. apply in_map_iff. exists t. split; [done | by apply list_elem_of_In].
    + revert t Ht Hi. refine (each _ _ _).
      repeat apply list.Forall_cons_2; try apply list.Forall_nil_2; cbn; rewrite ?elem_of_cons, elem_of_nil; intros H;
        repeat destruct H as [[= -> ->] | H]; done.
Qed.

Lemma tables_mirrored now : Forall (mirrors (migrated_catalog now)) schema_tables.
Proof.
  apply list.Forall_forall. intros t Ht. split; [| by apply indexes_mirrored]. revert t Ht. refine (each _ _ _).
  repeat apply list.Forall_cons_2; [.. | apply list.Forall_nil_2];
    [exists api_keys_table | exists providers_table | exists provider_models_table | exists provider_health_table | exists request_logs_table];
    (split; [by vm_compute | done]).
Qed.

Lemma tables_only now : nothing_else (migrated_catalog now).
Proof.
  intros n. destruct (relations (migrated_catalog now) !! n) as [r|] eqn:E; [| done]. apply relation_listed in E.
  unfold all_relations in E. rewrite !elem_of_app in E. destruct E as [E | [E | E]].
  - apply list_elem_of_In, in_map_iff in E as ([t d] & [= <- <-] & E). cbn in E. cbn.
    repeat destruct E as [[= <- <-] | E]; try done; rewrite !elem_of_cons; auto 6.
  - apply list_elem_of_In, in_map_iff in E as ([n' i] & [= <- <-] & E). cbn in E. left.
    repeat destruct E as [[= <- <-] | E]; try done; cbn; rewrite !elem_of_cons; auto 6.
  - rewrite !elem_of_cons, elem_of_nil in E. destruct E as [[= -> ->] | [[= -> ->] | []]]; [done | by right].
Qed.

Lemma relations_backed : forallb (λ t, forallb (λ r, backed t.1 r.2) t.2) schema_relations = true.
Proof. by vm_compute. Qed.

(** ** Runs of the migration script *)

Definition file1 : string := "0001_initial.sql".
Definition file2 : string := "0002_add_cohere.sql".

#[local] Opaque first_catalog migrated_catalog.

Section Runs.
(** The texts of the two files, of which the second has the directive. *)
Variables text1 text2 : string.
(** [String.prototype.localeCompare]. *)
Variable localeCompare : string → string → Z.

(** A run: the month it happens in, its environment, and the fate of the query
    that carries each file. *)
Record script_run := { at_month : Z * Z; at_env : migration_env; at_fate : string → fault }.

(** The query of a file's text, over a connection that may be lost. *)
Definition exec_query (a : script_run) (sql : string) (c : catalog) : catalog * option thrown :=
  let r := if String.eqb sql text1 then exec_file (migration_0001 (at_month a)) c
           else if String.eqb sql text2 then exec_file migration_0002 c else (c, Some (sql_error "syntax error")) in
  match at_fate a sql with Up => r | Down => (c, Some interrupted) | Lost => (r.1, Some interrupted) end.

Definition run_attempt (db : database) (a : script_run) : database * result thrown Z :=
  run_migrations (exec_query a) localeCompare (at_env a) db.
Definition run_attempts (attempts : list script_run) (db : database) : database := foldl (λ db a, (run_attempt db a).1) db attempts.

(** The directory holds the two files (and no other SQL), and what is read of
    them is their text. *)
Definition in_repository (a : script_run) : Prop :=
  filter (λ f, ends_with ".sql" f = true) (m_dir (at_env a)) ≡ₚ [file1; file2] ∧
  ∀ f sql, m_read (at_env a) f = Ok sql → (f = file1 → sql = text1) ∧ (f = file2 → sql = text2).

(** Nothing goes wrong. *)
Definition undisturbed (a : script_run) : Prop :=
  m_read (at_env a) file1 = Ok text1 ∧ m_read (at_env a) file2 = Ok text2 ∧
  ∀ f, m_insert (at_env a) f = None ∧ m_commit (at_env a) f = Up ∧ at_fate a f = Up.

Definition new_database : database := {| schema := empty_catalog; ledger := [] |}.

(** Where a database can be between runs. *)
Inductive stage : database → Prop :=
| stage_new : stage new_database
| stage_first m : stage {| schema := first_catalog m; ledger := [file1] |}
| stage_unrecorded m : stage {| schema := migrated_catalog m; ledger := [file1] |}
| stage_done m : stage {| schema := migrated_catalog m; ledger := [file1; file2] |}.
Definition complete (db : database) : Prop := ∃ m, db = {| schema := migrated_catalog m; ledger := [file1; file2] |}.

Hypothesis text1_plain : includes NO_TX_DIRECTIVE text1 = false.
Hypothesis text2_directive : includes NO_TX_DIRECTIVE text2 = true.
Hypothesis in_order : localeCompare file1 file2 < 0 < localeCompare file2 file1.

Lemma files_in_order a : in_repository a → migration_files localeCompare (at_env a) = [file1; file2].
Proof using in_order.
  intros [Hp _]. unfold migration_files. symmetry in Hp. apply Permutation_length_2_inv in Hp as [-> | ->]; cbn [sort_by foldr insert_by].
  - by rewrite (proj2 (Z.leb_le _ _)) by lia.
  - by rewrite (proj2 (Z.leb_gt _ _)) by lia.
Qed.

Lemma texts_differ : String.eqb text2 text1 = false.
Proof using text1_plain text2_directive. apply String.eqb_neq. intros E. congruence. Qed.

Lemma stage_between m c : c = first_catalog m ∨ c = migrated_catalog m → stage {| schema := c; ledger := [file1] |}.
Proof using. intros [-> | ->]; [apply stage_first | apply stage_unrecorded]. Qed.

(** The second file, on a catalogue that may have had it already. *)
Lemma apply_second a m c : in_repository a → c = first_catalog m ∨ c = migrated_catalog m →
  let x := apply_file (exec_query a) (at_env a) file2 {| schema := c; ledger := [file1] |} in
  stage x.1 ∧ (∀ u, x.2 = Ok u → complete x.1) ∧ (undisturbed a → x.2 = Ok tt).
Proof using text1_plain text2_directive.
  intros [_ Hread] Hc. cbv zeta. unfold apply_file, undisturbed. destruct (m_read (at_env a) file2) as [sql|e] eqn:Er.
  2: { cbn [fst snd]. split_and!; [by apply (stage_between m) | intros ? [=] | by intros (_ & ? & _)]. }
  destruct (Hread _ _ Er) as [_ ->]; [| done]. rewrite text2_directive. unfold applyNonTransactional, exec_query. cbn [schema ledger].
  rewrite texts_differ, String.eqb_refl.
  assert (E : exec_file migration_0002 c = (migrated_catalog m, None)) by (destruct Hc as [-> | ->]; [apply second_run | apply second_again]).
  rewrite E. assert (Hs : stage {| schema := c; ledger := [file1] |}) by (by apply (stage_between m)).
  destruct (at_fate a text2) eqn:Ef; cbn [fst snd].
  - destruct (m_insert (at_env a) file2) eqn:Ei; cbn [fst snd]; split_and!.
    + apply stage_unrecorded.
    + intros ? [=].
    + intros (_ & _ & H). by destruct (H file2) as [? _]; congruence.
    + apply stage_done.
    + intros _ _. by exists m.
    + done.
  - split_and!; [exact Hs | intros ? [=] |]. intros (_ & _ & H). destruct (H text2) as (_ & _ & ?). congruence.
  - split_and!; [apply stage_unrecorded | intros ? [=] |]. intros (_ & _ & H). destruct (H text2) as (_ & _ & ?). congruence.
Qed.

(** The first file, on a new database. *)
Lemma apply_first a : in_repository a →
  let x := apply_file (exec_query a) (at_env a) file1 new_database in
  (x.1 = new_database ∨ x.1 = {| schema := first_catalog (at_month a); ledger := [file1] |}) ∧
  (∀ u, x.2 = Ok u → x.1 = {| schema := first_catalog (at_month a); ledger := [file1] |}) ∧ (undisturbed a → x.2 = Ok tt).
Proof using text1_plain.
  intros [_ Hread]. cbv zeta. unfold apply_file, undisturbed. destruct (m_read (at_env a) file1) as [sql|e] eqn:Er.
  2: { cbn [fst snd]; split_and!; [by left | intros ? [=] | by intros (? & _)]. }
  destruct (Hread _ _ Er) as [E _]. rewrite (E eq_refl). rewrite text1_plain. unfold applyTransactional, exec_query. cbn [schema ledger new_database].
  rewrite String.eqb_refl, first_run. destruct (at_fate a text1) eqn:Ef; cbn [fst snd].
  2,3: split_and!; [by left | intros ? [=] |]; intros (_ & _ & H); destruct (H text1) as (_ & _ & ?); congruence.
  destruct (m_insert (at_env a) file1) eqn:Ei; [cbn [fst snd]; split_and!; [by left | intros ? [=] |]; intros (_ & _ & H); destruct (H file1) as (? & _); congruence |].
  destruct (m_commit (at_env a) file1) eqn:Ec; cbn [fst snd]; split_and!;
    first [by left | by right | by intros ? [=] | done | intros (_ & _ & H); destruct (H file1) as (_ & ? & _); congruence].
Qed.

Lemma run_from_first a m c : in_repository a → c = first_catalog m ∨ c = migrated_catalog m → ∀ k,
  let x := apply_all (exec_query a) (at_env a) [] [file2] {| schema := c; ledger := [file1] |} k in
  stage x.1 ∧ (∀ n, x.2 = Ok n → complete x.1) ∧ (undisturbed a → ∃ n, x.2 = Ok n).
Proof using text1_plain text2_directive.
  intros Ha Hc k. cbv zeta. destruct (apply_second a m c Ha Hc) as (H1 & H2 & H3). cbn [apply_all]. rewrite bool_decide_false by apply not_elem_of_nil.
  destruct (apply_file _ _ file2 _) as [d [[]|e]]; cbn [fst snd] in *; (split_and!; [done | |]); try done; [by eauto | by eauto |].
  intros Hu. by specialize (H3 Hu).
Qed.

Lemma recorded_files :
  (bool_decide (file1 ∈ [file1]) = true ∧ bool_decide (file2 ∈ [file1]) = false) ∧
  bool_decide (file1 ∈ [file1; file2]) = true ∧ bool_decide (file2 ∈ [file1; file2]) = true ∧
  bool_decide (file1 ∈ @nil string) = false ∧ bool_decide (file2 ∈ @nil string) = false.
Proof using. by vm_compute. Qed.

Lemma run_stage a db : in_repository a → stage db →
  stage (run_attempt db a).1 ∧ (∀ n, (run_attempt db a).2 = Ok n → complete (run_attempt db a).1) ∧
  (undisturbed a → ∃ n, (run_attempt db a).2 = Ok n).
Proof using text1_plain text2_directive in_order.
  intros Ha Hdb. unfold run_attempt, run_migrations. rewrite (files_in_order a Ha).
  destruct recorded_files as ((R1 & R2) & R3 & R4 & R5 & R6).
  assert (Hfirst : ∀ m c, c = first_catalog m ∨ c = migrated_catalog m →
    let x := apply_all (exec_query a) (at_env a) [file1] [file1; file2] {| schema := c; ledger := [file1] |} 0 in
    stage x.1 ∧ (∀ n, x.2 = Ok n → complete x.1) ∧ (undisturbed a → ∃ n, x.2 = Ok n)).
  { intros m c Hc. pose proof (run_from_first a m c Ha Hc 0) as H. cbn [apply_all] in H |- *. by rewrite R6 in H; rewrite R1, R2. }
  destruct Hdb as [| m | m | m].
  - change (ledger new_database) with (@nil string). destruct (apply_first a Ha) as (H1 & H2 & H3).
    pose proof (run_from_first a (at_month a) _ Ha (or_introl eq_refl)) as H. cbn [apply_all]. rewrite R5.
    destruct (apply_file _ _ file1 _) as [d [[]|e]]; cbn [fst snd] in H1, H2, H3.
    + rewrite (H2 tt eq_refl). apply H.
    + cbn [fst snd]. split_and!; [destruct H1 as [-> | ->]; [apply stage_new | apply stage_first] | intros ? [=] |].
      intros Hu. specialize (H3 Hu). discriminate.
  - apply (Hfirst m). by left.
  - apply (Hfirst m). by right.
  - cbn [ledger apply_all]. rewrite R3, R4. cbn [fst snd]. split_and!; [apply stage_done | intros _ _; by exists m |].
    intros _. by eexists.
Qed.

Lemma attempts_stage attempts db : Forall in_repository attempts → stage db → stage (run_attempts attempts db).
Proof using text1_plain text2_directive in_order.
  revert db. induction attempts as [|a l IH]; intros db Ha Hdb; [done |]. inv Ha. cbn. apply IH; [done |]. by apply run_stage.
Qed.
End Runs.

(** ** Theorem *)

(** C38: The schema the process queries through is the schema the database has,
    however it got there. Starting from a new database, run the migration script
    any number of times, with files that cannot be read, queries and commits that
    fail or whose replies are lost, and ledger entries that fail: after every run
    the database is at one of four stages, nothing half applied; a run that
    succeeds leaves every table of schema.ts with exactly the declared columns
    (types, order, nullability, defaults, references, single-column uniqueness),
    key and indexes, no other table, the adapter enum with its five labels in
    order, and every relation of the ORM backed by a reference. The database has
    beyond the ORM's declarations exactly: UNIQUE (provider_id, model_id) on
    provider_models, the partitioning of request_logs, and the view monthly_usage
    with its index (triggers and functions apart, which the ORM has no word for).
    And a run in which nothing fails succeeds. *)
Theorem migrations_reach_schema text1 text2 localeCompare attempts last :
  includes NO_TX_DIRECTIVE text1 = false → includes NO_TX_DIRECTIVE text2 = true →
  localeCompare file1 file2 < 0 < localeCompare file2 file1 →
  Forall (in_repository text1 text2) (attempts ++ [last]) →
  let before := run_attempts text1 text2 localeCompare attempts new_database in
  let x := run_attempt text1 text2 localeCompare before last in
  stage x.1 ∧ (undisturbed text1 text2 last → ∃ n, x.2 = Ok n) ∧
  ∀ n, x.2 = Ok n →
    ledger x.1 = [file1; file2] ∧ Forall (mirrors (schema x.1)) schema_tables ∧ nothing_else (schema x.1) ∧
    enums (schema x.1) !! adapterTypeEnum.1 = Some adapterTypeEnum.2 ∧
    forallb (λ t, forallb (λ r, backed t.1 r.2) t.2) schema_relations = true.
Proof.
  intros H1 H2 Ho [Ha Hl]%Forall_app. inv Hl. cbv zeta.
  assert (Hs : stage (run_attempts text1 text2 localeCompare attempts new_database)) by (apply attempts_stage; [done .. | constructor]).
  destruct (run_stage text1 text2 localeCompare H1 H2 Ho last _ ltac:(done) Hs) as (S1 & S2 & S3). split_and!; [done | done |].
  intros n Hn. destruct (S2 n Hn) as [m ->]. cbn [schema ledger]. split_and!; [done | apply tables_mirrored | apply tables_only | by vm_compute | apply relations_backed].
Qed.

(** A run whose second file is applied but whose reply is lost, then a clean one
    in the next year. *)
Definition sample_text1 : string := "CREATE ...".
Definition sample_attempt (month : Z * Z) (fate : string → fault) : script_run := {|
  at_month := month; at_fate := fate;
  at_env := {| m_dir := [file2; "README.md"%string; file1]; m_read f := Ok (if String.eqb f file1 then sample_text1 else NO_TX_DIRECTIVE);
               m_insert _ := None; m_commit _ := Up |} |}.
Definition second_reply_lost (sql : string) : fault := if String.eqb sql NO_TX_DIRECTIVE then Lost else Up.

Lemma sample_in_repository month fate : in_repository sample_text1 NO_TX_DIRECTIVE (sample_attempt month fate).
Proof.
  split; [apply Permutation_swap |]. intros f sql [= <-]. split; intros ->; done.
Qed.

Lemma migrations_reach_schema_witness :
  let before := run_attempts sample_text1 NO_TX_DIRECTIVE by_bytes [sample_attempt (2024, 12) second_reply_lost] new_database in
  let x := run_attempt sample_text1 NO_TX_DIRECTIVE by_bytes before (sample_attempt (2025, 1) (λ _, Up)) in
  ledger before = [file1] ∧ enums (schema before) !! adapterTypeEnum.1 = Some adapterTypeEnum.2 ∧
  ledger x.1 = [file1; file2] ∧ Forall (mirrors (schema x.1)) schema_tables.
Proof.
  cbv zeta.
  destruct (migrations_reach_schema sample_text1 NO_TX_DIRECTIVE by_bytes [sample_attempt (2024, 12) second_reply_lost]
    (sample_attempt (2025, 1) (λ _, Up))) as (_ & H2 & H3); [by vm_compute .. | |].
  - repeat (apply list.Forall_cons_2; [apply sample_in_repository |]). apply list.Forall_nil_2.
  - split; [by vm_compute |]. split; [by vm_compute |]. destruct H2 as [n Hn]; [by split_and! |]. destruct (H3 n Hn) as (E1 & E2 & _).
    split; [exact E1 | exact E2].
Defined.
