(* ===== verification/LogTable.v ===== *)
(** * The request log in the database ([services/cost-tracker.ts],
    [scripts/create-partition.ts])

    What an insert makes of a row, by the declared columns of [request_logs]: the
    write that [recordRequest] queues and the row it becomes.  And where rows go:
    the monthly partitions, the default partition, and the scheduled job. *)

From Stdlib Require Import ZArith Lia QArith Qround Qabs String Ascii.
From stdpp Require Import base gmap strings list.
From S2P Require Import Prelude Redis Numerals Json Errors Types Provider Values CostTracker Configuration Admin AdminLogs Operations Catalog Schema.
Open Scope Z_scope.

(** ** Values of columns *)

Inductive value := VNull | VText (s : string) | VBool (b : bool) | VNumber (q : Q) | VArray (l : list string) | VTime (us : Z).

(** [q] to [scale] decimals, half away from zero, as a multiple of the last. *)
Definition round_at (scale : Z) (q : Q) : Z :=
  let n := Qfloor (Qabs q * inject_Z (10 ^ scale) + (1 # 2)) in if Qle_bool 0 q then n else - n.

(** The numeral of a numeric column. *)
Definition numeral (scale n : Z) : string :=
  (if n <? 0 then "-" else "") ++ dec (Z.abs n / 10 ^ scale) ++ "." ++ pad_left (Z.to_nat scale) (dec (Z.abs n mod 10 ^ scale)).

Definition in_int32 (z : Z) : bool := (- 2 ^ 31 <=? z) && (z <? 2 ^ 31).

(** A value on its way into a column of a type. *)
Definition coerce (labels : gmap string (list string)) (ty : column_type) (v : value) : result thrown value :=
  match ty, v with
  | _, VNull => Ok VNull
  | Uuid, VText s => if is_uuid s then Ok (VText (uuid_column s)) else Err (constraint_error "invalid input syntax for type uuid")
  | Text, VText s => if no_char "000" s then Ok v else Err (constraint_error "invalid byte sequence for encoding")
  | TextArray, VArray l => if forallb (no_char "000") l then Ok v else Err (constraint_error "invalid byte sequence for encoding")
  | Boolean, VBool _ | Timestamptz, VTime _ => Ok v
  | Integer, VNumber q =>
      match to_int q with
      | None => Err (constraint_error "invalid input syntax for type integer")
      | Some z => if in_int32 z then Ok (VNumber (inject_Z z)) else Err out_of_range
      end
  | Numeric precision scale, VNumber q =>
      let n := round_at scale q in
      if Z.abs n <? 10 ^ precision then Ok (VText (numeral scale n)) else Err (constraint_error "numeric field overflow")
  | Numeric _ _, VText s => if String.eqb s "NaN" then Ok v else Err (constraint_error "numeric field overflow")
  | EnumType e, VText s =>
      match labels !! e with
      | Some l => if bool_decide (s ∈ l) then Ok v else Err (constraint_error "invalid input value for enum")
      | None => Err (constraint_error "type does not exist")
      end
  | _, _ => Err (constraint_error "type mismatch")
  end.

(** What the database draws for a row. *)
Record drawn := { gen_random_uuid : string; now_us : Z }.

Definition default_value (env : drawn) (d : option column_default) : value :=
  match d with
  | None => VNull
  | Some DefaultRandom => VText (gen_random_uuid env)
  | Some DefaultNow => VTime (now_us env)
  | Some (DefaultBool b) => VBool b
  | Some (DefaultInt z) => VNumber (inject_Z z)
  | Some (DefaultText s) => VText s
  end.

(** INSERT: each column takes its given value or its default, in its type, and is
    not null where it may not be. *)
Fixpoint insert_columns (labels : gmap string (list string)) (env : drawn) (cols : list column) (given : list (string * value))
    : result thrown (list (string * value)) :=
  match cols with
  | [] => Ok []
  | c :: cols =>
      let! v := coerce labels (col_type c) (assoc (col_name c) given ?? default_value env (col_default c)) in
      if match v with VNull => col_notNull c | _ => false end then Err (constraint_error "violates not-null constraint")
      else let! rest := insert_columns labels env cols given in Ok ((col_name c, v) :: rest)
  end.

(** ** The write of the cost tracker *)

Definition or_vnull {A} (f : A → value) (o : option A) : value := match o with Some a => f a | None => VNull end.

(** A count as the driver sends it: undefined and null are NULL, and only a number
    is one to the database. *)
Definition count_sql (v : js_value) : value :=
  match v with
  | Num (Finite q) | Other (Some (JNum q)) => VNumber q
  | Num n => VText (num_string n)
  | Other None | Other (Some JNull) => VNull
  | Other (Some (JBool b)) => VBool b
  | Other (Some v) => VText (js_string v)
  end.
Definition cost_sql (n : js_number) : value :=
  match n with Finite q => VNumber (round_at 6 q # 1000000) | n => VText (num_string n) end.
Definition latency_of (entry : RequestLogEntry) : option js_value := (λ q : Q, q : js_value) <$> log_latencyMs entry.

(** [.values({...})]; [toFixed(6)] rounds half away from zero. *)
Definition log_values (entry : RequestLogEntry) : list (string * value) :=
  [("api_key_id", or_vnull VText (log_apiKeyId entry));
   ("provider_id", or_vnull VText (log_providerId entry));
   ("model_id", or_vnull VText (log_modelId entry));
   ("prompt_tokens", or_vnull count_sql (log_promptTokens entry));
   ("completion_tokens", or_vnull count_sql (log_completionTokens entry));
   ("total_tokens", or_vnull count_sql (log_totalTokens entry));
   ("cost_usd", or_vnull cost_sql (log_costUsd entry));
   ("latency_ms", or_vnull count_sql (latency_of entry));
   ("status_code", or_vnull (λ z, VNumber (inject_Z z)) (log_statusCode entry));
   ("cache_hit", VBool (log_cacheHit entry));
   ("failover_count", VNumber (inject_Z (log_failoverCount entry)));
   ("error_message", or_vnull VText (log_errorMessage entry))]%string.

(** A stored row as a record. *)
Definition v_text (row : list (string * value)) (k : string) : option string := match assoc k row with Some (VText s) => Some s | _ => None end.
Definition v_int (row : list (string * value)) (k : string) : option Z := match assoc k row with Some (VNumber q) => to_int q | _ => None end.
Definition v_bool (row : list (string * value)) (k : string) : bool := match assoc k row with Some (VBool b) => b | _ => false end.
Definition v_time (row : list (string * value)) (k : string) : Z := match assoc k row with Some (VTime us) => us | _ => 0 end.
Definition as_log_row (row : list (string * value)) : log_row := {|
  lr_id := v_text row "id" ?? ""%string; lr_apiKeyId := v_text row "api_key_id"; lr_providerId := v_text row "provider_id";
  lr_modelId := v_text row "model_id"; lr_promptTokens := v_int row "prompt_tokens"; lr_completionTokens := v_int row "completion_tokens";
  lr_totalTokens := v_int row "total_tokens"; lr_costUsd := v_text row "cost_usd"; lr_latencyMs := v_int row "latency_ms";
  lr_statusCode := v_int row "status_code"; lr_cacheHit := v_bool row "cache_hit"; lr_failoverCount := v_int row "failover_count" ?? 0;
  lr_errorMessage := v_text row "error_message"; lr_createdAt := v_time row "created_at" |}.

Definition whole (o : option js_value) : Prop := ∀ v, o = Some v →
  match v with
  | Num (Finite q) | Other (Some (JNum q)) => ∃ z, to_int q = Some z ∧ in_int32 z = true
  | Other None | Other (Some JNull) => True
  | _ => False
  end.
Definition priced (o : option js_number) : Prop := ∀ n, o = Some n →
  match n with Finite q => Z.abs (round_at 6 q) < 10 ^ 10 | NaN => True | Infinity _ => False end.
Definition textual (o : option string) : Prop := ∀ s, o = Some s → no_char "000" s = true.
Definition ids_text (o : option string) : Prop := ∀ s, o = Some s → is_uuid s = true.

(** An entry that fits the columns: ids are ids, texts hold no NUL, counts are
    whole numbers of 32 bits or missing, and the cost rounds to less than 10000
    dollars (or is NaN, which a numeric column takes). *)
Definition fits (e : RequestLogEntry) : Prop :=
  (ids_text (log_apiKeyId e) ∧ ids_text (log_providerId e) ∧ textual (log_modelId e) ∧ textual (log_errorMessage e)) ∧
  (whole (log_promptTokens e) ∧ whole (log_completionTokens e) ∧ whole (log_totalTokens e) ∧ whole (latency_of e)) ∧
  priced (log_costUsd e) ∧
  (∀ z, log_statusCode e = Some z → in_int32 z = true) ∧ in_int32 (log_failoverCount e) = true.

(** Its row. *)
Definition count_int (v : js_value) : option Z := match v with Num (Finite q) | Other (Some (JNum q)) => to_int q | _ => None end.
Definition cost_text (n : js_number) : string := match n with Finite q => numeral 6 (round_at 6 q) | n => num_string n end.
Definition stored_row (env : drawn) (e : RequestLogEntry) : log_row := {|
  lr_id := uuid_column (gen_random_uuid env); lr_apiKeyId := uuid_column <$> log_apiKeyId e; lr_providerId := uuid_column <$> log_providerId e;
  lr_modelId := log_modelId e; lr_promptTokens := log_promptTokens e ≫= count_int; lr_completionTokens := log_completionTokens e ≫= count_int;
  lr_totalTokens := log_totalTokens e ≫= count_int; lr_costUsd := cost_text <$> log_costUsd e;
  lr_latencyMs := log_latencyMs e ≫= to_int; lr_statusCode := log_statusCode e; lr_cacheHit := log_cacheHit e;
  lr_failoverCount := log_failoverCount e; lr_errorMessage := log_errorMessage e; lr_createdAt := now_us env |}.

(** A column of the row at a time: which values it takes, and as what. *)

Lemma coerce_integer labels o : whole o → coerce labels Integer (or_vnull count_sql o) = Ok (or_vnull (λ z, VNumber (inject_Z z)) (o ≫= count_int)).
Proof.
  destruct o as [v|]; intros H; [| done]. specialize (H v eq_refl).
  destruct v as [[| |q] | [[| | q | | |]|]]; try done; destruct H as (z & E & Ez); cbn; by rewrite E, Ez.
Qed.
Lemma integer_coerced labels o v : coerce labels Integer (or_vnull count_sql o) = Ok v → whole o.
Proof.
  destruct o as [u|]; cbn [or_vnull]; [| by intros _ ? [=]]. intros H x [= <-].
  destruct u as [[| |q] | [[| | q | | |]|]]; try done; cbn [count_sql coerce] in H;
    (destruct (to_int q) as [z|] eqn:E; [| done]; destruct (in_int32 z) eqn:Ez; [| done]; by exists z).
Qed.

Lemma coerce_int labels o : (∀ z, o = Some z → in_int32 z = true) →
  coerce labels Integer (or_vnull (λ z, VNumber (inject_Z z)) o) = Ok (or_vnull (λ z, VNumber (inject_Z z)) o).
Proof. destruct o as [z|]; intros H; [| done]. cbn [or_vnull coerce]. by rewrite to_int_of_Z, (H z eq_refl). Qed.
Lemma int_coerced labels o v : coerce labels Integer (or_vnull (λ z, VNumber (inject_Z z)) o) = Ok v → ∀ z, o = Some z → in_int32 z = true.
Proof. intros H z ->. cbn [or_vnull coerce] in H. rewrite to_int_of_Z in H. by destruct (in_int32 z). Qed.

Lemma coerce_text labels o : textual o → coerce labels Text (or_vnull VText o) = Ok (or_vnull VText o).
Proof. destruct o as [x|]; intros H; [| done]. cbn [or_vnull coerce]. by rewrite (H x eq_refl). Qed.
Lemma text_coerced labels o v : coerce labels Text (or_vnull VText o) = Ok v → textual o.
Proof. intros H x ->. cbn [or_vnull coerce] in H. by destruct (no_char _ x). Qed.

Lemma coerce_uuid labels o : ids_text o → coerce labels Uuid (or_vnull VText o) = Ok (or_vnull VText (uuid_column <$> o)).
Proof. destruct o as [x|]; intros H; [| done]. cbn [or_vnull coerce]. by rewrite (H x eq_refl). Qed.
Lemma uuid_coerced labels o v : coerce labels Uuid (or_vnull VText o) = Ok v → ids_text o.
Proof. intros H x ->. cbn [or_vnull coerce] in H. by destruct (is_uuid x). Qed.

(** Rounding what was rounded already changes nothing. *)
Lemma round_rounded n : round_at 6 (n # 1000000) = n.
Proof.
  unfold round_at. change (inject_Z (10 ^ 6)) with (1000000 # 1).
  assert (E : Qfloor (Qabs (n # 1000000) * (1000000 # 1) + (1 # 2)) = Z.abs n).
  { unfold Qabs, Qfloor, Qmult, Qplus. cbn [Qnum Qden]. symmetry. apply Z.div_unique with 1000000; cbn; lia. }
  rewrite E. destruct (Qle_bool 0 (n # 1000000)) eqn:Eq.
  - apply Qle_bool_iff in Eq. unfold Qle in Eq. cbn in Eq. lia.
  - apply not_true_iff_false in Eq. rewrite Qle_bool_iff in Eq. unfold Qle in Eq. cbn in Eq. lia.
Qed.

Lemma coerce_cost labels o : priced o →
  coerce labels (Numeric 10 6) (or_vnull cost_sql o) = Ok (or_vnull VText (cost_text <$> o)).
Proof.
  destruct o as [n|]; intros H; [| done]. specialize (H n eq_refl). destruct n as [| |q]; [done.. |].
  cbn [or_vnull cost_sql coerce fmap option_fmap option_map cost_text]. rewrite round_rounded. by rewrite (proj2 (Z.ltb_lt _ _) H).
Qed.
Lemma cost_coerced labels o v : coerce labels (Numeric 10 6) (or_vnull cost_sql o) = Ok v → priced o.
Proof.
  intros H n ->. destruct n as [|[]|q]; [done.. |]. cbn [or_vnull cost_sql coerce] in H. rewrite round_rounded in H.
  by destruct (Z.ltb_spec (Z.abs (round_at 6 q)) (10 ^ 10)).
Qed.
Lemma latency_back e : latency_of e ≫= count_int = log_latencyMs e ≫= to_int.
Proof. unfold latency_of. by destruct (log_latencyMs e). Qed.

(** An insert goes column by column. *)
Lemma insert_column labels env c cols given v rest :
  coerce labels (col_type c) (assoc (col_name c) given ?? default_value env (col_default c)) = Ok v →
  (v = VNull → col_notNull c = false) → insert_columns labels env cols given = Ok rest →
  insert_columns labels env (c :: cols) given = Ok ((col_name c, v) :: rest).
Proof.
  intros E Hn Er. cbn [insert_columns]. rewrite E. cbn [res_bind]. rewrite Er.
  destruct v; try done. by rewrite (Hn eq_refl).
Qed.

Lemma columns_inserted labels env cols given : ∀ row, insert_columns labels env cols given = Ok row →
  Forall (λ c, ∃ v, coerce labels (col_type c) (assoc (col_name c) given ?? default_value env (col_default c)) = Ok v) cols.
Proof.
  induction cols as [|c cols IH]; intros row; cbn [insert_columns]; [by constructor |].
  destruct (coerce _ _ _) as [v|e] eqn:E; [| done]. cbn [res_bind]. destruct (match v with VNull => _ | _ => _ end); [done |].
  destruct (insert_columns labels env cols given) as [rest|e] eqn:Er; [| done]. intros _. constructor; [by exists v | by eapply IH].
Qed.

Lemma text_back o : match or_vnull VText o with VText s => Some s | _ => None end = o.
Proof. by destruct o. Qed.
Lemma int_back o : match or_vnull (λ z, VNumber (inject_Z z)) o with VNumber q => to_int q | _ => None end = o.
Proof. destruct o as [z|]; [apply to_int_of_Z | done]. Qed.

Lemma insert_fits env e : is_uuid (gen_random_uuid env) = true → fits e →
  ∃ row, insert_columns ∅ env (pg_columns requestLogs) (log_values e) = Ok row ∧ as_log_row row = stored_row env e.
Proof.
  intros Hid ((Hk & Hp & Hm & He) & (H1 & H2 & H3 & H4) & Hc & Hs & Hf).
  assert (Hi : ∀ z, Some (log_failoverCount e) = Some z → in_int32 z = true) by (by intros z [= <-]).
  assert (Hg : ids_text (Some (gen_random_uuid env))) by (by intros x [= <-]).
  eexists. split.
  - unfold requestLogs, pg_columns.
    apply insert_column; [exact (coerce_uuid ∅ _ Hg) | done |].
    apply insert_column; [exact (coerce_uuid ∅ _ Hk) | done |].
    apply insert_column; [exact (coerce_uuid ∅ _ Hp) | done |].
    apply insert_column; [exact (coerce_text ∅ _ Hm) | done |].
    apply insert_column; [exact (coerce_integer ∅ _ H1) | done |].
    apply insert_column; [exact (coerce_integer ∅ _ H2) | done |].
    apply insert_column; [exact (coerce_integer ∅ _ H3) | done |].
    apply insert_column; [exact (coerce_cost ∅ _ Hc) | done |].
    apply insert_column; [exact (coerce_integer ∅ _ H4) | done |].
    apply insert_column; [exact (coerce_int ∅ _ Hs) | done |].
    apply insert_column; [done | done |].
    apply insert_column; [exact (coerce_int ∅ _ Hi) | done |].
    apply insert_column; [exact (coerce_text ∅ _ He) | done |].
    apply insert_column; [done | done |]. done.
  - unfold as_log_row, stored_row, v_text, v_int, v_bool, v_time. cbn -[or_vnull round_at inject_Z to_int count_int latency_of cost_text].
    by rewrite !text_back, !int_back, latency_back.
Qed.

Lemma inserted_fits env e row : insert_columns ∅ env (pg_columns requestLogs) (log_values e) = Ok row → fits e.
Proof.
  intros H%columns_inserted. unfold requestLogs, pg_columns in H.
  rewrite !list.Forall_cons in H.
  destruct H as (_ & [? Hk] & [? Hp] & [? Hm] & [? H1] & [? H2] & [? H3] & [? Hc] & [? H4] & [? Hs] & _ & [? Hf] & [? He] & _).
  repeat match goal with |- fits _ => unfold fits | |- _ ∧ _ => split end.
  - exact (uuid_coerced _ _ _ Hk).
  - exact (uuid_coerced _ _ _ Hp).
  - exact (text_coerced _ _ _ Hm).
  - exact (text_coerced _ _ _ He).
  - exact (integer_coerced _ _ _ H1).
  - exact (integer_coerced _ _ _ H2).
  - exact (integer_coerced _ _ _ H3).
  - exact (integer_coerced _ _ _ H4).
  - exact (cost_coerced _ _ _ Hc).
  - exact (int_coerced _ _ _ Hs).
  - exact (int_coerced ∅ (Some (log_failoverCount e)) _ Hf _ eq_refl).
Qed.

Section Insert.
(** The ids of the rows the log refers to. *)
Variables (keys providers : list string).

(** The rows referred to exist. *)
Definition references_ok (r : log_row) : bool :=
  match lr_apiKeyId r with Some k => existsb (String.eqb k) keys | None => true end &&
  match lr_providerId r with Some p => existsb (String.eqb p) providers | None => true end.

(** [recordRequest]'s insert: the table afterwards, or the error that is logged. *)
Definition insert_log (env : drawn) (entry : RequestLogEntry) (rows : list log_row) : result thrown (list log_row) :=
  let! row := insert_columns ∅ env (pg_columns requestLogs) (log_values entry) in
  let r := as_log_row row in
  if references_ok r then Ok (rows ++ [r])%list else Err (constraint_error "violates foreign key constraint").

(** A log row is stored exactly when its entry fits the columns and its key and
    provider exist; it is then the row of the entry. *)
Lemma insert_log_exact env e rows : is_uuid (gen_random_uuid env) = true →
  ∀ rows', insert_log env e rows = Ok rows' ↔
    fits e ∧ references_ok (stored_row env e) = true ∧ rows' = (rows ++ [stored_row env e])%list.
Proof.
  intros Hid rows'. unfold insert_log. split.
  - destruct (insert_columns _ _ _ _) as [row|x] eqn:E; [| done]. cbn [res_bind]. pose proof (inserted_fits _ _ _ E) as Hf.
    destruct (insert_fits env e Hid Hf) as (row' & E' & Hr). rewrite E in E'. injection E' as <-. rewrite Hr.
    destruct (references_ok (stored_row env e)); [| done]. by intros [= <-].
  - intros (Hf & Hr & ->). destruct (insert_fits env e Hid Hf) as (row & -> & E). cbn [res_bind]. by rewrite E, Hr.
Qed.
End Insert.

(** A row newer than all others comes first. *)
Lemma sort_newest r l : (∀ y, y ∈ l → lr_createdAt y < lr_createdAt r) → sort_by newer (l ++ [r]) = r :: sort_by newer l.
Proof.
  induction l as [|x l IH]; intros Hl; [done |]. cbn [app sort_by foldr]. fold (sort_by newer (l ++ [r])). fold (sort_by newer l).
  rewrite IH by (intros y Hy; apply Hl; by right). cbn [insert_by]. unfold newer at 1.
  by rewrite (proj2 (Z.leb_gt _ _)) by (apply Hl; by left).
Qed.

Lemma newest_leads q r rows : (∀ y, y ∈ rows → lr_createdAt y < lr_createdAt r) → matches q r = true →
  matching q (rows ++ [r]) = r :: matching q rows.
Proof.
  intros Hl Hq. unfold matching. rewrite filter_app, filter_cons_True, filter_nil by done. apply sort_newest.
  intros y [_ Hy]%list_elem_of_filter. by apply Hl.
Qed.

(** ** Partitions *)

Definition log_table : string := "request_logs".

(** Where a row of a month goes. *)
Definition route (m : Z * Z) (c : catalog) : catalog * option thrown :=
  if bool_decide (m ∈ partitions c) then (c, None)
  else if default_partition c then
    (Catalog (enums c) (relations c) (functions c) (triggers c) (partitions c) (default_partition c) (m :: unrouted c), None)
  else (c, Some (sql_error "no partition of relation found for row")).

(** [create-partition.ts] with its arguments, at a time. *)
Definition run_partition_job (args : option (js_number * js_number)) (nowMs : Z) (c : catalog) : catalog * option thrown :=
  match create_partition args nowMs with
  | Ok ym => exec_statement (CreatePartition log_table partition_helper ym) c
  | Err e => (c, Some e)
  end.

(** What happens to the table: a row is written, or the scheduled job runs, and
    reaches the database or does not. *)
Inductive log_event := Write (nowMs : Z) | Job (nowMs : Z) (reached : bool).
Definition log_step (c : catalog) (e : log_event) : catalog * option thrown :=
  match e with
  | Write t => route (month_of t) c
  | Job t true => run_partition_job None t c
  | Job t false => (c, None)
  end.
Definition log_run (c : catalog) (es : list log_event) : catalog := foldl (λ c e, (log_step c e).1) c es.

Definition number (t : Z) : Z := month_number (month_of t).

Lemma month_number_inj m m' : 1 <= m.2 <= 12 → 1 <= m'.2 <= 12 → month_number m = month_number m' → m = m'.
Proof. destruct m as [y x], m' as [y' x']. unfold month_number. cbn [fst snd]. intros. f_equal; lia. Qed.

(** A database whose log table can be partitioned. *)
Definition partitionable (c : catalog) : Prop :=
  partitioned (relations c !! log_table) = true ∧ is_Some (functions c !! partition_helper) ∧ default_partition c = true.

(** The months from the first two, and those after a run of the job. *)
Definition prepared (first : Z) (es : list log_event) (n : Z) : Prop :=
  n = first ∨ n = first + 1 ∨ ∃ t, Job t true ∈ es ∧ n = number t + 1.

(** Each row is written in a month that was prepared before. *)
Definition on_schedule (first : Z) (es : list log_event) : Prop :=
  ∀ l1 t l2, es = (l1 ++ Write t :: l2)%list → prepared first l1 (number t).

Definition all_routed (first : Z) (es : list log_event) (c : catalog) : Prop :=
  partitionable c ∧ unrouted c = [] ∧ ∀ m, 1 <= m.2 <= 12 → prepared first es (month_number m) → m ∈ partitions c.

Lemma prepared_snoc first es e n : prepared first (es ++ [e]) n → prepared first es n ∨ ∃ t, e = Job t true ∧ n = number t + 1.
Proof.
  intros [E | [E | (t & Ht & E)]]; [left; by left | left; by right; left |].
  apply elem_of_app in Ht as [Ht | Ht%list_elem_of_singleton]; [left; right; right | right]; by exists t.
Qed.

(** In time, a step goes well and leaves every row in the partition of its month. *)
Lemma routed_step first es c e : all_routed first es c → (∀ t, e = Write t → prepared first es (number t)) →
  (log_step c e).2 = None ∧ all_routed first (es ++ [e]) (log_step c e).1.
Proof.
  intros ((Hp & [f Hf] & Hd) & Hu & Hm) He.
  assert (Hc : (∀ t, e ≠ Job t true) → all_routed first (es ++ [e]) c).
  { intros Hne. split_and!; [split_and!; [done | by exists f | done] | done |]. intros m Hr Hpr. apply Hm; [done |].
    destruct (prepared_snoc _ _ _ _ Hpr) as [H | (t & -> & _)]; [done | by destruct (Hne t)]. }
  destruct e as [t | t []]; cbn [log_step]; [| | by split; [| apply Hc]].
  - unfold route. rewrite bool_decide_true by (apply Hm; [apply month_range | by apply He]). by split; [| apply Hc].
  - unfold run_partition_job. destruct (partition_next_month t) as (ym & -> & Hn & Hr). cbn [exec_statement]. rewrite Hp, Hf, Hu.
    cbn [negb existsb andb fst snd]. split; [done |].
    split_and!; [split_and!; [done | by exists f | done] | done |]. intros m Hrm Hpr. cbn [set_partitions partitions].
    destruct (decide (m = ym)) as [-> | Hne]; [by apply elem_of_union_l, elem_of_singleton |]. apply elem_of_union. right. apply Hm; [done |].
    destruct (prepared_snoc _ _ _ _ Hpr) as [H | (t' & [= <-] & E)]; [done |]. exfalso. apply Hne, month_number_inj; [done | done |].
    rewrite E. unfold number. lia.
Qed.

Lemma routed_run first es c : all_routed first [] c → on_schedule first es → all_routed first es (log_run c es) ∧
  ∀ l1 e l2, es = (l1 ++ e :: l2)%list → (log_step (log_run c l1) e).2 = None.
Proof.
  intros Hc. induction es as [|e es IH] using rev_ind; intros Hs; [split; [exact Hc | by intros [] ? ? [=]] |].
  assert (Hs' : on_schedule first es) by (intros l1 t l2 ->; apply (Hs l1 t (l2 ++ [e])%list); by rewrite <- app_assoc).
  destruct (IH Hs') as [Hr Hok].
  destruct (routed_step first es (log_run c es) e Hr) as [He Hr']; [intros t ->; by apply (Hs es t []) |].
  split; [unfold log_run; by rewrite foldl_app |].
  intros l1 x l2 E. destruct l2 as [|y l2 _] using rev_ind.
  - apply app_inj_tail in E as [-> ->]. exact He.
  - rewrite app_comm_cons, app_assoc in E. apply app_inj_tail in E as [E _]. by apply (Hok l1 x l2).
Qed.

(** The migrations leave the log table ready for two months. *)
Lemma migrated_partitions now : partitions (migrated_catalog now) = {[next_month now]} ∪ ({[now]} ∪ ∅).
Proof. reflexivity. Qed.

Lemma migrated_routed now : 1 <= now.2 <= 12 → all_routed (month_number now) [] (migrated_catalog now).
Proof.
  intros Hr. split; [split_and!; [by vm_compute | by eexists | by vm_compute] |]. split; [by vm_compute |].
  intros m Hm [E | [E | (t & Ht & _)]]; [| | by apply elem_of_nil in Ht]; rewrite migrated_partitions.
  - apply month_number_inj in E as ->; [| done | done]. apply elem_of_union. right. apply elem_of_union. left. by apply elem_of_singleton.
  - apply elem_of_union. left. apply elem_of_singleton. apply month_number_inj; [done | |].
    + unfold next_month. destruct (Z.eqb_spec now.2 12); cbn [snd]; lia.
    + rewrite E. unfold month_number, next_month. destruct (Z.eqb_spec now.2 12); cbn [fst snd]; lia.
Qed.

(** ** Theorems *)

(** C24: What the gateway logs can be read back, or is not there at all. The row
    of a log entry is stored exactly when the entry fits the columns (ids are
    uuids, counts are whole and of 32 bits, the cost rounds to less than 10000
    dollars) and its key and provider exist; the first page of any query it
    matches then starts with it, its counts, cost to six decimals, status and
    outcome as they were given, followed by what the query found before.
    Otherwise the insert fails, and the table is unchanged. *)
Theorem logged_then_read keys providers env e rows q :
  is_uuid (gen_random_uuid env) = true → (∀ y, y ∈ rows → lr_createdAt y < now_us env) →
  fits_columns q = true → q_offset q = 0 → 1 <= q_limit q →
  let row := stored_row env e in
  (fits e → references_ok keys providers row = true → ∃ rows', insert_log keys providers env e rows = Ok rows' ∧
     (∀ y, y ∈ rows' ↔ y ∈ rows ∨ y = row) ∧
     (matches q row = true → select_logs q rows' = Ok (row :: take (Z.to_nat (q_limit q - 1)) (matching q rows)))) ∧
  (¬ (fits e ∧ references_ok keys providers row = true) → ∃ x, insert_log keys providers env e rows = Err x).
Proof.
  intros Hid Hnew Hf Ho Hl row. pose proof (insert_log_exact keys providers env e rows Hid) as Hi. split.
  - intros He Hr. exists (rows ++ [row])%list. split; [by apply Hi | split; [intros y; by rewrite elem_of_app, list_elem_of_singleton |]].
    intros Hq. unfold select_logs. rewrite Hf, Ho, newest_leads by done. cbn [Z.to_nat drop].
    replace (Z.to_nat (q_limit q)) with (S (Z.to_nat (q_limit q - 1))) by lia. done.
  - intros Hno. destruct (insert_log keys providers env e rows) as [rows'|x]; [| by exists x].
    exfalso. apply Hno. destruct (proj1 (Hi rows') eq_refl) as (? & ? & _). done.
Qed.

(** The job keeps the partitions ahead, and must. Start with the partitions of
    the first month and the next, as the first migration leaves them. If every
    row is written in one of these or in a month before which (the month before)
    the job once ran and reached the database, then no row is ever in the default
    partition, and no run of the job fails. But once a row of a month is in the
    default partition, creating the partition of that month fails, whatever is
    written and whenever the job runs, and the row stays there. *)
Theorem partitions_kept_ahead first c es : all_routed first [] c → on_schedule first es →
  (unrouted (log_run c es) = [] ∧ ∀ l1 e l2, es = (l1 ++ e :: l2)%list → (log_step (log_run c l1) e).2 = None) ∧
  ∀ c' m more, partitionable c' → m ∈ unrouted c' → m ∉ partitions c' →
    let late := log_run c' more in
    m ∈ unrouted late ∧ is_Some (exec_statement (CreatePartition log_table partition_helper m) late).2.
Proof.
  intros Hc Hs. destruct (routed_run first es c Hc Hs) as [(_ & Hu & _) Hok]. split; [done |]. clear Hc Hs Hu Hok.
  intros c' m more (Hp & [f Hf] & Hd) Hm Hn. cbv zeta.
  assert (Hinv : partitioned (relations (log_run c' more) !! log_table) = true ∧ functions (log_run c' more) !! partition_helper = Some f ∧
    m ∈ unrouted (log_run c' more) ∧ m ∉ partitions (log_run c' more)).
  { induction more as [|e more IH] using rev_ind; [done |]. unfold log_run. rewrite foldl_app. fold (log_run c' more). cbn [foldl].
    destruct IH as (I1 & I2 & I3 & I4). destruct e as [t | t []]; cbn [log_step]; [| | done].
    - unfold route. case_bool_decide; [done |]. destruct (default_partition (log_run c' more)); [| done]. cbn [fst relations functions unrouted partitions]. split_and!; [exact I1 | exact I2 | by right | exact I4].
    - unfold run_partition_job. destruct (create_partition None t) as [ym|x]; [| done]. cbn [exec_statement]. rewrite I1, I2. cbn [negb].
      destruct (_ && _)%bool eqn:E; [done |]. cbn [fst set_partitions partitions unrouted relations functions]. split_and!; [done .. |].
      rewrite not_elem_of_union, not_elem_of_singleton. split; [| done]. intros <-. apply andb_false_iff in E as [E | E].
      + apply not_true_iff_false in E. apply E, existsb_exists. exists m. split; [by apply list_elem_of_In | by rewrite bool_decide_true].
      + by rewrite bool_decide_true in E. }
  destruct Hinv as (I1 & I2 & I3 & I4). split; [done |]. cbn [exec_statement]. rewrite I1, I2. cbn [negb].
  assert (E : existsb (λ x, bool_decide (x = m)) (unrouted (log_run c' more)) = true)
    by (apply existsb_exists; exists m; split; [by apply list_elem_of_In | by rewrite bool_decide_true]).
  rewrite E, bool_decide_true by done. by eexists.
Qed.

(** A served request of 12 and 30 tokens is read back; one whose provider counted
    a token and a half is lost. *)
Definition id_of (n : string) : string := ("00000000-0000-4000-8000-00000000000" ++ n)%string.
Definition sample_drawn : drawn := {| gen_random_uuid := id_of "9"; now_us := 2000000 |}.
Definition sample_entry (prompt : Q) : RequestLogEntry :=
  let n (q : Q) : option js_value := Some (q : js_value) in {|
  log_apiKeyId := Some (id_of "1"); log_providerId := Some (id_of "2"); log_modelId := Some "gpt-4o"%string;
  log_promptTokens := n prompt; log_completionTokens := n 30%Q; log_totalTokens := n (prompt + 30)%Q;
  log_costUsd := Some (Finite (123456 # 10000000)); log_latencyMs := Some 80%Q; log_statusCode := Some 200; log_cacheHit := false;
  log_failoverCount := 0; log_errorMessage := None |}.
Definition last_log : log_query := {|
  q_apiKeyId := Some (id_of "1"); q_providerId := None; q_modelId := None; q_statusCode := Some 200; q_cacheHit := None;
  q_from := None; q_to := None; q_limit := 1; q_offset := 0 |}.

Lemma sample_fits : fits (sample_entry 12).
Proof.
  assert (Hw : ∀ z, in_int32 z = true → whole (Some (Num (Finite (inject_Z z))))) by (intros z Hz q [= <-]; exists z; by rewrite to_int_of_Z).
  unfold fits. repeat split; try (by intros ? [= <-]).
  - by apply (Hw 12).
  - by apply (Hw 30).
  - intros q [= <-]. exists 42. by vm_compute.
  - by apply (Hw 80).
Qed.

Lemma logged_then_read_witness :
  (∃ rows, insert_log [id_of "1"] [id_of "2"] sample_drawn (sample_entry 12) [] = Ok rows ∧
     select_logs last_log rows = Ok [stored_row sample_drawn (sample_entry 12)]) ∧
  lr_costUsd (stored_row sample_drawn (sample_entry 12)) = Some "0.012346"%string ∧
  (∃ x, insert_log [id_of "1"] [id_of "2"] sample_drawn (sample_entry (3 # 2)) [] = Err x).
Proof.
  assert (Hn : ∀ y, y ∈ @nil log_row → lr_createdAt y < now_us sample_drawn) by (by intros y ?%elem_of_nil).
  split; [| split; [by vm_compute |]].
  - destruct (logged_then_read [id_of "1"] [id_of "2"] sample_drawn (sample_entry 12) [] last_log eq_refl Hn eq_refl eq_refl ltac:(done))
      as [H _].
    destruct (H sample_fits eq_refl) as (rows & E & _ & Hq). exists rows. split; [exact E | by apply Hq].
  - destruct (logged_then_read [id_of "1"] [id_of "2"] sample_drawn (sample_entry (3 # 2)) [] last_log eq_refl Hn eq_refl eq_refl ltac:(done))
      as [_ H].
    apply H. intros [(_ & (Hw & _) & _) _]. destruct (Hw _ eq_refl) as (z & E & _). by vm_compute in E.
Defined.
