(* ===== verification/AdminRoutes.v ===== *)
(** * The admin API ([src/routes/admin/])

    The routes of the breakers and of the cache, and the whole admin surface:
    the administrator's authentication before every route, the dispatch, and the
    error handler after it. *)

From Stdlib Require Import ZArith Lia QArith String Ascii.
From stdpp Require Import base strings gmap list.
From S2P Require Import Prelude Redis Numerals Constants Bytes Json Errors Types Crypto CircuitBreaker Provider Registry Cache Auth Http Wiring BreakerListing Admin AdminKeys AdminProviders AdminLogs.
Open Scope Z_scope.

(** The state the admin routes share with the rest of the process. *)
Record admin_state := { a_keys : key_state; a_providers : provider_state; a_logs : list log_row }.

(** What happens around a request. *)
Record surroundings := {
  s_provider_env : provider_env;
  s_batches : list (option (list string));     (* SCAN over the breakers' keys *)
  s_pages : list page;                         (* SCAN over the cache, and each DEL *)
  s_counted : list (list string);              (* SCAN over the cache, for the count *)
  s_usage : option usage_row;
  s_database : bool;                           (* SELECT 1 *)
  s_redis : bool                               (* PING *)
}.

Inductive admin_request :=
| AdminHealth
| Keys (r : key_request)
| Providers (r : provider_request)
| GetBreakers
| ResetBreaker (id : string)
| GetCache
| FlushCache
| DeleteCached (fingerprint : string)
| Logs (q : query_string).

(** The process's configuration, and the library functions the routes call (see
    the files of the routes). *)
Record AdminHost := {
  sha256 : Buffer → Buffer; ADMIN_API_KEY : string; cache_config : CacheConfig; master : Buffer; previous : option Buffer;
  is_url : string → bool; datetime : string → option Z; toISOString : Z → string; key_budget : Q → result thrown string;
  model_price : Q → result thrown string; body_issues : json → json; query_issues : query_string → json;
  localeCompare : string → string → Z
}.

Section Routes.
Context `{Cipher}.
Variable host : AdminHost.
Abbreviation REDIS_KEY_PREFIX := (CACHE_KEY_PREFIX (cache_config host)).

(** ** Breakers ([circuit-breakers.ts]) *)

Definition breaker_json (snap : snapshot) (c : CircuitBreakerStatus) : json :=
  JObj [("providerId"%string, JStr (cs_providerId c)); ("state"%string, JStr (cs_state c));
        ("failures"%string, jint (cs_failures c)); ("openedAt"%string, or_null jint (cs_openedAt c));
        ("providerName"%string, nullable (p_name <$> getProvider snap (cs_providerId c)))].

Definition get_breakers (f : fault) (batches : list (option (list string))) (now : Z) (snap : snapshot) (s : db)
    : result thrown admin_reply :=
  match (client f (getAllStates REDIS_KEY_PREFIX (localeCompare host) batches) now s).2 with
  | Ok states => Ok {| ar_status := 200; ar_body := JObj [("data"%string, JArr (map (breaker_json snap) states))] |}
  | Err e => Err (redis_error e)
  end.

Definition reset_breaker (f : fault) (id : string) (now : Z) (s : db) : db * result thrown admin_reply :=
  if String.eqb id "" then (s, Err (invalid_param "Invalid provider id." (Some "id"%string)))
  else match client f (reset REDIS_KEY_PREFIX id) now s with
       | (s, Ok _) => (s, Ok {| ar_status := 200;
                                ar_body := JObj [("providerId"%string, JStr id); ("state"%string, JStr "CLOSED");
                                                 ("reset"%string, JBool true)] |})
       | (s, Err e) => (s, Err (redis_error e))
       end.

(** ** The cache ([cache.ts]) *)

Definition stats_json (c : CacheStats) : json :=
  JObj [("hits"%string, JNum (hits c)); ("misses"%string, JNum (misses c)); ("hitRate"%string, JNum (hitRate c));
        ("entries"%string, jint (entries c))].

Definition get_cache (f : fault) (pages : list (list string)) (now : Z) (s : db) : result thrown admin_reply :=
  match getStats (cache_config host) f pages now s with
  | Ok stats => Ok {| ar_status := 200; ar_body := stats_json stats |}
  | Err e => Err (redis_error e)
  end.

Definition flush_cache (pages : list page) (now : Z) (s : db) : db * result thrown admin_reply :=
  let '(s, flushed) := Cache.flush pages now s in
  (s, Ok {| ar_status := 200; ar_body := JObj [("flushed"%string, jint flushed)] |}).

(** [/^[0-9a-f]{64}$/]: lower case only. *)
Definition is_fingerprint (s : string) : bool :=
  (String.length s =? 64)%nat && String.eqb (to_lower s) s &&
  forallb (λ c, match hex_rank c with Some _ => true | None => false end) (list_ascii_of_string s).

Definition delete_cached (f : fault) (fingerprint : string) (now : Z) (s : db) : db * result thrown admin_reply :=
  if is_fingerprint fingerprint then
    match client f (redis_call (DEL [redisKeys.cacheEntry REDIS_KEY_PREFIX fingerprint])) now s with
    | (s, Ok (RInteger removed)) =>
        (s, Ok {| ar_status := 200; ar_body := JObj [("fingerprint"%string, JStr fingerprint); ("removed"%string, jint removed)] |})
    | (s, Ok _) => (s, Err (redis_error "unexpected reply"))
    | (s, Err e) => (s, Err (redis_error e))
    end
  else (s, Err (invalid_param "Invalid cache fingerprint." (Some "fingerprint"%string))).

(** ** All routes *)

Definition with_store (s : db) (st : admin_state) : admin_state :=
  {| a_keys := {| keys := keys (a_keys st); store := s |}; a_providers := a_providers st; a_logs := a_logs st |}.

Definition dispatch (env : surroundings) (r : admin_request) (st : admin_state) : admin_state * result thrown admin_reply :=
  let around := around (s_provider_env env) in
  let s := store (a_keys st) in
  let now := clock around in
  let f := cache_fate around in
  match r with
  | AdminHealth => (st, Ok (admin_health (s_database env) (s_redis env)))
  | Keys r =>
      let '(k, reply) := keysRoutes (datetime host) (toISOString host) (key_budget host) (sha256 host) (body_issues host) REDIS_KEY_PREFIX around r (a_keys st) in
      ({| a_keys := k; a_providers := a_providers st; a_logs := a_logs st |}, reply)
  | Providers r =>
      let '(p, reply) := providersRoutes (master host) (previous host) (is_url host) (toISOString host) (model_price host)
                           (body_issues host) (s_provider_env env) r (a_providers st) in
      ({| a_keys := a_keys st; a_providers := p; a_logs := a_logs st |}, reply)
  | GetBreakers => (st, get_breakers f (s_batches env) now (snap (reg (a_providers st))) s)
  | ResetBreaker id => let '(s, reply) := reset_breaker f id now s in (with_store s st, reply)
  | GetCache => (st, get_cache f (s_counted env) now s)
  | FlushCache => let '(s, reply) := flush_cache (s_pages env) now s in (with_store s st, reply)
  | DeleteCached fingerprint => let '(s, reply) := delete_cached f fingerprint now s in (with_store s st, reply)
  | Logs q => (st, logsRoutes (datetime host) (toISOString host) (query_issues host) around q (a_logs st))
  end.

(** [app.register(adminRoutes, { prefix: '/admin' })]: the hook, the route, and
    the error handler of the application. *)
Definition adminRoutes (env : surroundings) (h : headers) (r : admin_request) (st : admin_state) : admin_state * http_reply :=
  match adminAuthPreHandler (sha256 host) (ADMIN_API_KEY host) h with
  | Err e => (st, error_reply [] e)
  | Ok _ =>
      match dispatch env r st with
      | (st, Ok reply) => (st, JsonReply (ar_status reply) [] (ar_body reply))
      | (st, Err e) => (st, error_reply [] e)
      end
  end.
End Routes.

(** ** The gate *)

Definition refused : json :=
  toOpenAIError (PermissionError (Some "Admin authentication required."%string) no_options).

Lemma gate_refuses `{Cipher} host env h r st :
  (∀ x y, length (sha256 host x) = length (sha256 host y)) →
  (∀ k, sha256 host (utf8 k) = sha256 host (utf8 (ADMIN_API_KEY host)) → k = ADMIN_API_KEY host) →
  extractAdminKey h ≠ Some (ADMIN_API_KEY host) → adminRoutes host env h r st = (st, JsonReply 403 [] refused).
Proof.
  intros Hlen Hinj Hne. unfold adminRoutes, adminAuthPreHandler, timingSafeEqual, nodeTimingSafeEqual.
  destruct (extractAdminKey h) as [k|]; [| done]. rewrite (Hlen _ (utf8 (ADMIN_API_KEY host))), Nat.eqb_refl.
  cbn [res_bind]. rewrite bool_decide_eq_false_2; [done |]. intros E. apply Hne. f_equal. by apply Hinj.
Qed.

Lemma gate_admits `{Cipher} host env h r st : extractAdminKey h = Some (ADMIN_API_KEY host) →
  let x := dispatch host env r st in
  adminRoutes host env h r st =
    (x.1, match x.2 with Ok reply => JsonReply (ar_status reply) [] (ar_body reply) | Err e => error_reply [] e end).
Proof.
  unfold adminRoutes, adminAuthPreHandler, timingSafeEqual, nodeTimingSafeEqual.
  intros ->. rewrite Nat.eqb_refl. cbn [res_bind]. rewrite bool_decide_eq_true_2 by done. cbn [res_bind].
  by destruct (dispatch host env r st) as [st' [reply|e]].
Qed.

(** Only the administrator gets past the gate. Whatever the route, a request
    whose headers do not carry exactly the configured admin key (as a bearer
    token, or else in x-api-key) is answered 403 and touches no table, no cache
    and no breaker; one that does is dispatched to its route, whose error, if it
    throws, goes through the application's error handler. *)
Theorem admin_gate `{Cipher} host env h r st :
  (∀ x y, length (sha256 host x) = length (sha256 host y)) →
  (∀ k, sha256 host (utf8 k) = sha256 host (utf8 (ADMIN_API_KEY host)) → k = ADMIN_API_KEY host) →
  (extractAdminKey h ≠ Some (ADMIN_API_KEY host) → adminRoutes host env h r st = (st, JsonReply 403 [] refused)) ∧
  (extractAdminKey h = Some (ADMIN_API_KEY host) →
   let x := dispatch host env r st in
   adminRoutes host env h r st =
     (x.1, match x.2 with Ok reply => JsonReply (ar_status reply) [] (ar_body reply) | Err e => error_reply [] e end)).
Proof.
  intros Hlen Hinj. split; [by apply gate_refuses | apply gate_admits].
Qed.

Definition admin_digest (b : Buffer) : Buffer := [if bool_decide (b = utf8 "admin-1") then Byte.x01 else Byte.x00].
Definition sample_host : AdminHost :=
  {| sha256 := admin_digest; ADMIN_API_KEY := "admin-1";
     cache_config := {| CACHE_ENABLED := true; CACHE_DEFAULT_TTL_SECONDS := 60; CACHE_MAX_VALUE_BYTES := 1000; CACHE_KEY_PREFIX := "gw:" |};
     master := key_of Byte.x01; previous := None; is_url := http_url; datetime := no_datetime; toISOString := no_text;
     key_budget := any_numeric; model_price := one_dollar; body_issues := no_issues; query_issues := λ _, JNull;
     localeCompare := any_order |}.
Definition sample_state : admin_state :=
  {| a_keys := sample_keys "h"; a_providers := no_providers; a_logs := [] |}.
Definition sample_surroundings : surroundings :=
  {| s_provider_env := {| around := sample_admin_env; load_error := None |}; s_batches := []; s_pages := []; s_counted := [];
     s_usage := None; s_database := true; s_redis := true |}.

Lemma sample_admin_key k :
  sha256 sample_host (utf8 k) = sha256 sample_host (utf8 (ADMIN_API_KEY sample_host)) → k = ADMIN_API_KEY sample_host.
Proof.
  cbn [sample_host sha256 ADMIN_API_KEY]. unfold admin_digest. rewrite (bool_decide_eq_true_2 (utf8 "admin-1" = _)) by done.
  destruct (decide (utf8 k = utf8 "admin-1")) as [E | Hne]; [| by rewrite bool_decide_eq_false_2].
  intros _. by rewrite <- (utf8_roundtrip k), E, utf8_roundtrip.
Qed.

(** A user's key gets nowhere; the administrator's disables the key. *)
Lemma admin_gate_witness :
  adminRoutes sample_host sample_surroundings {| h_authorization := Some "Bearer gw-1"%string; h_x_api_key := None |}
    (Keys (DeleteKey sample_id)) sample_state = (sample_state, JsonReply 403 [] refused) ∧
  map (λ r, k_isActive (kr_row r))
    (keys (a_keys (adminRoutes sample_host sample_surroundings {| h_authorization := Some "Bearer admin-1 "%string; h_x_api_key := None |}
      (Keys (DeleteKey sample_id)) sample_state).1)) = [false].
Proof.
  pose proof sample_admin_key as Hk.
  split.
  - apply (admin_gate sample_host sample_surroundings _ (Keys (DeleteKey sample_id)) sample_state); [done | exact Hk |]. by vm_compute.
  - destruct (admin_gate sample_host sample_surroundings {| h_authorization := Some "Bearer admin-1 "%string; h_x_api_key := None |}
      (Keys (DeleteKey sample_id)) sample_state) as [_ H]; [done | exact Hk |]. cbv zeta in H. rewrite H; by vm_compute.
Defined.
