(* ===== verification/OpenAI.v ===== *)
(** * The OpenAI adapter ([src/providers/openai.ts])

    The reference adapter: the body sent upstream, the schemas a reply must
    meet, its normalisation, the stream, and embeddings.  The
    methods take the body builder they dispatch to, which a subclass overrides. *)

From Stdlib Require Import ZArith Lia QArith Qround String Ascii.
From stdpp Require Import base strings list option.
From S2P Require Import Prelude Numerals Constants Json Errors Types Tokens Stream Provider Cache Adapter.
Open Scope Z_scope.

(** ** Reply schemas *)

Definition usageSchema (o : fields) : option CompletionUsage :=
  p ← req "prompt_tokens" p_count o; c ← req "completion_tokens" p_count o; t ← req "total_tokens" p_count o;
  Some {| prompt_tokens := p; completion_tokens := c; total_tokens := t |}.

Definition p_finish_reason (v : json) : option FinishReason :=
  match v with
  | JStr "stop" => Some fr_stop
  | JStr "length" => Some fr_length
  | JStr "tool_calls" => Some fr_tool_calls
  | JStr "content_filter" => Some fr_content_filter
  | _ => None
  end.

Record choice_data := {
  x_index : option Z;
  x_content : option (option string);
  x_tool_calls : option (list ToolCall);
  x_finish_reason : option (option FinishReason)
}.

Definition choiceSchema (o : fields) : option choice_data :=
  index ← opt "index" p_int o;
  message ← req "message" (p_obj (λ m,
    opt_literal "role" "assistant" m;;
    content ← nopt "content" p_string m;
    calls ← opt "tool_calls" (p_array (p_obj toolCallSchema)) m;
    Some (content, calls))) o;
  finish ← nopt "finish_reason" p_finish_reason o;
  Some {| x_index := index; x_content := message.1; x_tool_calls := message.2; x_finish_reason := finish |}.

Record chat_data := {
  d_id : option string;
  d_created : option Q;
  d_model : option string;
  d_choices : list choice_data;
  d_usage : option CompletionUsage;
  d_system_fingerprint : option string
}.

Definition chatResponseSchema : json → option chat_data :=
  p_obj (λ o,
    id ← opt "id" p_string o;
    object ← opt "object" p_string o;
    created ← opt "created" p_num o;
    model ← opt "model" p_string o;
    choices ← req "choices" (p_array (p_obj choiceSchema)) o; guard (choices ≠ []);;
    usage ← opt "usage" (p_obj usageSchema) o;
    fingerprint ← opt "system_fingerprint" p_string o;
    Some {| d_id := id; d_created := created; d_model := model; d_choices := choices; d_usage := usage;
            d_system_fingerprint := fingerprint |}).

(** An embedding is an array of numbers or a base64 string, kept as it is. *)
Definition p_embedding (v : json) : option json :=
  match v with
  | JArr l => JArr <$> mapM (λ x, JNum <$> p_num x) l
  | JStr _ => Some v
  | _ => None
  end.

Record embedding_data := {
  m_data : list (Z * json);
  m_model : option string;
  m_usage : option (Q * Q)
}.

Definition embeddingResponseSchema : json → option embedding_data :=
  p_obj (λ o,
    opt_literal "object" "list" o;;
    items ← req "data" (p_array (p_obj (λ x,
      opt_literal "object" "embedding" x;;
      index ← req "index" p_int x;
      embedding ← req "embedding" p_embedding x;
      Some (index, embedding)))) o; guard (items ≠ []);;
    model ← opt "model" p_string o;
    usage ← opt "usage" (p_obj (λ u,
      p ← req "prompt_tokens" p_num u; t ← req "total_tokens" p_num u; Some (p, t))) o;
    Some {| m_data := items; m_model := model; m_usage := usage |}).

(** ** Requests *)

Definition headers (cfg : ProviderInstanceConfig) : list (string * string) :=
  [("content-type", "application/json"); ("authorization", "Bearer " ++ p_apiKey cfg)]%string.

Definition buildChatBody (request : ChatCompletionRequest) (stream : bool) : fields :=
  if stream then
    let body := set_field "stream" (JBool true) (request_fields request) in
    if wantUsage request
    then set_field "stream_options" (JObj [("include_usage"%string, JBool true)]) body
    else body
  else set_field "stream" (JBool false) (del_field "stream_options" (request_fields request)).

Definition embedding_input_json (i : EmbeddingInput) : json :=
  match i with
  | InText s => JStr s
  | InTexts l => JArr (map JStr l)
  | InTokens l => JArr (map jint l)
  | InTokenLists l => JArr (map (λ x, JArr (map jint x)) l)
  end.

Definition buildEmbeddingBody (request : EmbeddingRequest) : fields :=
  (("model"%string, JStr (e_model request)) :: ("input"%string, embedding_input_json (e_input request)) ::
   opt_field "encoding_format" (JStr <$> e_encoding_format request) ++
   opt_field "dimensions" (jint <$> e_dimensions request) ++
   opt_field "user" (JStr <$> e_user request) ++ e_extra request)%list.

(** ** Calls *)

Section Calls.
Variable JSON_parse : string → option json.
Context {D : Type} (new_decoder : D) (decode : D → list Byte.byte → D * string) (decode_end : D → string).
(** The tokenizer, and zod's report on a value its schema rejects. *)
Variable encoded_length : TiktokenEncoding → string → Z.
Variable zod_issues : json → json.
(** The virtual method, and the fields of the instance. *)
Variable build : ChatCompletionRequest → bool → fields.
Variable cfg : ProviderInstanceConfig.
(** [randomUUID()] and [Date.now()] when the reply is normalised. *)
Variables (uuid : string) (nowMs : Z).

Definition countTokens (messages : list ChatMessage) (m : string) : Z := countChatTokens encoded_length messages m.

Definition normalise_choice (index : nat) (c : choice_data) : ChatCompletionChoice :=
  {| ch_index := x_index c ?? Z.of_nat index;
     ch_message := {| rm_content := x_content c ?? None; rm_tool_calls := x_tool_calls c |};
     ch_finish_reason := Some ((x_finish_reason c ?? None) ?? fr_stop) |}.

Definition normaliseChatResponse (data : chat_data) (request : ChatCompletionRequest) : ChatCompletionResponse :=
  let promptTokens := (prompt_tokens <$> d_usage data) ?? inject_Z (countTokens (messages request) (model request)) in
  let completionTokens := (completion_tokens <$> d_usage data) ?? 0%Q in
  {| r_id := d_id data ?? createCompletionId uuid;
     r_created := d_created data ?? inject_Z (nowUnixSeconds nowMs);
     r_model := d_model data ?? model request;
     r_choices := imap normalise_choice (d_choices data);
     r_usage := {| prompt_tokens := promptTokens; completion_tokens := completionTokens;
                   total_tokens := (total_tokens <$> d_usage data) ?? (promptTokens + completionTokens)%Q |};
     r_system_fingerprint := d_system_fingerprint data |}.

Definition chat_request (request : ChatCompletionRequest) (stream : bool) : HttpRequest :=
  post cfg (headers cfg) "/chat/completions" (build request stream).

Definition chat (fetch : HttpRequest → fetch_outcome) (request : ChatCompletionRequest)
    : result thrown ChatCompletionResponse :=
  let! raw := fetch_json JSON_parse cfg (fetch (chat_request request false)) in
  match chatResponseSchema raw with
  | None => Err (shape_error cfg "OpenAI returned an unexpected chat response shape." (Some (zod_issues raw)))
  | Some data => Ok (normaliseChatResponse data request)
  end.

(** One event of the stream: chunks pass through as they are. *)
Definition stream_step (s : unit) (event : SSEEvent) : unit * list json * verdict :=
  if String.eqb (data event) SSE.DONE then (tt, [], Return)
  else if String.eqb (data event) "" then (tt, [], Continue)
  else match JSON_parse (data event) with
       | None => (tt, [], Continue)
       | Some chunk => (tt, [chunk], Continue)
       end.

Definition chatStream (fetch : HttpRequest → StreamReply) (request : ChatCompletionRequest) : streamed :=
  open_body JSON_parse new_decoder decode decode_end cfg "OpenAI returned an empty stream body."
    stream_step (λ _, []) tt (fetch (chat_request request true)).

Definition embed (fetch : HttpRequest → fetch_outcome) (request : EmbeddingRequest) : result thrown EmbeddingResponse :=
  let! raw := fetch_json JSON_parse cfg (fetch (post cfg (headers cfg) "/embeddings" (buildEmbeddingBody request))) in
  match embeddingResponseSchema raw with
  | None => Err (shape_error cfg "OpenAI returned an unexpected embedding response shape." (Some (zod_issues raw)))
  | Some data =>
      let promptTokens := (fst <$> m_usage data) ?? 0%Q in
      Ok {| er_data := m_data data; er_model := m_model data ?? e_model request;
            er_prompt_tokens := promptTokens;
            er_total_tokens := (snd <$> m_usage data) ?? promptTokens |}
  end.
End Calls.

Lemma usageSchema_counts o u : usageSchema o = Some u →
  is_count (prompt_tokens u) ∧ is_count (completion_tokens u) ∧ is_count (total_tokens u).
Proof.
  unfold usageSchema, req. intros (p & (v1 & _ & H1)%bind_Some & (c & (v2 & _ & H2)%bind_Some &
    (t & (v3 & _ & H3)%bind_Some & [= <-])%bind_Some)%bind_Some)%bind_Some.
  apply p_count_spec in H1 as [_ ?], H2 as [_ ?], H3 as [_ ?]. done.
Qed.

(** ** Replies are well typed *)

Lemma normalised_shape encoded_length uuid nowMs data request raw : chatResponseSchema raw = Some data →
  let r := normaliseChatResponse encoded_length uuid nowMs data request in
  r_choices r ≠ [] ∧ Forall (λ c, is_Some (ch_finish_reason c)) (r_choices r).
Proof.
  intros E. destruct raw as [| | | | |o]; try done. unfold chatResponseSchema in E. cbn [p_obj] in E.
  repeat (apply bind_Some in E as (? & ? & E)). injection E as <-. cbv zeta. split.
  - cbn [normaliseChatResponse r_choices d_choices].
    match goal with |- imap _ ?l ≠ [] => destruct l; [| done] end. by case_guard.
  - cbn [normaliseChatResponse r_choices]. apply Forall_forall. intros c (i & y & -> & _)%list_elem_of_In%elem_of_lookup_imap. by eexists.
Qed.

Section Replies.
Variable encoded_length : TiktokenEncoding → string → Z.
Hypothesis lengths : ∀ e s, 0 <= encoded_length e s.

Lemma normalised_well_typed uuid nowMs data request raw :
  chatResponseSchema raw = Some data →
  well_typed (normaliseChatResponse encoded_length uuid nowMs data request).
Proof using lengths.
  intros E. destruct (normalised_shape encoded_length uuid nowMs data request raw E) as [Hc Hf].
  split; [done | split; [done |]]. clear Hc Hf.
  destruct raw as [| | | | |o]; try done. unfold chatResponseSchema in E. cbn [p_obj] in E.
  repeat (apply bind_Some in E as (? & ? & E)). injection E as <-.
  assert (Hn : is_count (inject_Z (countTokens encoded_length (messages request) (model request)))).
  { apply count_nonneg, countChatTokens_nonneg, lengths. }
  match goal with H : opt "usage" _ o = Some ?u |- _ => rename H into Hu; destruct u as [u|] end;
    cbn [normaliseChatResponse r_usage d_usage prompt_tokens completion_tokens total_tokens option_fmap option_map fmap coalesce].
  - unfold opt in Hu. destruct (field "usage" o) as [v|]; [| done]. destruct v as [| | | | |uo]; try done.
      simpl in Hu. destruct (usageSchema uo) eqn:E; [| done]. injection Hu as ->. by apply (usageSchema_counts uo).
  - split_and!; [done | by apply (count_nonneg 0) | apply is_count_add; [done | by apply (count_nonneg 0)]].
Qed.
End Replies.

(** ** A reply of the gateway is an OpenAI reply *)

Definition data_of_choice (c : ChatCompletionChoice) : choice_data :=
  {| x_index := Some (ch_index c); x_content := Some (rm_content (ch_message c));
     x_tool_calls := rm_tool_calls (ch_message c); x_finish_reason := Some (ch_finish_reason c) |}.

Definition data_of (r : ChatCompletionResponse) : chat_data :=
  {| d_id := Some (r_id r); d_created := Some (r_created r); d_model := Some (r_model r);
     d_choices := map data_of_choice (r_choices r); d_usage := Some (r_usage r);
     d_system_fingerprint := r_system_fingerprint r |}.

Lemma choice_accepted c : p_obj choiceSchema (choice_json c) = Some (data_of_choice c).
Proof.
  destruct c as [i [ct tc] fr]. cbn [p_obj choice_json]. unfold choiceSchema, req, opt.
  cbn [field String.eqb Ascii.eqb Bool.eqb]. rewrite p_int_jint. simpl.
  destruct ct, tc as [l|]; simpl; rewrite ?(mapM_map_some tool_call_json) by (intros; apply tool_call_roundtrip);
    by destruct fr as [[]|].
Qed.

Lemma usage_accepted u :
  is_count (prompt_tokens u) → is_count (completion_tokens u) → is_count (total_tokens u) →
  p_obj usageSchema (usage_json u) = Some u.
Proof.
  destruct u as [p c t]. intros Hp Hc Ht. cbn [p_obj usage_json]. unfold usageSchema, req.
  cbn [field String.eqb Ascii.eqb Bool.eqb mbind option_bind prompt_tokens completion_tokens total_tokens] in *.
  assert (H : ∀ q, is_count q → p_count (JNum q) = Some q) by (intros q Hq; by apply p_count_spec).
  by do 3 (rewrite H by done; cbn [mbind option_bind]).
Qed.

(** The gateway speaks the protocol it consumes. The JSON of a well-typed
    reply meets the schema the OpenAI adapter puts on upstream replies, and
    normalising it gives back the same reply, for every request, clock and id
    source: nothing is lost, defaulted or renumbered when one gateway is the
    upstream of another. *)
Theorem reply_reaccepted r : well_typed r →
  ∃ data, chatResponseSchema (response_json r) = Some data ∧
    ∀ encoded_length uuid nowMs request, normaliseChatResponse encoded_length uuid nowMs data request = r.
Proof.
  intros (Hne & Hf & Hp & Hc & Ht). exists (data_of r). split.
  - destruct r as [i cr m cs u fp]. unfold chatResponseSchema, response_json. cbn [p_obj]. unfold req, opt.
    cbn [r_usage r_choices] in *.
    pose proof (usage_accepted u Hp Hc Ht) as Hu. destruct (usage_json u) eqn:Eu; try done.
    cbn [p_obj] in Hu. cbn. rewrite (mapM_map_to choice_json _ data_of_choice) by apply choice_accepted. cbn.
    rewrite option_guard_True by (by destruct cs). cbn. rewrite Hu. by destruct fp.
  - intros enc uuid nowMs request. destruct r as [i cr m cs [p c t] fp].
    unfold normaliseChatResponse, data_of. cbn. f_equal.
    cbn [r_choices] in Hf. rewrite <- (list_fmap_id cs) at 2. clear Hne.
    apply list_eq. intros j. rewrite list_lookup_imap, !list_lookup_fmap.
    destruct (cs !! j) as [[k [ct tc] fr]|] eqn:E; [| done]. simpl.
    rewrite Forall_lookup in Hf. destruct (Hf _ _ E) as [f Hfr]. simpl in Hfr. by subst fr.
Qed.

Lemma reply_reaccepted_witness :
  ∃ data, chatResponseSchema (response_json sample_response) = Some data ∧
    ∀ encoded_length uuid nowMs request,
      normaliseChatResponse encoded_length uuid nowMs data request = sample_response.
Proof.
  apply (reply_reaccepted sample_response). split; [discriminate |]. split; [repeat constructor; by eexists |].
  split; [by exists 3 |]. split; [by exists 1 | by exists 4].
Defined.

(** ** The body sent upstream *)

(** What the adapter changes of a request: the stream flag and its options. *)
Definition as_sent (request : ChatCompletionRequest) (stream_ : bool) : ChatCompletionRequest :=
  {| model := model request; messages := messages request; temperature := temperature request;
     top_p := top_p request; n := n request; stream := Some stream_;
     stream_options := if stream_ then stream_options request else None;
     stop := stop request; max_tokens := max_tokens request;
     max_completion_tokens := max_completion_tokens request; presence_penalty := presence_penalty request;
     frequency_penalty := frequency_penalty request; logit_bias := logit_bias request; user := user request;
     seed := seed request; tools := tools request; tool_choice := tool_choice request;
     response_format := response_format request; extra := extra request |}.

Lemma rest_of_set keys k v o : known keys k = true → rest_of keys (set_field k v o) = rest_of keys o.
Proof.
  intros Hk. induction o as [|[k' w] o IH]; cbn [set_field]; [simpl; by rewrite Hk |].
  destruct (String.eqb_spec k k') as [<- |]; [simpl; by rewrite Hk |]. unfold rest_of in *. simpl. by rewrite IH.
Qed.

Lemma rest_of_del keys k o : known keys k = true → rest_of keys (del_field k o) = rest_of keys o.
Proof.
  intros Hk. unfold rest_of, del_field. induction o as [|[k' w] o IH]; [done |]. simpl.
  destruct (String.eqb_spec k k') as [<- |]; simpl; [by rewrite Hk | by rewrite IH].
Qed.

Lemma field_app_eq k a o o' : field k o = field k o' → field k (a ++ o)%list = field k (a ++ o')%list.
Proof. intros H. by rewrite !field_app, H. Qed.

Lemma fields_other request b k : k ≠ "stream"%string → k ≠ "stream_options"%string →
  field k (request_fields (as_sent request b)) = field k (request_fields request).
Proof.
  intros H1%String.eqb_neq H2%String.eqb_neq. unfold request_fields. cbn [as_sent model messages temperature top_p n].
  apply (field_app_eq k [_]), (field_app_eq k [_]). do 3 apply field_app_eq.
  by rewrite (field_opt k "stream"), (field_opt k "stream_options"), H1, H2,
    (field_opt k "stream"), (field_opt k "stream_options"), H1, H2.
Qed.

(** The fields of the body sent, one by one. *)
Lemma sent_fields request b k : fresh_fields known_keys (extra request) →
  field k (buildChatBody request b) = field k (request_fields (as_sent request b)).
Proof.
  intros Hx. destruct (request_field_lookups request Hx) as (_ & _ & _ & _ & _ & F6 & F7 & _).
  destruct (request_field_lookups (as_sent request b) Hx) as (_ & _ & _ & _ & _ & G6 & G7 & _).
  destruct (String.eqb_spec k "stream") as [-> | H1]; [| destruct (String.eqb_spec k "stream_options") as [-> | H2]].
  - rewrite G6. unfold buildChatBody. destruct b; [destruct (wantUsage request) |];
      rewrite ?(field_set_ne "stream_options") by done; by rewrite field_set_eq.
  - rewrite G7. unfold buildChatBody, wantUsage. cbn [as_sent stream_options]. destruct b.
    + destruct (stream_options request) as [[[]|]|] eqn:E; rewrite ?field_set_eq, ?(field_set_ne "stream"), ?F7 by done; done.
    + by rewrite field_set_ne, field_del_eq by done.
  - rewrite fields_other by done. unfold buildChatBody.
    destruct b; [destruct (wantUsage request) |]; by rewrite ?field_set_ne, ?field_del_ne by done.
Qed.

Lemma sent_extra request b : fresh_fields known_keys (extra request) →
  rest_of known_keys (buildChatBody request b) = extra request.
Proof.
  intros Hx. unfold buildChatBody. destruct b; [destruct (wantUsage request) |];
    rewrite ?rest_of_set, ?rest_of_del by done; by apply request_fields_extra.
Qed.

(** The flag and the options of a request, set in the body it came from. *)
Definition flagged (o : fields) (b : bool) : fields :=
  set_field "stream" (JBool b) (if b then o else del_field "stream_options" o).

Lemma flagged_other o b k : k ≠ "stream"%string → k ≠ "stream_options"%string → field k (flagged o b) = field k o.
Proof. intros H1 H2. unfold flagged. rewrite field_set_ne by done. destruct b; [done | by rewrite field_del_ne]. Qed.

Lemma flagged_extra o b : rest_of known_keys (flagged o b) = rest_of known_keys o.
Proof. unfold flagged. rewrite rest_of_set by done. destruct b; [done | by rewrite rest_of_del]. Qed.

Lemma flagged_options o b : field "stream_options" (flagged o b) = if b then field "stream_options" o else None.
Proof. unfold flagged. rewrite field_set_ne by done. destruct b; [done | by rewrite field_del_eq]. Qed.

Lemma flagged_valid o request b : chatCompletionRequestSchema (JObj o) = Some request →
  chatCompletionRequestSchema (JObj (flagged o b)) = Some (as_sent request b).
Proof.
  intros E. unfold chatCompletionRequestSchema in *. cbn [p_obj] in *. unfold req, opt in *.
  assert (field "stream" (flagged o b) = Some (JBool b)) as -> by apply field_set_eq.
  rewrite flagged_extra, flagged_options, !flagged_other by done.
  repeat (apply bind_Some in E as (?x & ?E & E)). injection E as <-.
  repeat match goal with H : ?a = Some _ |- ?a ≫= _ = _ => rewrite H; cbn [mbind option_bind p_bool fmap option_fmap option_map] end.
  destruct b; cbn [mbind option_bind];
  repeat match goal with H : ?a = Some _ |- ?a ≫= _ = _ => rewrite H; cbn [mbind option_bind] end; done.
Qed.

(** The body sent upstream carries the caller's request. For every request
    the gateway accepts, streamed or not, the OpenAI adapter's body is itself an
    acceptable request: it validates to the caller's own request with the
    stream flag set (and, unstreamed, without stream options), so no bound,
    default, message or vendor parameter is lost or changed on the way up. *)
Theorem sent_body_revalidates v request stream_ :
  chatCompletionRequestSchema v = Some request →
  chatCompletionRequestSchema (JObj (buildChatBody request stream_)) = Some (as_sent request stream_).
Proof.
  intros E. destruct v as [| | | | |o]; try done.
  assert (Hx : fresh_fields known_keys (extra request)).
  { unfold chatCompletionRequestSchema in E. cbn [p_obj] in E.
    repeat (apply bind_Some in E as (?x & ?E & E)). injection E as <-. apply rest_of_idem. }
  rewrite <- (validated_again _ _ (flagged_valid o request stream_ E)). apply schema_ext.
  - intros k _. by apply sent_fields.
  - rewrite sent_extra, request_fields_extra by done. done.
Qed.

Lemma sent_body_revalidates_witness :
  ∃ r, chatCompletionRequestSchema sample_request = Some r ∧
    chatCompletionRequestSchema (JObj (buildChatBody r true)) = Some (as_sent r true) ∧
    field "vendor" (buildChatBody r true) = Some (JBool true).
Proof.
  eexists. split; [reflexivity |]. split; [| reflexivity].
  apply (sent_body_revalidates sample_request). reflexivity.
Defined.

(** ** A gateway stream read as an upstream *)

Definition is_object (v : json) : Prop := match v with JObj _ => True | _ => False end.

Lemma object_text v : is_object v → stringify v ≠ SSE.DONE ∧ stringify v ≠ ""%string.
Proof. by destruct v. Qed.

Lemma payload_step JSON_parse v : is_object v → JSON_parse (stringify v) = Some v →
  stream_step JSON_parse tt {| event := None; data := stringify v |} = (tt, [v], Continue).
Proof.
  intros [Hd He]%object_text Hp. unfold stream_step. cbn [data].
  rewrite (proj2 (String.eqb_neq _ _) Hd), (proj2 (String.eqb_neq _ _) He). by rewrite Hp.
Qed.

(** A streamed reply survives a chain of gateways. When the upstream's body
    is a gateway stream, however the network cuts it, the OpenAI adapter yields
    exactly its chunks, in order, ends without an error at the [DONE] sentinel,
    and ignores whatever the connection does afterwards. *)
Theorem stream_passthrough {D} (d0 : D) decode decode_end `{!DecoderLaws decode decode_end}
    JSON_parse build cfg fetch request response payloads :
  reply (fetch (chat_request build cfg request true)) = Responded response →
  ok response = true → is_Some (body response) →
  broken (fetch (chat_request build cfg request true)) = None →
  text_of d0 decode decode_end (concat (reads (fetch (chat_request build cfg request true)))) = stream_body payloads →
  Forall (λ v, is_object v ∧ JSON_parse (stringify v) = Some v) payloads →
  chatStream JSON_parse d0 decode decode_end build cfg fetch request = Streamed payloads None.
Proof.
  intros Hr Hok [t Hb] Hbr Ht Hp. unfold chatStream, open_body, exchange, upstreamFetch. rewrite Hr.
  cbn [res_bind]. unfold ensureOk. rewrite Hok, Hb. unfold body_events. rewrite Hbr.
  rewrite (frames_events d0 decode decode_end _ payloads Ht), map_app, map_map.
  assert (Hg : goes (stream_step JSON_parse) tt (map (λ x, {| event := None; data := stringify x |}) payloads) payloads tt).
  { clear Ht. induction Hp as [|v payloads [Ho Hv] _ IH]; [constructor |]. cbn [map].
    change (v :: payloads) with ([v] ++ payloads)%list. econstructor; [by apply payload_step | done]. }
  rewrite (drive_goes _ _ _ _ _ _ _ _ Hg). cbn [map drive]. unfold stream_step. simpl. by rewrite app_nil_r.
Qed.

Definition sample_payload : json := makeContentChunk "c1" 1 "m" "hi".
Definition only (v : json) (s : string) : option json := if String.eqb s (stringify v) then Some v else None.

Lemma stream_passthrough_witness :
  ∃ req, chatCompletionRequestSchema sample_request = Some req ∧
    chatStream (only sample_payload) tt ascii_decode (λ _, ""%string) buildChatBody sample_cfg
      (λ _, {| reply := Responded {| status := 200; body := Some (Ok ""%string) |};
               reads := map (λ b, [b]) (list_byte_of_string (stream_body [sample_payload]));
               broken := None |}) req = Streamed [sample_payload] None.
Proof.
  eexists. split; [reflexivity |].
  apply (stream_passthrough tt ascii_decode (λ _, ""%string) (only sample_payload) buildChatBody sample_cfg _ _
    {| status := 200; body := Some (Ok ""%string) |} [sample_payload]); try reflexivity.
  - eexists. reflexivity.
  - repeat constructor.
Defined.
