(* ===== verification/Mistral.v ===== *)
(** * The Mistral adapter ([src/providers/mistral.ts])

    A subclass of the OpenAI adapter that sends another chat body. *)

From Stdlib Require Import ZArith Lia QArith String Ascii.
From stdpp Require Import base strings list option.
From S2P Require Import Prelude Json Types OpenAI.
Open Scope Z_scope.

Definition UNSUPPORTED_FIELDS : list string :=
  ["logit_bias"; "presence_penalty"; "frequency_penalty"; "n"; "user"]%string.

Definition buildChatBody (request : ChatCompletionRequest) (stream : bool) : fields :=
  let body := OpenAI.buildChatBody request stream in
  let body := match field "seed" body with Some v => set_field "random_seed" v body | None => body end in
  let body := del_field "seed" body in
  let body := del_field "stream_options" body in
  foldl (λ body field, del_field field body) body UNSUPPORTED_FIELDS.

(** ** Mistral's body *)

(** The value of a field of the body sent to  *)
Definition mistral_field (request : ChatCompletionRequest) (stream_ : bool) (k : string) : option json :=
  if known ("seed" :: "stream_options" :: UNSUPPORTED_FIELDS)%string k then None
  else if String.eqb k "random_seed" then
    match seed request with Some z => Some (jint z) | None => field "random_seed" (extra request) end
  else field k (request_fields (as_sent request stream_)).

Lemma field_del_all ks : ∀ o k, field k (foldl (λ body f, del_field f body) o ks) = if known ks k then None else field k o.
Proof.
  induction ks as [|x ks IH]; intros o k; [done |]. cbn [foldl]. rewrite IH. unfold known. cbn [existsb].
  destruct (String.eqb_spec k x) as [-> |]; simpl.
  - rewrite field_del_eq. by destruct (existsb _ _).
  - by rewrite field_del_ne by congruence.
Qed.

Lemma field_opt_skip k k' v o : String.eqb k k' = false → field k (opt_field k' v ++ o)%list = field k o.
Proof. intros H. by rewrite field_opt, H. Qed.

Lemma request_field_extra request k : known known_keys k = false → field k (request_fields request) = field k (extra request).
Proof.
  intros Hk. unfold known, known_keys in Hk. cbn [existsb] in Hk.
  repeat (apply orb_false_iff in Hk as [? Hk]). unfold request_fields. cbn [field].
  repeat match goal with H : String.eqb k ?x = false |- context [String.eqb k ?x] => rewrite H end.
  by do 16 (rewrite field_opt_skip by assumption).
Qed.

(** Mistral gets the request in its own dialect. Field by field: the
    parameters it rejects and the stream options are absent, the seed is sent
    as [random_seed] (a vendor parameter of that name only when there is no
    seed), and every other field is what OpenAI would be sent. *)
Theorem mistral_body request stream_ k : fresh_fields known_keys (extra request) →
  field k (buildChatBody request stream_) = mistral_field request stream_ k.
Proof.
  intros Hx. unfold buildChatBody, mistral_field. rewrite field_del_all.
  destruct (request_field_lookups (as_sent request stream_) Hx) as (_ & _ & _ & _ & _ & _ & _ & _ & _ & _ & _ & _ & _ & _ & Hs & _).
  rewrite sent_fields, Hs by done. cbn [as_sent seed].
  set (body := match jint <$> seed request with Some _ => _ | None => _ end).
  assert (Hb : ∀ k', k' ≠ "random_seed"%string → field k' body = field k' (request_fields (as_sent request stream_))).
  { intros k' Hne. unfold body. destruct (seed request); simpl; by rewrite ?field_set_ne, sent_fields by done. }
  assert (Hr : field "random_seed" body = match seed request with Some z => Some (jint z) | None => field "random_seed" (extra request) end).
  { unfold body. destruct (seed request); simpl; [by rewrite field_set_eq |]. by rewrite sent_fields, request_field_extra by done. }
  unfold known. cbn [existsb]. destruct (String.eqb_spec k "seed") as [-> | H1].
  { simpl. by rewrite field_del_ne, field_del_eq by done. }
  destruct (String.eqb_spec k "stream_options") as [-> | H2]; [simpl; by rewrite field_del_eq |]. simpl orb.
  rewrite !field_del_ne by done.
  unfold UNSUPPORTED_FIELDS. cbn [existsb]. destruct (_ || _); [done |].
  destruct (String.eqb_spec k "random_seed") as [-> | H3]; [done | by apply Hb].
Qed.

Lemma mistral_body_witness :
  ∃ r, chatCompletionRequestSchema (JObj [("model"%string, JStr "m"); ("messages"%string, JArr [JObj [("role"%string, JStr "user"); ("content"%string, JStr "hi")]]); ("seed"%string, jint 7); ("user"%string, JStr "u")]) = Some r ∧
    field "random_seed" (buildChatBody r false) = Some (jint 7) ∧
    field "user" (buildChatBody r false) = None.
Proof.
  eexists. split; [reflexivity |]. split.
  - refine (eq_trans (mistral_body _ false "random_seed" _) _); reflexivity.
  - refine (eq_trans (mistral_body _ false "user" _) _); reflexivity.
Defined.
