(* ===== verification/Client.v ===== *)
(** * What an OpenAI client makes of a stream

    The specification side of the streaming adapters: a client accumulates the
    deltas of the chunks into a message, the way the OpenAI protocol defines
    them.  A streaming adapter is right when its chunks accumulate to the
    message the same upstream reply gives without streaming. *)

From Stdlib Require Import ZArith Lia QArith String Ascii.
From stdpp Require Import base strings list option.
From S2P Require Import Prelude Numerals Json Types Stream Cache Adapter.
Open Scope Z_scope.

Record assembled := Assembled {
  got_text : string;
  got_calls : list ToolCall;
  got_finish : option string;
  got_usage : option json
}.

Definition nothing : assembled := Assembled "" [] None None.

Definition call_plus (args : string) (c : ToolCall) : ToolCall :=
  {| tc_id := tc_id c;
     tc_function := {| fc_name := fc_name (tc_function c); fc_arguments := fc_arguments (tc_function c) ++ args |} |}.

(** One element of [delta.tool_calls]: a call not seen yet, or more arguments
    of a call already open. *)
Definition absorb_call (calls : list ToolCall) (d : json) : list ToolCall :=
  let o := fields_of d in
  let f := obj_at "function" o in
  let i := Z.to_nat (int_at "index" o) in
  if (length calls <=? i)%nat
  then (calls ++ [{| tc_id := str_at "id" o;
                     tc_function := {| fc_name := str_at "name" f; fc_arguments := str_at "arguments" f |} |}])%list
  else alter (call_plus (str_at "arguments" f)) i calls.

Definition absorb (a : assembled) (chunk : json) : assembled :=
  let o := fields_of chunk in
  let choice := fields_of (List.hd JNull (arr_at "choices" o)) in
  let delta := obj_at "delta" choice in
  {| got_text := (got_text a ++ str_at "content" delta)%string;
     got_calls := foldl absorb_call (got_calls a) (arr_at "tool_calls" delta);
     got_finish := match as_string (field "finish_reason" choice) with Some f => Some f | None => got_finish a end;
     got_usage := match field "usage" o with Some u => Some u | None => got_usage a end |}.

Definition assemble (cs : list json) : assembled := foldl absorb nothing cs.

(** The message of a reply that was not streamed, read the same way. *)
Definition assembled_reply (r : ChatCompletionResponse) (usage : option json) : assembled :=
  match r_choices r with
  | c :: _ =>
      {| got_text := rm_content (ch_message c) ?? ""%string; got_calls := rm_tool_calls (ch_message c) ?? [];
         got_finish := finish_reason_str <$> ch_finish_reason c; got_usage := usage |}
  | [] => nothing
  end.

(** ** The chunks of the adapters *)

Section Chunks.
Variables (id : string) (created : Z) (model : string).

Lemma absorb_role a : absorb a (makeRoleChunk id created model) = a.
Proof. destruct a. unfold absorb. simpl. f_equal. apply string_app_empty_r. Qed.

Lemma absorb_content a text : absorb a (makeContentChunk id created model text) =
  Assembled (got_text a ++ text) (got_calls a) (got_finish a) (got_usage a).
Proof. done. Qed.

Lemma absorb_tool a d : absorb a (makeToolCallChunk id created model d) =
  Assembled (got_text a) (absorb_call (got_calls a) d) (got_finish a) (got_usage a).
Proof. unfold absorb. simpl. f_equal. apply string_app_empty_r. Qed.

Lemma absorb_finish a f : absorb a (makeFinishChunk id created model f) =
  Assembled (got_text a) (got_calls a) (Some (finish_reason_str f)) (got_usage a).
Proof. unfold absorb. simpl. f_equal. apply string_app_empty_r. Qed.

Lemma absorb_usage a u : absorb a (makeUsageChunk id created model u) =
  Assembled (got_text a) (got_calls a) (got_finish a) (Some (usage_json u)).
Proof. unfold absorb. simpl. f_equal. apply string_app_empty_r. Qed.

(** Content chunks accumulate to their concatenation. *)
Lemma absorb_contents texts : ∀ a, foldl absorb a (map (makeContentChunk id created model) texts) =
  Assembled (got_text a ++ join "" texts) (got_calls a) (got_finish a) (got_usage a).
Proof.
  induction texts as [|t texts IH]; intros a; [simpl; rewrite string_app_empty_r; by destruct a |].
  cbn [map foldl]. by rewrite absorb_content, IH, join_empty_cons, <- string_app_assoc.
Qed.
End Chunks.

(** A call opened at the end, then extended. *)
Definition call_start (index : Z) (call_id name : string) : json :=
  JObj [("index"%string, jint index); ("type"%string, JStr "function"); ("id"%string, JStr call_id);
        ("function"%string, JObj [("arguments"%string, JStr ""); ("name"%string, JStr name)])].
Definition call_more (index : Z) (args : string) : json :=
  JObj [("index"%string, jint index); ("function"%string, JObj [("arguments"%string, JStr args)])].

Lemma int_at_field k o z : field k o = Some (jint z) → int_at k o = z.
Proof. unfold int_at. intros ->. simpl. by rewrite to_int_of_Z. Qed.

(** A delta with the next index opens a call. *)
Lemma absorb_new calls o : field "index" o = Some (jint (Z.of_nat (length calls))) →
  absorb_call calls (JObj o) =
    (calls ++ [{| tc_id := str_at "id" o; tc_function := {| fc_name := str_at "name" (obj_at "function" o);
                  fc_arguments := str_at "arguments" (obj_at "function" o) |} |}])%list.
Proof. intros H. unfold absorb_call. cbn [fields_of]. by rewrite (int_at_field _ _ _ H), Nat2Z.id, Nat.leb_refl. Qed.

Lemma absorb_start calls i nm :
  absorb_call calls (call_start (Z.of_nat (length calls)) i nm) =
    (calls ++ [{| tc_id := i; tc_function := {| fc_name := nm; fc_arguments := "" |} |}])%list.
Proof. by apply absorb_new. Qed.

Lemma absorb_more calls c args :
  absorb_call (calls ++ [c]) (call_more (Z.of_nat (length calls)) args) = (calls ++ [call_plus args c])%list.
Proof.
  unfold absorb_call. rewrite (int_at_field _ _ (Z.of_nat (length calls))) by done.
  rewrite Nat2Z.id, length_app. destruct (_ <=? _)%nat eqn:E; [apply Nat.leb_le in E; simpl in E; lia |].
  rewrite alter_app_r_alt, Nat.sub_diag by done. done.
Qed.

Lemma absorb_mores args : ∀ calls c,
  foldl absorb_call (calls ++ [c]) (map (call_more (Z.of_nat (length calls))) args) =
    (calls ++ [call_plus (join "" args) c])%list.
Proof.
  induction args as [|x args IH]; intros calls [i [nm as_]]; [unfold call_plus; simpl; by rewrite string_app_empty_r |].
  cbn [map foldl]. rewrite absorb_more, IH, join_empty_cons. unfold call_plus. simpl. by rewrite string_app_assoc.
Qed.

(** Argument fragments of one call. *)
Lemma absorb_call_mores id created model k ds : ∀ a,
  foldl absorb a (map (λ d, makeToolCallChunk id created model (call_more k d)) ds) =
    Assembled (got_text a) (foldl absorb_call (got_calls a) (map (call_more k) ds)) (got_finish a) (got_usage a).
Proof.
  induction ds as [|d ds IH]; intros a; [by destruct a |]. cbn [map foldl]. by rewrite absorb_tool, IH.
Qed.

(** ** The events of an upstream *)

Section Carries.
Variable JSON_parse : string → option json.

(** An event that carries a JSON value. *)
Definition carries (e : SSEEvent) (v : json) : Prop := data e ≠ ""%string ∧ JSON_parse (data e) = Some v.

Lemma goes_map {A S} (step : S → SSEEvent → S * list json * verdict) (ev chunk : A → json) s ds : ∀ es,
  (∀ d e, carries e (ev d) → step s e = (s, [chunk d], Continue)) →
  Forall2 carries es (map ev ds) → goes step s es (map chunk ds) s.
Proof using.
  induction ds as [|d ds IH]; intros es Hstep Hes.
  - apply Forall2_nil_inv_r in Hes as ->. constructor.
  - apply Forall2_cons_inv_r in Hes as (e & es' & He & Hes & ->). cbn [map].
    apply (goes_emit _ _ _ _ s); [by apply Hstep | by apply IH].
Qed.
End Carries.

(** A parser of the texts of known values, for concrete examples. *)
Definition parses (vs : list json) (text : string) : option json :=
  List.find (λ v, String.eqb text (stringify v)) vs.
Definition events_of (vs : list json) : list SSEEvent := map (λ v, {| event := None; data := stringify v |}) vs.
