(* ===== verification/Turns.v ===== *)
(** * Turns

    What the Anthropic and Gemini adapters share in translating a conversation:
    turns of a role and its blocks, the merging of consecutive turns of one
    role, the order and completeness of what is said, and data URLs. *)

From Stdlib Require Import ZArith Lia QArith String Ascii.
From stdpp Require Import base strings list option.
From S2P Require Import Prelude Types Stream.
Open Scope Z_scope.

(** [DATA_URL_RE.exec(url)]: the media type is what precedes the first [;],
    which [base64,] must follow; the data is a non-empty single line. *)
Definition line_separators : list string :=
  [String "010" ""; String "013" ""; String "226" (String "128" (String "168" ""));
   String "226" (String "128" (String "169" ""))]%string.

Fixpoint after_prefix (p s : string) : option string :=
  match p, s with
  | EmptyString, _ => Some s
  | String c p', String d s' => if Ascii.eqb c d then after_prefix p' s' else None
  | String _ _, EmptyString => None
  end.

Definition exec_data_url (url : string) : option (string * string) :=
  rest ← after_prefix "data:" url;
  parts ← split_at ";" rest;
  data ← after_prefix "base64," parts.2;
  guard (parts.1 ≠ ""%string ∧ data ≠ ""%string ∧ existsb (λ s, includes s data) line_separators = false);;
  Some (parts.1, data).

Lemma after_prefix_spec p : ∀ s rest, after_prefix p s = Some rest → s = (p ++ rest)%string.
Proof.
  induction p as [|c p IH]; intros s rest; [by intros [= ->] |]. destruct s as [|d s]; [done |]. cbn.
  destruct (Ascii.eqb c d) eqn:E; [| done]. apply Ascii.eqb_eq in E as ->. intros H. by rewrite (IH s rest H).
Qed.

Lemma split_at_spec c s : ∀ a b, split_at c s = Some (a, b) → s = (a ++ String c b)%string.
Proof.
  induction s as [|d s IH]; intros a b; [done |]. cbn. destruct (Ascii.eqb d c) eqn:E.
  - apply Ascii.eqb_eq in E as ->. by intros [= <- <-].
  - destruct (split_at c s) as [[a' b']|]; [| done]. intros [= <- <-]. by rewrite (IH a' b' eq_refl).
Qed.

#[local] Arguments after_prefix : simpl never.
#[local] Arguments split_at : simpl never.

(** A data URL is its media type and its data, no more. *)
Lemma exec_data_url_spec url media data : exec_data_url url = Some (media, data) →
  url = ("data:" ++ media ++ ";base64," ++ data)%string.
Proof.
  unfold exec_data_url. intros H. simplify_option_eq.
  match goal with E1 : after_prefix "data:" _ = _, E2 : split_at _ _ = Some ?p, E3 : after_prefix "base64," _ = _ |- _ =>
    destruct p as [a b]; cbn [fst snd] in *; by rewrite (after_prefix_spec _ _ _ E1), (split_at_spec _ _ _ _ E2), (after_prefix_spec _ _ _ E3) end.
Qed.

Section Turns.
Context {R B : Type} `{EqDecision R}.

Record turn := Turn { turn_role : R; turn_content : list B }.

(** [push]: a turn of the last turn's role extends that turn. *)
Definition push_turn (r : R) (blocks : list B) (turns : list turn) : list turn :=
  match blocks with
  | [] => turns
  | _ =>
      match list.last turns with
      | Some m =>
          if decide (turn_role m = r) then (removelast turns ++ [Turn r (turn_content m ++ blocks)])%list
          else (turns ++ [Turn r blocks])%list
      | None => (turns ++ [Turn r blocks])%list
      end
  end.

(** Roles of consecutive turns differ. *)
Fixpoint alternating (ms : list turn) : Prop :=
  match ms with
  | m1 :: (m2 :: _) as ms' => turn_role m1 ≠ turn_role m2 ∧ alternating ms'
  | _ => True
  end.

(** They do, and no turn is empty. *)
Definition turns_ok (ms : list turn) : Prop :=
  alternating ms ∧ Forall (λ m, turn_content m ≠ []) ms.

(** The blocks of the turns, each with its speaker. *)
Definition spoken (r : R) (bs : list B) : list (R * B) := map (pair r) bs.
Definition flat (ms : list turn) : list (R * B) := concat (map (λ m, spoken (turn_role m) (turn_content m)) ms).

Lemma flat_app ms ms' : flat (ms ++ ms') = (flat ms ++ flat ms')%list.
Proof using. unfold flat. by rewrite map_app, concat_app. Qed.

Lemma alternating_snoc ms m :
  alternating (ms ++ [m]) ↔ alternating ms ∧ ∀ l, list.last ms = Some l → turn_role l ≠ turn_role m.
Proof using.
  induction ms as [|m1 ms IH]; [simpl; split; [split; done | done] |].
  destruct ms as [|m2 ms]; simpl in *.
  - split; [intros [H _]; split; [done |]; by intros l [= <-] | intros [_ H]; split; [by apply H | done]].
  - rewrite IH. tauto.
Qed.

(** The three ways [push] goes. *)
Lemma push_cases r bs ms :
  (bs = [] ∧ push_turn r bs ms = ms) ∨
  (bs ≠ [] ∧ ∃ ms' c, ms = (ms' ++ [Turn r c])%list ∧ push_turn r bs ms = (ms' ++ [Turn r (c ++ bs)])%list) ∨
  (bs ≠ [] ∧ (∀ l, list.last ms = Some l → turn_role l ≠ r) ∧ push_turn r bs ms = (ms ++ [Turn r bs])%list).
Proof using.
  destruct bs as [|b bs]; [by left |]. right. unfold push_turn.
  destruct (list.last ms) as [[r' c]|] eqn:El; [| right; split_and!; done].
  apply last_Some in El as [ms' ->]. simpl. destruct (decide (r' = r)) as [-> | Hne].
  - left. split; [done |]. exists ms', c. by rewrite List.removelast_last.
  - right. split_and!; [done | | done]. by intros l [= <-].
Qed.

Lemma push_flat r bs ms : flat (push_turn r bs ms) = (flat ms ++ spoken r bs)%list.
Proof using.
  destruct (push_cases r bs ms) as [[-> ->] | [(_ & ms' & c & -> & ->) | (_ & _ & ->)]].
  - by rewrite app_nil_r.
  - rewrite !flat_app, <- app_assoc. unfold flat, spoken. simpl. by rewrite !app_nil_r, map_app.
  - rewrite flat_app. unfold flat at 2. simpl. by rewrite app_nil_r.
Qed.

Lemma push_ok r bs ms : turns_ok ms → turns_ok (push_turn r bs ms).
Proof using.
  intros [Ha Hc]. destruct (push_cases r bs ms) as [[-> ->] | [(Hb & ms' & c & -> & ->) | (Hb & Hl & ->)]]; [done | |].
  - apply alternating_snoc in Ha as [Ha Hl]. apply Forall_app in Hc as [Hc Hc'].
    split; [by apply alternating_snoc |]. apply Forall_app. split; [done |]. constructor; [| done].
    by destruct c, bs.
  - split; [by apply alternating_snoc | apply Forall_app; by repeat constructor].
Qed.

(** A loop over the messages that sets system texts apart and pushes the rest. *)
Section Fold.
Context {S : Type} (step : list S * list turn → ChatMessage → list S * list turn).
Context (system_of : ChatMessage → list S) (turn_of : ChatMessage → R * list B).
Hypothesis step_spec : ∀ s m,
  (step s m).1 = (s.1 ++ system_of m)%list ∧ (step s m).2 = push_turn (turn_of m).1 (turn_of m).2 s.2.

Lemma fold_turns ms :
  let '(sys, turns) := foldl step ([], []) ms in
  alternating turns ∧ Forall (λ m, turn_content m ≠ []) turns ∧
  flat turns = concat (map (λ m, spoken (turn_of m).1 (turn_of m).2) ms) ∧ sys = concat (map system_of ms).
Proof using step_spec.
  induction ms as [|m ms IH] using rev_ind; [by split_and!; constructor |].
  rewrite foldl_snoc. destruct (foldl step ([], []) ms) as [sys turns]. destruct IH as (Ha & Hc & Hf & Hs).
  pose proof (step_spec (sys, turns) m) as [E1 E2]. destruct (step (sys, turns) m) as [sys' turns']. simpl in *.
  subst sys' turns'. destruct (push_ok (turn_of m).1 (turn_of m).2 turns (conj Ha Hc)) as [Ha' Hc'].
  rewrite push_flat, Hf, Hs, !map_app, !concat_app. simpl. by rewrite !app_nil_r.
Qed.
End Fold.
End Turns.
Arguments turn R B : clear implicits.
