(* ===== verification/Anthropic.v ===== *)
(** * The Anthropic adapter ([src/providers/anthropic.ts])

    Translation of a request into the Messages API (system prompt apart, turns
    merged, tool calls and results as blocks), of a reply back, and of the
    typed event stream into OpenAI chunks. *)

From Stdlib Require Import ZArith Lia QArith String Ascii.
From stdpp Require Import base strings list option.
From S2P Require Import Prelude Numerals Constants Json Errors Types Tokens Stream Provider Cache Adapter Client Turns.
Open Scope Z_scope.

Definition ANTHROPIC_VERSION : string := "2023-06-01".
Definition DEFAULT_MAX_TOKENS : Z := 4096.

(** ** Wire types *)

Inductive ImageSource := Base64Source (media_type data : string) | UrlSource (url : string).

Inductive AnthropicContentBlock :=
| TextBlock (text : string)
| ImageBlock (source : ImageSource)
| ToolUseBlock (id name : string) (input : json)
| ToolResultBlock (tool_use_id content : string).

Inductive AnthropicRole := user_role | assistant_role.
#[export] Instance AnthropicRole_eq_dec : EqDecision AnthropicRole.
Proof. solve_decision. Defined.

Abbreviation AnthropicMessage := (turn AnthropicRole AnthropicContentBlock).

Definition source_json (s : ImageSource) : json :=
  match s with
  | Base64Source media d =>
      JObj [("type"%string, JStr "base64"); ("media_type"%string, JStr media); ("data"%string, JStr d)]
  | UrlSource u => JObj [("type"%string, JStr "url"); ("url"%string, JStr u)]
  end.

Definition block_json (b : AnthropicContentBlock) : json :=
  match b with
  | TextBlock s => JObj [("type"%string, JStr "text"); ("text"%string, JStr s)]
  | ImageBlock s => JObj [("type"%string, JStr "image"); ("source"%string, source_json s)]
  | ToolUseBlock i nm v =>
      JObj [("type"%string, JStr "tool_use"); ("id"%string, JStr i); ("name"%string, JStr nm); ("input"%string, v)]
  | ToolResultBlock i c =>
      JObj [("type"%string, JStr "tool_result"); ("tool_use_id"%string, JStr i); ("content"%string, JStr c)]
  end.

Definition turn_json (m : AnthropicMessage) : json :=
  JObj [("role"%string, JStr match turn_role m with user_role => "user" | assistant_role => "assistant" end);
        ("content"%string, JArr (map block_json (turn_content m)))].

(** ** Translation helpers *)

Definition mapStopReason (reason : option string) (sawToolUse : bool) : FinishReason :=
  let eq := λ s, match reason with Some r => String.eqb r s | None => false end in
  if eq "max_tokens"%string || eq "model_context_window_exceeded"%string then fr_length
  else if eq "refusal"%string then fr_content_filter
  else if eq "tool_use"%string || sawToolUse then fr_tool_calls
  else fr_stop.

Definition translateToolChoice (choice : option ToolChoice) : option json :=
  match choice with
  | None | Some choice_none => None
  | Some choice_auto => Some (JObj [("type"%string, JStr "auto")])
  | Some choice_required => Some (JObj [("type"%string, JStr "any")])
  | Some (choice_function name) => Some (JObj [("type"%string, JStr "tool"); ("name"%string, JStr name)])
  end.

Definition partToBlock (part : ContentPart) : AnthropicContentBlock :=
  match part with
  | TextPart s => TextBlock s
  | ImagePart url _ =>
      match exec_data_url url with
      | Some (media, data) => ImageBlock (Base64Source media data)
      | None => ImageBlock (UrlSource url)
      end
  end.

Definition contentToBlocks (content : MessageContent) : list AnthropicContentBlock :=
  match content with
  | CText s => if String.eqb s "" then [] else [TextBlock s]
  | CParts l => map partToBlock l
  end.

Definition textOnlyBlocks (content : TextContent) : list AnthropicContentBlock :=
  match content with
  | TText s => if String.eqb s "" then [] else [TextBlock s]
  | TParts l => map TextBlock l
  end.

(** ** Requests *)

Definition push : AnthropicRole → list AnthropicContentBlock → list AnthropicMessage → list AnthropicMessage := push_turn.

Section Anthropic.
Variable JSON_parse : string → option json.
Context {D : Type} (new_decoder : D) (decode : D → list Byte.byte → D * string) (decode_end : D → string).
Variable encoded_length : TiktokenEncoding → string → Z.
Variable zod_issues : json → json.
Variable cfg : ProviderInstanceConfig.
Variables (uuid : string) (nowMs : Z).

Definition headers : list (string * string) :=
  [("content-type", "application/json"); ("x-api-key", p_apiKey cfg); ("anthropic-version", ANTHROPIC_VERSION)]%string.

Definition countTokens (messages : list ChatMessage) (m : string) : Z := countChatTokens encoded_length messages m.

Definition tool_use_block (call : ToolCall) : AnthropicContentBlock :=
  ToolUseBlock (tc_id call) (fc_name (tc_function call)) (safeJsonParse JSON_parse (fc_arguments (tc_function call))).

(** The turn a message becomes; system messages are no turn. *)
Definition turn_of (message : ChatMessage) : AnthropicRole * list AnthropicContentBlock :=
  match message with
  | SystemMessage _ _ => (user_role, [])
  | UserMessage content _ => (user_role, contentToBlocks content)
  | AssistantMessage content _ calls =>
      (assistant_role,
       (match content with Some (Some c) => textOnlyBlocks c | _ => [] end) ++ map tool_use_block (calls ?? []))%list
  | ToolMessage content id => (user_role, [ToolResultBlock id (flattenText (Some content))])
  end.

(** The body of the loop over the messages. *)
Definition translate_message (s : list string * list AnthropicMessage) (message : ChatMessage)
    : list string * list AnthropicMessage :=
  match message with
  | SystemMessage content _ => ((s.1 ++ [flattenText (Some content)])%list, s.2)
  | _ => (s.1, push (turn_of message).1 (turn_of message).2 s.2)
  end.

Definition translate_messages (messages : list ChatMessage) : list string * list AnthropicMessage :=
  foldl translate_message ([], []) messages.

Definition maxTokens (request : ChatCompletionRequest) : Z :=
  match max_completion_tokens request, max_tokens request with
  | Some t, _ => t
  | None, Some t => t
  | None, None => (getModel cfg (model request) ≫= maxOutputTokens) ?? DEFAULT_MAX_TOKENS
  end.

Definition min1 (t : Q) : Q := if Qle_bool t 1 then t else 1%Q.

Definition anthropic_tool (tool : ToolDefinition) : json :=
  JObj (("name"%string, JStr (td_name tool)) :: opt_field "description" (JStr <$> td_description tool) ++
        [("input_schema"%string, JObj (td_parameters tool ?? [("type"%string, JStr "object")]))])%list.

Definition translateRequest (request : ChatCompletionRequest) (stream_ : bool) : fields :=
  let '(systemParts, messages) := translate_messages (messages request) in
  ([("model"%string, JStr (model request)); ("max_tokens"%string, jint (maxTokens request));
    ("messages"%string, JArr (map turn_json messages))] ++
   (match systemParts with
    | [] => []
    | _ => [("system"%string, JStr (join (String "010" (String "010" "")) systemParts))]
    end) ++
   opt_field "temperature" ((λ t, JNum (min1 t)) <$> temperature request) ++
   opt_field "top_p" (JNum <$> top_p request) ++
   opt_field "stop_sequences"
     ((λ s, JArr (map JStr match s with StopOne s => [s] | StopMany l => l end)) <$> stop request) ++
   (if stream_ then [("stream"%string, JBool true)] else []) ++
   match tools request, tool_choice request with
   | None, _ | Some [], _ | _, Some choice_none => []
   | Some l, choice =>
       ("tools"%string, JArr (map anthropic_tool l)) :: opt_field "tool_choice" (translateToolChoice choice)
   end)%list.

Definition messages_request (request : ChatCompletionRequest) (stream_ : bool) : HttpRequest :=
  {| url := joinUrl (baseUrl cfg) "/v1/messages"; req_headers := headers;
     req_body := stringify (JObj (translateRequest request stream_)) |}.

(** ** Replies *)

Record response_block := {
  rb_type : string; rb_text : option string; rb_id : option string; rb_name : option string; rb_input : option json
}.

Record message_data := {
  d_model : option string;
  d_content : list response_block;
  d_stop_reason : option (option string);
  d_input_tokens : Q;
  d_output_tokens : Q
}.

Definition responseBlockSchema (o : fields) : option response_block :=
  type ← req "type" p_string o;
  text ← opt "text" p_string o;
  id ← opt "id" p_string o;
  name ← opt "name" p_string o;
  Some {| rb_type := type; rb_text := text; rb_id := id; rb_name := name; rb_input := field "input" o |}.

Definition messageResponseSchema : json → option message_data :=
  p_obj (λ o,
    req "id" p_string o;;
    model ← opt "model" p_string o;
    content ← req "content" (p_array (p_obj responseBlockSchema)) o;
    stop_reason ← nopt "stop_reason" p_string o;
    usage ← req "usage" (p_obj (λ u,
      i ← req "input_tokens" p_count u; t ← req "output_tokens" p_count u; Some (i, t))) o;
    Some {| d_model := model; d_content := content; d_stop_reason := stop_reason;
            d_input_tokens := usage.1; d_output_tokens := usage.2 |}).

(** The text of a text block, and the call of a tool block. *)
Definition block_text (block : response_block) : option string :=
  if String.eqb (rb_type block) "text" then rb_text block else None.
Definition block_call (block : response_block) : option ToolCall :=
  if String.eqb (rb_type block) "tool_use" then
    id ← rb_id block; name ← rb_name block;
    Some {| tc_id := id;
            tc_function := {| fc_name := name; fc_arguments := stringify (input_or_empty (rb_input block)) |} |}
  else None.

(** The body of the loop over the reply's blocks. *)
Definition read_block (s : list string * list ToolCall) (block : response_block) : list string * list ToolCall :=
  match block_text block, block_call block with
  | Some text, _ => ((s.1 ++ [text])%list, s.2)
  | None, Some call => (s.1, (s.2 ++ [call])%list)
  | None, None => s
  end.

Definition translateResponse (data : message_data) (request : ChatCompletionRequest) : ChatCompletionResponse :=
  let '(textParts, toolCalls) := foldl read_block ([], []) (d_content data) in
  {| r_id := createCompletionId uuid;
     r_created := inject_Z (nowUnixSeconds nowMs);
     r_model := d_model data ?? model request;
     r_choices :=
       [{| ch_index := 0;
           ch_message := {| rm_content := match textParts with [] => None | _ => Some (join "" textParts) end;
                            rm_tool_calls := match toolCalls with [] => None | _ => Some toolCalls end |};
           ch_finish_reason :=
             Some (mapStopReason (d_stop_reason data ?? None) (match toolCalls with [] => false | _ => true end)) |}];
     r_usage := {| prompt_tokens := d_input_tokens data; completion_tokens := d_output_tokens data;
                   total_tokens := (d_input_tokens data + d_output_tokens data)%Q |};
     r_system_fingerprint := None |}.

Definition chat (fetch : HttpRequest → fetch_outcome) (request : ChatCompletionRequest)
    : result thrown ChatCompletionResponse :=
  let! raw := fetch_json JSON_parse cfg (fetch (messages_request request false)) in
  match messageResponseSchema raw with
  | None => Err (shape_error cfg "Anthropic returned an unexpected response shape." (Some (zod_issues raw)))
  | Some data => Ok (translateResponse data request)
  end.

Definition embed (request : EmbeddingRequest) : result thrown EmbeddingResponse :=
  Err (TGateway (ProviderError "Anthropic does not support the embeddings API." 400 (Some (p_id cfg)) no_options)).

(** ** Streams *)

(** The local variables of [normaliseStream]; a later entry of the index map
    hides an earlier one of the same key. *)
Record stream_state := {
  promptTokens : Q;
  completionTokens : Q;
  stopReason : option string;
  sawToolUse : bool;
  nextToolIndex : Z;
  toolIndexByBlock : list (Q * Z);
  roleEmitted : bool
}.

Definition initial : stream_state :=
  {| promptTokens := 0; completionTokens := 0; stopReason := None; sawToolUse := false; nextToolIndex := 0;
     toolIndexByBlock := []; roleEmitted := false |}.

Fixpoint index_of_block (index : Q) (m : list (Q * Z)) : option Z :=
  match m with
  | [] => None
  | (i, t) :: m' => if Qeq_bool index i then Some t else index_of_block index m'
  end.

Definition readUsageField (usage : option json) (k : string) : option Q :=
  usage ← usage; u ← record_of usage; readNumber (field k u).

Section Stream.
Variable request : ChatCompletionRequest.
Abbreviation id := (createCompletionId uuid).
Abbreviation created := (nowUnixSeconds nowMs).
Abbreviation m := (model request).

(** [message_start]. *)
Definition on_message_start (s : stream_state) (evt : fields) : stream_state * list json :=
  ({| promptTokens := readUsageField (record_at "message" evt ≫= field "usage") "input_tokens" ?? promptTokens s;
      completionTokens := completionTokens s; stopReason := stopReason s; sawToolUse := sawToolUse s;
      nextToolIndex := nextToolIndex s; toolIndexByBlock := toolIndexByBlock s; roleEmitted := true |},
   if roleEmitted s then [] else [makeRoleChunk id created m]).

Definition evt_index (evt : fields) : Q := readNumber (field "index" evt) ?? 0%Q.

(** [content_block_start]: a tool block takes the next tool index. *)
Definition on_block_start (s : stream_state) (evt : fields) : stream_state * list json :=
  match record_at "content_block" evt with
  | Some block =>
      if match field "type" block with Some (JStr t) => String.eqb t "tool_use" | _ => false end then
        let toolIndex := nextToolIndex s in
        ({| promptTokens := promptTokens s; completionTokens := completionTokens s; stopReason := stopReason s;
            sawToolUse := true; nextToolIndex := toolIndex + 1;
            toolIndexByBlock := (evt_index evt, toolIndex) :: toolIndexByBlock s; roleEmitted := roleEmitted s |},
         [makeToolCallChunk id created m (JObj
            ([("index"%string, jint toolIndex); ("type"%string, JStr "function")] ++
             opt_field "id" (JStr <$> string_at "id" block) ++
             [("function"%string, JObj (("arguments"%string, JStr "") ::
                 opt_field "name" (JStr <$> string_at "name" block)))]))%list])
      else (s, [])
  | None => (s, [])
  end.

(** [content_block_delta]. *)
Definition on_block_delta (s : stream_state) (evt : fields) : list json :=
  match record_at "delta" evt with
  | Some delta =>
      match string_at "type" delta, string_at "text" delta, string_at "partial_json" delta with
      | Some "text_delta"%string, Some text, _ => [makeContentChunk id created m text]
      | Some "input_json_delta"%string, _, Some partial =>
          [makeToolCallChunk id created m (JObj
             [("index"%string, jint (index_of_block (evt_index evt) (toolIndexByBlock s) ?? 0));
              ("function"%string, JObj [("arguments"%string, JStr partial)])])]
      | _, _, _ => []
      end
  | None => []
  end.

(** [message_delta]. *)
Definition on_message_delta (s : stream_state) (evt : fields) : stream_state :=
  {| promptTokens := promptTokens s;
     completionTokens := readUsageField (field "usage" evt) "output_tokens" ?? completionTokens s;
     stopReason := match record_at "delta" evt ≫= string_at "stop_reason" with
                   | Some r => Some r
                   | None => stopReason s
                   end;
     sawToolUse := sawToolUse s; nextToolIndex := nextToolIndex s; toolIndexByBlock := toolIndexByBlock s;
     roleEmitted := roleEmitted s |}.

(** [error]. *)
Definition stream_error (evt : fields) : thrown :=
  let message := (record_at "error" evt ≫= string_at "message") ?? "stream error"%string in
  TGateway (ProviderError ("Anthropic stream error: " ++ message)%string 502 (Some (p_id cfg)) no_options).

(** [message_stop]: the finish chunk, and the usage chunk if it was asked for. *)
Definition on_message_stop (s : stream_state) : list json :=
  makeFinishChunk id created m (mapStopReason (stopReason s) (sawToolUse s)) ::
  (if wantUsage request
   then [makeUsageChunk id created m {| prompt_tokens := promptTokens s; completion_tokens := completionTokens s;
                                         total_tokens := (promptTokens s + completionTokens s)%Q |}]
   else []).

(** One event of the stream. *)
Definition stream_step (s : stream_state) (e : SSEEvent) : stream_state * list json * verdict :=
  if String.eqb (data e) "" then (s, [], Continue)
  else match record_of (safeJsonParse JSON_parse (data e)) with
       | None => (s, [], Continue)
       | Some evt =>
           let type := match string_at "type" evt with Some t => t | None => event e ?? ""%string end in
           if String.eqb type "message_start" then (on_message_start s evt, Continue)
           else if String.eqb type "content_block_start" then (on_block_start s evt, Continue)
           else if String.eqb type "content_block_delta" then (s, on_block_delta s evt, Continue)
           else if String.eqb type "message_delta" then (on_message_delta s evt, [], Continue)
           else if String.eqb type "error" then (s, [], Raise (stream_error evt))
           else if String.eqb type "message_stop" then (s, on_message_stop s, Return)
           else (s, [], Continue)
       end.

(** [normaliseStream] over the events of the body. *)
Definition normaliseStream (es : list SSEEvent) (err : option thrown) : streamed :=
  drive stream_step (λ _, []) initial es err.
End Stream.

Definition chatStream (fetch : HttpRequest → StreamReply) (request : ChatCompletionRequest) : streamed :=
  open_body JSON_parse new_decoder decode decode_end cfg "Anthropic returned an empty stream body."
    (stream_step request) (λ _, []) initial (fetch (messages_request request true)).
End Anthropic.

(** ** The conversation sent

    What a conversation says, read once from the client's messages and once from
    the JSON of the request, the way each of the two protocols defines it. *)

(** Something one side of the conversation says: a text, a picture, a call of a
    tool with its input, the answer to a call. *)
Inductive utterance := Said (text : string) | Shown (url : string) | Called (id name : string) (input : json) | Answered (id text : string).

(** OpenAI's reading of a message: who says what.  System messages belong to
    neither side; an empty text says nothing; arguments that are no JSON text
    stand for no arguments. *)
Definition plain_text (c : TextContent) : string := match c with TText s => s | TParts l => join "" l end.
Definition said (c : TextContent) : list utterance :=
  match c with TText "" => [] | TText s => [Said s] | TParts l => map Said l end.
Definition part_says (p : ContentPart) : utterance := match p with TextPart s => Said s | ImagePart url _ => Shown url end.
Definition call_says (JSON_parse : string → option json) (c : ToolCall) : utterance :=
  Called (tc_id c) (fc_name (tc_function c))
    match JSON_parse (fc_arguments (tc_function c)) with Some v => v | None => JObj [] end.

Definition says (JSON_parse : string → option json) (m : ChatMessage) : list (string * utterance) :=
  match m with
  | SystemMessage _ _ => []
  | UserMessage (CText "") _ => []
  | UserMessage (CText s) _ => [("user"%string, Said s)]
  | UserMessage (CParts l) _ => map (λ p, ("user"%string, part_says p)) l
  | AssistantMessage content _ calls =>
      map (pair "assistant"%string)
        ((match content with Some (Some c) => said c | _ => [] end) ++
         (match calls with Some l => map (call_says JSON_parse) l | None => [] end))
  | ToolMessage content id => [("user"%string, Answered id (plain_text content))]
  end%list.

(** Anthropic's reading of a block and of a turn. *)
Definition source_shows (o : fields) : option string :=
  match string_at "type" o with
  | Some "url"%string => string_at "url" o
  | Some "base64"%string =>
      media ← string_at "media_type" o; data ← string_at "data" o; Some ("data:" ++ media ++ ";base64," ++ data)%string
  | _ => None
  end.
Definition block_says (b : json) : option utterance :=
  let o := fields_of b in
  match string_at "type" o with
  | Some "text"%string => Said <$> string_at "text" o
  | Some "image"%string => Shown <$> source_shows (obj_at "source" o)
  | Some "tool_use"%string => id ← string_at "id" o; name ← string_at "name" o; Called id name <$> field "input" o
  | Some "tool_result"%string => id ← string_at "tool_use_id" o; Answered id <$> string_at "content" o
  | _ => None
  end.
Definition turn_says (t : json) : option (string * list utterance) :=
  let o := fields_of t in
  role ← string_at "role" o; blocks ← as_arr (field "content" o); us ← mapM block_says blocks; Some (role, us).

(** The turns of a conversation Anthropic accepts. *)
Definition acceptable (turns : list (string * list utterance)) : Prop :=
  (∀ t, t ∈ turns → t.1 ∈ ["user"; "assistant"]%string ∧ t.2 ≠ []) ∧
  ∀ i t t', turns !! i = Some t → turns !! S i = Some t' → t.1 ≠ t'.1.

Definition spelled (r : AnthropicRole) : string := match r with user_role => "user" | assistant_role => "assistant" end.

(** What a block says, without the detour over its JSON. *)
Definition means (b : AnthropicContentBlock) : utterance :=
  match b with
  | TextBlock s => Said s
  | ImageBlock (UrlSource u) => Shown u
  | ImageBlock (Base64Source media d) => Shown ("data:" ++ media ++ ";base64," ++ d)
  | ToolUseBlock i nm v => Called i nm v
  | ToolResultBlock i c => Answered i c
  end.

Lemma block_says_json b : block_says (block_json b) = Some (means b).
Proof. by destruct b as [| [] | |]. Qed.

Lemma turn_says_json t : turn_says (turn_json t) = Some (spelled (turn_role t), map means (turn_content t)).
Proof.
  unfold turn_says, turn_json. cbn. rewrite (mapM_map_to block_json block_says means) by apply block_says_json.
  by destruct (turn_role t).
Qed.

Lemma image_kept url detail : means (partToBlock (ImagePart url detail)) = Shown url.
Proof.
  cbn [partToBlock]. destruct (exec_data_url url) as [[media d]|] eqn:E; [| done]. cbn [means]. f_equal.
  symmetry. by apply exec_data_url_spec.
Qed.

Lemma flatten_plain c : flattenText (Some c) = plain_text c.
Proof.
  destruct c as [s | l]; [done |]. cbn [flattenText plain_text].
  assert (H : ∀ l a, foldl (λ out text, (out ++ text)%string) a l = (a ++ join "" l)%string).
  { clear. induction l as [|x l IH]; intros a; [simpl; by rewrite string_app_empty_r |].
    cbn [foldl]. by rewrite IH, join_empty_cons, string_app_assoc. }
  by rewrite H.
Qed.

(** The turn of a message says what the message does. *)
Lemma turn_of_says JSON_parse m :
  map (λ b, (spelled (turn_of JSON_parse m).1, means b)) (turn_of JSON_parse m).2 = says JSON_parse m.
Proof.
  destruct m as [c n | [s | l] n | c n calls | c i]; cbn [turn_of says fst snd]; [done | by destruct s | | | by rewrite flatten_plain].
  - cbn [contentToBlocks]. rewrite map_map. apply map_ext. intros [s | u d]; [done |]. cbn [part_says]. by rewrite image_kept.
  - rewrite <- (map_map means (pair "assistant"%string)), map_app. f_equal. f_equal.
    + destruct c as [[[s | l] |]|]; try done; cbn [textOnlyBlocks said]; [by destruct s | by rewrite map_map].
    + destruct calls as [l|]; [| done]. cbn [default]. rewrite map_map. by apply map_ext.
Qed.

Definition system_text (m : ChatMessage) : list string := match m with SystemMessage c _ => [plain_text c] | _ => [] end.

Lemma translate_message_spec JSON_parse s m :
  (translate_message JSON_parse s m).1 = (s.1 ++ system_text m)%list ∧
  (translate_message JSON_parse s m).2 = push (turn_of JSON_parse m).1 (turn_of JSON_parse m).2 s.2.
Proof. destruct m; cbn [translate_message system_text fst snd]; by rewrite ?app_nil_r, ?flatten_plain. Qed.

Lemma alternating_acceptable (turns : list AnthropicMessage) :
  alternating turns → Forall (λ t, turn_content t ≠ []) turns →
  acceptable (map (λ t, (spelled (turn_role t), map means (turn_content t))) turns).
Proof.
  intros Ha Hc. split.
  - intros t Ht. apply list_elem_of_fmap in Ht as (m & -> & Hm). rewrite list.Forall_forall in Hc. specialize (Hc m Hm). cbn [fst snd].
    split; [by destruct (turn_role m); repeat first [by left | right] | by destruct (turn_content m)].
  - clear Hc. revert Ha. induction turns as [|t [|t2 ts] IH]; intros Ha i x y; [done | by destruct i |].
    destruct Ha as [Hne Ha]. destruct i as [|i]; [| by apply (IH Ha i)].
    cbn. intros [= <-] [= <-]. cbn. by destruct (turn_role t), (turn_role t2).
Qed.

(** C18: Every conversation becomes one Anthropic accepts, and nothing it says
    is lost, added or moved. Whatever the request, the messages of the body sent
    are turns of user and assistant that alternate, none of them empty; what
    Anthropic reads in them, block by block (texts, pictures, calls with their
    ids, names and inputs, answers with the ids they answer), is what OpenAI's
    protocol reads in the request's messages, each said by the same side and in
    the same order; and the system field holds the system texts in their order,
    a blank line between two, and is absent when there are none. *)
Theorem conversation_translated JSON_parse cfg request stream_ :
  let body := translateRequest JSON_parse cfg request stream_ in
  ∃ turns, (as_arr (field "messages" body) ≫= mapM turn_says) = Some turns ∧ acceptable turns ∧
    concat (map (λ t, map (pair t.1) t.2) turns) = concat (map (says JSON_parse) (messages request)) ∧
    field "system" body =
      match concat (map system_text (messages request)) with
      | [] => None
      | texts => Some (JStr (join (String "010" (String "010" "")) texts))
      end.
Proof.
  pose proof (fold_turns _ _ (turn_of JSON_parse) (translate_message_spec JSON_parse) (messages request)) as H.
  unfold translateRequest, translate_messages. destruct (foldl _ _ _) as [sys turns]. destruct H as (Ha & Hc & Hf & ->).
  exists (map (λ t, (spelled (turn_role t), map means (turn_content t))) turns). split; [| split; [by apply alternating_acceptable | split]].
  - cbn. by rewrite (mapM_map_to turn_json turn_says (λ t, (spelled (turn_role t), map means (turn_content t)))) by apply turn_says_json.
  - rewrite map_map. cbn [fst snd].
    replace (concat (map (λ t, map (pair (spelled (turn_role t))) (map means (turn_content t))) turns))
      with (map (λ b, (spelled b.1, means b.2)) (flat turns)).
    + rewrite Hf, concat_map, map_map. f_equal. apply map_ext. intros m. unfold spoken. rewrite map_map. apply turn_of_says.
    + unfold flat. rewrite concat_map, map_map. f_equal. apply map_ext. intros t. unfold spoken. by rewrite !map_map.
  - cbn. destruct (concat (map system_text (messages request))); [| done].
    destruct (temperature request), (top_p request), (stop request), stream_; cbn;
      by destruct (tools request) as [[]|], (tool_choice request) as [[]|].
Qed.

(** ** Streamed and unstreamed replies agree *)

(** A reply as the Messages API produces it: a text block in the pieces it is
    streamed in, or a tool call with its input and the pieces of the JSON text
    the API streams for it, which need not be the text [JSON.stringify] gives. *)
Inductive piece :=
| PText (deltas : list string)
| PTool (id name : string) (input : fields) (deltas : list string).

Record message := {
  msg_id : string; msg_model : string; msg_pieces : list piece; msg_stop : option string;
  msg_input : Q; msg_output : Q
}.

Section Pieces.
Variable JSON_parse : string → option json.

(** The pieces are some JSON text of the input, or nothing at all for an empty
    input, as the API streams it; and [JSON.parse] reads back what
    [JSON.stringify] wrote of the input. *)
Definition piece_ok (p : piece) : Prop :=
  match p with
  | PText _ => True
  | PTool _ _ input deltas =>
      (JSON_parse (join "" deltas) = Some (JObj input) ∨ join "" deltas = ""%string ∧ input = []) ∧
      JSON_parse (stringify (JObj input)) = Some (JObj input)
  end.

(** The arguments a client has from a stream and those of the whole reply are
    texts of the same value; a call without input streams none. *)
Definition same_arguments (streamed whole : string) : Prop :=
  (∃ v, JSON_parse streamed = Some v ∧ JSON_parse whole = Some v) ∨ streamed = ""%string ∧ whole = stringify (JObj []).

Definition same_call (c c' : ToolCall) : Prop :=
  tc_id c = tc_id c' ∧ fc_name (tc_function c) = fc_name (tc_function c') ∧
  same_arguments (fc_arguments (tc_function c)) (fc_arguments (tc_function c')).

Definition same_reply (a whole : assembled) : Prop :=
  got_text a = got_text whole ∧ Forall2 same_call (got_calls a) (got_calls whole) ∧
  got_finish a = got_finish whole ∧ got_usage a = got_usage whole.

(** A keep-alive of the API. *)
Definition is_ping (e : SSEEvent) : bool :=
  match safeJsonParse JSON_parse (data e) with
  | JObj o => match string_at "type" o with Some t => String.eqb t "ping" | None => false end
  | _ => false
  end.
Definition without_pings (es : list SSEEvent) : list SSEEvent := List.filter (λ e, negb (is_ping e)) es.
End Pieces.

(** The body of the unstreamed reply. *)
Definition piece_block (p : piece) : json :=
  match p with
  | PText ds => JObj [("type"%string, JStr "text"); ("text"%string, JStr (join "" ds))]
  | PTool i nm input _ =>
      JObj [("type"%string, JStr "tool_use"); ("id"%string, JStr i); ("name"%string, JStr nm); ("input"%string, JObj input)]
  end.
Definition message_body (m : message) : json :=
  JObj [("id"%string, JStr (msg_id m)); ("model"%string, JStr (msg_model m));
        ("content"%string, JArr (map piece_block (msg_pieces m))); ("stop_reason"%string, nullable (msg_stop m));
        ("usage"%string, JObj [("input_tokens"%string, JNum (msg_input m)); ("output_tokens"%string, JNum (msg_output m))])].

(** The events of the streamed reply. *)
Definition typed (t : string) (o : fields) : json := JObj (("type"%string, JStr t) :: o).
Definition ev_message_start (n : Q) : json :=
  typed "message_start" [("message"%string, JObj [("usage"%string, JObj [("input_tokens"%string, JNum n)])])].
Definition ev_block_start (i : Z) (block : json) : json :=
  typed "content_block_start" [("index"%string, jint i); ("content_block"%string, block)].
Definition ev_block_delta (i : Z) (t k : string) (d : string) : json :=
  typed "content_block_delta" [("index"%string, jint i); ("delta"%string, JObj [("type"%string, JStr t); (k, JStr d)])].
Definition ev_block_stop (i : Z) : json := typed "content_block_stop" [("index"%string, jint i)].

Definition piece_events (i : Z) (p : piece) : list json :=
  match p with
  | PText ds =>
      ev_block_start i (JObj [("type"%string, JStr "text"); ("text"%string, JStr "")]) ::
      map (ev_block_delta i "text_delta" "text") ds ++ [ev_block_stop i]
  | PTool call nm _ ds =>
      ev_block_start i (JObj [("type"%string, JStr "tool_use"); ("id"%string, JStr call); ("name"%string, JStr nm);
                              ("input"%string, JObj [])]) ::
      map (ev_block_delta i "input_json_delta" "partial_json") ds ++ [ev_block_stop i]
  end%list.

Fixpoint pieces_events (i : Z) (ps : list piece) : list json :=
  match ps with [] => [] | p :: ps' => (piece_events i p ++ pieces_events (i + 1) ps')%list end.

Definition message_events (m : message) : list json :=
  (ev_message_start (msg_input m) :: pieces_events 0 (msg_pieces m) ++
   [typed "message_delta" [("delta"%string, JObj [("stop_reason"%string, nullable (msg_stop m))]);
                           ("usage"%string, JObj [("output_tokens"%string, JNum (msg_output m))])];
    typed "message_stop" []])%list.

Section Agreement.
Variable JSON_parse : string → option json.
Variable cfg : ProviderInstanceConfig.
Variables (uuid : string) (nowMs : Z) (request : ChatCompletionRequest).

Abbreviation carries := (carries JSON_parse).
Abbreviation step := (stream_step JSON_parse cfg uuid nowMs request).
Abbreviation id := (createCompletionId uuid).
Abbreviation created := (nowUnixSeconds nowMs).
Abbreviation m := (model request).

Lemma step_parsed s e o t : carries e (JObj o) → string_at "type" o = Some t →
  step s e =
    if String.eqb t "message_start" then (on_message_start uuid nowMs request s o, Continue)
    else if String.eqb t "content_block_start" then (on_block_start uuid nowMs request s o, Continue)
    else if String.eqb t "content_block_delta" then (s, on_block_delta uuid nowMs request s o, Continue)
    else if String.eqb t "message_delta" then (on_message_delta s o, [], Continue)
    else if String.eqb t "error" then (s, [], Raise (stream_error cfg o))
    else if String.eqb t "message_stop" then (s, on_message_stop uuid nowMs request s, Return)
    else (s, [], Continue).
Proof using.
  intros [He Hp] Ht. unfold stream_step, safeJsonParse. rewrite (proj2 (String.eqb_neq _ _) He), Hp. simpl.
  by rewrite Ht.
Qed.

(** The state after a tool block has opened. *)
Definition tool_opened (s : stream_state) (i : Z) : stream_state :=
  {| promptTokens := promptTokens s; completionTokens := completionTokens s; stopReason := stopReason s;
     sawToolUse := true; nextToolIndex := nextToolIndex s + 1;
     toolIndexByBlock := (inject_Z i, nextToolIndex s) :: toolIndexByBlock s; roleEmitted := roleEmitted s |}.

Definition after_piece (s : stream_state) (i : Z) (p : piece) : stream_state :=
  match p with PText _ => s | PTool _ _ _ _ => tool_opened s i end.

(** What the client has after a piece. *)
Definition with_piece (a : assembled) (p : piece) : assembled :=
  match p with
  | PText ds => Assembled (got_text a ++ join "" ds) (got_calls a) (got_finish a) (got_usage a)
  | PTool i nm _ ds =>
      Assembled (got_text a) (got_calls a ++ [{| tc_id := i; tc_function := {| fc_name := nm;
        fc_arguments := join "" ds |} |}])%list (got_finish a) (got_usage a)
  end.

(** Deltas of an open block. *)
Lemma text_deltas s i ds es : Forall2 carries es (map (ev_block_delta i "text_delta" "text") ds) →
  goes step s es (map (makeContentChunk id created m) ds) s.
Proof using. apply goes_map. intros d e He. by rewrite (step_parsed _ _ _ _ He eq_refl). Qed.

Lemma json_deltas s i k ds es : index_of_block (inject_Z i) (toolIndexByBlock s) = Some k →
  Forall2 carries es (map (ev_block_delta i "input_json_delta" "partial_json") ds) →
  goes step s es (map (λ d, makeToolCallChunk id created m (call_more k d)) ds) s.
Proof using.
  intros Hk. apply goes_map. intros d e He. rewrite (step_parsed _ _ _ _ He eq_refl). simpl.
  unfold on_block_delta, evt_index. simpl. by rewrite Hk.
Qed.

Lemma silent_event s e o t : carries e (JObj o) → string_at "type" o = Some t →
  t = "content_block_stop"%string → goes step s [e] [] s.
Proof using. intros He Ht ->. apply goes_one. by rewrite (step_parsed _ _ _ _ He Ht). Qed.

(** One block: where the loop gets to, and what the client has then. *)
Lemma piece_go s i p a es : nextToolIndex s = Z.of_nat (length (got_calls a)) →
  Forall2 carries es (piece_events i p) →
  ∃ out, goes step s es out (after_piece s i p) ∧ foldl absorb a out = with_piece a p.
Proof using.
  intros Hk Hes. destruct p as [ds | call nm input ds]; cbn [piece_events] in Hes;
    apply Forall2_cons_inv_r in Hes as (e & es' & He & Hes & ->);
    apply Forall2_app_inv_r in Hes as (es1 & es2 & Hd & Hs & ->);
    apply Forall2_cons_inv_r in Hs as (e2 & es3 & Hs & Hnil & ->); apply Forall2_nil_inv_r in Hnil as ->.
  - exists (map (makeContentChunk id created m) ds). split; [| apply absorb_contents].
    apply (goes_skip _ _ _ _ s); [by rewrite (step_parsed _ _ _ _ He eq_refl) |].
    rewrite <- (app_nil_r (map _ ds)). eapply goes_app; [by apply (text_deltas s i) | by eapply silent_event].
  - set (s1 := tool_opened s i).
    exists (makeToolCallChunk id created m (call_start (nextToolIndex s) call nm) ::
            map (λ d, makeToolCallChunk id created m (call_more (nextToolIndex s) d)) ds). split.
    + apply (goes_emit _ _ _ _ s1); [by rewrite (step_parsed _ _ _ _ He eq_refl) |].
      rewrite <- (app_nil_r (map _ ds)). eapply goes_app; [| by eapply silent_event].
      apply (json_deltas s1 i); [| done]. simpl. by rewrite (proj2 (Qeq_bool_iff _ _)) by done.
    + cbn [foldl]. rewrite absorb_tool, Hk, absorb_start. cbn [with_piece].
      rewrite absorb_call_mores. cbn [got_text got_calls got_finish got_usage].
      by rewrite absorb_mores.
Qed.

Definition is_tool (p : piece) : bool := match p with PTool _ _ _ _ => true | _ => false end.

Lemma pieces_go ps : ∀ i s a es, nextToolIndex s = Z.of_nat (length (got_calls a)) →
  Forall2 carries es (pieces_events i ps) →
  ∃ out s', goes step s es out s' ∧ foldl absorb a out = foldl with_piece a ps ∧
    promptTokens s' = promptTokens s ∧ stopReason s' = stopReason s ∧
    completionTokens s' = completionTokens s ∧ sawToolUse s' = sawToolUse s || existsb is_tool ps.
Proof using.
  induction ps as [|p ps IH]; intros i s a es Hk Hes.
  - apply Forall2_nil_inv_r in Hes as ->. exists [], s. rewrite orb_false_r. split_and!; try done. constructor.
  - cbn [pieces_events] in Hes. apply Forall2_app_inv_r in Hes as (es1 & es2 & H1 & H2 & ->).
    destruct (piece_go s i p a es1 Hk H1) as (out1 & Hg1 & Ha1).
    destruct (IH (i + 1) (after_piece s i p) (with_piece a p) es2) as (out2 & s' & Hg2 & Ha2 & E1 & E2 & E3 & E4); [| done |].
    { destruct p; cbn [after_piece with_piece tool_opened nextToolIndex got_calls]; [done |]. rewrite Hk, length_app. simpl. lia. }
    exists (out1 ++ out2)%list, s'. split; [by eapply goes_app |]. split; [by rewrite foldl_app, Ha1, Ha2 |].
    rewrite E1, E2, E3, E4. destruct p; simpl; split_and!; try done. by rewrite orb_true_r.
Qed.

(** The loop passes over the pings. *)
Lemma ping_silent s e : is_ping JSON_parse e = true → step s e = (s, [], Continue).
Proof using.
  unfold is_ping, stream_step. intros H. destruct (String.eqb (data e) ""); [done |].
  destruct (safeJsonParse JSON_parse (data e)) as [| | | | |o]; try done. simpl.
  destruct (string_at "type" o) as [t|]; [| done]. apply String.eqb_eq in H as ->. done.
Qed.

Lemma drive_pings es err : ∀ s,
  drive step (λ _, []) s es err = drive step (λ _, []) s (without_pings JSON_parse es) err.
Proof using.
  unfold without_pings. induction es as [|e es IH]; intros s; [done |]. cbn [drive List.filter].
  destruct (is_ping JSON_parse e) eqn:E; cbn [negb drive].
  - rewrite (ping_silent s e E), IH. cbn [app]. by destruct (drive _ _ _ _ _).
  - by destruct (step s e) as [[s1 out] []]; rewrite ?IH.
Qed.
End Agreement.

(** The blocks of the unstreamed reply, parsed. *)
Definition block_of (p : piece) : response_block :=
  match p with
  | PText ds =>
      {| rb_type := "text"; rb_text := Some (join "" ds); rb_id := None; rb_name := None; rb_input := None |}
  | PTool i nm input _ =>
      {| rb_type := "tool_use"; rb_text := None; rb_id := Some i; rb_name := Some nm; rb_input := Some (JObj input) |}
  end.

Definition data_of (msg : message) : message_data :=
  {| d_model := Some (msg_model msg); d_content := map block_of (msg_pieces msg); d_stop_reason := Some (msg_stop msg);
     d_input_tokens := msg_input msg; d_output_tokens := msg_output msg |}.

Lemma body_accepted msg : is_count (msg_input msg) → is_count (msg_output msg) →
  messageResponseSchema (message_body msg) = Some (data_of msg).
Proof.
  destruct msg as [i md ps st ni no]. cbn [msg_input msg_output]. intros Hi Ho.
  unfold messageResponseSchema, message_body. cbn [p_obj]. unfold req, opt, nopt. simpl.
  rewrite (mapM_map_to piece_block _ block_of) by (by intros []). simpl.
  assert (H : ∀ q, is_count q → p_count (JNum q) = Some q) by (intros q Hq; by apply p_count_spec).
  rewrite !H by done. simpl. by destruct st.
Qed.

Lemma read_pieces JSON_parse ps : Forall (piece_ok JSON_parse) ps → ∀ ts cs a,
  got_text a = join "" ts → Forall2 (same_call JSON_parse) (got_calls a) cs →
  let '(ts', cs') := foldl read_block (ts, cs) (map block_of ps) in
  let a' := foldl with_piece a ps in
  got_text a' = join "" ts' ∧ Forall2 (same_call JSON_parse) (got_calls a') cs' ∧
  got_finish a' = got_finish a ∧ got_usage a' = got_usage a ∧
  (match cs' with [] => false | _ => true end) = (match cs with [] => false | _ => true end) || existsb is_tool ps.
Proof.
  induction 1 as [|p ps Hp _ IH]; intros ts cs a Ht Hc.
  - simpl. by rewrite orb_false_r.
  - cbn [map foldl]. destruct p as [ds | i nm input ds].
    + apply (IH (ts ++ [join "" ds])%list cs (with_piece a (PText ds))); [| done].
      simpl. by rewrite Ht, join_empty_snoc.
    + set (c := {| tc_id := i; tc_function := {| fc_name := nm; fc_arguments := stringify (JObj input) |} |}).
      specialize (IH ts (cs ++ [c])%list (with_piece a (PTool i nm input ds)) Ht).
      change (read_block (ts, cs) (block_of (PTool i nm input ds))) with (ts, (cs ++ [c])%list).
      destruct (foldl read_block _ _) as [ts' cs']. destruct IH as (E1 & E2 & E3 & E4 & Hne).
      { cbn [with_piece got_calls]. apply Forall2_app; [done |]. constructor; [| constructor]. split_and!; [done | done |].
        destruct Hp as [[Hp | [-> ->]] Hb]; [left; by exists (JObj input) | by right]. }
      split_and!; try done. rewrite Hne. by destruct cs.
Qed.

(** C17: Streaming changes the delivery, not the reply. Take any reply of the
    Messages API: text and tool calls in any order, each cut into deltas
    anywhere, the input of a call as any JSON text of it (spaced as the API
    likes, or no text for an empty input), and keep-alives anywhere between. Its
    events make the adapter yield chunks without an error, whatever follows the
    stop event, and an OpenAI client that accumulates them has the content, the
    tool calls with their ids, names and the values of their arguments, the
    finish reason and (when it asked for it) the usage that the unstreamed reply
    of the same message is translated to. Only the arguments of a call without
    input differ: streamed they are the empty text, unstreamed the text of the
    empty object. *)
Theorem stream_agrees JSON_parse cfg uuid nowMs request msg es es' err :
  Forall (piece_ok JSON_parse) (msg_pieces msg) → is_count (msg_input msg) → is_count (msg_output msg) →
  Forall2 (carries JSON_parse) (without_pings JSON_parse es) (message_events msg) →
  ∃ cs data, normaliseStream JSON_parse cfg uuid nowMs request (es ++ es') err = Streamed cs None ∧
    messageResponseSchema (message_body msg) = Some data ∧
    let r := translateResponse uuid nowMs data request in
    same_reply JSON_parse (assemble cs) (assembled_reply r (if wantUsage request then Some (usage_json (r_usage r)) else None)).
Proof.
  intros Hp Hi Ho Hes. unfold message_events in Hes. unfold normaliseStream. rewrite drive_pings.
  unfold without_pings at 1. rewrite List.filter_app. fold (without_pings JSON_parse es) (without_pings JSON_parse es').
  revert Hes. generalize (without_pings JSON_parse es) (without_pings JSON_parse es'). clear es es'. intros es es' Hes.
  apply Forall2_cons_inv_r in Hes as (e1 & es1 & H1 & Hes & ->).
  apply Forall2_app_inv_r in Hes as (esp & es2 & Hps & Hes & ->).
  apply Forall2_cons_inv_r in Hes as (e2 & es3 & H2 & Hes & ->).
  apply Forall2_cons_inv_r in Hes as (e3 & es4 & H3 & Hnil & ->). apply Forall2_nil_inv_r in Hnil as ->.
  set (s1 := (on_message_start uuid nowMs request initial
    [("type"%string, JStr "message_start"); ("message"%string, JObj [("usage"%string, JObj [("input_tokens"%string, JNum (msg_input msg))])])]).1).
  destruct (pieces_go JSON_parse cfg uuid nowMs request (msg_pieces msg) 0 s1 nothing esp eq_refl Hps)
    as (out & s2 & Hg & Ha & Ep & Es & Ec & Et).
  set (s3 := on_message_delta s2 [("type"%string, JStr "message_delta"); ("delta"%string, JObj [("stop_reason"%string, nullable (msg_stop msg))]);
                           ("usage"%string, JObj [("output_tokens"%string, JNum (msg_output msg))])]).
  assert (Hgo : goes (stream_step JSON_parse cfg uuid nowMs request) initial (e1 :: esp ++ [e2])
    (makeRoleChunk (createCompletionId uuid) (nowUnixSeconds nowMs) (model request) :: out) s3).
  { apply (goes_emit _ _ _ _ s1); [by rewrite (step_parsed _ _ _ _ _ _ _ _ _ H1 eq_refl) |].
    rewrite <- (app_nil_r out). eapply goes_app; [exact Hg |]. apply goes_one.
    by rewrite (step_parsed _ _ _ _ _ _ _ _ _ H2 eq_refl). }
  exists ((makeRoleChunk (createCompletionId uuid) (nowUnixSeconds nowMs) (model request) :: out) ++
          on_message_stop uuid nowMs request s3)%list, (data_of msg). split; [| split; [by apply body_accepted |]].
  - replace ((e1 :: esp ++ [e2; e3]) ++ es')%list with ((e1 :: esp ++ [e2]) ++ (e3 :: es'))%list by (simpl; by rewrite <- !app_assoc).
    rewrite (drive_goes _ _ _ _ _ _ _ _ Hgo). cbn [drive].
    by rewrite (step_parsed _ _ _ _ _ _ _ _ _ H3 eq_refl).
  - cbv zeta. unfold assemble. rewrite foldl_app. cbn [foldl]. rewrite absorb_role, Ha.
    pose proof (read_pieces JSON_parse (msg_pieces msg) Hp [] [] nothing eq_refl (List.Forall2_nil _)) as Hr. unfold translateResponse.
    cbn [d_content data_of]. destruct (foldl read_block _ _) as [ts cs]. destruct Hr as (Ht & Hc & Hf & Hu & Htool). simpl in Htool.
    cbn [r_usage r_choices assembled_reply ch_message rm_content rm_tool_calls ch_finish_reason d_stop_reason d_input_tokens d_output_tokens data_of].
    unfold on_message_stop, s3, on_message_delta. cbn [foldl stopReason sawToolUse promptTokens completionTokens].
    assert (Hs : sawToolUse s2 = match cs with [] => false | _ => true end) by (by rewrite Et, Htool).
    assert (Hstop : stopReason s2 = None) by done. assert (Hprompt : promptTokens s2 = msg_input msg) by done.
    rewrite Hs, Hstop, Hprompt. rewrite absorb_finish.
    assert (Hcs : Forall2 (same_call JSON_parse) (got_calls (foldl with_piece nothing (msg_pieces msg)))
      (match cs with [] => None | _ => Some cs end ?? [])) by (by destruct cs).
    assert (Hts : got_text (foldl with_piece nothing (msg_pieces msg)) =
      (match ts with [] => None | _ => Some (join "" ts) end ?? ""%string)) by (by destruct ts).
    unfold same_reply. destruct (wantUsage request); cbn [foldl]; rewrite ?absorb_usage;
      cbn [got_text got_calls got_finish got_usage]; (split_and!; [exact Hts | exact Hcs | |]); try done;
      by destruct msg as [i md ps [st|] ni no].
Qed.

(** A reply with text, a tool call whose JSON text has a space after the colon,
    each cut in two, and a call without input. *)
Definition sample_input : fields := [("q"%string, JStr "x")].
Definition sample_text : string := "{" ++ quote ++ "q" ++ quote ++ ": " ++ quote ++ "x" ++ quote ++ "}".
Definition sample_message : message :=
  {| msg_id := "msg_1"; msg_model := "claude"; msg_stop := Some "tool_use"%string; msg_input := 9; msg_output := 4;
     msg_pieces := [PText ["Let me "; "look."]%string;
                    PTool "call_1" "find" sample_input ["{" ++ quote; "q" ++ quote ++ ": " ++ quote ++ "x" ++ quote ++ "}"]%string;
                    PTool "call_2" "now" [] [""]%string] |}.
Definition sample_ping : json := typed "ping" [].
Definition sample_events : list json :=
  List.hd JNull (message_events sample_message) :: sample_ping :: List.tl (message_events sample_message).
Definition sample_parse (text : string) : option json :=
  if String.eqb text sample_text then Some (JObj sample_input)
  else parses (JObj sample_input :: JObj [] :: sample_events) text.

Lemma stream_agrees_witness :
  ∃ cs data,
    normaliseStream sample_parse sample_cfg "u-1" 5000 (sample_chat 0 7 [] [])
      (events_of sample_events ++ [{| event := None; data := "junk" |}]) None = Streamed cs None ∧
    messageResponseSchema (message_body sample_message) = Some data ∧
    same_reply sample_parse (assemble cs) (assembled_reply (translateResponse "u-1" 5000 data (sample_chat 0 7 [] [])) None).
Proof.
  apply (stream_agrees sample_parse sample_cfg "u-1" 5000 (sample_chat 0 7 [] []) sample_message (events_of sample_events)).
  - repeat constructor; by vm_compute.
  - by exists 9.
  - by exists 4.
  - repeat (constructor; [split; [discriminate | by vm_compute] |]). constructor.
Defined.

(** What the client has of the stream, and of the whole reply: the texts of the
    arguments differ, their values do not but for the call without input. *)
Example sample_assembled :
  got_calls (assemble (chunks (normaliseStream sample_parse sample_cfg "u-1" 5000 (sample_chat 0 7 [] []) (events_of sample_events) None))) =
    [{| tc_id := "call_1"; tc_function := {| fc_name := "find"; fc_arguments := sample_text |} |};
     {| tc_id := "call_2"; tc_function := {| fc_name := "now"; fc_arguments := "" |} |}] ∧
  got_calls (assembled_reply (translateResponse "u-1" 5000 (data_of sample_message) (sample_chat 0 7 [] [])) None) =
    [{| tc_id := "call_1"; tc_function := {| fc_name := "find"; fc_arguments := stringify (JObj sample_input) |} |};
     {| tc_id := "call_2"; tc_function := {| fc_name := "now"; fc_arguments := "{}" |} |}].
Proof. by vm_compute. Qed.

(** A user turn, a tool call, its result and a follow-up: four messages, three turns. *)
Example sample_turns :
  let call := {| tc_id := "c1"; tc_function := {| fc_name := "f"; fc_arguments := "{}" |} |} in
  translate_messages (λ _, None)
    [SystemMessage (TText "be brief") None; UserMessage (CText "hi") None;
     AssistantMessage None None (Some [call]); ToolMessage (TText "42") "c1"; UserMessage (CText "so?") None] =
  (["be brief"%string],
   [Turn user_role [TextBlock "hi"]; Turn assistant_role [ToolUseBlock "c1" "f" (JObj [])];
    Turn user_role [ToolResultBlock "c1" "42"; TextBlock "so?"]]).
Proof. by vm_compute. Qed.
