(* ===== verification/Cohere.v ===== *)
(** * The Cohere adapter ([src/providers/cohere.ts])

    Translation of a request into the Chat API v2, of a reply and an embedding
    back, and of its typed event stream into OpenAI chunks. *)

From Stdlib Require Import ZArith Lia QArith String Ascii.
From stdpp Require Import base strings list option.
From S2P Require Import Prelude Numerals Constants Json Errors Types Tokens Stream Provider Cache Adapter Client.
Open Scope Z_scope.

Definition DEFAULT_EMBED_INPUT_TYPE : string := "search_document".

(** ** Helpers *)

Definition mapFinishReason (reason : option string) (sawToolUse : bool) : FinishReason :=
  let eq := λ s, match reason with Some r => String.eqb r s | None => false end in
  if sawToolUse || eq "TOOL_CALL"%string then fr_tool_calls
  else if eq "MAX_TOKENS"%string then fr_length
  else if eq "ERROR_TOXIC"%string then fr_content_filter
  else fr_stop.

Definition translateToolChoice (choice : option ToolChoice) : option string :=
  match choice with
  | None | Some choice_auto => None
  | Some choice_none => Some "NONE"%string
  | Some choice_required | Some (choice_function _) => Some "REQUIRED"%string
  end.

Definition cohere_part (part : ContentPart) : json :=
  match part with
  | TextPart s => text_part_json s
  | ImagePart url _ =>
      JObj [("type"%string, JStr "image_url"); ("image_url"%string, JObj [("url"%string, JStr url)])]
  end.
Definition contentToCohere (content : MessageContent) : json :=
  match content with CText s => JStr s | CParts l => JArr (map cohere_part l) end.

(** The text of a text block. *)
Definition block_text (block : json) : option string :=
  o ← record_of block; t ← string_at "type" o; if String.eqb t "text" then string_at "text" o else None.

Definition extractText (content : option json) : string :=
  match content with
  | Some (JStr s) => s
  | Some (JArr l) => foldl (λ out block, (out ++ (block_text block ?? ""))%string) ""%string l
  | _ => ""
  end.

Definition readUsage (usage : option json) : CompletionUsage :=
  let tokens := (usage ≫= record_of) ≫= record_at "tokens" in
  let input := (tokens ≫= λ t, readNumber (field "input_tokens" t)) ?? 0%Q in
  let output := (tokens ≫= λ t, readNumber (field "output_tokens" t)) ?? 0%Q in
  {| prompt_tokens := input; completion_tokens := output; total_tokens := (input + output)%Q |}.

Definition readDeltaText (delta : option fields) : option string :=
  ((delta ≫= record_at "message") ≫= record_at "content") ≫= string_at "text".

Record delta_call := { dc_id : option string; dc_name : option string; dc_arguments : option string }.

Definition readDeltaToolCall (delta : option fields) : option delta_call :=
  let toolCalls := (delta ≫= record_at "message") ≫= field "tool_calls" in
  let call := match toolCalls ≫= record_of with Some c => Some c | None => firstElement toolCalls ≫= record_of end in
  c ← call;
  let fn := record_at "function" c in
  Some {| dc_id := string_at "id" c; dc_name := fn ≫= string_at "name"; dc_arguments := fn ≫= string_at "arguments" |}.

Section Cohere.
Variable JSON_parse : string → option json.
Context {D : Type} (new_decoder : D) (decode : D → list Byte.byte → D * string) (decode_end : D → string).
Variable encoded_length : TiktokenEncoding → string → Z.
Variable cfg : ProviderInstanceConfig.
(** The results of successive [randomUUID()] calls, and [Date.now()]. *)
Variables (uuids : nat → string) (nowMs : Z).

Definition headers : list (string * string) :=
  [("content-type", "application/json"); ("authorization", "Bearer " ++ p_apiKey cfg)]%string.

Definition countTokens (messages : list ChatMessage) (m : string) : Z := countChatTokens encoded_length messages m.

Definition shapeError : thrown := shape_error cfg "Cohere returned an unexpected response shape." None.

(** ** Requests *)

Definition translateMessage (message : ChatMessage) : fields :=
  match message with
  | SystemMessage content _ => [("role"%string, JStr "system"); ("content"%string, text_content_json content)]
  | UserMessage content _ => [("role"%string, JStr "user"); ("content"%string, contentToCohere content)]
  | AssistantMessage content _ calls =>
      let text := flattenText (content ≫= id) in
      (("role"%string, JStr "assistant") ::
       (if String.eqb text "" then [] else [("content"%string, JArr [text_part_json text])]) ++
       match calls with
       | None | Some [] => []
       | Some l => [("tool_calls"%string, JArr (map tool_call_json l))]
       end)%list
  | ToolMessage content id =>
      [("role"%string, JStr "tool"); ("tool_call_id"%string, JStr id);
       ("content"%string, JStr (flattenText (Some content)))]
  end.

Definition translateRequest (request : ChatCompletionRequest) (stream_ : bool) : fields :=
  ([("model"%string, JStr (model request));
    ("messages"%string, JArr (map (λ m, JObj (translateMessage m)) (messages request)));
    ("stream"%string, JBool stream_)] ++
   opt_field "temperature" (JNum <$> temperature request) ++
   opt_field "p" (JNum <$> top_p request) ++
   opt_field "max_tokens"
     (jint <$> match max_completion_tokens request with Some t => Some t | None => max_tokens request end) ++
   opt_field "stop_sequences"
     ((λ s, JArr (map JStr match s with StopOne s => [s] | StopMany l => l end)) <$> stop request) ++
   match tools request with
   | None | Some [] => []
   | Some l =>
       ("tools"%string, JArr (map tool_definition_json l)) ::
       opt_field "tool_choice" (JStr <$> translateToolChoice (tool_choice request))
   end)%list.

Definition chat_request (request : ChatCompletionRequest) (stream_ : bool) : HttpRequest :=
  post cfg headers "/v2/chat" (translateRequest request stream_).

(** ** Replies *)

(** One element of [tool_calls]; [k] ids have been generated so far. *)
Definition extract_call (k : nat) (call : json) : option (ToolCall * nat) :=
  c ← record_of call; fn ← record_at "function" c;
  let '(id, k) := match string_at "id" c with
                  | Some id => (id, k)
                  | None => (createCompletionId (uuids k), S k)
                  end in
  Some ({| tc_id := id;
           tc_function :=
             {| fc_name := string_at "name" fn ?? ""%string;
                fc_arguments := match field "arguments" fn with
                                | Some (JStr s) => s
                                | args => stringify (input_or_empty args)
                                end |} |}, k).

Fixpoint extract_calls (k : nat) (calls : list json) : list ToolCall * nat :=
  match calls with
  | [] => ([], k)
  | call :: calls' =>
      match extract_call k call with
      | Some (c, k) => let '(cs, k) := extract_calls k calls' in (c :: cs, k)
      | None => extract_calls k calls'
      end
  end.

Definition extractToolCalls (toolCalls : option json) : list ToolCall * nat :=
  match toolCalls with Some (JArr l) => extract_calls 0 l | _ => ([], 0%nat) end.

Definition nonempty_calls (l : list ToolCall) : option (list ToolCall) := match l with [] => None | _ => Some l end.
Definition nonempty_text (s : string) : option string := if String.eqb s "" then None else Some s.

Definition translateResponse (raw : json) (request : ChatCompletionRequest) : result thrown ChatCompletionResponse :=
  match record_of raw with
  | None => Err shapeError
  | Some raw =>
      let message := record_at "message" raw ?? [] in
      let text := extractText (field "content" message) in
      let '(toolCalls, k) := extractToolCalls (field "tool_calls" message) in
      Ok {| r_id := string_at "id" raw ?? createCompletionId (uuids k);
            r_created := inject_Z (nowUnixSeconds nowMs);
            r_model := model request;
            r_choices :=
              [{| ch_index := 0;
                  ch_message := {| rm_content := nonempty_text text; rm_tool_calls := nonempty_calls toolCalls |};
                  ch_finish_reason :=
                    Some (mapFinishReason (string_at "finish_reason" raw)
                                          (match toolCalls with [] => false | _ => true end)) |}];
            r_usage := readUsage (field "usage" raw);
            r_system_fingerprint := None |}
  end.

Definition chat (fetch : HttpRequest → fetch_outcome) (request : ChatCompletionRequest)
    : result thrown ChatCompletionResponse :=
  let! raw := fetch_json JSON_parse cfg (fetch (chat_request request false)) in
  translateResponse raw request.

(** ** Embeddings *)

Definition embed_request (request : EmbeddingRequest) : HttpRequest :=
  post cfg headers "/v2/embed"
    [("model"%string, JStr (e_model request));
     ("texts"%string, JArr (map JStr (embeddingInputToStrings (e_input request))));
     ("input_type"%string, JStr DEFAULT_EMBED_INPUT_TYPE); ("embedding_types"%string, JArr [JStr "float"])].

Definition translateEmbedding (raw : json) (request : EmbeddingRequest) (texts : list string)
    : result thrown EmbeddingResponse :=
  match (record_of raw ≫= record_at "embeddings") ≫= field "float" with
  | Some (JArr floats) =>
      let promptTokens :=
        foldl (λ sum t, sum + countTokens [UserMessage (CText t) None] (e_model request)) 0 texts in
      Ok {| er_data := imap (λ i vector, (Z.of_nat i, toNumberArray (Some vector))) floats;
            er_model := e_model request;
            er_prompt_tokens := inject_Z promptTokens; er_total_tokens := inject_Z promptTokens |}
  | _ => Err shapeError
  end.

Definition embed (fetch : HttpRequest → fetch_outcome) (request : EmbeddingRequest) : result thrown EmbeddingResponse :=
  let! raw := fetch_json JSON_parse cfg (fetch (embed_request request)) in
  translateEmbedding raw request (embeddingInputToStrings (e_input request)).

(** ** Streams *)

Record stream_state := {
  roleEmitted : bool; sawToolUse : bool; finishReason : option string; usage : CompletionUsage
}.
Definition no_usage : CompletionUsage := {| prompt_tokens := 0; completion_tokens := 0; total_tokens := 0 |}.
Definition initial : stream_state :=
  {| roleEmitted := false; sawToolUse := false; finishReason := None; usage := no_usage |}.

Section Stream.
Variable request : ChatCompletionRequest.
Abbreviation id := (createCompletionId (uuids 0)).
Abbreviation created := (nowUnixSeconds nowMs).
Abbreviation m := (model request).

Definition emitRole (s : stream_state) : stream_state * list json :=
  ({| roleEmitted := true; sawToolUse := sawToolUse s; finishReason := finishReason s; usage := usage s |},
   if roleEmitted s then [] else [makeRoleChunk id created m]).

Definition on_content_delta (s : stream_state) (delta : option fields) : stream_state * list json :=
  match readDeltaText delta with
  | Some text => let '(s, out) := emitRole s in (s, out ++ [makeContentChunk id created m text])%list
  | None => (s, [])
  end.

Definition on_call_start (s : stream_state) (delta : option fields) (index : Q) : stream_state * list json :=
  match readDeltaToolCall delta with
  | Some call =>
      let '(s, out) := emitRole {| roleEmitted := roleEmitted s; sawToolUse := true; finishReason := finishReason s;
                                   usage := usage s |} in
      (s, out ++ [makeToolCallChunk id created m (JObj
             (("index"%string, JNum index) :: opt_field "id" (JStr <$> dc_id call) ++
              [("type"%string, JStr "function");
               ("function"%string, JObj (opt_field "name" (JStr <$> dc_name call) ++
                  [("arguments"%string, JStr (dc_arguments call ?? ""))]))]))])%list
  | None => (s, [])
  end.

Definition on_call_delta (delta : option fields) (index : Q) : list json :=
  match readDeltaToolCall delta ≫= dc_arguments with
  | Some arguments =>
      [makeToolCallChunk id created m
         (JObj [("index"%string, JNum index); ("function"%string, JObj [("arguments"%string, JStr arguments)])])]
  | None => []
  end.

Definition on_message_end (s : stream_state) (delta : option fields) : stream_state :=
  let u := readUsage (delta ≫= field "usage") in
  {| roleEmitted := roleEmitted s; sawToolUse := sawToolUse s;
     finishReason := match delta ≫= string_at "finish_reason" with Some r => Some r | None => finishReason s end;
     usage := if Qle_bool (total_tokens u) 0 then usage s else u |}.

Definition stream_step (s : stream_state) (e : SSEEvent) : stream_state * list json * verdict :=
  if String.eqb (data e) "" || String.eqb (data e) "[DONE]" then (s, [], Continue)
  else match record_of (safeJsonParse JSON_parse (data e)) with
       | None => (s, [], Continue)
       | Some parsed =>
           let type := match string_at "type" parsed with Some t => t | None => event e ?? ""%string end in
           let delta := record_at "delta" parsed in
           let index := readNumber (field "index" parsed) ?? 0%Q in
           if String.eqb type "message-start" then (emitRole s, Continue)
           else if String.eqb type "content-delta" then (on_content_delta s delta, Continue)
           else if String.eqb type "tool-call-start" then (on_call_start s delta index, Continue)
           else if String.eqb type "tool-call-delta" then (s, on_call_delta delta index, Continue)
           else if String.eqb type "message-end" then (on_message_end s delta, [], Continue)
           else (s, [], Continue)
       end.

(** What follows the loop. *)
Definition stream_end (s : stream_state) : list json :=
  ((emitRole s).2 ++
   makeFinishChunk id created m (mapFinishReason (finishReason s) (sawToolUse s)) ::
   (if wantUsage request then [makeUsageChunk id created m (usage s)] else []))%list.

Definition normaliseStream (es : list SSEEvent) (err : option thrown) : streamed :=
  drive stream_step stream_end initial es err.
End Stream.

Definition chatStream (fetch : HttpRequest → StreamReply) (request : ChatCompletionRequest) : streamed :=
  open_body JSON_parse new_decoder decode decode_end cfg "Cohere returned an empty stream body."
    (stream_step request) (stream_end request) initial (fetch (chat_request request true)).
End Cohere.

(** ** What Cohere is asked *)

(** A message without what Cohere has no place for: names, image details, and
    the division of an assistant's text into parts. *)
Definition plain_part (p : ContentPart) : ContentPart :=
  match p with TextPart s => TextPart s | ImagePart url _ => ImagePart url None end.
Definition plain (m : ChatMessage) : ChatMessage :=
  match m with
  | SystemMessage c _ => SystemMessage c None
  | UserMessage (CText s) _ => UserMessage (CText s) None
  | UserMessage (CParts l) _ => UserMessage (CParts (map plain_part l)) None
  | AssistantMessage c _ calls =>
      let text := flattenText (c ≫= id) in
      AssistantMessage (if String.eqb text "" then None else Some (Some (TParts [text]))) None
                       (match calls with Some [] => None | _ => calls end)
  | ToolMessage c id => ToolMessage (TText (flattenText (Some c))) id
  end.

Lemma plain_ok m : message_ok m → message_ok (plain m).
Proof.
  destruct m as [| [s | l] |  |]; simpl; try done. intros Hl p Hp. apply list_elem_of_In, in_map_iff in Hp as (q & <- & Hq).
  apply list_elem_of_In in Hq. specialize (Hl q Hq). by destruct q.
Qed.

Lemma cohere_part_json p : cohere_part p = part_json (plain_part p).
Proof. by destruct p. Qed.

(** What is sent for a message reads as the plain message. *)
Lemma translated_message m : message_ok m → chatMessageSchema (JObj (translateMessage m)) = Some (plain m).
Proof.
  intros Hm. destruct m as [c n | c n | c n calls | c i].
  - exact (message_roundtrip (SystemMessage c None) I).
  - rewrite <- (message_roundtrip (plain (UserMessage c n))) by by apply plain_ok.
    destruct c as [s | l]; [done |]. simpl. rewrite map_map. by rewrite (map_ext _ _ cohere_part_json).
  - rewrite <- (message_roundtrip (plain (AssistantMessage c n calls))) by done.
    f_equal. simpl. destruct (String.eqb _ _), calls as [[|]|]; done.
  - unfold chatMessageSchema. simpl. unfold toolMessageSchema, req. simpl. done.
Qed.

Lemma translated_messages ms : Forall message_ok ms →
  mapM chatMessageSchema (map (λ m, JObj (translateMessage m)) ms) = Some (map plain ms).
Proof.
  induction 1 as [|m ms Hm Hms IH]; [done |]. cbn [map mapM]. rewrite translated_message by done. simpl. by rewrite IH.
Qed.

(** The parameters of a request that Cohere has. *)
Definition kept_tools (r : ChatCompletionRequest) : option (list ToolDefinition) :=
  match tools r with Some [] => None | l => l end.
Definition stop_list (s : Stop) : list string := match s with StopOne s => [s] | StopMany l => l end.

(** Cohere is asked what the client asked. For every request the gateway
    accepts, the body sent has one message per message, in order, and each reads
    back (by the OpenAI schema, whose shape the v2 API shares) as the message it
    came from: role, text, images, tool calls and tool-call ids; names, image
    details and the split of an assistant's text are all that is dropped. The
    tools read back unchanged, and temperature, top_p, the token ceiling and the
    stop sequences are the client's, under Cohere's names. *)
Theorem cohere_request_understood v r stream_ :
  chatCompletionRequestSchema v = Some r →
  let body := translateRequest r stream_ in
  (∃ l, field "messages" body = Some (JArr l) ∧ mapM chatMessageSchema l = Some (map plain (messages r))) ∧
  opt "tools" (p_array (p_obj toolDefinitionSchema)) body = Some (kept_tools r) ∧
  opt "temperature" p_num body = Some (temperature r) ∧
  opt "p" p_num body = Some (top_p r) ∧
  opt "max_tokens" p_int body = Some (match max_completion_tokens r with Some t => Some t | None => max_tokens r end) ∧
  opt "stop_sequences" (p_array p_string) body = Some (stop_list <$> stop r) ∧
  field "model" body = Some (JStr (model r)) ∧ field "stream" body = Some (JBool stream_).
Proof.
  intros Hr. pose proof (accepted_messages v r Hr) as Hm. pose proof (accepted_tools v r Hr) as Ht. cbv zeta.
  assert (Htail : ∀ k, k ≠ "tools"%string → k ≠ "tool_choice"%string →
    field k match tools r with None | Some [] => [] | Some l => ("tools"%string, JArr (map tool_definition_json l)) ::
      opt_field "tool_choice" (JStr <$> translateToolChoice (tool_choice r)) end = None).
  { intros k H1 H2. destruct (tools r) as [[|t l]|]; try done. simpl. apply String.eqb_neq in H1, H2. rewrite H1.
    destruct (translateToolChoice _); simpl; by rewrite ?H2. }
  unfold opt, translateRequest. split; [| split].
  - eexists. split; [done |]. by apply translated_messages.
  - cbn [app field String.eqb Ascii.eqb Bool.eqb]. rewrite !field_opt. cbn [String.eqb Ascii.eqb Bool.eqb].
    unfold kept_tools. destruct (tools r) as [[|t l]|]; [done | | done].
    cbn [field String.eqb Ascii.eqb Bool.eqb]. by rewrite (tools_roundtrip (t :: l) Ht).
  - cbn [app field String.eqb Ascii.eqb Bool.eqb]. rewrite !field_opt. cbn [String.eqb Ascii.eqb Bool.eqb].
    rewrite !Htail by done. split_and!; try done.
    + by destruct (temperature r).
    + by destruct (top_p r).
    + destruct (max_completion_tokens r), (max_tokens r); cbn; by rewrite ?to_int_of_Z.
    + destruct (stop r) as [[s|l]|]; cbn; try done. by rewrite mapM_map_some.
Qed.

Lemma cohere_request_understood_witness :
  chatCompletionRequestSchema sample_request = chatCompletionRequestSchema sample_request ∧
  ∃ r, chatCompletionRequestSchema sample_request = Some r ∧
    (∃ l, field "messages" (translateRequest r true) = Some (JArr l) ∧
          mapM chatMessageSchema l = Some [UserMessage (CText "hi") None]).
Proof.
  split; [reflexivity |]. eexists. split; [vm_compute; reflexivity |].
  refine (proj1 (cohere_request_understood sample_request _ true _)). vm_compute; reflexivity.
Defined.

(** ** Streamed and unstreamed replies agree *)

(** A reply as the Chat API produces it: the text in the pieces it is streamed
    in, then the calls with the pieces of their arguments. *)
Record call := Call { call_id : string; call_name : string; call_args : list string }.
Record message := {
  msg_id : string; msg_text : list string; msg_calls : list call; msg_finish : string; msg_input : Q; msg_output : Q
}.

Definition call_json (c : call) : json :=
  JObj [("id"%string, JStr (call_id c)); ("type"%string, JStr "function");
        ("function"%string, JObj [("name"%string, JStr (call_name c)); ("arguments"%string, JStr (join "" (call_args c)))])].
Definition usage_of (m : message) : json :=
  JObj [("tokens"%string, JObj [("input_tokens"%string, JNum (msg_input m)); ("output_tokens"%string, JNum (msg_output m))])].
Definition message_body (m : message) : json :=
  JObj [("id"%string, JStr (msg_id m)); ("finish_reason"%string, JStr (msg_finish m));
        ("message"%string, JObj [("role"%string, JStr "assistant");
           ("content"%string, JArr [text_part_json (join "" (msg_text m))]);
           ("tool_calls"%string, JArr (map call_json (msg_calls m)))]);
        ("usage"%string, usage_of m)].

(** The events of the streamed reply. *)
Definition typed (t : string) (o : fields) : json := JObj (("type"%string, JStr t) :: o).
Definition delta_of (k : string) (v : json) : string * json := ("delta"%string, JObj [("message"%string, JObj [(k, v)])]).
Definition ev_content (d : string) : json :=
  typed "content-delta" [("index"%string, jint 0); delta_of "content" (JObj [("text"%string, JStr d)])].
Definition ev_call_start (i : Z) (c : call) : json :=
  typed "tool-call-start" [("index"%string, jint i);
    delta_of "tool_calls" (JObj [("id"%string, JStr (call_id c)); ("type"%string, JStr "function");
      ("function"%string, JObj [("name"%string, JStr (call_name c)); ("arguments"%string, JStr "")])])].
Definition ev_call_delta (i : Z) (d : string) : json :=
  typed "tool-call-delta" [("index"%string, jint i);
    delta_of "tool_calls" (JObj [("function"%string, JObj [("arguments"%string, JStr d)])])].

Definition call_events (i : Z) (c : call) : list json :=
  (ev_call_start i c :: map (ev_call_delta i) (call_args c) ++ [typed "tool-call-end" [("index"%string, jint i)]])%list.
Fixpoint calls_events (i : Z) (cs : list call) : list json :=
  match cs with [] => [] | c :: cs' => (call_events i c ++ calls_events (i + 1) cs')%list end.

Definition message_events (m : message) : list json :=
  (typed "message-start" [delta_of "role" (JStr "assistant")] ::
   typed "content-start" [("index"%string, jint 0); delta_of "content" (JObj [("text"%string, JStr "")])] ::
   map ev_content (msg_text m) ++
   typed "content-end" [("index"%string, jint 0)] :: calls_events 0 (msg_calls m) ++
   [typed "message-end" [("delta"%string, JObj [("finish_reason"%string, JStr (msg_finish m)); ("usage"%string, usage_of m)])]])%list.

Section Agreement.
Variable JSON_parse : string → option json.
Variables (uuids : nat → string) (nowMs : Z) (request : ChatCompletionRequest).

Abbreviation carries := (carries JSON_parse).
Abbreviation step := (stream_step JSON_parse uuids nowMs request).
Abbreviation id := (createCompletionId (uuids 0%nat)).
Abbreviation created := (nowUnixSeconds nowMs).
Abbreviation m := (model request).

Definition step_on (s : stream_state) (parsed : fields) (type : string) : stream_state * list json * verdict :=
  let delta := record_at "delta" parsed in
  let index := readNumber (field "index" parsed) ?? 0%Q in
  if String.eqb type "message-start" then (emitRole uuids nowMs request s, Continue)
  else if String.eqb type "content-delta" then (on_content_delta uuids nowMs request s delta, Continue)
  else if String.eqb type "tool-call-start" then (on_call_start uuids nowMs request s delta index, Continue)
  else if String.eqb type "tool-call-delta" then (s, on_call_delta uuids nowMs request delta index, Continue)
  else if String.eqb type "message-end" then (on_message_end s delta, [], Continue)
  else (s, [], Continue).

(** Past [DONE], which is no JSON. *)
Lemma cohere_step_parsed s e o t : JSON_parse "[DONE]" = None → carries e (JObj o) → string_at "type" o = Some t →
  step s e = step_on s o t.
Proof using.
  intros Hd [He Hp] Ht. unfold stream_step, safeJsonParse, step_on. rewrite (proj2 (String.eqb_neq _ _) He).
  destruct (String.eqb_spec (data e) "[DONE]") as [E | _]; [by rewrite E, Hd in Hp |]. rewrite Hp. simpl. by rewrite Ht.
Qed.

Hypothesis done_no_json : JSON_parse "[DONE]" = None.

(** After the role is out, with what the calls so far have changed. *)
Definition open_state (tools : bool) : stream_state :=
  {| roleEmitted := true; sawToolUse := tools; finishReason := None; usage := no_usage |}.

Definition with_call (a : assembled) (c : call) : assembled :=
  Assembled (got_text a)
    (got_calls a ++ [{| tc_id := call_id c;
                        tc_function := {| fc_name := call_name c; fc_arguments := join "" (call_args c) |} |}])%list
    (got_finish a) (got_usage a).

Ltac one_event He := rewrite (cohere_step_parsed _ _ _ _ done_no_json He eq_refl).

Lemma silent s e o t : carries e (JObj o) → string_at "type" o = Some t →
  t ∈ ["content-start"; "content-end"; "tool-call-end"]%string → step s e = (s, [], Continue).
Proof using done_no_json. intros He Ht Hin. rewrite (cohere_step_parsed _ _ _ _ done_no_json He Ht). by repeat (apply elem_of_cons in Hin as [-> | Hin]; [done |]); apply elem_of_nil in Hin. Qed.

Lemma call_go b a c es : Forall2 carries es (call_events (Z.of_nat (length (got_calls a))) c) →
  ∃ out, goes step (open_state b) es out (open_state true) ∧ foldl absorb a out = with_call a c.
Proof using done_no_json.
  intros Hes. unfold call_events in Hes. set (k := Z.of_nat (length (got_calls a))) in *.
  apply Forall2_cons_inv_r in Hes as (e & es' & He & Hes & ->).
  apply Forall2_app_inv_r in Hes as (es1 & es2 & Hd & Hs & ->).
  apply Forall2_cons_inv_r in Hs as (e2 & es3 & Hs & Hnil & ->); apply Forall2_nil_inv_r in Hnil as ->.
  set (o := [("index"%string, jint k); ("id"%string, JStr (call_id c)); ("type"%string, JStr "function");
             ("function"%string, JObj [("name"%string, JStr (call_name c)); ("arguments"%string, JStr "")])]).
  exists (makeToolCallChunk id created m (JObj o) :: map (λ d, makeToolCallChunk id created m (call_more k d)) (call_args c)).
  split.
  - apply (goes_emit _ _ _ _ (open_state true)); [by one_event He |].
    rewrite <- (app_nil_r (map _ (call_args c))). eapply goes_app.
    + eapply (goes_map JSON_parse step (ev_call_delta k)); [| exact Hd]. intros d e' He'. by one_event He'.
    + apply goes_one. eapply silent; [exact Hs | done |]. right; right; by left.
  - cbn [foldl]. rewrite absorb_tool, (absorb_new _ o) by done. rewrite absorb_call_mores.
    cbn [got_text got_calls got_finish got_usage]. by rewrite absorb_mores.
Qed.

Lemma calls_go cs : ∀ b a es, Forall2 carries es (calls_events (Z.of_nat (length (got_calls a))) cs) →
  ∃ out, goes step (open_state b) es out (open_state (b || match cs with [] => false | _ => true end)) ∧
    foldl absorb a out = foldl with_call a cs.
Proof using done_no_json.
  induction cs as [|c cs IH]; intros b a es Hes.
  - apply Forall2_nil_inv_r in Hes as ->. exists []. rewrite orb_false_r. split; [constructor | done].
  - cbn [calls_events] in Hes. apply Forall2_app_inv_r in Hes as (es1 & es2 & H1 & H2 & ->).
    destruct (call_go b a c es1 H1) as (out1 & Hg1 & Ha1).
    destruct (IH true (with_call a c) es2) as (out2 & Hg2 & Ha2).
    { cbn [with_call got_calls]. rewrite length_app. simpl. replace (Z.of_nat (length (got_calls a) + 1)) with
        (Z.of_nat (length (got_calls a)) + 1) by lia. done. }
    exists (out1 ++ out2)%list. rewrite orb_true_r. split; [by eapply goes_app | by rewrite foldl_app, Ha1, Ha2].
Qed.

Definition sent_calls (cs : list call) : list ToolCall :=
  map (λ c, {| tc_id := call_id c; tc_function := {| fc_name := call_name c; fc_arguments := join "" (call_args c) |} |}) cs.

Lemma with_calls cs : ∀ a, foldl with_call a cs =
  Assembled (got_text a) (got_calls a ++ sent_calls cs) (got_finish a) (got_usage a).
Proof using.
  induction cs as [|c cs IH]; intros a; [destruct a; by rewrite app_nil_r |].
  cbn [foldl]. rewrite IH. cbn [with_call got_calls got_text got_finish got_usage]. by rewrite <- app_assoc.
Qed.

Lemma extract_sent k cs : extract_calls uuids k (map call_json cs) = (sent_calls cs, k).
Proof using. induction cs as [|c cs IH]; [done |]. cbn [map extract_calls]. simpl. by rewrite IH. Qed.

(** The loop over a whole message. *)
Lemma message_go msg es : Forall2 carries es (message_events msg) →
  ∃ out, goes step initial es out
      {| roleEmitted := true; sawToolUse := match msg_calls msg with [] => false | _ => true end;
         finishReason := Some (msg_finish msg);
         usage := if Qle_bool (msg_input msg + msg_output msg) 0 then no_usage else readUsage (Some (usage_of msg)) |} ∧
    foldl absorb nothing out = Assembled (join "" (msg_text msg)) (sent_calls (msg_calls msg)) None None.
Proof using done_no_json.
  intros Hes. unfold message_events in Hes.
  apply Forall2_cons_inv_r in Hes as (e1 & es1 & H1 & Hes & ->).
  apply Forall2_cons_inv_r in Hes as (e2 & es2 & H2 & Hes & ->).
  apply Forall2_app_inv_r in Hes as (es3 & es4 & H3 & Hes & ->).
  apply Forall2_cons_inv_r in Hes as (e5 & es5 & H5 & Hes & ->).
  apply Forall2_app_inv_r in Hes as (es6 & es7 & H6 & Hes & ->).
  apply Forall2_cons_inv_r in Hes as (e8 & es8 & H8 & Hnil & ->). apply Forall2_nil_inv_r in Hnil as ->.
  destruct (calls_go (msg_calls msg) false (Assembled (join "" (msg_text msg)) [] None None) es6 H6) as (out & Hg & Ha).
  exists (makeRoleChunk id created m :: map (makeContentChunk id created m) (msg_text msg) ++ out)%list. split.
  - apply (goes_emit _ _ _ _ (open_state false)); [by one_event H1 |].
    eapply goes_skip; [eapply silent; [exact H2 | done | by left] |].
    eapply goes_app.
    + eapply (goes_map JSON_parse step ev_content); [| exact H3]. intros d e He. by one_event He.
    + eapply goes_skip; [eapply silent; [exact H5 | done | right; by left] |].
      rewrite <- (app_nil_r out). eapply goes_app; [exact Hg |]. apply goes_one. one_event H8.
      by destruct msg as [i t cs f ni no].
  - cbn [foldl]. rewrite absorb_role, foldl_app, absorb_contents. cbn [got_text got_calls got_finish got_usage nothing].
    change ("" ++ join "" (msg_text msg))%string with (join "" (msg_text msg)). by rewrite Ha, with_calls.
Qed.
End Agreement.

(** C20: Streaming changes the delivery, not the reply. Take any reply of the
    Chat API, its text and each call's arguments cut anywhere. Its events make
    the adapter yield chunks without an error, and an OpenAI client that
    accumulates them has the content, the tool calls with their ids, names and
    arguments, the finish reason and (when it asked for it) the usage of the
    reply that the unstreamed message is translated to. *)
Theorem cohere_stream_agrees JSON_parse cfg uuids nowMs request msg es :
  JSON_parse "[DONE]" = None → (0 < msg_input msg + msg_output msg)%Q →
  Forall2 (carries JSON_parse) es (message_events msg) →
  ∃ cs r, normaliseStream JSON_parse uuids nowMs request es None = Streamed cs None ∧
    translateResponse cfg uuids nowMs (message_body msg) request = Ok r ∧
    assemble cs = assembled_reply r (if wantUsage request then Some (usage_json (r_usage r)) else None).
Proof.
  intros Hd Hu Hes. destruct (message_go JSON_parse uuids nowMs request Hd msg es Hes) as (out & Hg & Ha).
  assert (Hq : Qle_bool (msg_input msg + msg_output msg) 0 = false).
  { destruct (Qle_bool _ 0) eqn:E; [| done]. apply Qle_bool_iff in E. by apply Qlt_not_le in Hu. }
  rewrite Hq in Hg. unfold normaliseStream. rewrite <- (app_nil_r es), (drive_goes _ _ _ _ _ _ [] None Hg). cbn [drive chunks failure].
  do 2 eexists. split; [done |]. split.
  - unfold translateResponse, message_body. cbn [record_of]. unfold record_at.
    cbn [field String.eqb Ascii.eqb Bool.eqb mbind option_bind record_of extractToolCalls extractText coalesce].
    rewrite extract_sent. reflexivity.
  - unfold assemble. rewrite foldl_app, Ha. unfold stream_end. cbn [roleEmitted finishReason sawToolUse usage].
    destruct msg as [i t cs f ni no]. cbn [msg_text msg_calls msg_finish msg_input msg_output emitRole roleEmitted snd app foldl].
    rewrite absorb_finish. cbn [got_text got_calls got_finish got_usage]. clear.
    destruct (wantUsage request); cbn [foldl]; rewrite ?absorb_usage; destruct cs; generalize (join "" t); by intros [|a s].
Qed.

Definition cohere_sample : message :=
  {| msg_id := "m1"; msg_text := ["Let me "; "look."]%string;
     msg_calls := [Call "find_1" "find" ["{"; "}"]; Call "find_2" "find" ["[]"]]%string;
     msg_finish := "TOOL_CALL"; msg_input := 9; msg_output := 4 |}.

Lemma cohere_stream_agrees_witness :
  ∃ cs r,
    normaliseStream (parses (message_events cohere_sample)) (λ _, "u-1"%string) 5000 (sample_chat 0 7 [] [])
      (events_of (message_events cohere_sample)) None = Streamed cs None ∧
    translateResponse sample_cfg (λ _, "u-1"%string) 5000 (message_body cohere_sample) (sample_chat 0 7 [] []) = Ok r ∧
    assemble cs = assembled_reply r None.
Proof.
  apply (cohere_stream_agrees (parses (message_events cohere_sample)) sample_cfg (λ _, "u-1"%string) 5000 (sample_chat 0 7 [] [])
    cohere_sample (events_of (message_events cohere_sample))).
  - by vm_compute.
  - reflexivity.
  - repeat (constructor; [split; [discriminate | by vm_compute] |]). constructor.
Defined.

(** Tool calls as an array, which [readDeltaToolCall] means to take the first
    of: an array is a record, so neither id nor name nor arguments is found. *)
Example array_tool_calls_lost :
  readDeltaToolCall (Some [("message"%string, JObj [("tool_calls"%string, JArr [call_json (Call "c1" "f" ["{}"%string])])])]) =
    Some {| dc_id := None; dc_name := None; dc_arguments := None |} ∧
  readDeltaToolCall (Some [("message"%string, JObj [("tool_calls"%string, call_json (Call "c1" "f" ["{}"%string]))])]) =
    Some {| dc_id := Some "c1"; dc_name := Some "f"; dc_arguments := Some "{}" |}%string.
Proof. by vm_compute. Qed.
