(* ===== verification/Gemini.v ===== *)
(** * The Gemini adapter ([src/providers/gemini.ts])

    Translation of a request into the Generative Language API (contents of
    parts, system instruction apart, tool results under their function's name),
    of a reply and an embedding back, and of the stream of partial replies into
    OpenAI chunks. *)

From Stdlib Require Import ZArith Lia QArith String Ascii.
From stdpp Require Import base strings gmap list option.
From S2P Require Import Prelude Numerals Constants Json Errors Types Tokens Stream Provider Cache Adapter Client Turns.
Open Scope Z_scope.

Definition DEFAULT_MAX_TOKENS : Z := 4096.

(** ** Wire types *)

Inductive GeminiPart :=
| Text (text : string)
| InlineData (mimeType data : string)
| FunctionCall (name : string) (args : json)
| FunctionResponse (name : string) (response : fields).

Inductive GeminiRole := user_role | model_role.
#[export] Instance GeminiRole_eq_dec : EqDecision GeminiRole.
Proof. solve_decision. Defined.

Abbreviation GeminiContent := (turn GeminiRole GeminiPart).

Definition gemini_part_json (p : GeminiPart) : json :=
  match p with
  | Text s => JObj [("text"%string, JStr s)]
  | InlineData mime d => JObj [("inlineData"%string, JObj [("mimeType"%string, JStr mime); ("data"%string, JStr d)])]
  | FunctionCall nm args => JObj [("functionCall"%string, JObj [("name"%string, JStr nm); ("args"%string, args)])]
  | FunctionResponse nm r => JObj [("functionResponse"%string, JObj [("name"%string, JStr nm); ("response"%string, JObj r)])]
  end.

Definition content_json (c : GeminiContent) : json :=
  JObj [("role"%string, JStr match turn_role c with user_role => "user" | model_role => "model" end);
        ("parts"%string, JArr (map gemini_part_json (turn_content c)))].

(** ** Helpers *)

Definition mapFinishReason (reason : option string) (sawToolUse : bool) : FinishReason :=
  if sawToolUse then fr_tool_calls
  else match reason with
       | Some r =>
           if String.eqb r "MAX_TOKENS" then fr_length
           else if String.eqb r "SAFETY" || String.eqb r "RECITATION" then fr_content_filter
           else fr_stop
       | None => fr_stop
       end.

Definition calling (mode : string) (more : fields) : json :=
  JObj [("functionCallingConfig"%string, JObj (("mode"%string, JStr mode) :: more))].
Definition translateToolConfig (choice : option ToolChoice) : option json :=
  match choice with
  | None => None
  | Some choice_none => Some (calling "NONE" [])
  | Some choice_auto => Some (calling "AUTO" [])
  | Some choice_required => Some (calling "ANY" [])
  | Some (choice_function name) => Some (calling "ANY" [("allowedFunctionNames"%string, JArr [JStr name])])
  end.

(** [candidate.content.parts], or nothing. *)
Definition parts_of (content : option json) : list json :=
  match content ≫= record_of with Some c => match field "parts" c with Some (JArr l) => l | _ => [] end | None => [] end.

Definition readUsage (usageMetadata : option json) : CompletionUsage :=
  match usageMetadata ≫= record_of with
  | None => {| prompt_tokens := 0; completion_tokens := 0; total_tokens := 0 |}
  | Some u =>
      let prompt := readNumber (field "promptTokenCount" u) ?? 0%Q in
      let completion := ((readNumber (field "candidatesTokenCount" u) ?? 0%Q) +
                         (readNumber (field "thoughtsTokenCount" u) ?? 0%Q))%Q in
      {| prompt_tokens := prompt; completion_tokens := completion;
         total_tokens := readNumber (field "totalTokenCount" u) ?? (prompt + completion)%Q |}
  end.

Definition partToGeminiPart (part : ContentPart) : GeminiPart :=
  match part with
  | TextPart s => Text s
  | ImagePart url _ =>
      match exec_data_url url with
      | Some (media, data) => InlineData media data
      | None => Text ("[image] " ++ url)
      end
  end.

Definition contentToParts (content : MessageContent) : list GeminiPart :=
  match content with
  | CText s => if String.eqb s "" then [] else [Text s]
  | CParts l => map partToGeminiPart l
  end.

Definition textParts (content : TextContent) : list GeminiPart :=
  match content with
  | TText s => if String.eqb s "" then [] else [Text s]
  | TParts l => map Text l
  end.

Definition asRecord (v : json) : json := if isRecord v then v else JObj [].

(** [`call_${randomUUID().replace(/-/g, '').slice(0, 24)}`]. *)
Definition newToolCallId (uuid : string) : string := ("call_" ++ substring 0 24 (strip_dashes uuid))%string.

Section Gemini.
Variable JSON_parse : string → option json.
Context {D : Type} (new_decoder : D) (decode : D → list Byte.byte → D * string) (decode_end : D → string).
Variable encoded_length : TiktokenEncoding → string → Z.
Variable cfg : ProviderInstanceConfig.
(** The results of successive [randomUUID()] calls, and [Date.now()]. *)
Variables (uuids : nat → string) (nowMs : Z).

Definition headers : list (string * string) :=
  [("content-type", "application/json"); ("x-goog-api-key", p_apiKey cfg)]%string.

Definition countTokens (messages : list ChatMessage) (m : string) : Z := countChatTokens encoded_length messages m.

Definition shapeError : thrown := shape_error cfg "Gemini returned an unexpected response shape." None.

(** ** Requests *)

(** The calls the assistant made, by id; a later one of the same id wins. *)
Definition toolNameById (messages : list ChatMessage) : gmap string string :=
  foldl (λ names message,
      match message with
      | AssistantMessage _ _ calls =>
          foldl (λ names call, <[tc_id call := fc_name (tc_function call)]> names) names (calls ?? [])
      | _ => names
      end) ∅ messages.

Definition call_part (call : ToolCall) : GeminiPart :=
  FunctionCall (fc_name (tc_function call)) (asRecord (safeJsonParse JSON_parse (fc_arguments (tc_function call)))).

(** What a message adds: a system part, or parts of a turn. *)
Definition turn_of (names : gmap string string) (message : ChatMessage) : GeminiRole * list GeminiPart :=
  match message with
  | SystemMessage _ _ => (user_role, [])
  | UserMessage content _ => (user_role, contentToParts content)
  | AssistantMessage content _ calls =>
      (model_role, (match content with Some (Some c) => textParts c | _ => [] end) ++ map call_part (calls ?? []))%list
  | ToolMessage content id =>
      (user_role, [FunctionResponse (names !! id ?? id) [("content"%string, JStr (flattenText (Some content)))]])
  end.
Definition system_of (message : ChatMessage) : list GeminiPart :=
  match message with SystemMessage content _ => [Text (flattenText (Some content))] | _ => [] end.

Definition translate_message (names : gmap string string) (s : list GeminiPart * list GeminiContent)
    (message : ChatMessage) : list GeminiPart * list GeminiContent :=
  match message with
  | SystemMessage content _ => ((s.1 ++ [Text (flattenText (Some content))])%list, s.2)
  | _ => (s.1, push_turn (turn_of names message).1 (turn_of names message).2 s.2)
  end.

Definition translate_messages (messages : list ChatMessage) : list GeminiPart * list GeminiContent :=
  foldl (translate_message (toolNameById messages)) ([], []) messages.

Definition maxOutputTokens_of (request : ChatCompletionRequest) : Z :=
  match max_completion_tokens request, max_tokens request with
  | Some t, _ => t
  | None, Some t => t
  | None, None => (getModel cfg (model request) ≫= maxOutputTokens) ?? DEFAULT_MAX_TOKENS
  end.

Definition buildGenerationConfig (request : ChatCompletionRequest) : fields :=
  (opt_field "temperature" (JNum <$> temperature request) ++
   opt_field "topP" (JNum <$> top_p request) ++
   [("maxOutputTokens"%string, jint (maxOutputTokens_of request))] ++
   opt_field "stopSequences"
     ((λ s, JArr (map JStr match s with StopOne s => [s] | StopMany l => l end)) <$> stop request))%list.

Definition function_declaration (tool : ToolDefinition) : json :=
  JObj (("name"%string, JStr (td_name tool)) :: opt_field "description" (JStr <$> td_description tool) ++
        opt_field "parameters" (JObj <$> td_parameters tool))%list.

Definition translateRequest (request : ChatCompletionRequest) : fields :=
  let '(systemParts, contents) := translate_messages (messages request) in
  (("contents"%string, JArr (map content_json contents)) ::
   (match systemParts with
    | [] => []
    | _ => [("systemInstruction"%string, JObj [("parts"%string, JArr (map gemini_part_json systemParts))])]
    end) ++
   (match buildGenerationConfig request with
    | [] => []
    | config => [("generationConfig"%string, JObj config)]
    end) ++
   match tools request with
   | None | Some [] => []
   | Some l =>
       ("tools"%string, JArr [JObj [("functionDeclarations"%string, JArr (map function_declaration l))]]) ::
       opt_field "toolConfig" (translateToolConfig (tool_choice request))
   end)%list.

Definition model_path (m operation : string) : string := ("/v1beta/models/" ++ m ++ ":" ++ operation)%string.

Definition chat_request (request : ChatCompletionRequest) (operation : string) : HttpRequest :=
  post cfg headers (model_path (model request) operation) (translateRequest request).

(** ** Replies *)

(** The text of a part, or its function call. *)
Definition part_text (part : json) : option string := record_of part ≫= string_at "text".
Definition part_call (part : json) : option fields :=
  match part_text part with Some _ => None | None => record_of part ≫= record_at "functionCall" end.

Definition call_name (index : nat) (fc : fields) : string :=
  string_at "name" fc ?? ("tool_" ++ dec (Z.of_nat index))%string.
Definition call_arguments (fc : fields) : string := stringify (input_or_empty (field "args" fc)).

(** The calls of the parts; the call of index [k] takes the [k]-th fresh id. *)
Fixpoint extract_calls (k : nat) (parts : list json) : list ToolCall :=
  match parts with
  | [] => []
  | part :: parts' =>
      match part_call part with
      | Some fc =>
          {| tc_id := newToolCallId (uuids k);
             tc_function := {| fc_name := call_name k fc; fc_arguments := call_arguments fc |} |} ::
          extract_calls (S k) parts'
      | None => extract_calls k parts'
      end
  end.

Definition extractParts (content : option json) : string * list ToolCall :=
  let parts := parts_of content in
  (join "" (omap part_text parts), extract_calls 0 parts).

Definition nonempty_calls (l : list ToolCall) : option (list ToolCall) := match l with [] => None | _ => Some l end.
Definition nonempty_text (s : string) : option string := if String.eqb s "" then None else Some s.

Definition translateResponse (raw : json) (request : ChatCompletionRequest) : result thrown ChatCompletionResponse :=
  match record_of raw with
  | None => Err shapeError
  | Some raw =>
      let candidate := firstElement (field "candidates" raw) ≫= record_of in
      let '(text, toolCalls) := extractParts (candidate ≫= field "content") in
      Ok {| r_id := createCompletionId (uuids (length toolCalls));
            r_created := inject_Z (nowUnixSeconds nowMs);
            r_model := model request;
            r_choices :=
              [{| ch_index := 0;
                  ch_message := {| rm_content := nonempty_text text; rm_tool_calls := nonempty_calls toolCalls |};
                  ch_finish_reason :=
                    Some (mapFinishReason (candidate ≫= string_at "finishReason")
                                          (match toolCalls with [] => false | _ => true end)) |}];
            r_usage := readUsage (field "usageMetadata" raw);
            r_system_fingerprint := None |}
  end.

Definition chat (fetch : HttpRequest → fetch_outcome) (request : ChatCompletionRequest)
    : result thrown ChatCompletionResponse :=
  let! raw := fetch_json JSON_parse cfg (fetch (chat_request request "generateContent")) in
  translateResponse raw request.

(** ** Embeddings *)

Definition embed_request (request : EmbeddingRequest) : HttpRequest :=
  post cfg headers (model_path (e_model request) "batchEmbedContents")
    [("requests"%string, JArr (map (λ text, JObj
        ([("model"%string, JStr ("models/" ++ e_model request));
          ("content"%string, JObj [("parts"%string, JArr [JObj [("text"%string, JStr text)]])])] ++
         opt_field "outputDimensionality" (jint <$> e_dimensions request)))%list
       (embeddingInputToStrings (e_input request))))].

Definition toUserMessage (text : string) : ChatMessage := UserMessage (CText text) None.

Definition translateEmbedding (raw : json) (request : EmbeddingRequest) (texts : list string)
    : result thrown EmbeddingResponse :=
  match record_of raw ≫= field "embeddings" with
  | Some (JArr embeddings) =>
      let promptTokens := foldl (λ sum t, sum + countTokens [toUserMessage t] (e_model request)) 0 texts in
      Ok {| er_data := imap (λ i entry, (Z.of_nat i, toNumberArray (record_of entry ≫= field "values"))) embeddings;
            er_model := e_model request;
            er_prompt_tokens := inject_Z promptTokens; er_total_tokens := inject_Z promptTokens |}
  | _ => Err shapeError
  end.

Definition embed (fetch : HttpRequest → fetch_outcome) (request : EmbeddingRequest) : result thrown EmbeddingResponse :=
  let! raw := fetch_json JSON_parse cfg (fetch (embed_request request)) in
  translateEmbedding raw request (embeddingInputToStrings (e_input request)).

(** ** Streams *)

Record stream_state := {
  roleEmitted : bool; sawToolUse : bool; toolIndex : nat; finishReason : option string; usage : CompletionUsage
}.
Definition no_usage : CompletionUsage := {| prompt_tokens := 0; completion_tokens := 0; total_tokens := 0 |}.
Definition initial : stream_state :=
  {| roleEmitted := false; sawToolUse := false; toolIndex := 0; finishReason := None; usage := no_usage |}.

Section Stream.
Variable request : ChatCompletionRequest.
Abbreviation id := (createCompletionId (uuids 0)).
Abbreviation created := (nowUnixSeconds nowMs).
Abbreviation m := (model request).

Definition role_chunk (s : stream_state) : list json := if roleEmitted s then [] else [makeRoleChunk id created m].

(** The body of the loop over the parts of a frame. The id of the stream is the
    first fresh one, those of the calls follow. *)
Definition on_part (s : stream_state) (part : json) : stream_state * list json :=
  if negb (isRecord part) then (s, [])
  else match part_text part, part_call part with
       | Some text, _ =>
           ({| roleEmitted := true; sawToolUse := sawToolUse s; toolIndex := toolIndex s;
               finishReason := finishReason s; usage := usage s |},
            role_chunk s ++ [makeContentChunk id created m text])%list
       | None, Some fc =>
           ({| roleEmitted := true; sawToolUse := true; toolIndex := S (toolIndex s);
               finishReason := finishReason s; usage := usage s |},
            role_chunk s ++
            [makeToolCallChunk id created m (JObj
               [("index"%string, jint (Z.of_nat (toolIndex s)));
                ("id"%string, JStr (newToolCallId (uuids (S (toolIndex s)))));
                ("type"%string, JStr "function");
                ("function"%string, JObj [("name"%string, JStr (call_name (toolIndex s) fc));
                                          ("arguments"%string, JStr (call_arguments fc))])])])%list
       | None, None =>
           ({| roleEmitted := true; sawToolUse := sawToolUse s; toolIndex := toolIndex s;
               finishReason := finishReason s; usage := usage s |}, role_chunk s)
       end.

Fixpoint on_parts (s : stream_state) (parts : list json) : stream_state * list json :=
  match parts with
  | [] => (s, [])
  | part :: parts' => let '(s, out) := on_part s part in let '(s, out') := on_parts s parts' in (s, out ++ out')%list
  end.

(** A frame: the usage and the finish reason so far, then its parts. *)
Definition with_usage (s : stream_state) (u : CompletionUsage) : stream_state :=
  if Qle_bool (total_tokens u) 0 then s
  else {| roleEmitted := roleEmitted s; sawToolUse := sawToolUse s; toolIndex := toolIndex s;
          finishReason := finishReason s; usage := u |}.
Definition with_finish (s : stream_state) (r : option string) : stream_state :=
  match r with
  | Some r => {| roleEmitted := roleEmitted s; sawToolUse := sawToolUse s; toolIndex := toolIndex s;
                 finishReason := Some r; usage := usage s |}
  | None => s
  end.

Definition stream_step (s : stream_state) (e : SSEEvent) : stream_state * list json * verdict :=
  if String.eqb (data e) "" then (s, [], Continue)
  else match record_of (safeJsonParse JSON_parse (data e)) with
       | None => (s, [], Continue)
       | Some parsed =>
           let s := with_usage s (readUsage (field "usageMetadata" parsed)) in
           match firstElement (field "candidates" parsed) ≫= record_of with
           | None => (s, [], Continue)
           | Some candidate =>
               let s := with_finish s (string_at "finishReason" candidate) in
               (on_parts s (parts_of (field "content" candidate)), Continue)
           end
       end.

Definition stream_end (s : stream_state) : list json :=
  (role_chunk s ++
   makeFinishChunk id created m (mapFinishReason (finishReason s) (sawToolUse s)) ::
   (if wantUsage request then [makeUsageChunk id created m (usage s)] else []))%list.

Definition normaliseStream (es : list SSEEvent) (err : option thrown) : streamed :=
  drive stream_step stream_end initial es err.
End Stream.

Definition chatStream (fetch : HttpRequest → StreamReply) (request : ChatCompletionRequest) : streamed :=
  open_body JSON_parse new_decoder decode decode_end cfg "Gemini returned an empty stream body."
    (stream_step request) (stream_end request) initial
    (fetch (chat_request request "streamGenerateContent?alt=sse")).
End Gemini.

(** ** The conversation sent *)

(** The calls the assistant's messages make, in order. *)
Definition calls_in (message : ChatMessage) : list ToolCall :=
  match message with AssistantMessage _ _ calls => calls ?? [] | _ => [] end.
Definition calls_of (messages : list ChatMessage) : list ToolCall := concat (map calls_in messages).

Definition name_call (names : gmap string string) (call : ToolCall) : gmap string string :=
  <[tc_id call := fc_name (tc_function call)]> names.

Lemma toolNameById_calls ms : toolNameById ms = foldl name_call ∅ (calls_of ms).
Proof.
  unfold toolNameById, calls_of. generalize (∅ : gmap string string).
  induction ms as [|m ms IH]; intros names; [done |]. cbn [foldl map concat]. rewrite foldl_app, IH. by destruct m.
Qed.

(** An id's name: that of its calls when they agree, and none without a call. *)
Lemma name_call_lookup calls id f : (∀ c, c ∈ calls → tc_id c = id → fc_name (tc_function c) = f) →
  foldl name_call ∅ calls !! id = if existsb (λ c, String.eqb (tc_id c) id) calls then Some f else None.
Proof.
  induction calls as [|c calls IH] using rev_ind; intros Hf; [done |].
  rewrite foldl_snoc, existsb_app. cbn [existsb]. rewrite orb_false_r. unfold name_call at 1.
  destruct (String.eqb_spec (tc_id c) id) as [<- | Hne].
  - rewrite lookup_insert_eq, orb_true_r. f_equal. apply Hf; [| done]. apply elem_of_app. right. by left.
  - rewrite lookup_insert_ne by done. rewrite orb_false_r. apply IH. intros d Hd. apply Hf, elem_of_app. by left.
Qed.

Lemma translate_message_turn JSON_parse names s m :
  (translate_message JSON_parse names s m).1 = (s.1 ++ system_of m)%list ∧
  (translate_message JSON_parse names s m).2 =
    push_turn (turn_of JSON_parse names m).1 (turn_of JSON_parse names m).2 s.2.
Proof. destruct m; simpl; by rewrite ?app_nil_r. Qed.

(** Every conversation becomes one Gemini accepts, and answers find their
    calls. Whatever the messages, the contents sent alternate between user and
    model and none is empty; read part by part, they are the parts of the
    messages in order, each under its role, with the system texts apart. A tool
    result is sent under the name of the function whose call it answers,
    wherever in the conversation that call is, and under its own id when no call
    has it. *)
Theorem answers_find_calls JSON_parse ms :
  let names := toolNameById ms in
  let '(systemParts, contents) := translate_messages JSON_parse ms in
  (alternating contents ∧ Forall (λ c, turn_content c ≠ []) contents ∧
   flat contents = concat (map (λ m, spoken (turn_of JSON_parse names m).1 (turn_of JSON_parse names m).2) ms) ∧
   systemParts = concat (map system_of ms)) ∧
  ∀ content id f, (∀ c, c ∈ calls_of ms → tc_id c = id → fc_name (tc_function c) = f) →
    (turn_of JSON_parse names (ToolMessage content id)).2 =
      [FunctionResponse (if existsb (λ c, String.eqb (tc_id c) id) (calls_of ms) then f else id)
                        [("content"%string, JStr (flattenText (Some content)))]].
Proof.
  cbv zeta. pose proof (fold_turns _ _ _ (translate_message_turn JSON_parse (toolNameById ms)) ms) as H.
  unfold translate_messages. destruct (foldl _ _ ms) as [sys contents]. split; [exact H |].
  intros content id f Hf. cbn [turn_of snd]. rewrite toolNameById_calls, (name_call_lookup _ _ f Hf). by destruct (existsb _ _).
Qed.

(** ** Streams *)

Section Shape.
Variable JSON_parse : string → option json.
Variables (uuids : nat → string) (nowMs : Z) (request : ChatCompletionRequest).
Abbreviation id := (createCompletionId (uuids 0%nat)).
Abbreviation created := (nowUnixSeconds nowMs).
Abbreviation m := (model request).
Abbreviation step := (stream_step JSON_parse uuids nowMs request).

(** A chunk with content, or with one tool call. *)
Definition delta_chunk (c : json) : Prop :=
  (∃ text, c = makeContentChunk id created m text) ∨ (∃ call, c = makeToolCallChunk id created m call).

(** What a stretch of the loop may emit: nothing while the role is not out, then
    the role and deltas. *)
Definition shaped (s : stream_state) (out : list json) (s' : stream_state) : Prop :=
  ∃ deltas, Forall delta_chunk deltas ∧
    if roleEmitted s then roleEmitted s' = true ∧ out = deltas
    else if roleEmitted s' then out = makeRoleChunk id created m :: deltas else out = [].

Lemma shaped_nil s s' : roleEmitted s' = roleEmitted s → shaped s [] s'.
Proof using. intros E. exists []. split; [constructor |]. destruct (roleEmitted s) eqn:Er; by rewrite E. Qed.

Lemma shaped_app s out s1 out' s2 : shaped s out s1 → shaped s1 out' s2 → shaped s (out ++ out') s2.
Proof using.
  unfold shaped. intros (d1 & F1 & H1) (d2 & F2 & H2). destruct (roleEmitted s).
  - destruct H1 as [E ->]. rewrite E in H2. destruct H2 as [E2 ->]. exists (d1 ++ d2)%list. by split; [apply Forall_app |].
  - destruct (roleEmitted s1); subst out.
    + destruct H2 as [-> ->]. exists (d1 ++ d2)%list. by split; [apply Forall_app |].
    + by exists d2.
Qed.

Lemma on_part_shaped s part : shaped s (on_part uuids nowMs request s part).2 (on_part uuids nowMs request s part).1.
Proof using.
  unfold on_part, role_chunk. destruct (isRecord part); cbn [negb]; [| by apply shaped_nil].
  assert (Hd : ∀ c s', roleEmitted s' = true → delta_chunk c →
    shaped s ((if roleEmitted s then [] else [makeRoleChunk id created m]) ++ [c]) s').
  { intros c s' E Hc. exists [c]. split; [by constructor |]. rewrite E. by destruct (roleEmitted s). }
  destruct (part_text part) as [text|]; [apply Hd; [done | left; by eexists] |].
  destruct (part_call part) as [fc|]; [apply Hd; [done | right; by eexists] |].
  exists []. split; [constructor |]. cbn [fst snd roleEmitted]. by destruct (roleEmitted s).
Qed.

Lemma on_parts_shaped parts : ∀ s,
  shaped s (on_parts uuids nowMs request s parts).2 (on_parts uuids nowMs request s parts).1.
Proof using.
  induction parts as [|p parts IH]; intros s; [by apply shaped_nil |]. cbn [on_parts].
  pose proof (on_part_shaped s p) as Hp. destruct (on_part _ _ _ s p) as [s1 out].
  specialize (IH s1). destruct (on_parts _ _ _ s1 parts) as [s2 out']. by eapply shaped_app.
Qed.

Lemma with_usage_role s u : roleEmitted (with_usage s u) = roleEmitted s.
Proof using. unfold with_usage. by destruct (Qle_bool _ _). Qed.
Lemma with_finish_role s r : roleEmitted (with_finish s r) = roleEmitted s.
Proof using. by destruct r. Qed.

Lemma step_shaped s e : ∃ s' out, step s e = (s', out, Continue) ∧ shaped s out s'.
Proof using.
  unfold stream_step. destruct (String.eqb (data e) ""); [do 2 eexists; split; [done | by apply shaped_nil] |].
  destruct (record_of _) as [parsed|]; [| do 2 eexists; split; [done | by apply shaped_nil]].
  set (s1 := with_usage s _). assert (E1 : roleEmitted s1 = roleEmitted s) by apply with_usage_role.
  destruct (firstElement _ ≫= record_of) as [candidate|]; [| do 2 eexists; split; [done | by apply shaped_nil]].
  set (s2 := with_finish s1 _). assert (E2 : roleEmitted s2 = roleEmitted s) by (etrans; [apply with_finish_role | done]).
  pose proof (on_parts_shaped (parts_of (field "content" candidate)) s2) as Hp.
  destruct (on_parts _ _ _ s2 _) as [s3 out]. do 2 eexists. split; [done |].
  unfold shaped in *. by rewrite E2 in Hp.
Qed.

Lemma events_shaped es : ∀ s, ∃ s' out, goes step s es out s' ∧ shaped s out s'.
Proof using.
  induction es as [|e es IH]; intros s; [exists s, []; split; [constructor | by apply shaped_nil] |].
  destruct (step_shaped s e) as (s1 & out & E & H1). destruct (IH s1) as (s2 & out' & Hg & H2).
  exists s2, (out ++ out')%list. split; [by econstructor | by eapply shaped_app].
Qed.
End Shape.

(** The client always gets a well-formed stream. Whatever events the
    upstream sends, parsable or not, in any order, the chunks yielded are the
    role chunk, then content and tool-call deltas, and, unless the body breaks
    off, exactly one finish chunk and then the usage chunk if the client asked
    for it; a body that breaks off yields its error after the deltas, and no
    finish chunk. *)
Theorem gemini_stream_wellformed JSON_parse uuids nowMs request es err :
  let id := createCompletionId (uuids 0%nat) in
  let created := nowUnixSeconds nowMs in
  let r := normaliseStream JSON_parse uuids nowMs request es err in
  ∃ deltas, Forall (delta_chunk uuids nowMs request) deltas ∧ failure r = err ∧
    match err with
    | None => ∃ finish u, chunks r = (makeRoleChunk id created (model request) :: deltas ++
        makeFinishChunk id created (model request) finish ::
        (if wantUsage request then [makeUsageChunk id created (model request) u] else []))%list
    | Some _ => chunks r = [] ∨ chunks r = makeRoleChunk id created (model request) :: deltas
    end.
Proof.
  cbv zeta. destruct (events_shaped JSON_parse uuids nowMs request es initial) as (s & out & Hg & deltas & Hd & Hs).
  simpl in Hs. exists (if roleEmitted s then deltas else []). unfold normaliseStream.
  rewrite <- (app_nil_r es), (drive_goes _ _ _ _ _ _ [] err Hg). cbn [drive].
  split; [by destruct (roleEmitted s) |]. destruct err as [e|]; cbn [chunks failure]; (split; [done |]).
  - rewrite app_nil_r. destruct (roleEmitted s); subst out; eauto.
  - unfold stream_end, role_chunk. do 2 eexists. destruct (roleEmitted s); subst out; reflexivity.
Qed.

Example junk_stream :
  chunks (normaliseStream (λ _, None) (λ _, "u-1"%string) 5000 (sample_chat 0 7 [] [])
    [{| event := None; data := "junk" |}] None) =
    [makeRoleChunk "chatcmpl-u1" 5 (model (sample_chat 0 7 [] []));
     makeFinishChunk "chatcmpl-u1" 5 (model (sample_chat 0 7 [] [])) fr_stop].
Proof. by vm_compute. Qed.

(** Distinct identifiers, for examples. *)
Definition dec_ids (i : nat) : string := dec (Z.of_nat i).

(** ** Streamed and unstreamed replies agree *)

(** What the model says: text, and calls of functions. *)
Inductive gpart := GText (text : string) | GCall (name : string) (args : fields).
Definition gpart_json (p : gpart) : json :=
  match p with
  | GText s => JObj [("text"%string, JStr s)]
  | GCall nm args => JObj [("functionCall"%string, JObj [("name"%string, JStr nm); ("args"%string, JObj args)])]
  end.
Definition gtext (p : gpart) : option string := match p with GText s => Some s | _ => None end.
Definition gcall (p : gpart) : option Types.FunctionCall :=
  match p with GCall nm args => Some {| fc_name := nm; fc_arguments := stringify (JObj args) |} | _ => None end.
(** The text of parts, however it is cut, and their calls. *)
Definition says (ps : list gpart) : string * list Types.FunctionCall := (join "" (omap gtext ps), omap gcall ps).

Record frame := { f_parts : list gpart; f_usage : fields }.
(** A reply: the frames before the last, the last frame, and its finish reason. *)
Record message := { msg_frames : list frame; msg_last : frame; msg_finish : string }.

Definition reply_of (ps : list gpart) (finish : fields) (usage : fields) : json :=
  JObj [("candidates"%string, JArr [JObj (("content"%string, JObj [("parts"%string, JArr (map gpart_json ps));
                                                                   ("role"%string, JStr "model")]) :: finish)]);
        ("usageMetadata"%string, JObj usage)].
Definition finish_field (m : message) : fields := [("finishReason"%string, JStr (msg_finish m))].
(** The unstreamed reply says the same in parts of its own. *)
Definition message_body (m : message) (ps : list gpart) : json := reply_of ps (finish_field m) (f_usage (msg_last m)).
Definition message_events (m : message) : list json :=
  (map (λ f, reply_of (f_parts f) [] (f_usage f)) (msg_frames m) ++
   [reply_of (f_parts (msg_last m)) (finish_field m) (f_usage (msg_last m))])%list.
Definition message_parts (m : message) : list gpart :=
  (concat (map f_parts (msg_frames m)) ++ f_parts (msg_last m))%list.

Section Agreement.
Variable JSON_parse : string → option json.
Variables (uuids : nat → string) (nowMs : Z) (request : ChatCompletionRequest).
Abbreviation step := (stream_step JSON_parse uuids nowMs request).
Abbreviation id := (createCompletionId (uuids 0%nat)).
Abbreviation created := (nowUnixSeconds nowMs).
Abbreviation m := (model request).

(** The loop's counters are those of what the client has. *)
Definition tracks (s : stream_state) (a : assembled) : Prop :=
  toolIndex s = length (got_calls a) ∧ sawToolUse s = match got_calls a with [] => false | _ => true end.

Definition with_part (a : assembled) (p : gpart) : assembled :=
  match p with
  | GText t => Assembled (got_text a ++ t) (got_calls a) (got_finish a) (got_usage a)
  | GCall nm args =>
      Assembled (got_text a)
        (got_calls a ++ [{| tc_id := newToolCallId (uuids (S (length (got_calls a))));
                            tc_function := {| fc_name := nm; fc_arguments := stringify (JObj args) |} |}])%list
        (got_finish a) (got_usage a)
  end.

(** A stretch of the loop, seen by the client. *)
Definition advances (s : stream_state) (a : assembled) (out : list json) (s' : stream_state) (a' : assembled) : Prop :=
  foldl absorb a out = a' ∧ tracks s' a' ∧ finishReason s' = finishReason s ∧ usage s' = usage s.

Lemma absorb_role_chunk s a out :
  foldl absorb a (role_chunk uuids nowMs request s ++ out) = foldl absorb a out.
Proof using. unfold role_chunk. destruct (roleEmitted s); [done |]. simpl. by rewrite absorb_role. Qed.

Lemma part_go s a p : tracks s a →
  ∃ s' out, on_part uuids nowMs request s (gpart_json p) = (s', out) ∧ advances s a out s' (with_part a p).
Proof using.
  intros [Hk Hs]. destruct p as [t | nm args].
  - do 2 eexists. split; [reflexivity |]. split; [| done]. rewrite absorb_role_chunk. apply absorb_content.
  - do 2 eexists. split; [reflexivity |]. unfold advances, tracks.
    rewrite absorb_role_chunk, Hk. cbn [foldl with_part got_calls toolIndex sawToolUse].
    rewrite absorb_tool, absorb_new by done. split_and!; [done | rewrite length_app; simpl; lia | by destruct (got_calls a) | done | done].
Qed.

Lemma parts_go ps : ∀ s a, tracks s a →
  ∃ s' out, on_parts uuids nowMs request s (map gpart_json ps) = (s', out) ∧ advances s a out s' (foldl with_part a ps).
Proof using.
  induction ps as [|p ps IH]; intros s a Ht; [by exists s, [] |]. cbn [map on_parts foldl].
  destruct (part_go s a p Ht) as (s1 & out & -> & Ha & Ht1 & Hf & Hu).
  destruct (IH s1 (with_part a p) Ht1) as (s2 & out' & -> & Ha' & Ht2 & Hf' & Hu').
  do 2 eexists. split; [done |]. split_and!; [by rewrite foldl_app, Ha | done | congruence | congruence].
Qed.

(** One frame: its usage counts when its total is positive, its finish reason when it has one. *)
Lemma frame_go s a e ps fin u : tracks s a → carries JSON_parse e (reply_of ps fin u) →
  ∃ s' out, step s e = (s', out, Continue) ∧ foldl absorb a out = foldl with_part a ps ∧ tracks s' (foldl with_part a ps) ∧
    finishReason s' = match string_at "finishReason" fin with Some r => Some r | None => finishReason s end ∧
    usage s' = (let v := readUsage (Some (JObj u)) in if Qle_bool (total_tokens v) 0 then usage s else v).
Proof using.
  intros Ht [He Hp]. unfold stream_step, safeJsonParse. rewrite (proj2 (String.eqb_neq _ _) He), Hp.
  cbn [coalesce reply_of record_of]. 
  change (field "usageMetadata" _) with (Some (JObj u)).
  set (s1 := with_usage s _).
  change (firstElement _ ≫= record_of) with
    (Some (("content"%string, JObj [("parts"%string, JArr (map gpart_json ps)); ("role"%string, JStr "model")]) :: fin)).
  cbv iota beta. change (string_at "finishReason" (_ :: fin)) with (string_at "finishReason" fin).
  set (s2 := with_finish s1 _).
  change (parts_of _) with (map gpart_json ps).
  assert (Ht2 : tracks s2 a).
  { unfold s2, s1, with_finish, with_usage. by destruct (string_at "finishReason" fin), (Qle_bool _ 0). }
  destruct (parts_go ps s2 a Ht2) as (s3 & out & -> & Ha & Ht3 & Hf & Hu). do 2 eexists. split; [done |].
  split_and!; [done | done | rewrite Hf | rewrite Hu]; unfold s2, s1, with_finish, with_usage;
    by destruct (string_at "finishReason" fin), (Qle_bool _ 0).
Qed.

Lemma frames_go fs : ∀ s a es, tracks s a → finishReason s = None →
  Forall2 (carries JSON_parse) es (map (λ f, reply_of (f_parts f) [] (f_usage f)) fs) →
  ∃ s' out, goes step s es out s' ∧ foldl absorb a out = foldl with_part a (concat (map f_parts fs)) ∧
    tracks s' (foldl with_part a (concat (map f_parts fs))) ∧ finishReason s' = None.
Proof using.
  induction fs as [|f fs IH]; intros s a es Ht Hf Hes.
  - apply Forall2_nil_inv_r in Hes as ->. exists s, []. split_and!; try done. constructor.
  - apply Forall2_cons_inv_r in Hes as (e & es' & He & Hes & ->).
    destruct (frame_go s a e _ _ _ Ht He) as (s1 & out & E & Ha & Ht1 & Hf1 & _).
    destruct (IH s1 _ es' Ht1 (eq_trans Hf1 Hf) Hes) as (s2 & out' & Hg & Ha2 & Ht2 & Hf2).
    exists s2, (out ++ out')%list. cbn [map concat]. rewrite !foldl_app, Ha. split_and!; try done. by econstructor.
Qed.
End Agreement.

Lemma with_parts uuids ps : ∀ a,
  let b := foldl (with_part uuids) a ps in
  got_text b = (got_text a ++ join "" (omap gtext ps))%string ∧
  map tc_function (got_calls b) = (map tc_function (got_calls a) ++ omap gcall ps)%list ∧
  got_finish b = got_finish a ∧ got_usage b = got_usage a.
Proof.
  induction ps as [|p ps IH]; intros a; [simpl; by rewrite string_app_empty_r, app_nil_r |].
  cbn [foldl]. destruct (IH (with_part uuids a p)) as (-> & -> & -> & ->). destruct p as [t | nm args].
  - change (omap gtext (GText t :: ps)) with (t :: omap gtext ps). by rewrite join_empty_cons, <- string_app_assoc.
  - cbn [with_part got_calls got_text got_finish got_usage]. by rewrite map_app, <- app_assoc.
Qed.

(** The ids of the calls are successive fresh ones. *)
Lemma with_parts_ids uuids ps : ∀ a,
  map tc_id (got_calls a) = map (λ i, newToolCallId (uuids (S i))) (seq 0 (length (got_calls a))) →
  let b := foldl (with_part uuids) a ps in
  map tc_id (got_calls b) = map (λ i, newToolCallId (uuids (S i))) (seq 0 (length (got_calls b))).
Proof.
  induction ps as [|p ps IH]; intros a Ha; [done |]. cbn [foldl]. apply IH. destruct p as [t | nm args]; [done |].
  cbn [with_part got_calls]. rewrite length_app, seq_app, !map_app, Ha. done.
Qed.

Lemma extract_calls_spec uuids ps : ∀ k,
  map tc_function (extract_calls uuids k (map gpart_json ps)) = omap gcall ps ∧
  map tc_id (extract_calls uuids k (map gpart_json ps)) =
    map (λ i, newToolCallId (uuids i)) (seq k (length (extract_calls uuids k (map gpart_json ps)))).
Proof.
  induction ps as [|[t | nm args] ps IH]; intros k; [done | apply IH |].
  change (extract_calls uuids k (map gpart_json (GCall nm args :: ps))) with
    ({| tc_id := newToolCallId (uuids k); tc_function := {| fc_name := nm; fc_arguments := stringify (JObj args) |} |} ::
     extract_calls uuids (S k) (map gpart_json ps)).
  destruct (IH (S k)) as [E1 E2]. split; [cbn; by rewrite E1 |]. cbn [map length seq]. by rewrite E2.
Qed.

Lemma part_texts ps : omap part_text (map gpart_json ps) = omap gtext ps.
Proof. induction ps as [|[t | nm args] ps IH]; [done | exact (f_equal (cons t) IH) | exact IH]. Qed.

(** The first [n] ids after the stream's own do not collide. *)
Definition distinct_ids (uuids : nat → string) (n : nat) : Prop :=
  ∀ i j, (i <= n)%nat → (j <= n)%nat → newToolCallId (uuids i) = newToolCallId (uuids j) → i = j.

Lemma nodup_ids uuids n (f : nat → nat) : (∀ i j, f i = f j → i = j) → (∀ i, (i < n)%nat → (f i <= n)%nat) →
  distinct_ids uuids n → base.NoDup (map (λ i, newToolCallId (uuids (f i))) (seq 0 n)).
Proof.
  intros Hf Hle Hinj. apply NoDup_fmap_2_strong; [| apply NoDup_seq].
  intros i j Hi%elem_of_seq Hj%elem_of_seq E. apply Hf, Hinj; [apply Hle; lia | apply Hle; lia | done].
Qed.

(** The unstreamed reply, translated. *)
Definition reply_message (uuids : nat → string) (nowMs : Z) (request : ChatCompletionRequest) (msg : message)
    (ps : list gpart) : ChatCompletionResponse :=
  let calls := extract_calls uuids 0 (map gpart_json ps) in
  {| r_id := createCompletionId (uuids (length calls)); r_created := inject_Z (nowUnixSeconds nowMs);
     r_model := model request;
     r_choices := [{| ch_index := 0;
       ch_message := {| rm_content := nonempty_text (join "" (omap gtext ps)); rm_tool_calls := nonempty_calls calls |};
       ch_finish_reason :=
         Some (mapFinishReason (Some (msg_finish msg)) (match calls with [] => false | _ => true end)) |}];
     r_usage := readUsage (Some (JObj (f_usage (msg_last msg)))); r_system_fingerprint := None |}.

Lemma body_translated cfg uuids nowMs request msg ps :
  translateResponse cfg uuids nowMs (message_body msg ps) request = Ok (reply_message uuids nowMs request msg ps).
Proof.
  unfold translateResponse, message_body, reply_of, reply_message. cbn [record_of].
  change (firstElement _ ≫= record_of) with
    (Some (("content"%string, JObj [("parts"%string, JArr (map gpart_json ps)); ("role"%string, JStr "model")]) :: finish_field msg)).
  cbn [mbind option_bind]. unfold extractParts. change (parts_of _) with (map gpart_json ps). by rewrite part_texts.
Qed.

Lemma reply_assembled uuids nowMs request msg ps usage :
  assembled_reply (reply_message uuids nowMs request msg ps) usage =
    Assembled (join "" (omap gtext ps)) (extract_calls uuids 0 (map gpart_json ps))
      (Some (finish_reason_str (mapFinishReason (Some (msg_finish msg))
         (match extract_calls uuids 0 (map gpart_json ps) with [] => false | _ => true end)))) usage.
Proof.
  unfold assembled_reply, reply_message. cbn [r_choices ch_message rm_content rm_tool_calls ch_finish_reason].
  by destruct (join "" (omap gtext ps)), (extract_calls uuids 0 (map gpart_json ps)).
Qed.

Lemma closing uuids nowMs request a f u : got_usage a = None →
  foldl absorb a (makeFinishChunk (createCompletionId (uuids 0%nat)) (nowUnixSeconds nowMs) (model request) f ::
    (if wantUsage request
     then [makeUsageChunk (createCompletionId (uuids 0%nat)) (nowUnixSeconds nowMs) (model request) u] else [])) =
  Assembled (got_text a) (got_calls a) (Some (finish_reason_str f)) (if wantUsage request then Some (usage_json u) else None).
Proof.
  intros Hu. cbn [foldl]. rewrite absorb_finish. destruct (wantUsage request); cbn [foldl]; [apply absorb_usage |].
  by rewrite Hu.
Qed.

(** C19: Streaming changes the delivery, not the reply. Take any reply of
    Gemini, its text cut anywhere over any number of frames with any interim
    usage. Its frames make the adapter yield chunks without an error, and an
    OpenAI client that accumulates them has the content, the names and arguments
    of the calls, the finish reason and (when it asked for it) the usage that the
    same reply has unstreamed; and while the random identifiers do not collide,
    the calls of either have different ids, two calls of one function included. *)
Theorem gemini_stream_agrees JSON_parse cfg uuids nowMs request msg ps es :
  says ps = says (message_parts msg) →
  (0 < total_tokens (readUsage (Some (JObj (f_usage (msg_last msg))))))%Q →
  Forall2 (carries JSON_parse) es (message_events msg) →
  ∃ cs r, normaliseStream JSON_parse uuids nowMs request es None = Streamed cs None ∧
    translateResponse cfg uuids nowMs (message_body msg ps) request = Ok r ∧
    let a := assemble cs in
    let b := assembled_reply r (if wantUsage request then Some (usage_json (r_usage r)) else None) in
    got_text a = got_text b ∧ map tc_function (got_calls a) = map tc_function (got_calls b) ∧
    got_finish a = got_finish b ∧ got_usage a = got_usage b ∧
    (distinct_ids uuids (length (got_calls a)) →
     base.NoDup (map tc_id (got_calls a)) ∧ base.NoDup (map tc_id (got_calls b))).
Proof.
  intros Hsay Hu Hes. unfold message_events in Hes. apply Forall2_app_inv_r in Hes as (es1 & es2 & H1 & H2 & ->).
  apply Forall2_cons_inv_r in H2 as (e & es3 & He & Hnil & ->). apply Forall2_nil_inv_r in Hnil as ->.
  destruct (frames_go JSON_parse uuids nowMs request (msg_frames msg) initial nothing es1) as (s1 & out1 & Hg1 & Ha1 & Ht1 & _);
    [done | done | done |].
  destruct (frame_go JSON_parse uuids nowMs request s1 _ e _ _ _ Ht1 He) as (s2 & out2 & E2 & Ha2 & [_ Hsaw] & Hf2 & Hu2).
  cbn zeta in Hu2. destruct (Qle_bool _ 0) eqn:Eq; [apply Qle_bool_iff in Eq; by apply Qlt_not_le in Hu |].
  set (a := foldl (with_part uuids) (foldl (with_part uuids) nothing (concat (map f_parts (msg_frames msg)))) (f_parts (msg_last msg))) in *.
  assert (Ea : a = foldl (with_part uuids) nothing (message_parts msg)) by (unfold a, message_parts; by rewrite foldl_app).
  destruct (with_parts uuids (message_parts msg) nothing) as (At & Ac & Af & Au). rewrite <- Ea in At, Ac, Af, Au.
  pose proof (with_parts_ids uuids (message_parts msg) nothing eq_refl) as Aid. cbv zeta in Aid. rewrite <- Ea in Aid.
  injection Hsay as Hst Hsc. simpl in At, Ac. destruct (extract_calls_spec uuids ps 0) as [Bc Bid].
  assert (Hg : goes (stream_step JSON_parse uuids nowMs request) initial (es1 ++ [e]) (out1 ++ out2) s2).
  { eapply goes_app; [exact Hg1 | by apply goes_one]. }
  do 2 eexists. split; [| split; [apply body_translated |]].
  { unfold normaliseStream. rewrite <- (app_nil_r (es1 ++ [e])), (drive_goes _ _ _ _ _ _ [] None Hg). reflexivity. }
  assert (Hout : foldl absorb nothing (out1 ++ out2) = a) by (rewrite foldl_app, Ha1; exact Ha2).
  assert (Hcalls : map tc_function (got_calls a) = map tc_function (extract_calls uuids 0 (map gpart_json ps))) by congruence.
  assert (Hfin : mapFinishReason (finishReason s2) (sawToolUse s2) =
    mapFinishReason (Some (msg_finish msg)) (match extract_calls uuids 0 (map gpart_json ps) with [] => false | _ => true end)).
  { rewrite Hf2, Hsaw. cbn [finish_field string_at field]. destruct (got_calls a), (extract_calls _ _ _); done. }
  cbn [drive chunks failure]. unfold assemble, stream_end.
  rewrite foldl_app, Hout, absorb_role_chunk, Hfin, Hu2, reply_assembled, closing by exact Au.
  cbn [got_text got_calls got_finish got_usage]. split_and!; [by rewrite At, Hst | exact Hcalls | done | done |].
  intros Hinj. pose proof (f_equal length Hcalls) as Hlen. rewrite !length_map in Hlen.
  rewrite Aid, Bid, <- Hlen. split; [apply (nodup_ids uuids _ S) | apply (nodup_ids uuids _ (λ i, i))]; try exact Hinj; lia.
Qed.

(** Two calls of one function and text, in three frames. *)
Definition gemini_sample : message :=
  let u n := [("promptTokenCount"%string, jint 7); ("candidatesTokenCount"%string, jint n)] in
  {| msg_frames := [{| f_parts := [GText "Let me "]; f_usage := u 2 |};
                    {| f_parts := [GText "look."; GCall "find" [("q"%string, JStr "x")]]; f_usage := u 5 |}];
     msg_last := {| f_parts := [GCall "find" []]; f_usage := u 9 |}; msg_finish := "STOP" |}.
Definition gemini_sample_parts : list gpart := [GText "Let me look."; GCall "find" [("q"%string, JStr "x")]; GCall "find" []].

Lemma gemini_stream_agrees_witness :
  ∃ cs r,
    normaliseStream (parses (message_events gemini_sample)) dec_ids 5000 (sample_chat 0 7 [] [])
      (events_of (message_events gemini_sample)) None = Streamed cs None ∧
    translateResponse sample_cfg dec_ids 5000 (message_body gemini_sample gemini_sample_parts) (sample_chat 0 7 [] []) = Ok r ∧
    let a := assemble cs in let b := assembled_reply r None in
    got_text a = got_text b ∧ map tc_function (got_calls a) = map tc_function (got_calls b) ∧
    got_finish a = got_finish b ∧ got_usage a = got_usage b ∧
    (distinct_ids dec_ids (length (got_calls a)) →
     base.NoDup (map tc_id (got_calls a)) ∧ base.NoDup (map tc_id (got_calls b))).
Proof.
  apply (gemini_stream_agrees (parses (message_events gemini_sample)) sample_cfg dec_ids 5000 (sample_chat 0 7 [] [])
    gemini_sample gemini_sample_parts (events_of (message_events gemini_sample))).
  - reflexivity.
  - reflexivity.
  - repeat (constructor; [split; [discriminate | by vm_compute] |]). constructor.
Defined.

Example sample_ids_distinct : distinct_ids dec_ids 2.
Proof. intros [|[|[|i]]] [|[|[|j]]] Hi Hj E; try lia; by vm_compute in E. Qed.
