(* ===== verification/Adapters.v ===== *)
(** * The adapters behind one interface ([createAdapter] of [src/providers/registry.ts])

    The five adapters as instances of the interface of [BaseProvider], and what
    the router may rely on whichever of them it calls: which failures a call can
    end in, and that a reply is complete. *)

From Stdlib Require Import ZArith Lia QArith String Ascii.
From stdpp Require Import base strings list option.
From S2P Require Import Prelude Constants Json Errors Types Tokens Stream Provider Cache Adapter.
From S2P Require OpenAI Mistral Anthropic Cohere Gemini.
Open Scope Z_scope.

(** The abstract methods of [BaseProvider], and the requests they send: a chat
    call's, and an embedding call's if the provider has embeddings. *)
Record ProviderMethods := {
  pr_request : ChatCompletionRequest → bool → HttpRequest;
  pr_embed_request : EmbeddingRequest → option HttpRequest;
  pr_chat : (HttpRequest → fetch_outcome) → ChatCompletionRequest → result thrown ChatCompletionResponse;
  pr_chatStream : (HttpRequest → StreamReply) → ChatCompletionRequest → streamed;
  pr_embed : (HttpRequest → fetch_outcome) → EmbeddingRequest → result thrown EmbeddingResponse;
  pr_countTokens : list ChatMessage → string → Z
}.

(** A reply the client can use: choices, each with a finish reason. *)
Definition complete (r : ChatCompletionResponse) : Prop :=
  r_choices r ≠ [] ∧ Forall (λ c, is_Some (ch_finish_reason c)) (r_choices r).

Section Adapters.
Variable JSON_parse : string → option json.
Context {D : Type} (new_decoder : D) (decode : D → list Byte.byte → D * string) (decode_end : D → string).
Variable encoded_length : TiktokenEncoding → string → Z.
Variable zod_issues : json → json.
Variables (uuids : nat → string) (nowMs : Z).

Definition openai_methods (build : ChatCompletionRequest → bool → fields) (cfg : ProviderInstanceConfig) : ProviderMethods := {|
  pr_request := OpenAI.chat_request build cfg;
  pr_embed_request request := Some (post cfg (OpenAI.headers cfg) "/embeddings" (OpenAI.buildEmbeddingBody request));
  pr_chat := OpenAI.chat JSON_parse encoded_length zod_issues build cfg (uuids 0%nat) nowMs;
  pr_chatStream := OpenAI.chatStream JSON_parse new_decoder decode decode_end build cfg;
  pr_embed := OpenAI.embed JSON_parse zod_issues cfg;
  pr_countTokens := OpenAI.countTokens encoded_length
|}.
Definition OpenAIProvider : ProviderInstanceConfig → ProviderMethods := openai_methods OpenAI.buildChatBody.
Definition MistralProvider : ProviderInstanceConfig → ProviderMethods := openai_methods Mistral.buildChatBody.

Definition AnthropicProvider (cfg : ProviderInstanceConfig) : ProviderMethods := {|
  pr_request := Anthropic.messages_request JSON_parse cfg;
  pr_embed_request _ := None;
  pr_chat := Anthropic.chat JSON_parse zod_issues cfg (uuids 0%nat) nowMs;
  pr_chatStream := Anthropic.chatStream JSON_parse new_decoder decode decode_end cfg (uuids 0%nat) nowMs;
  pr_embed _ := Anthropic.embed cfg;
  pr_countTokens := Anthropic.countTokens encoded_length
|}.

Definition CohereProvider (cfg : ProviderInstanceConfig) : ProviderMethods := {|
  pr_request := Cohere.chat_request cfg;
  pr_embed_request request := Some (Cohere.embed_request cfg request);
  pr_chat := Cohere.chat JSON_parse cfg uuids nowMs;
  pr_chatStream := Cohere.chatStream JSON_parse new_decoder decode decode_end cfg uuids nowMs;
  pr_embed := Cohere.embed JSON_parse encoded_length cfg;
  pr_countTokens := Cohere.countTokens encoded_length
|}.

Definition GeminiProvider (cfg : ProviderInstanceConfig) : ProviderMethods := {|
  pr_request request stream_ :=
    Gemini.chat_request JSON_parse cfg request (if stream_ then "streamGenerateContent?alt=sse" else "generateContent");
  pr_embed_request request := Some (Gemini.embed_request cfg request);
  pr_chat := Gemini.chat JSON_parse cfg uuids nowMs;
  pr_chatStream := Gemini.chatStream JSON_parse new_decoder decode decode_end cfg uuids nowMs;
  pr_embed := Gemini.embed JSON_parse encoded_length cfg;
  pr_countTokens := Gemini.countTokens encoded_length
|}.

Definition createAdapter (cfg : ProviderInstanceConfig) : ProviderMethods :=
  match adapterType cfg with
  | openai => OpenAIProvider cfg
  | anthropic => AnthropicProvider cfg
  | gemini => GeminiProvider cfg
  | cohere => CohereProvider cfg
  | mistral => MistralProvider cfg
  end.

(** ** The interface *)

(** The header that carries a provider's credential. *)
Definition credential_header (cfg : ProviderInstanceConfig) : string * string :=
  match adapterType cfg with
  | openai | mistral | cohere => ("authorization", "Bearer " ++ p_apiKey cfg)
  | anthropic => ("x-api-key", p_apiKey cfg)
  | gemini => ("x-goog-api-key", p_apiKey cfg)
  end%string.

(** A request to the provider's own base URL, with its own credential. *)
Definition addressed_to (cfg : ProviderInstanceConfig) (q : HttpRequest) : Prop :=
  starts_with (strip_trailing slash (baseUrl cfg) ++ "/") (url q) = true ∧
  ∃ plain, Forall (λ h, h.1 = "content-type" ∨ h.1 = "anthropic-version")%string plain ∧
           req_headers q ≡ₚ credential_header cfg :: plain.

(** What an adapter promises over the exchange it makes. *)
Class LawfulProvider (cfg : ProviderInstanceConfig) (p : ProviderMethods) : Prop := {
  chat_outcome : ∀ fetch request,
    match fetch_json JSON_parse cfg (fetch (pr_request p request false)) with
    | Err e => pr_chat p fetch request = Err e
    | Ok raw =>
        (∃ r, pr_chat p fetch request = Ok r ∧ complete r) ∨
        (∃ message issues, pr_chat p fetch request = Err (shape_error cfg message issues))
    end;
  stream_outcome : ∀ fetch request,
    match exchange JSON_parse cfg (reply (fetch (pr_request p request true))) with
    | Err e => pr_chatStream p fetch request = Streamed [] (Some e)
    | Ok r => body r = None → ∃ message, pr_chatStream p fetch request = Streamed [] (Some (shape_error cfg message None))
    end;
  embed_outcome : ∀ fetch request,
    match pr_embed_request p request with
    | None => ∃ e, pr_embed p fetch request = Err (TGateway e) ∧ retryable e = false
    | Some http =>
        match fetch_json JSON_parse cfg (fetch http) with
        | Err e => pr_embed p fetch request = Err e
        | Ok raw => (∃ r, pr_embed p fetch request = Ok r) ∨
                    (∃ message issues, pr_embed p fetch request = Err (shape_error cfg message issues))
        end
    end;
  counts_nonneg : (∀ e s, 0 <= encoded_length e s) → ∀ ms m, 0 <= pr_countTokens p ms m
}.

Lemma stream_opens {S} cfg empty step finish (s : S) r :
  match exchange JSON_parse cfg (reply r) with
  | Err e => open_body JSON_parse new_decoder decode decode_end cfg empty step finish s r = Streamed [] (Some e)
  | Ok response => body response = None →
      ∃ message, open_body JSON_parse new_decoder decode decode_end cfg empty step finish s r =
        Streamed [] (Some (shape_error cfg message None))
  end.
Proof using.
  unfold open_body. destruct (exchange JSON_parse cfg (reply r)) as [response | e]; [| done].
  intros ->. by eexists.
Qed.

#[export] Instance openai_lawful build cfg : LawfulProvider cfg (openai_methods build cfg).
Proof using.
  split; cbn [openai_methods pr_chat pr_request pr_chatStream pr_embed pr_embed_request pr_countTokens].
  - intros fetch request. unfold OpenAI.chat. destruct (fetch_json _ _ _) as [raw | e]; [| done]. cbn [res_bind].
    destruct (OpenAI.chatResponseSchema raw) as [data|] eqn:E; [left | right; by do 2 eexists].
    eexists. split; [done |].
    exact (OpenAI.normalised_shape encoded_length (uuids 0%nat) nowMs data request raw E).
  - intros fetch request. apply stream_opens.
  - intros fetch request. unfold OpenAI.embed. destruct (fetch_json _ _ _) as [raw | e]; [| done].
    cbn [res_bind]. destruct (OpenAI.embeddingResponseSchema raw); eauto.
  - intros Hl ms m. by apply countChatTokens_nonneg.
Qed.

#[export] Instance anthropic_lawful cfg : LawfulProvider cfg (AnthropicProvider cfg).
Proof using.
  split; cbn [AnthropicProvider pr_chat pr_request pr_chatStream pr_embed pr_embed_request pr_countTokens].
  - intros fetch request. unfold Anthropic.chat. destruct (fetch_json _ _ _) as [raw | e]; [| done]. cbn [res_bind].
    destruct (Anthropic.messageResponseSchema raw) as [data|]; [left | right; by do 2 eexists].
    eexists. split; [done |]. unfold Anthropic.translateResponse, complete. destruct (foldl _ _ _).
    split; [done | by repeat econstructor].
  - intros fetch request. apply stream_opens.
  - intros fetch request. by eexists.
  - intros Hl ms m. by apply countChatTokens_nonneg.
Qed.

#[export] Instance cohere_lawful cfg : LawfulProvider cfg (CohereProvider cfg).
Proof using.
  split; cbn [CohereProvider pr_chat pr_request pr_chatStream pr_embed pr_embed_request pr_countTokens].
  - intros fetch request. unfold Cohere.chat. destruct (fetch_json _ _ _) as [raw | e]; [| done]. cbn [res_bind].
    unfold Cohere.translateResponse. destruct (record_of raw) as [o|]; [left | right; by do 2 eexists].
    destruct (Cohere.extractToolCalls _ _) as [calls k]. eexists. split; [done |]. split; [done | by repeat econstructor].
  - intros fetch request. apply stream_opens.
  - intros fetch request. unfold Cohere.embed. destruct (fetch_json _ _ _) as [raw | e]; [| done].
    cbn [res_bind]. unfold Cohere.translateEmbedding, Cohere.shapeError. destruct (_ ≫= field "float") as [[]|]; eauto.
  - intros Hl ms m. by apply countChatTokens_nonneg.
Qed.

#[export] Instance gemini_lawful cfg : LawfulProvider cfg (GeminiProvider cfg).
Proof using.
  split; cbn [GeminiProvider pr_chat pr_request pr_chatStream pr_embed pr_embed_request pr_countTokens].
  - intros fetch request. unfold Gemini.chat. destruct (fetch_json _ _ _) as [raw | e]; [| done]. cbn [res_bind].
    unfold Gemini.translateResponse. destruct (record_of raw) as [o|]; [left | right; by do 2 eexists].
    destruct (Gemini.extractParts _ _) as [text calls]. eexists. split; [done |]. split; [done | by repeat econstructor].
  - intros fetch request. apply stream_opens.
  - intros fetch request. unfold Gemini.embed. destruct (fetch_json _ _ _) as [raw | e]; [| done].
    cbn [res_bind]. unfold Gemini.translateEmbedding, Gemini.shapeError. destruct (_ ≫= field "embeddings") as [[]|]; eauto.
  - intros Hl ms m. by apply countChatTokens_nonneg.
Qed.

(** Whichever adapter a provider row names. *)
#[export] Instance adapter_lawful cfg : LawfulProvider cfg (createAdapter cfg).
Proof using. unfold createAdapter. destruct (adapterType cfg); apply _. Qed.

(** Whatever it sends goes to the provider the row describes. *)
Lemma post_addressed cfg hs path body plain : Forall (λ h, h.1 = "content-type" ∨ h.1 = "anthropic-version")%string plain →
  hs ≡ₚ credential_header cfg :: plain → addressed_to cfg (post cfg hs path body).
Proof using.
  intros Hp Hh. split; [| by exists plain]. cbn [post url]. unfold joinUrl. rewrite <- string_app_assoc. apply starts_with_app.
Qed.

Definition json_only : list (string * string) := [("content-type", "application/json")]%string.
Lemma json_plain : Forall (λ h, h.1 = "content-type" ∨ h.1 = "anthropic-version")%string json_only.
Proof using. repeat constructor. Qed.

Lemma adapter_addressed cfg :
  (∀ request s, addressed_to cfg (pr_request (createAdapter cfg) request s)) ∧
  (∀ request q, pr_embed_request (createAdapter cfg) request = Some q → addressed_to cfg q).
Proof using.
  assert (Hc : ∀ h hs, credential_header cfg = h → hs ≡ₚ h :: json_only → ∀ path body, addressed_to cfg (post cfg hs path body)).
  { intros h hs E Hh path body. apply (post_addressed _ _ _ _ json_only json_plain). by rewrite E. }
  unfold createAdapter. destruct (adapterType cfg) eqn:E; (split; [intros request s | intros request q; try (intros [= <-]); try done]);
    try (eapply Hc; [unfold credential_header; by rewrite E | apply perm_swap]).
  change (pr_request _ request s) with (post cfg (Anthropic.headers cfg) "/v1/messages" (Anthropic.translateRequest JSON_parse cfg request s)).
  apply (post_addressed _ _ _ _ [("content-type", "application/json"); ("anthropic-version", Anthropic.ANTHROPIC_VERSION)]%string).
  - constructor; [by left |]. constructor; [by right | constructor].
  - unfold credential_header. rewrite E. apply perm_swap.
Qed.
End Adapters.

(** The error of a 2xx response whose body cannot be read to its end. *)
Definition unread_body (o : fetch_outcome) : option thrown :=
  match o with
  | Responded r => if ok r then match body r with Some (Err e) => Some e | _ => None end else None
  | FetchFailed _ _ _ => None
  end.

Lemma unread_fails JSON_parse cfg o e : unread_body o = Some e →
  fetch_json JSON_parse cfg o = Err e ∧ ((∀ g, e ≠ TGateway g) → retryable (from e) = false).
Proof.
  intros Hu. destruct o as [r | ? ? ?]; [| done]. unfold unread_body in Hu. destruct (ok r) eqn:Ho; [| done].
  destruct (body r) as [[?|x]|] eqn:Hb; [done | injection Hu as -> | done]. split.
  - unfold fetch_json, exchange, upstreamFetch, ensureOk. cbn [res_bind]. rewrite Ho. cbn [res_bind]. unfold readJson, text. by rewrite Hb.
  - intros Hg. by destruct e as [g | | |]; [destruct (Hg g) | ..].
Qed.


(** Cohere answering 503, with and without streaming. *)
Definition cohere_cfg : ProviderInstanceConfig :=
  {| p_id := "p2"; p_name := "cohere"; adapterType := cohere; baseUrl := "https://example.test"; p_apiKey := "k";
     timeoutMs := 1000; p_weight := 1; p_priority := 1; models := [] |}.
Definition unavailable : fetch_outcome := Responded {| status := 503; body := Some (Ok "busy"%string) |}.
Definition sample_adapter : ProviderMethods :=
  createAdapter (λ _, None) tt (λ _ _, (tt, ""%string)) (λ _, ""%string) (λ _ _, 0) (λ v, v) (λ _, "u"%string) 0 cohere_cfg.

(** A 200 whose body read times out: the raw error, which is not retried. *)
Definition body_timeout : thrown := TError "AbortError" "This operation was aborted" [].
Definition timed_out_body : fetch_outcome := Responded {| status := 200; body := Some (Err body_timeout) |}.
Example unread_body_is_final :
  pr_chat sample_adapter (λ _, timed_out_body) (sample_chat 0 7 [] []) = Err body_timeout ∧
  statusCode (from body_timeout) = 500 ∧ retryable (from body_timeout) = false.
Proof. by vm_compute. Qed.

