(* ===== verification/Chunks.v ===== *)
(** * The chunk types ([src/types/openai.ts]) and what the adapters yield

    The interfaces of the streaming wire format, and those of the request bodies
    of [anthropic.ts] and [gemini.ts], as decidable predicates on JSON. The
    requests sent have their types, but for a Gemini call whose arguments are an
    array; the adapters which translate a foreign stream
    ([src/providers/anthropic.ts], [gemini.ts], [cohere.ts]) yield only chunks of
    theirs, whatever the upstream sends, which the router reads; the adapters of upstreams that speak the format
    ([openai.ts], [mistral.ts]) pass on whatever JSON they are sent. *)

From Stdlib Require Import ZArith Lia QArith String Ascii.
From stdpp Require Import base strings list option.
From S2P Require Import Prelude Constants Json Errors Types Provider Registry Stream Http Adapter Adapters.
Open Scope Z_scope.

(** ** Interfaces *)

Definition is_string (v : json) : bool := match v with JStr _ => true | _ => false end.
Definition is_number (v : json) : bool := match v with JNum _ => true | _ => false end.
Definition is_null (v : json) : bool := match v with JNull => true | _ => false end.
Definition is_literal (ss : list string) (v : json) : bool := match v with JStr s => existsb (String.eqb s) ss | _ => false end.
Definition is_object (p : fields → bool) (v : json) : bool := match v with JObj o => p o | _ => false end.
Definition is_array (p : json → bool) (v : json) : bool := match v with JArr l => forallb p l | _ => false end.
(** A property of an interface, and an optional one. *)
Definition has (k : string) (p : json → bool) (o : fields) : bool := match field k o with Some v => p v | None => false end.
Definition may (k : string) (p : json → bool) (o : fields) : bool := match field k o with Some v => p v | None => true end.
Definition nullable_ (p : json → bool) (v : json) : bool := is_null v || p v.

Definition ToolCallDelta : json → bool := is_object (λ o,
  has "index" is_number o && may "id" is_string o && may "type" (is_literal ["function"%string]) o &&
  may "function" (is_object (λ f, may "name" is_string f && may "arguments" is_string f)) o).

Definition ChatCompletionChunkDelta : json → bool := is_object (λ o,
  may "role" (is_literal ["assistant"%string]) o && may "content" (nullable_ is_string) o &&
  may "tool_calls" (is_array ToolCallDelta) o).

Definition ChatCompletionChunkChoice : json → bool := is_object (λ o,
  has "index" is_number o && has "delta" ChatCompletionChunkDelta o &&
  has "finish_reason" (nullable_ (is_literal ["stop"; "length"; "tool_calls"; "content_filter"]%string)) o &&
  has "logprobs" is_null o).

Definition is_usage : json → bool := is_object (λ o,
  has "prompt_tokens" is_number o && has "completion_tokens" is_number o && has "total_tokens" is_number o).

Definition ChatCompletionChunk : json → bool := is_object (λ o,
  has "id" is_string o && has "object" (is_literal [object_str CHAT_COMPLETION_CHUNK]) o && has "created" is_number o &&
  has "model" is_string o && has "choices" (is_array ChatCompletionChunkChoice) o &&
  may "usage" (nullable_ is_usage) o && may "system_fingerprint" is_string o).

Definition EmbeddingData : json → bool := is_object (λ o,
  has "object" (is_literal [object_str EMBEDDING]) o && has "index" is_number o &&
  has "embedding" (λ v, is_array is_number v || is_string v) o).

Definition is_embedding_response : json → bool := is_object (λ o,
  has "object" (is_literal [object_str LIST]) o && has "data" (is_array EmbeddingData) o && has "model" is_string o &&
  has "usage" (is_object (λ u, has "prompt_tokens" is_number u && has "total_tokens" is_number u)) o).

Definition is_model_object : json → bool := is_object (λ o,
  has "id" is_string o && has "object" (is_literal [object_str MODEL]) o && has "created" is_number o && has "owned_by" is_string o).

Definition ModelList : json → bool := is_object (λ o,
  has "object" (is_literal [object_str LIST]) o && has "data" (is_array is_model_object) o).

(** The bodies the translating adapters send to upstreams of another format. *)
Definition is_dict : json → bool := is_object (λ _, true).
Definition is_bool (v : json) : bool := match v with JBool _ => true | _ => false end.

Definition anthropic_source : json → bool := is_object (λ o,
  (has "type" (is_literal ["base64"%string]) o && has "media_type" is_string o && has "data" is_string o) ||
  (has "type" (is_literal ["url"%string]) o && has "url" is_string o)).
Definition anthropic_block : json → bool := is_object (λ o,
  (has "type" (is_literal ["text"%string]) o && has "text" is_string o) ||
  (has "type" (is_literal ["image"%string]) o && has "source" anthropic_source o) ||
  (has "type" (is_literal ["tool_use"%string]) o && has "id" is_string o && has "name" is_string o && has "input" (λ _, true) o) ||
  (has "type" (is_literal ["tool_result"%string]) o && has "tool_use_id" is_string o && has "content" is_string o)).
Definition anthropic_message : json → bool := is_object (λ o,
  has "role" (is_literal ["user"; "assistant"]%string) o && has "content" (is_array anthropic_block) o).
Definition anthropic_tool_type : json → bool := is_object (λ t,
  has "name" is_string t && may "description" is_string t && has "input_schema" is_dict t).
Definition anthropic_choice : json → bool := is_object (λ t,
  has "type" (is_literal ["auto"; "any"; "tool"]%string) t && may "name" is_string t).
Definition AnthropicRequestBody : json → bool := is_object (λ o,
  has "model" is_string o && has "max_tokens" is_number o && has "messages" (is_array anthropic_message) o &&
  may "system" is_string o && may "temperature" is_number o && may "top_p" is_number o &&
  may "stop_sequences" (is_array is_string) o && may "stream" is_bool o &&
  may "tools" (is_array anthropic_tool_type) o && may "tool_choice" anthropic_choice o).

Definition gemini_part : json → bool := is_object (λ o,
  may "text" is_string o &&
  may "inlineData" (is_object (λ d, has "mimeType" is_string d && has "data" is_string d)) o &&
  may "functionCall" (is_object (λ f, has "name" is_string f && has "args" is_dict f)) o &&
  may "functionResponse" (is_object (λ f, has "name" is_string f && has "response" is_dict f)) o).
Definition gemini_content : json → bool := is_object (λ o,
  has "role" (is_literal ["user"; "model"]%string) o && has "parts" (is_array gemini_part) o).
Definition gemini_config : json → bool := is_object (λ c,
  may "temperature" is_number c && may "topP" is_number c && may "maxOutputTokens" is_number c && may "stopSequences" (is_array is_string) c).
Definition gemini_tool : json → bool := is_object (has "functionDeclarations" (is_array (is_object (λ f,
  has "name" is_string f && may "description" is_string f && may "parameters" is_dict f)))).
Definition gemini_choice : json → bool := is_object (has "functionCallingConfig" (is_object (λ c,
  has "mode" (is_literal ["AUTO"; "ANY"; "NONE"]%string) c && may "allowedFunctionNames" (is_array is_string) c))).
Definition GeminiRequestBody : json → bool := is_object (λ o,
  has "contents" (is_array gemini_content) o && may "systemInstruction" (is_object (has "parts" (is_array gemini_part))) o &&
  may "generationConfig" gemini_config o && may "tools" (is_array gemini_tool) o && may "toolConfig" gemini_choice o).

(** The declared type of a chat request's body, where there is one. *)
Definition request_body (t : AdapterType) : json → bool :=
  match t with
  | anthropic => AnthropicRequestBody
  | gemini => GeminiRequestBody
  | _ => is_object (λ _, true)
  end.

(** A chunk of the reply with this id, time and model. *)
Definition chunk_of (id : string) (created : Z) (m : string) (c : json) : bool :=
  ChatCompletionChunk c && is_object (λ o,
    has "id" (is_literal [id]) o && has "created" (λ v, match v with JNum q => Qeq_bool q (inject_Z created) | _ => false end) o &&
    has "model" (is_literal [m]) o) c.

(** ** The makers of chunks *)

Section Makers.
Variables (id : string) (created : Z) (m : string).
Abbreviation chunk_of := (chunk_of id created m).

Lemma head_typed choices more :
  is_array ChatCompletionChunkChoice choices = true → may "usage" (nullable_ is_usage) more = true →
  may "system_fingerprint" is_string more = true →
  chunk_of (JObj (chunk_head id created m choices ++ more)) = true.
Proof using.
  intros Hc Hu Hf. unfold Chunks.chunk_of, ChatCompletionChunk, has, may, is_literal in *. cbn -[is_array] in *.
  rewrite Hc, Hu, Hf, !String.eqb_refl. cbn. by rewrite Qeq_bool_refl.
Qed.

Lemma head_typed' choices : is_array ChatCompletionChunkChoice choices = true → chunk_of (JObj (chunk_head id created m choices)) = true.
Proof using. intros H. rewrite <- (app_nil_r (chunk_head _ _ _ _)). by apply head_typed. Qed.

Lemma role_typed : chunk_of (makeRoleChunk id created m) = true.
Proof using. by apply head_typed'. Qed.
Lemma content_typed text : chunk_of (makeContentChunk id created m text) = true.
Proof using. by apply head_typed'. Qed.
Lemma tool_call_typed call : ToolCallDelta call = true → chunk_of (makeToolCallChunk id created m call) = true.
Proof using. intros H. apply head_typed'. cbn. unfold may, has. cbn. by rewrite H. Qed.
Lemma finish_typed f : chunk_of (makeFinishChunk id created m f) = true.
Proof using. apply head_typed'. by destruct f. Qed.
Lemma usage_typed u : chunk_of (makeUsageChunk id created m u) = true.
Proof using. by apply head_typed. Qed.
End Makers.

(** ** The loops *)

Section Loop.
Context {S : Type} (step : S → SSEEvent → S * list json * verdict) (finish : S → list json) (P : json → Prop).
Hypothesis step_ok : ∀ s e, Forall P (step s e).1.2.
Hypothesis finish_ok : ∀ s, Forall P (finish s).

Lemma drive_typed es err : ∀ s, Forall P (chunks (drive step finish s es err)).
Proof using All.
  induction es as [|e es IH]; intros s; cbn [drive]; [destruct err; [constructor | apply finish_ok] |].
  pose proof (step_ok s e) as Hs. destruct (step s e) as [[s1 out] []]; [| exact Hs..].
  apply Forall_app. split; [exact Hs | apply IH].
Qed.

Lemma open_body_typed JSON_parse {D} (d : D) decode decode_end cfg message s r :
  Forall P (chunks (open_body JSON_parse d decode decode_end cfg message step finish s r)).
Proof using All.
  unfold open_body. destruct (exchange _ _ _) as [response|]; [| constructor]. destruct (body response); [| constructor].
  destruct (body_events _ _ _ _) as [es err]. apply drive_typed.
Qed.
End Loop.

Ltac typed_chunks :=
  repeat lazymatch goal with
         | |- Forall _ [] => apply list.Forall_nil_2
         | |- Forall _ (_ :: _) => apply list.Forall_cons_2
         | |- Forall _ (_ ++ _)%list => apply Forall_app; split
         | |- Forall _ _ => split_match; cbn [fst snd]
         | |- context [makeRoleChunk _ _ _] => apply role_typed
         | |- context [makeContentChunk _ _ _ _] => apply content_typed
         | |- context [makeFinishChunk _ _ _ _] => apply finish_typed
         | |- context [makeUsageChunk _ _ _ _] => apply usage_typed
         | |- _ => first [ apply tool_call_typed; reflexivity | split_match; cbn [fst snd] ]
         end.

Section Adapters.
Variables (JSON_parse : string → option json) (uuids : nat → string) (nowMs : Z) (request : ChatCompletionRequest).
Abbreviation chunk_ok := (λ c, chunk_of (createCompletionId (uuids 0%nat)) (nowUnixSeconds nowMs) (model request) c = true).

Lemma anthropic_typed cfg s e : Forall chunk_ok (Anthropic.stream_step JSON_parse cfg (uuids 0%nat) nowMs request s e).1.2.
Proof using.
  unfold Anthropic.stream_step. destruct (String.eqb (data e) ""); [constructor |]. destruct (record_of _) as [evt|]; [| constructor].
  cbv zeta. repeat (destruct (String.eqb _ _); [cbn [fst snd] |]); try constructor.
  - unfold Anthropic.on_message_start. typed_chunks.
  - unfold Anthropic.on_block_start. destruct (record_at "content_block" evt) as [block|]; [| constructor].
    destruct (match field "type" block with Some (JStr t) => _ | _ => _ end); [| constructor]. cbv zeta. cbn [fst snd].
    apply list.Forall_cons_2, list.Forall_nil_2. apply tool_call_typed. by destruct (string_at "id" block), (string_at "name" block).
  - unfold Anthropic.on_block_delta. typed_chunks.
  - apply finish_typed.
  - typed_chunks.
Qed.

Lemma cohere_typed s e : Forall chunk_ok (Cohere.stream_step JSON_parse uuids nowMs request s e).1.2.
Proof using.
  unfold Cohere.stream_step. destruct (_ || _)%bool; [constructor |]. destruct (record_of _) as [parsed|]; [| constructor].
  cbv zeta. repeat (destruct (String.eqb _ _); [cbn [fst snd] |]); try constructor.
  - unfold Cohere.emitRole. typed_chunks.
  - unfold Cohere.on_content_delta, Cohere.emitRole. typed_chunks.
  - unfold Cohere.on_call_start, Cohere.emitRole. destruct (Cohere.readDeltaToolCall _) as [call|]; [| constructor]. cbn [fst snd].
    apply Forall_app. split; [typed_chunks |]. apply list.Forall_cons_2, list.Forall_nil_2. apply tool_call_typed.
    by destruct (Cohere.dc_id call), (Cohere.dc_name call).
  - unfold Cohere.on_call_delta. typed_chunks.
Qed.

Lemma cohere_end_typed s : Forall chunk_ok (Cohere.stream_end uuids nowMs request s).
Proof using. unfold Cohere.stream_end, Cohere.emitRole. typed_chunks. Qed.

Lemma gemini_parts_typed parts : ∀ s, Forall chunk_ok (Gemini.on_parts uuids nowMs request s parts).2.
Proof using.
  induction parts as [|part parts IH]; intros s; [constructor |]. cbn [Gemini.on_parts].
  assert (Hp : Forall chunk_ok (Gemini.on_part uuids nowMs request s part).2).
  { unfold Gemini.on_part, Gemini.role_chunk. typed_chunks. }
  destruct (Gemini.on_part _ _ _ s part) as [s1 out]. specialize (IH s1).
  destruct (Gemini.on_parts _ _ _ s1 parts) as [s2 out']. by apply Forall_app.
Qed.

Lemma gemini_typed s e : Forall chunk_ok (Gemini.stream_step JSON_parse uuids nowMs request s e).1.2.
Proof using.
  unfold Gemini.stream_step. destruct (String.eqb (data e) ""); [constructor |]. destruct (record_of _) as [parsed|]; [| constructor].
  cbv zeta. destruct (firstElement _ ≫= record_of) as [candidate|]; [| constructor]. apply gemini_parts_typed.
Qed.

Lemma gemini_end_typed s : Forall chunk_ok (Gemini.stream_end uuids nowMs request s).
Proof using. unfold Gemini.stream_end, Gemini.role_chunk. typed_chunks. Qed.
End Adapters.

(** ** Embeddings *)

Lemma forallb_map_all {A} (f : A → json) (p : json → bool) l : (∀ x, x ∈ l → p (f x) = true) → forallb p (map f l) = true.
Proof. intros H. apply forallb_forall. intros y (x & <- & Hx)%in_map_iff. apply H. by apply list_elem_of_In. Qed.

Definition vector (v : json) : bool := is_array is_number v || is_string v.

Lemma embedding_typed r : Forall (λ x, vector x.2 = true) (er_data r) → is_embedding_response (embedding_json r) = true.
Proof.
  intros H. unfold is_embedding_response, embedding_json, has. cbn -[is_array]. rewrite andb_true_r. apply andb_true_iff. split; [| done].
  cbn [is_array]. apply forallb_map_all. intros x Hx. rewrite list.Forall_forall in H. unfold EmbeddingData, has. cbn. apply H, Hx.
Qed.

Lemma toNumberArray_typed v : vector (toNumberArray v) = true.
Proof.
  unfold toNumberArray, vector. cbn [is_array is_string]. rewrite orb_false_r. destruct v as [[| | | |l|]|]; try done.
  apply forallb_forall. intros x Hx. apply filter_In in Hx as [_ Hx]. by destruct x.
Qed.

Lemma imap_typed {A} (f : A → json) (l : list A) : (∀ x, vector (f x) = true) →
  Forall (λ x : Z * json, vector x.2 = true) (imap (λ i x, (Z.of_nat i, f x)) l).
Proof. intros H. apply list.Forall_forall. intros y (i & x & -> & _)%elem_of_lookup_imap. apply H. Qed.

Lemma p_embedding_typed v x : OpenAI.p_embedding v = Some x → vector x = true.
Proof.
  destruct v as [| | |s|l|]; try done; cbn [OpenAI.p_embedding]; [by intros [= <-] |].
  intros (ys & E & ->)%fmap_Some. unfold vector. cbn [is_array is_string]. rewrite orb_false_r. apply forallb_forall.
  intros y Hy%list_elem_of_In. refine (mapM_mono_all _ (λ y, is_number y = true) _ _ _ E y Hy).
  by intros a b (q & _ & ->)%fmap_Some.
Qed.

Lemma openai_embedding_typed v d : OpenAI.embeddingResponseSchema v = Some d → Forall (λ x, vector x.2 = true) (OpenAI.m_data d).
Proof.
  destruct v as [| | | | |o]; try done. unfold OpenAI.embeddingResponseSchema. cbn [p_obj]. intros E.
  apply bind_Some in E as ([] & _ & E). apply bind_Some in E as (items & Hi & E). case_guard; [| done].
  repeat (apply bind_Some in E as (? & ? & E)). injection E as <-. cbn [OpenAI.m_data].
  unfold req in Hi. destruct (field "data" o) as [[| | | |l|]|]; try done. cbn [p_array] in Hi.
  apply list.Forall_forall. refine (mapM_mono_all _ (λ x : Z * json, vector x.2 = true) _ _ _ Hi).
  intros [| | | | |a] y; try done. cbn [p_obj]. intros Ha. apply bind_Some in Ha as ([] & _ & Ha). apply bind_Some in Ha as (n & _ & Ha).
  apply bind_Some in Ha as (e & He & [= <-]). cbn [snd]. unfold req in He. destruct (field "embedding" a) as [v|]; [| done].
  by apply (p_embedding_typed v).
Qed.

Lemma fetched {A} JSON_parse cfg o (k : json → result thrown A) r :
  (let! raw := fetch_json JSON_parse cfg o in k raw) = Ok r → ∃ raw, k raw = Ok r.
Proof. destruct (fetch_json _ _ _) as [raw|]; [by exists raw | done]. Qed.

(** ** Requests *)

Lemma array_typed {A} (p : json → bool) (f : A → json) l : (∀ x, x ∈ l → p (f x) = true) → is_array p (JArr (map f l)) = true.
Proof. apply forallb_map_all. Qed.
Lemma strings_typed l : is_array is_string (JArr (map JStr l)) = true.
Proof. by apply array_typed. Qed.

(** Looking a field up past an optional one. *)
Lemma may_opt k p k' v o : may k p (opt_field k' v ++ o)%list =
  if String.eqb k k' then match v with Some x => p x | None => may k p o end else may k p o.
Proof. unfold may. rewrite field_opt. destruct (String.eqb k k'), v; done. Qed.
Lemma may_skip k p k' v o : String.eqb k k' = false → may k p ((k', v) :: o) = may k p o.
Proof. unfold may. cbn. by intros ->. Qed.
Lemma may_none k p : may k p [] = true.
Proof. done. Qed.

Lemma when_some {A} (f : A → json) (p : json → bool) (v : option A) : (∀ x, p (f x) = true) →
  match f <$> v with Some j => p j | None => true end = true.
Proof. intros H. by destruct v; cbn. Qed.

Ltac fields_lookup := rewrite ?may_skip by reflexivity; rewrite ?may_opt; cbn [String.eqb Ascii.eqb Bool.eqb]; rewrite ?may_none.

Lemma anthropic_message_typed m : anthropic_message (Anthropic.turn_json m) = true.
Proof.
  unfold anthropic_message, has. destruct m as [r bs]. cbn -[is_array]. apply andb_true_iff. split; [by destruct r |].
  apply array_typed. by intros [s | [media d | u] | i nm v | i c] _.
Qed.

(** A body whose optional fields have their types. *)
Lemma anthropic_shape m t ms sys temp top stops str tools choice :
  is_array anthropic_message ms = true →
  (match sys with Some v => is_string v | None => true end) = true →
  (match temp with Some v => is_number v | None => true end) = true →
  (match top with Some v => is_number v | None => true end) = true →
  (match stops with Some v => is_array is_string v | None => true end) = true →
  (match str with Some v => is_bool v | None => true end) = true →
  (match tools with Some v => is_array anthropic_tool_type v | None => true end) = true →
  (match choice with Some v => anthropic_choice v | None => true end) = true →
  AnthropicRequestBody (JObj ([("model"%string, JStr m); ("max_tokens"%string, jint t); ("messages"%string, ms)] ++
    opt_field "system" sys ++ opt_field "temperature" temp ++ opt_field "top_p" top ++ opt_field "stop_sequences" stops ++
    opt_field "stream" str ++ opt_field "tools" tools ++ opt_field "tool_choice" choice ++ [])) = true.
Proof.
  intros. unfold AnthropicRequestBody, is_object. cbn [app]. repeat (apply andb_true_iff; split); try done; by fields_lookup.
Qed.

Lemma anthropic_body_typed JSON_parse cfg request s :
  AnthropicRequestBody (JObj (Anthropic.translateRequest JSON_parse cfg request s)) = true.
Proof.
  unfold Anthropic.translateRequest. destruct (Anthropic.translate_messages _ _) as [sys ms].
  set (given := match tools request, tool_choice request with
                | None, _ | Some [], _ | _, Some choice_none => None
                | Some l, choice => Some (l, Anthropic.translateToolChoice choice) end).
  match goal with |- AnthropicRequestBody (JObj ?o) = true => enough (o =
      ([("model"%string, JStr (model request)); ("max_tokens"%string, jint (Anthropic.maxTokens cfg request));
        ("messages"%string, JArr (map Anthropic.turn_json ms))] ++
       opt_field "system" (match sys with [] => None | _ => Some (JStr (join (String "010" (String "010" "")) sys)) end) ++
       opt_field "temperature" ((λ t, JNum (Anthropic.min1 t)) <$> temperature request) ++ opt_field "top_p" (JNum <$> top_p request) ++
       opt_field "stop_sequences" ((λ s, JArr (map JStr match s with StopOne s => [s] | StopMany l => l end)) <$> stop request) ++
       opt_field "stream" (if s then Some (JBool true) else None) ++
       opt_field "tools" ((λ x, JArr (map Anthropic.anthropic_tool x.1)) <$> given) ++
       opt_field "tool_choice" (given ≫= snd) ++ [])%list) as -> end; cycle 1.
  { unfold given. destruct sys, s, (tools request) as [[|t ts]|], (tool_choice request) as [[]|]; cbn [Anthropic.translateToolChoice];
      by rewrite ?app_nil_r. }
  apply anthropic_shape.
  - apply array_typed. intros m _. apply anthropic_message_typed.
  - by destruct sys.
  - by apply when_some.
  - by apply when_some.
  - apply when_some. intros st. apply strings_typed.
  - by destruct s.
  - apply when_some. intros [l c]. apply array_typed. by intros [nm [d|] ps] _.
  - unfold given. by destruct (tools request) as [[|t ts]|], (tool_choice request) as [[]|].
Qed.

(** What is pushed block by block is what the turns hold. *)
Lemma in_flat {R B} (ms : list (Turns.turn R B)) m b :
  m ∈ ms → b ∈ Turns.turn_content m → (Turns.turn_role m, b) ∈ Turns.flat ms.
Proof.
  intros Hm Hb. unfold Turns.flat, Turns.spoken. apply list_elem_of_In, in_concat.
  exists (map (pair (Turns.turn_role m)) (Turns.turn_content m)). split; [apply in_map_iff; exists m; split; [done |] | apply in_map_iff; exists b; split; [done |]];
    by apply list_elem_of_In.
Qed.

(** The message makes a call whose arguments are a JSON array. *)
Definition array_arguments (JSON_parse : string → option json) (m : ChatMessage) : bool :=
  match m with
  | AssistantMessage _ _ (Some calls) =>
      existsb (λ call, match JSON_parse (fc_arguments (tc_function call)) with Some (JArr _) => true | _ => false end) calls
  | _ => false
  end.

Definition part_ok (p : Gemini.GeminiPart) : bool := match p with Gemini.FunctionCall _ v => is_dict v | _ => true end.
Lemma part_typed p : gemini_part (Gemini.gemini_part_json p) = part_ok p.
Proof. destruct p as [s | mime d | nm v | nm r]; try done. unfold gemini_part, may, has. cbn. by rewrite !andb_true_r. Qed.

Lemma forallb_true {A} (f : A → bool) l : (∀ x, f x = true) → forallb f l = true.
Proof. intros H. by apply forallb_forall. Qed.

(** A call's arguments are sent as a record, or as the array they are. *)
Lemma call_typed JSON_parse call : part_ok (Gemini.call_part JSON_parse call) =
  negb match JSON_parse (fc_arguments (tc_function call)) with Some (JArr _) => true | _ => false end.
Proof.
  unfold Gemini.call_part, part_ok, Gemini.asRecord, safeJsonParse, isRecord, is_dict.
  by destruct (JSON_parse _) as [[]|].
Qed.

Lemma gemini_turn_typed JSON_parse names message :
  forallb part_ok (Gemini.turn_of JSON_parse names message).2 = negb (array_arguments JSON_parse message).
Proof.
  destruct message as [c nm | [s | l] nm | c nm calls | c i]; try done; cbn [Gemini.turn_of snd].
  - cbn. by destruct (String.eqb s "").
  - apply forallb_forall. intros p (x & <- & _)%in_map_iff. unfold Gemini.partToGeminiPart. by repeat case_match.
  - rewrite forallb_app.
    assert (forallb part_ok match c with Some (Some c) => Gemini.textParts c | _ => [] end = true) as ->.
    { destruct c as [[[s | l]|]|]; cbn; [by destruct (String.eqb s "") | | done | done]. apply forallb_forall. by intros p (x & <- & _)%in_map_iff. }
    destruct calls as [l|]; [| done]. cbn [coalesce andb array_arguments]. induction l as [|call l IH]; [done |].
    cbn [map forallb existsb]. by rewrite call_typed, negb_orb, IH.
Qed.

Lemma forallb_concat {A} (f : A → bool) ls : forallb f (concat ls) = forallb (forallb f) ls.
Proof. induction ls as [|l ls IH]; [done |]. cbn [concat forallb]. by rewrite forallb_app, IH. Qed.
Lemma forallb_map_eq {A B} (f : B → bool) (g : A → B) l : forallb f (map g l) = forallb (λ x, f (g x)) l.
Proof. induction l as [|x l IH]; [done |]. cbn [map forallb]. by rewrite IH. Qed.
Lemma forallb_eq {A} (f g : A → bool) l : (∀ x, f x = g x) → forallb f l = forallb g l.
Proof. intros H. induction l as [|x l IH]; [done |]. cbn [forallb]. by rewrite H, IH. Qed.

Lemma turn_typed m : gemini_content (Gemini.content_json m) = forallb part_ok (Turns.turn_content m).
Proof.
  unfold gemini_content, has. cbn -[is_array]. cbn [is_array]. rewrite forallb_map_eq, (forallb_eq _ part_ok) by apply part_typed.
  by destruct (Turns.turn_role m).
Qed.

Lemma gemini_messages_typed JSON_parse messages :
  let '(sys, contents) := Gemini.translate_messages JSON_parse messages in
  is_array gemini_part (JArr (map Gemini.gemini_part_json sys)) = true ∧
  is_array gemini_content (JArr (map Gemini.content_json contents)) = forallb (λ m, negb (array_arguments JSON_parse m)) messages.
Proof.
  unfold Gemini.translate_messages. set (names := Gemini.toolNameById messages).
  pose proof (Turns.fold_turns (EqDecision0 := Gemini.GeminiRole_eq_dec) (Gemini.translate_message JSON_parse names) Gemini.system_of (Gemini.turn_of JSON_parse names)) as H.
  specialize (H ltac:(intros s []; cbn; by rewrite ?app_nil_r)) with (ms := messages).
  destruct (foldl _ _ _) as [sys contents]. destruct H as (_ & _ & Hf & ->). split.
  - apply array_typed. intros p (l & Hp & Hl)%list_elem_of_In%in_concat. apply in_map_iff in Hp as (m & <- & _).
    destruct m; cbn in Hl; destruct Hl; try done; by subst p.
  - cbn [is_array]. rewrite forallb_map_eq, (forallb_eq _ (λ m, forallb part_ok (Turns.turn_content m))) by apply turn_typed.
    transitivity (forallb (λ x, part_ok x.2) (Turns.flat contents)).
    { unfold Turns.flat, Turns.spoken. rewrite forallb_concat, forallb_map_eq. apply forallb_eq. intros m. by rewrite forallb_map_eq. }
    rewrite Hf, forallb_concat, forallb_map_eq. apply forallb_eq. intros m. unfold Turns.spoken. rewrite forallb_map_eq. apply gemini_turn_typed.
Qed.

Lemma gemini_config_typed cfg request : gemini_config (JObj (Gemini.buildGenerationConfig cfg request)) = true.
Proof.
  unfold Gemini.buildGenerationConfig, gemini_config, is_object. destruct (temperature request), (top_p request), (stop request) as [st|]; try done;
    cbn -[is_array map]; apply strings_typed.
Qed.

Lemma gemini_shape contents sys config tools choice :
  (match sys with Some v => is_object (has "parts" (is_array gemini_part)) v | None => true end) = true →
  (match config with Some v => gemini_config v | None => true end) = true →
  (match tools with Some v => is_array gemini_tool v | None => true end) = true →
  (match choice with Some v => gemini_choice v | None => true end) = true →
  GeminiRequestBody (JObj (("contents"%string, contents) :: opt_field "systemInstruction" sys ++ opt_field "generationConfig" config ++
    opt_field "tools" tools ++ opt_field "toolConfig" choice ++ [])%list) = is_array gemini_content contents.
Proof.
  intros Hs Hg Ht Hc. unfold GeminiRequestBody. unfold is_object at 1. apply eq_true_iff_eq. rewrite !andb_true_iff. split.
  - intros [[[[H _] _] _] _]. exact H.
  - intros H. repeat split; try done; by fields_lookup.
Qed.

Lemma gemini_body_typed JSON_parse cfg request : GeminiRequestBody (JObj (Gemini.translateRequest JSON_parse cfg request)) =
  forallb (λ m, negb (array_arguments JSON_parse m)) (messages request).
Proof.
  unfold Gemini.translateRequest. pose proof (gemini_messages_typed JSON_parse (messages request)) as H.
  destruct (Gemini.translate_messages _ _) as [sys contents]. destruct H as [Hs Hc].
  pose proof (gemini_config_typed cfg request) as Hg. set (config := Gemini.buildGenerationConfig cfg request) in *.
  set (given := match tools request with None | Some [] => None | Some l => Some l end).
  match goal with |- GeminiRequestBody (JObj ?o) = _ => enough (o =
      (("contents"%string, JArr (map Gemini.content_json contents)) :: opt_field "systemInstruction" (match sys with [] => None | _ => Some (JObj [("parts"%string, JArr (map Gemini.gemini_part_json sys))]) end) ++
       opt_field "generationConfig" (match config with [] => None | _ => Some (JObj config) end) ++
       opt_field "tools" ((λ l, JArr [JObj [("functionDeclarations"%string, JArr (map Gemini.function_declaration l))]]) <$> given) ++
       opt_field "toolConfig" (given ≫= λ _, Gemini.translateToolConfig (tool_choice request)) ++ [])%list) as -> end; cycle 1.
  { unfold given. destruct sys, config, (tools request) as [[|t ts]|]; cbn [opt_field]; by rewrite ?app_nil_r. }
  rewrite <- Hc. apply gemini_shape; [| by destruct config | |].
  - destruct sys; [done |]. cbn [is_object]. unfold has. cbn [field String.eqb Ascii.eqb Bool.eqb]. exact Hs.
  - apply when_some. intros l. cbn [is_array forallb]. rewrite andb_true_r. unfold gemini_tool, is_object at 1, has at 1.
    cbn [field String.eqb Ascii.eqb Bool.eqb]. apply array_typed. by intros [nm [d|] [ps|]] _.
  - unfold given. by destruct (tools request) as [[|t ts]|], (tool_choice request) as [[]|].
Qed.

Lemma bodies_typed JSON_parse {D} (new_decoder : D) decode decode_end encoded_length zod_issues uuids nowMs cfg request s :
  ∃ body, req_body (pr_request (createAdapter JSON_parse new_decoder decode decode_end encoded_length zod_issues uuids nowMs cfg) request s)
    = stringify (JObj body) ∧ request_body (adapterType cfg) (JObj body) =
      match adapterType cfg with gemini => forallb (λ m, negb (array_arguments JSON_parse m)) (messages request) | _ => true end.
Proof.
  unfold createAdapter. destruct (adapterType cfg);
    cbn [pr_request OpenAIProvider MistralProvider openai_methods AnthropicProvider CohereProvider GeminiProvider]; eexists; (split; [reflexivity |]);
    [done | apply anthropic_body_typed | apply gemini_body_typed | done | done].
Qed.

(** ** What the router reads of a chunk *)

(** A chunk of the declared type never makes the router's reading of it throw. *)
Lemma typed_readable c wants u : ChatCompletionChunk c = true → Router.unreadable wants u c = None.
Proof.
  destruct c as [| | | | |o]; try done. unfold ChatCompletionChunk, is_object, has. rewrite !andb_true_iff. intros [[[_ Hc] _] _].
  unfold Router.unreadable, Router.read_chunk, Router.applyUsage, Router.chunk_usage, Router.forwards, Router.isUsageOnlyChunk,
    Router.countDeltaTokens, Router.member, prop.
  destruct (field "choices" o) as [[| | | |l|]|]; try done. destruct u, wants; cbn; try done; by destruct (_ =? _)%nat.
Qed.

Lemma chunks_readable id created m l : Forall (λ c, chunk_of id created m c = true) l →
  Forall (λ c, chunk_of id created m c = true ∧ ∀ wants u, Router.unreadable wants u c = None) l.
Proof.
  apply Forall_impl. intros c Hc. split; [done |]. intros wants u. apply typed_readable. unfold chunk_of in Hc.
  by apply andb_true_iff in Hc as [? _].
Qed.

(** ** Theorem *)

(** C21: The translating adapters yield only well-typed chunks. Whatever bytes
    the upstream streams, in whatever pieces, parsable or not, cut short or
    not, every chunk the Anthropic, Gemini or Cohere adapter yields has the
    declared type [ChatCompletionChunk], the router reads it without an error, and
    all chunks of one stream carry its one id, creation time and model. The OpenAI and Mistral adapters yield only
    JSON values the parser made of an event's data, whatever their type.
    The body of every chat request sent to Anthropic has its declared type
    [AnthropicRequestBody]; one sent to Gemini has the type [GeminiRequestBody]
    exactly when no call in the conversation has a JSON array for its arguments
    (the others declare none). Every embedding reply, of any adapter, has the declared type
    [EmbeddingResponse]. *)
Theorem wire_types_kept JSON_parse {D} (new_decoder : D) decode decode_end encoded_length zod_issues uuids nowMs cfg fetch request :
  let p := createAdapter JSON_parse new_decoder decode decode_end encoded_length zod_issues uuids nowMs cfg in
  Forall (λ c,
    match adapterType cfg with
    | anthropic | gemini | cohere =>
        chunk_of (createCompletionId (uuids 0%nat)) (nowUnixSeconds nowMs) (model request) c = true ∧
        ∀ wants u, Router.unreadable wants u c = None
    | openai | mistral => ∃ text, JSON_parse text = Some c
    end) (chunks (pr_chatStream p fetch request)) ∧
  (∀ s, ∃ body, req_body (pr_request p request s) = stringify (JObj body) ∧
     request_body (adapterType cfg) (JObj body) =
       match adapterType cfg with gemini => forallb (λ m, negb (array_arguments JSON_parse m)) (messages request) | _ => true end) ∧
  ∀ fetch' request' r, pr_embed p fetch' request' = Ok r → is_embedding_response (embedding_json r) = true.
Proof.
  intros p. split; [| split; [apply bodies_typed |]; intros fetch' request' r Hr; apply embedding_typed; revert Hr; unfold p; clear p; unfold createAdapter;
    destruct (adapterType cfg); cbn [pr_embed OpenAIProvider MistralProvider openai_methods AnthropicProvider CohereProvider GeminiProvider]].
  2, 6: unfold OpenAI.embed; intros (raw & Hr)%fetched; destruct (OpenAI.embeddingResponseSchema raw) as [d|] eqn:E; [| done];
    injection Hr as <-; by apply openai_embedding_typed in E.
  2: done.
  2: unfold Gemini.embed, Gemini.translateEmbedding; intros (raw & Hr)%fetched; repeat case_match; simplify_eq; cbn [er_data];
    apply (imap_typed (λ entry, toNumberArray (record_of entry ≫= field "values"))); intros; apply toNumberArray_typed.
  2: unfold Cohere.embed, Cohere.translateEmbedding; intros (raw & Hr)%fetched; repeat case_match; simplify_eq; cbn [er_data];
    apply (imap_typed (λ vector, toNumberArray (Some vector))); intros; apply toNumberArray_typed.
  assert (Ho : ∀ build, Forall (λ c, ∃ text, JSON_parse text = Some c)
    (chunks (pr_chatStream (openai_methods JSON_parse new_decoder decode decode_end encoded_length zod_issues uuids nowMs build cfg) fetch request))).
  { intros build. apply open_body_typed; [| constructor]. intros s e. unfold OpenAI.stream_step.
    destruct (String.eqb _ _); [constructor |]. destruct (String.eqb _ _); [constructor |].
    destruct (JSON_parse (data e)) as [c|] eqn:E; [| constructor]. apply list.Forall_cons_2; [by exists (data e) | constructor]. }
  unfold p, createAdapter. destruct (adapterType cfg); [apply Ho | | | | apply Ho]; apply chunks_readable, open_body_typed.
  - apply anthropic_typed.
  - intros s. constructor.
  - apply gemini_typed.
  - apply gemini_end_typed.
  - apply cohere_typed.
  - apply cohere_end_typed.
Qed.

(** The list of models the route answers with has its declared type. *)
Lemma models_typed l : ModelList (JObj [("object"%string, JStr "list"); ("data"%string, JArr (map model_json l))]) = true.
Proof. unfold ModelList, has. cbn -[is_array]. cbn [is_array]. apply forallb_map_all. by intros []. Qed.

(** An error frame of an upstream that speaks the format is passed on as a chunk. *)
Example error_frame_passed :
  let frame := JObj [("error"%string, JObj [("message"%string, JStr "overloaded")])] in
  (OpenAI.stream_step (λ _, Some frame) tt {| event := None; data := stringify frame |}).1.2 = [frame] ∧
  ChatCompletionChunk frame = false ∧ Router.unreadable false false frame = None.
Proof. by vm_compute. Qed.
