(* ===== verification/Instruments.v ===== *)
(** * Business metrics ([src/middleware/metrics.ts])

    The series the process declares to prom-client, the sample each call of the
    code hands it, and what the samples of a served request add up to: they agree
    with the calls upstream, the spend counter and the request log. *)

From Stdlib Require Import ZArith Lia QArith String.
From stdpp Require Import base gmap strings list.
From S2P Require Import Prelude Numerals Constants CircuitBreaker LoadBalancer Json Errors Types Provider Values CostTracker Registry Cache Auth Router Effects Http Metrics.
Open Scope Z_scope.

(** ** The registry *)

Inductive series_kind := Counter | Histogram | Gauge.

Record series := { s_name : string; s_kind : series_kind; s_labels : list string }.

(** [metrics]. *)
Definition declared : list series :=
  let counter n l := {| s_name := n; s_kind := Counter; s_labels := l |} in
  let histogram n l := {| s_name := n; s_kind := Histogram; s_labels := l |} in
  let gauge n l := {| s_name := n; s_kind := Gauge; s_labels := l |} in
  [counter "gateway_http_requests_total" ["method"; "route"; "status_code"];
   histogram "gateway_http_request_duration_seconds" ["method"; "route"; "status_code"];
   counter "gateway_provider_requests_total" ["provider"; "model"; "outcome"];
   histogram "gateway_provider_request_duration_seconds" ["provider"; "model"];
   counter "gateway_provider_errors_total" ["provider"; "kind"];
   counter "gateway_tokens_total" ["provider"; "model"; "direction"];
   counter "gateway_cost_usd_total" ["provider"; "model"];
   counter "gateway_cache_events_total" ["status"];
   counter "gateway_rate_limited_total" ["reason"];
   counter "gateway_failovers_total" [];
   histogram "gateway_streaming_ttfb_seconds" ["provider"; "model"];
   gauge "gateway_circuit_state" ["provider"];
   counter "gateway_request_logs_dropped_total" [];
   gauge "gateway_in_flight_requests" []]%string.

(** The upper bounds of the histograms' buckets, in milliseconds. *)
Definition DURATION_BUCKETS : list Z := [1; 5; 10; 25; 50; 100; 250; 500; 1000; 2500; 5000; 10000; 30000].

(** What one call hands prom-client: the series, the labels, the amount. *)
Record sample := { x_series : string; x_labels : list (string * string); x_amount : js_value }.

Definition outcome_str (o : outcome_label) : string := match o with success => "success" | error => "error" end.
Definition kind_str (k : error_label) : string :=
  match k with circuit_open => "circuit_open" | client_error => "client_error" | upstream_error => "upstream_error" end.
Definition direction_str (d : direction) : string := match d with prompt => "prompt" | completion => "completion" end.

(** [metrics.cacheEvents.inc({ status })]. *)
Definition recordCacheEvent (status : CacheStatus) : sample :=
  {| x_series := "gateway_cache_events_total"; x_labels := [("status"%string, cache_status_str status)]; x_amount := 1%Q |}.

Definition sample_of (m : metric) : sample :=
  match m with
  | providerErrors p k =>
      {| x_series := "gateway_provider_errors_total"; x_labels := [("provider", p); ("kind", kind_str k)]; x_amount := 1%Q |}
  | failovers => {| x_series := "gateway_failovers_total"; x_labels := []; x_amount := 1%Q |}
  | providerRequests p m o =>
      {| x_series := "gateway_provider_requests_total"; x_labels := [("provider", p); ("model", m); ("outcome", outcome_str o)];
         x_amount := 1%Q |}
  | providerDuration p m s =>
      {| x_series := "gateway_provider_request_duration_seconds"; x_labels := [("provider", p); ("model", m)]; x_amount := s |}
  | tokens_total p m d c =>
      {| x_series := "gateway_tokens_total"; x_labels := [("provider", p); ("model", m); ("direction", direction_str d)];
         x_amount := c |}
  | cost_total p m usd => {| x_series := "gateway_cost_usd_total"; x_labels := [("provider", p); ("model", m)]; x_amount := usd |}
  | ttfb p m s => {| x_series := "gateway_streaming_ttfb_seconds"; x_labels := [("provider", p); ("model", m)]; x_amount := s |}
  | cacheEvent s => recordCacheEvent s
  | rateLimited r => {| x_series := "gateway_rate_limited_total"; x_labels := [("reason", r)]; x_amount := 1%Q |}
  end%string.

Definition samples (t : list event) : list sample := omap (λ e, match e with Metric m => Some (sample_of m) | _ => None end) t.

(** prom-client takes a sample of a declared series with its labels, if it does
    not refuse the amount of a counter ([refuse]). *)
Definition find_series (n : string) : option series := List.find (λ s, String.eqb (s_name s) n) declared.
Definition accepted (refuse : js_value → option thrown) (x : sample) : bool :=
  match find_series (x_series x) with
  | None => false
  | Some s => bool_decide (map fst (x_labels x) = s_labels s) &&
              match s_kind s with Counter => match refuse (x_amount x) with None => true | Some _ => false end | _ => true end
  end.

(** ** Reading samples *)

Definition has_labels (ls l : list (string * string)) : bool := 
  forallb (λ x, existsb (λ y, String.eqb (fst x) (fst y) && String.eqb (snd x) (snd y)) l) ls.

(** How many samples a series got with these labels among theirs. *)
Definition told (n : string) (ls : list (string * string)) (xs : list sample) : Z :=
  Z.of_nat (length (List.filter (λ x, String.eqb (x_series x) n && has_labels ls (x_labels x)) xs)).

Definition amounts (n : string) (xs : list sample) : list js_value :=
  map x_amount (List.filter (λ x, String.eqb (x_series x) n) xs).

Definition calls_to (i : string) (t : list event) : Z := Z.of_nat (length (List.filter (String.eqb i) (calls t))).
Definition asked (i : string) (t : list event) : Z :=
  Z.of_nat (length (List.filter (λ e, match e with Acquired j => String.eqb i j | _ => false end) t)).

(** The tokens a log entry of a served request carries. *)
Definition logged_tokens (l : RequestLogEntry) : list js_value :=
  if log_cacheHit l then [] else (option_list (log_promptTokens l) ++ option_list (log_completionTokens l))%list.
Definition positive_costs (t : list event) : list js_value := map Num (List.filter js_positive (map snd (spends t))).

(** What the series of provider [p] say of a trace in which it is called [owed]
    times more than they tell. *)
Record reconciled (p : Provider) (owed : Z) (t : list event) : Prop := {
  (* every call is an upstream error, a client error, or a request served *)
  calls_told : calls_to (p_id p) t =
    told "gateway_provider_errors_total" [("provider", p_name p); ("kind", "upstream_error")]%string (samples t) +
    told "gateway_provider_errors_total" [("provider", p_name p); ("kind", "client_error")]%string (samples t) +
    told "gateway_provider_requests_total" [("provider", p_name p)]%string (samples t) + owed;
  (* a provider asked of its breaker was called, or its circuit was open *)
  refusals_told : asked (p_id p) t = calls_to (p_id p) t +
    told "gateway_provider_errors_total" [("provider", p_name p); ("kind", "circuit_open")]%string (samples t);
}.

(** What the other series say. *)
Record books_kept (refuse : js_value → option thrown) (t : list event) : Prop := {
  hops_told : told "gateway_failovers_total" [] (samples t) =
    told "gateway_provider_errors_total" [("kind", "upstream_error")]%string (samples t);
  spend_told : amounts "gateway_cost_usd_total" (samples t) = positive_costs t;
  (* prom-client takes every sample *)
  all_accepted : Forall (λ x, accepted refuse x = true) (samples t)
}.

(** The token counter is handed the counts of the log entry. *)
Definition tokens_told (t : list event) : Prop := amounts "gateway_tokens_total" (samples t) = concat (map logged_tokens (logs t)).

(** A served request that is neither charged nor logged: it ends with the error
    of a counter that refused an amount, which is no number from 0 up. *)
Definition forgone (refuse : js_value → option thrown) (err : option thrown) (t : list event) : Prop :=
  spends t = [] ∧ logs t = [] ∧ ∃ v e, err = Some e ∧ refuse v = Some e ∧ ¬ sound_count v.
Definition counted (refuse : js_value → option thrown) (err : option thrown) (t : list event) : Prop :=
  tokens_told t ∨ forgone refuse err t.

(** ** Traces add up *)

Lemma samples_app t1 t2 : samples (t1 ++ t2) = (samples t1 ++ samples t2)%list.
Proof. apply omap_app. Qed.
Lemma told_app n ls l1 l2 : told n ls (l1 ++ l2) = told n ls l1 + told n ls l2.
Proof. unfold told. rewrite List.filter_app, length_app. lia. Qed.
Lemma amounts_app n l1 l2 : amounts n (l1 ++ l2) = (amounts n l1 ++ amounts n l2)%list.
Proof. unfold amounts. by rewrite List.filter_app, map_app. Qed.
Lemma calls_to_app i t1 t2 : calls_to i (t1 ++ t2) = calls_to i t1 + calls_to i t2.
Proof. unfold calls_to. rewrite calls_app, List.filter_app, length_app. lia. Qed.
Lemma asked_app i t1 t2 : asked i (t1 ++ t2) = asked i t1 + asked i t2.
Proof. unfold asked. rewrite List.filter_app, length_app. lia. Qed.

Lemma reconciled_app p a b t1 t2 : reconciled p a t1 → reconciled p b t2 → reconciled p (a + b) (t1 ++ t2).
Proof. intros [C1 R1] [C2 R2]. split; rewrite samples_app, !told_app, ?asked_app, !calls_to_app; lia. Qed.

Lemma books_app refuse t1 t2 : books_kept refuse t1 → books_kept refuse t2 → books_kept refuse (t1 ++ t2).
Proof.
  intros [H1 S1 A1] [H2 S2 A2]. split; rewrite !samples_app.
  - rewrite !told_app. lia.
  - rewrite amounts_app, S1, S2. unfold positive_costs. by rewrite spends_app, map_app, List.filter_app, map_app.
  - by apply Forall_app.
Qed.
Lemma tokens_app t1 t2 : tokens_told t1 → tokens_told t2 → tokens_told (t1 ++ t2).
Proof. unfold tokens_told. intros H1 H2. by rewrite samples_app, amounts_app, H1, H2, logs_app, map_app, concat_app. Qed.

(** What comes before the accounting of a request. *)
Definition before (t : list event) : Prop := spends t = [] ∧ logs t = [] ∧ tokens_told t.
Lemma before_app t1 t2 : before t1 → before t2 → before (t1 ++ t2).
Proof.
  intros (S1 & L1 & T1) (S2 & L2 & T2). split; [by rewrite spends_app, S1, S2 |].
  split; [by rewrite logs_app, L1, L2 | by apply tokens_app].
Qed.
Lemma counted_app refuse err t1 t2 : before t1 → counted refuse err t2 → counted refuse err (t1 ++ t2).
Proof.
  intros (S1 & L1 & T1) [T2 | (S2 & L2 & H)]; [left; by apply tokens_app | right].
  split; [by rewrite spends_app, S1, S2 |]. split; [by rewrite logs_app, L1, L2 | done].
Qed.

(** Labels that tell the providers apart. *)
Definition told_apart (p q : Provider) : Prop := p_id p = p_id q ↔ p_name p = p_name q.

Lemma told_apart_eqb p q : told_apart p q → String.eqb (p_id p) (p_id q) = String.eqb (p_name p) (p_name q).
Proof.
  intros H. destruct (String.eqb (p_name p) (p_name q)) eqn:E.
  - by apply String.eqb_eq, H, String.eqb_eq.
  - apply String.eqb_neq. intros Ei%H. by apply String.eqb_neq in E.
Qed.

Definition owes (p : Provider) (v : visit) : Z :=
  match v with Served q => if String.eqb (p_id p) (p_id q) then 1 else 0 | _ => 0 end.

Lemma visit_reconciled p v : told_apart p (visited v) → reconciled p (owes p v) (visit_trace v).
Proof.
  intros H%told_apart_eqb. destruct v as [q | q | q | q]; cbn [visited] in H; cbn [owes];
    split; unfold told, calls_to, asked; simpl; rewrite ?H; by destruct (String.eqb (p_name p) (p_name q)).
Qed.
Section Books.
Context {W : Type} (deps : RouterDeps W) (taken : takes_counts deps).
Abbreviation refuse := (counter_inc deps).
Abbreviation books_kept := (books_kept refuse).

Lemma one_taken : refuse 1%Q = None.
Proof using taken. by apply taken. Qed.

Lemma visit_books v : books_kept (visit_trace v).
Proof using taken. destruct v; split; try done; repeat constructor; unfold accepted; cbn; by rewrite one_taken. Qed.
Lemma visit_before v : before (visit_trace v).
Proof using. by destruct v. Qed.

Lemma metrics_reconciled p q m l pt ct c o : told_apart p q →
  reconciled p (if String.eqb (p_id p) (p_id q) then -1 else 0) (metrics_trace q m l pt ct c o).
Proof using.
  intros H%told_apart_eqb. unfold metrics_trace. split; unfold told, calls_to, asked;
    destruct (js_positive c); simpl; rewrite ?H; by destruct (String.eqb (p_name p) (p_name q)).
Qed.
Lemma refused_reconciled p q m l pt ct o : told_apart p q →
  reconciled p (if String.eqb (p_id p) (p_id q) then -1 else 0) (refused_trace deps q m l pt ct o).
Proof using.
  intros H%told_apart_eqb. unfold refused_trace. split; unfold told, calls_to, asked;
    destruct (refuse pt), (refuse ct); simpl; rewrite ?H; by destruct (String.eqb (p_name p) (p_name q)).
Qed.

(** What follows a served request. *)
Lemma account_books ctx q m l pt ct total c o status n err : refused deps pt ct c = None →
  let t := (metrics_trace q m l pt ct c o ++ [Spent (apiKeyId ctx) c; Logged (served_entry ctx q m pt ct total c l status n err)])%list in
  books_kept t ∧ tokens_told t.
Proof using taken.
  unfold refused. intros Hr. cbv zeta. unfold metrics_trace. destruct (refuse pt) eqn:Ep; [done |]. destruct (refuse ct) eqn:Ec; [done |].
  destruct (js_positive c) eqn:E; (split; [split; try done; [unfold positive_costs; simpl; by rewrite E |] | done]);
    repeat constructor; unfold accepted; cbn; by rewrite ?one_taken, ?Ep, ?Ec, ?Hr.
Qed.
Lemma refused_books q m l pt ct o : books_kept (refused_trace deps q m l pt ct o).
Proof using taken.
  unfold refused_trace. destruct (refuse pt) eqn:Ep; [| destruct (refuse ct) eqn:Ec]; split; try done;
    repeat constructor; unfold accepted; cbn; by rewrite ?one_taken, ?Ep, ?Ec.
Qed.
Lemma refused_forgone q m l pt ct c o e : refused deps pt ct c = Some e → forgone refuse (Some e) (refused_trace deps q m l pt ct o).
Proof using taken.
  intros Hr. destruct (silent_refused deps q m l pt ct o) as (Hs & Hl & _). split; [done |]. split; [done |].
  assert (Hn : ∀ v e, refuse v = Some e → ¬ sound_count v) by (intros v x Hv (y & -> & Hy); by rewrite taken in Hv).
  unfold refused in Hr. destruct (refuse pt) eqn:Ep; [injection Hr as <-; by eexists _, _; eauto |].
  destruct (refuse ct) eqn:Ec; [injection Hr as <-; by eexists _, _; eauto |]. destruct (js_positive c); [| done]. by eexists _, _; eauto.
Qed.

(** Events that are neither metrics nor money. *)
Definition neutral (e : event) : bool :=
  match e with Metric (cacheEvent _) | Metric (ttfb _ _ _) | Refreshed | BudgetChecked _ | CacheGet | CacheSet => true | _ => false end.
Lemma neutral_reconciled p e : neutral e = true → reconciled p 0 [e].
Proof using. by destruct e as [| | | | | | | | | | | | | | | | | []]. Qed.
Lemma neutral_books e : neutral e = true → books_kept [e].
Proof using taken.
  destruct e as [| | | | | | | | | | | | | | | | | []]; try done; intros _; split; try done; repeat constructor;
    unfold accepted; cbn; by rewrite ?one_taken.
Qed.
Lemma neutral_before e : neutral e = true → before [e].
Proof using. by destruct e as [| | | | | | | | | | | | | | | | | []]. Qed.
End Books.

(** ** Handlers *)

Section Traces.
Context {W : Type} (deps : RouterDeps W) (taken : takes_counts deps).
Abbreviation refuse := (counter_inc deps).

(** The books of a trace in which only the providers [ps] are called, and which
    ends with the error [err] if there is one. *)
Definition in_books (ps : list Provider) (err : option thrown) (t : list event) : Prop :=
  books_kept refuse t ∧ counted refuse err t ∧ ∀ p, p ∈ ps → (∀ q, q ∈ ps → told_apart p q) → reconciled p 0 t.

Lemma in_books_nil ps err : in_books ps err [].
Proof using. by split; [| split; [left |]]. Qed.
Lemma in_books_app ps err t1 t2 : in_books ps None t1 → before t1 → in_books ps err t2 → in_books ps err (t1 ++ t2).
Proof using.
  intros (B1 & _ & R1) Hb (B2 & C2 & R2). split; [by apply books_app |]. split; [by apply counted_app |].
  intros p Hp Hq. apply (reconciled_app p 0 0); [by apply R1 | by apply R2].
Qed.
Lemma in_books_then ps err t1 t2 : in_books ps None t1 → tokens_told t2 → in_books ps None t2 → in_books ps err (t1 ++ t2).
Proof using.
  intros (B1 & C1 & R1) T2 (B2 & _ & R2). split; [by apply books_app |]. split.
  - left. destruct C1 as [T1 | (_ & _ & v & e & He & _)]; [by apply tokens_app | done].
  - intros p Hp Hq. apply (reconciled_app p 0 0); [by apply R1 | by apply R2].
Qed.
Lemma in_books_cons ps err e t : neutral e = true → in_books ps err t → in_books ps err (e :: t).
Proof using taken.
  intros He Ht. change (e :: t) with ([e] ++ t)%list. apply in_books_app; [| by apply neutral_before | done].
  split; [by apply neutral_books |]. split; [left; by apply neutral_before | intros; by apply neutral_reconciled].
Qed.
Lemma in_books_neutral ps err t : Forall (λ e, neutral e = true) t → in_books ps err t.
Proof using taken. induction 1; [apply in_books_nil | by apply in_books_cons]. Qed.
Lemma neutrals_before t : Forall (λ e, neutral e = true) t → before t.
Proof using. induction 1 as [|e t He _ IH]; [done |]. apply (before_app [e]); [by apply neutral_before | done]. Qed.

Lemma visits_books vs : books_kept refuse (visits_trace vs).
Proof using taken. induction vs as [|v vs IH]; [by split |]. by apply (books_app _ (visit_trace v)); [apply visit_books |]. Qed.
Lemma visits_before vs : before (visits_trace vs).
Proof using. induction vs as [|v vs IH]; [done |]. by apply (before_app (visit_trace v)); [apply visit_before |]. Qed.

Lemma passed_reconciled p vs : (∀ v, v ∈ vs → told_apart p (visited v)) → Forall (λ v, owes p v = 0) vs → reconciled p 0 (visits_trace vs).
Proof using.
  intros H Hf. induction Hf as [|v vs Hv _ IH]; [by split |]. apply (reconciled_app p 0 0 (visit_trace v)).
  - rewrite <- Hv. apply visit_reconciled, H. by left.
  - apply IH. intros w Hw. apply H. by right.
Qed.

Lemma passed_owe_nothing p vs : Forall passed_on vs → Forall (λ v, owes p v = 0) vs.
Proof using. induction 1 as [|v vs Hv _ IH]; constructor; [by destruct v | done]. Qed.

(** A failover that did not serve the request. *)
Lemma failed_in_books {A} (f : Provider → W → W * result thrown A) ps vs e err : failover_spec f ps 0 vs (Throw e) → in_books ps err (visits_trace vs).
Proof using taken.
  intros (_ & Hin & Hr). split; [apply visits_books |]. split; [left; apply visits_before |].
  intros p Hp Hq. apply passed_reconciled; [intros v Hv; by apply Hq, Hin |].
  destruct Hr as [(vs0 & q & w1 & w2 & e' & -> & Hf & _) | (Hf & _)]; [| by apply passed_owe_nothing].
  apply Forall_app. split; [by apply passed_owe_nothing | by repeat constructor].
Qed.

(** One that did, up to its accounting [tl]. *)
Lemma served_in_books {A} (f : Provider → W → W * result thrown A) ps vs q a n t tl err :
  failover_spec f ps 0 vs (Ret (q, a, n)) → Forall (λ e, neutral e = true) t →
  books_kept refuse tl → counted refuse err tl →
  (∀ p, told_apart p q → reconciled p (if String.eqb (p_id p) (p_id q) then -1 else 0) tl) →
  in_books ps err (visits_trace vs ++ t ++ tl).
Proof using taken.
  intros (_ & Hin & vs0 & -> & Hf & _) Ht Hb Hc Hr.
  split; [apply books_app; [apply visits_books | apply books_app; [by apply (in_books_neutral [] None) | done]] |].
  split; [apply counted_app; [apply visits_before | apply counted_app; [by apply neutrals_before | done]] |].
  intros p Hp Hq. assert (Hpq : told_apart p q) by (apply Hq, (Hin (Served q)), elem_of_app; right; by left).
  rewrite visits_trace_app, <- app_assoc. apply (reconciled_app p 0 0).
  { apply passed_reconciled; [intros v Hv; apply Hq, Hin, elem_of_app; by left | by apply passed_owe_nothing]. }
  replace 0 with (owes p (Served q) + (0 + (if String.eqb (p_id p) (p_id q) then -1 else 0))) by (cbn [owes]; by destruct (String.eqb _ _)).
  apply reconciled_app; [rewrite (app_nil_r (visit_trace _) : visits_trace [Served q] = _); by apply visit_reconciled |].
  apply reconciled_app; [by apply (in_books_neutral [p] None t Ht); [left | intros x ->%list_elem_of_singleton] |]. by apply Hr.
Qed.

(** The accounting of a reply, told or refused. *)
Lemma served_told {A} (f : Provider → W → W * result thrown A) ps vs q a n t ctx m l pt ct total c o status n' err :
  failover_spec f ps 0 vs (Ret (q, a, n)) → Forall (λ e, neutral e = true) t → refused deps pt ct c = None → ∀ x,
  in_books ps x (visits_trace vs ++ t ++ metrics_trace q m l pt ct c o ++
    [Spent (apiKeyId ctx) c; Logged (served_entry ctx q m pt ct total c l status n' err)]).
Proof using taken.
  intros Hs Ht Hr x. destruct (account_books deps taken ctx q m l pt ct total c o status n' err Hr) as [Hb Htl]. cbv zeta in *.
  eapply served_in_books; [exact Hs | exact Ht | exact Hb | by left |].
  intros p Hp. replace (if String.eqb (p_id p) (p_id q) then -1 else 0) with ((if String.eqb (p_id p) (p_id q) then -1 else 0) + 0) by lia.
  apply reconciled_app; [by apply metrics_reconciled | by split].
Qed.
Lemma served_refused {A} (f : Provider → W → W * result thrown A) ps vs q a n t m l pt ct c o e :
  failover_spec f ps 0 vs (Ret (q, a, n)) → Forall (λ e, neutral e = true) t → refused deps pt ct c = Some e →
  in_books ps (Some e) (visits_trace vs ++ t ++ refused_trace deps q m l pt ct o).
Proof using taken.
  intros Hs Ht Hr. eapply served_in_books; [exact Hs | exact Ht | by apply refused_books | right; by eapply refused_forgone |].
  intros p Hp. by apply refused_reconciled.
Qed.
End Traces.

(** The last metric of a trace, when it is a cache event. *)
Lemma last_cache_event pre post s e : Forall (λ e, match e with Metric _ => False | _ => True end) post →
  last (List.filter (λ x, String.eqb (x_series x) "gateway_cache_events_total") (samples (e :: pre ++ Metric (cacheEvent s) :: post))) =
    Some (recordCacheEvent s).
Proof.
  intros Hp. assert (E : samples post = []) by (induction Hp as [|x l Hx _ IH]; [done |]; destruct x; by try done).
  change (e :: pre ++ Metric (cacheEvent s) :: post)%list with ((e :: pre) ++ [Metric (cacheEvent s)] ++ post)%list.
  rewrite !samples_app, E, app_nil_r, List.filter_app. apply last_snoc.
Qed.

Section Handlers.
Context {W : Type} (deps : RouterDeps W) (taken : takes_counts deps) `{!LawfulBalancer deps}.
Abbreviation in_books := (in_books deps).
Abbreviation offers res := (map c_provider (candidates res)).

Lemma refused_in_books ps err k : in_books ps err [BudgetChecked k].
Proof using taken. by apply in_books_neutral; repeat constructor. Qed.

(** The error a handler ends with, and a stream opened and read. *)
Definition thrown_by {A} (r : ending A) : option thrown := match r with Throw e => Some e | _ => None end.
Definition stream_error (r : ending (list chunk * option thrown)) : option thrown :=
  match r with Throw e => Some e | Ret (_, err) => err | Diverge => None end.

(** The books of a chat completion; the last metric is the status of the reply. *)
Definition booked (ps : list Provider) (x : W * list event * ending (ChatCompletionResponse * RouterMeta)) : Prop :=
  in_books ps (thrown_by x.2) x.1.2 ∧
  ∀ a, x.2 = Ret a → ∃ pre post, x.1.2 = (pre ++ Metric (cacheEvent (meta_cacheStatus a.2)) :: post)%list ∧
    Forall (λ e, match e with Metric _ => False | _ => True end) post.

Lemma booked_cons ps e w t r : neutral e = true → booked ps (w, t, r) → booked ps (w, e :: t, r).
Proof using taken.
  intros He [Hb Hl]. split; [by apply in_books_cons |]. intros a Ha. destruct (Hl a Ha) as (pre & post & E & Hp). cbn [fst snd] in *. subst t.
  by exists (e :: pre), post.
Qed.

Lemma serve_chat_books req ctx options res eligible w : booked (offers res) (serve_chat deps req ctx options res eligible w).
Proof using All.
  pose proof (serve_chat_run deps req ctx options res eligible w) as Hs. cbv zeta in Hs.
  destruct (ct_isOverBudget _ _ _ w) as [w1 [|]]; [rewrite Hs; by split; [apply refused_in_books |] |].
  destruct Hs as (w2 & vs & r & Hsp & Hrun). destruct r as [[[p [resp l]] n] | e |]; [destruct (refused _ _ _ _) as [x|] eqn:Er | | done];
    rewrite Hrun; (split; cbn [fst snd thrown_by]).
  - apply in_books_cons; [done.. |]. eapply (served_refused deps taken _ _ vs p _ n []); [exact Hsp | done | exact Er].
  - done.
  - apply in_books_cons; [done.. |]. unfold accounting. rewrite app_assoc. apply in_books_then.
    + by eapply (served_told deps taken _ _ vs p _ n []); [exact Hsp | |].
    + by destruct (_ && _).
    + apply in_books_neutral; [done |]. destruct (_ && _); by repeat constructor.
  - intros a [= <-]. cbn [snd meta_cacheStatus]. eexists _, []. split; [| done]. rewrite !app_comm_cons, !app_assoc. reflexivity.
  - apply in_books_cons; [done.. |]. by apply (failed_in_books deps taken _ _ vs e _ Hsp).
  - done.
Qed.

Lemma chat_rest_books req ctx options res w : booked (offers res) (chat_rest deps req ctx options res w).
Proof using All.
  unfold chat_rest, mbind_, act, metric_, tell. destruct (_ && _); [| destruct (cache_isEligible deps req); [| apply serve_chat_books]].
  - pose proof (serve_chat_books req ctx options res (cache_isEligible deps req) w) as Hb.
    destruct (serve_chat _ _ _ _ _ _ _) as [[w' t] r]. by apply booked_cons.
  - destruct (cache_get deps req w) as [w1 [cached|]].
    + cbn. apply booked_cons; [done |]. split; cbn [fst snd].
      * apply in_books_cons; [done.. |]. split; [by split; [done | done | repeat constructor] |].
        split; [by left | by intros p _ _; split].
      * intros a [= <-]. eexists [], [_]. split; [done | by repeat constructor].
    + pose proof (serve_chat_books req ctx options res true w1) as Hb.
      destruct (serve_chat _ _ _ _ _ _ _) as [[w' t] r]. by apply booked_cons.
Qed.

Lemma embeddings_rest_books req ctx res w :
  in_books (offers res) (thrown_by (embeddings_rest deps req ctx res w).2) (embeddings_rest deps req ctx res w).1.2.
Proof using All.
  unfold embeddings_rest. cbv zeta.
  match goal with |- context [mbind_ (runFailover _ _ ?f) ?k] => pose proof (gated_failover deps ctx (candidates res) f k w) as H end.
  cbv zeta in H. destruct (ct_isOverBudget _ _ _ w) as [w1 [|]]; [rewrite H; apply refused_in_books |].
  destruct H as (w2 & vs & r & Hsp & Hrun). destruct r as [[[p [resp l]] n] | e |]; [| | done].
  - destruct (refused deps (er_prompt_tokens resp) 0%Q (estimateCost (getModel p (canonicalModel res)) (er_prompt_tokens resp) 0%Q)) as [e|] eqn:Er.
    + erewrite bind_throw in Hrun by (by apply metrics_refused). erewrite (Hrun _ _ _ eq_refl). cbn [fst snd thrown_by].
      apply in_books_cons; [done.. |]. eapply (served_refused deps taken _ _ vs p _ n []); [exact Hsp | done | exact Er].
    + erewrite bind_ret in Hrun by (by apply metrics_told). erewrite (Hrun _ _ _ eq_refl). cbn [fst snd].
      apply in_books_cons; [done.. |]. eapply (served_told deps taken _ _ vs p _ n []); [exact Hsp | done | exact Er].
  - rewrite Hrun. cbn [fst snd]. apply in_books_cons; [done.. |]. by apply (failed_in_books deps taken _ _ vs e _ Hsp).
Qed.

Lemma account_in_books {A} (f : Provider → W → W * result thrown A) ps vs q a n t ctx m l k c errored err :
  failover_spec f ps 0 vs (Ret (q, a, n)) → Forall (λ e, neutral e = true) t →
  in_books ps (match account_error deps q m c with Some e => Some e | None => err end)
    (visits_trace vs ++ t ++ account_trace deps ctx q m l k c errored).
Proof using taken.
  intros Hs Ht. unfold account_error, account_trace. destruct (refused _ _ _ _) as [e|] eqn:Er.
  - eapply served_refused; [exact taken | exact Hs | exact Ht | exact Er].
  - eapply served_told; [exact taken | exact Hs | exact Ht | exact Er].
Qed.

Lemma stream_rest_books req ctx demand res w : demand ≠ Some O →
  in_books (offers res) (stream_error (stream_rest deps req ctx demand res w).2) (stream_rest deps req ctx demand res w).1.2.
Proof using All.
  intros Hd. unfold stream_rest. cbv zeta.
  match goal with |- context [mbind_ (runFailover _ _ ?f) ?k] => pose proof (gated_failover deps ctx (candidates res) f k w) as H end.
  cbv zeta in H. destruct (ct_isOverBudget _ _ _ w) as [w1 [|]]; [rewrite H; apply refused_in_books |].
  destruct H as (w2 & vs & r & Hsp & Hrun). destruct r as [[[p [[first rest] start]] n] | e |]; [| | done].
  - pose proof (run_stream_eq deps req ctx p (canonicalModel res) first rest start n demand w2 Hd) as E.
    destruct (stream_body _ _ _ _ _ w2) as [[[w3 out] a] st]. destruct E as [w' E].
    erewrite bind_ret in Hrun by reflexivity. erewrite bind_ret in Hrun by reflexivity. erewrite bind_ret in Hrun by reflexivity.
    rewrite E in Hrun. erewrite (Hrun _ _ _ eq_refl). cbn [fst snd app stream_error]. apply in_books_cons; [done.. |].
    match goal with |- in_books _ _ (_ ++ ?x :: ?y :: _) => eapply (account_in_books _ _ vs p _ n [x; y]); [exact Hsp | by repeat constructor] end.
  - rewrite Hrun. cbn [fst snd]. apply in_books_cons; [done.. |]. by apply (failed_in_books deps taken _ _ vs e _ Hsp).
Qed.

(** What a handler leaves: the books, over the providers its resolution offers. *)
Definition accounted (requested : string) (w : W) (err : option thrown) (t : list event) : Prop :=
  books_kept (counter_inc deps) t ∧ counted (counter_inc deps) err t ∧ ∀ w1, refreshIfStale deps w = (w1, Ok tt) →
    let ps := offers (resolveCandidates (registry_snapshot deps w1) requested) in
    ∀ p, p ∈ ps → (∀ q, q ∈ ps → told_apart p q) → reconciled p 0 t.

(** A handler that ends before its rest, or its rest after the refresh. *)
Lemma resolved_cases {A} requested ctx (k : ModelResolution → M W A) w :
  let run := resolved deps requested ctx k w in
  (∃ w' e, run = (w', [Refreshed], Throw e)) ∨
  ∃ w1, refreshIfStale deps w = (w1, Ok tt) ∧
    run = let '(w', t, r) := k (resolveCandidates (registry_snapshot deps w1) requested) w1 in (w', Refreshed :: t, r).
Proof using.
  cbv zeta. unfold resolved. destruct (refreshIfStale deps w) as [w1 [[]|e]] eqn:Er.
  2: { left. erewrite bind_throw by (by apply call_err). by eexists _, _. }
  erewrite bind_ret by (by apply call_ok). pose proof (resolve_run deps requested ctx w1) as Hres. cbv zeta in Hres.
  case_bool_decide; [left; erewrite bind_throw by exact Hres; by eexists _, _ |].
  destruct (permitted _ _ _); [| left; erewrite bind_throw by exact Hres; by eexists _, _].
  right. exists w1. split; [done |]. erewrite bind_ret by exact Hres. by destruct (k _ w1) as [[w' t] r].
Qed.

Lemma resolved_accounted {A} requested ctx (k : ModelResolution → M W A) (err : ending A → option thrown) w :
  (∀ res w', in_books (offers res) (err (k res w').2) (k res w').1.2) →
  accounted requested w (err (resolved deps requested ctx k w).2) (resolved deps requested ctx k w).1.2.
Proof using taken.
  intros Hk. destruct (resolved_cases requested ctx k w) as [(w' & e & ->) | (w1 & Er & ->)].
  - split; [by apply neutral_books |]. split; [by left |]. intros w2 _ ps p _ _. by apply neutral_reconciled.
  - specialize (Hk (resolveCandidates (registry_snapshot deps w1) requested) w1). destruct (k _ w1) as [[w' t] r]. cbn [fst snd] in *.
    destruct (in_books_cons deps taken _ _ Refreshed t eq_refl Hk) as (Hb & Hc & Hr). split; [done |]. split; [done |].
    intros w2 E. rewrite Er in E. injection E as <-. exact Hr.
Qed.
End Handlers.

(** ** Theorem *)

(** C12: The metrics, the spend and the request log tell the same story. If
    prom-client takes numbers from 0 up, then after any request, served or not:
    each call to a provider shows as one upstream error, one client error or one
    request served under the provider's name, and each refusal of its breaker as
    one circuit_open error; there are as many failovers as upstream errors;
    prom-client took every sample recorded (its series is declared, with these
    labels); the cost counter grows by the positive spends of the key; and the
    token counter is handed the counts of the log entry, or else a provider
    reported a count that is no number from 0 up, and the request, which nobody is
    charged for and which is not logged, ends with the error of the counter that
    refused it. The last cache event of a completion is the status of the reply. A
    stream is held to this once its consumer has asked for a chunk. *)
Theorem metrics_reconcile {W} (deps : RouterDeps W) chat embed ctx options demand w :
  takes_counts deps → LawfulBalancer deps → demand ≠ Some O →
  let served := chatCompletion deps chat ctx options w in
  let streamed := (let? (meta, generate) := prepareStream deps chat ctx in generate demand) w in
  let embedded := embeddings deps embed ctx w in
  accounted deps (model chat) w (thrown_by served.2) served.1.2 ∧
  accounted deps (model chat) w (stream_error streamed.2) streamed.1.2 ∧
  accounted deps (e_model embed) w (thrown_by embedded.2) embedded.1.2 ∧
  ∀ response meta, served.2 = Ret (response, meta) →
    last (List.filter (λ x, String.eqb (x_series x) "gateway_cache_events_total") (samples served.1.2)) =
      Some (recordCacheEvent (meta_cacheStatus meta)).
Proof.
  intros Ht Hl Hd. cbv zeta. rewrite chat_resolved, embeddings_resolved, stream_resolved. split_and!.
  - apply resolved_accounted; [done |]. intros res w'. exact (proj1 (chat_rest_books deps Ht chat ctx options res w')).
  - apply (resolved_accounted deps Ht _ _ _ stream_error). intros res w'. by apply stream_rest_books.
  - apply resolved_accounted; [done |]. intros res w'. by apply embeddings_rest_books.
  - intros response meta. destruct (resolved_cases deps (model chat) ctx (chat_rest deps chat ctx options) w) as [(w' & e & ->) | (w1 & _ & ->)]; [done |].
    destruct (chat_rest_books deps Ht chat ctx options (resolveCandidates (registry_snapshot deps w1) (model chat)) w1) as [_ H].
    destruct (chat_rest _ _ _ _ _ w1) as [[w' t] r]. cbn [fst snd] in *. intros ->. destruct (H _ eq_refl) as (pre & post & -> & Hp).
    apply last_cache_event, Hp.
Qed.

(** No name is declared twice, which prom-client would refuse at start-up. *)
Lemma declared_once : NoDup (map s_name declared).
Proof. by apply (bool_decide_unpack _), I. Qed.

Lemma sample_takes : takes_counts sample_deps.
Proof. intros q Hq. cbn. by rewrite (proj2 (Qle_bool_iff 0 q) Hq). Qed.

(** The first provider fails, the second serves. *)
Lemma metrics_reconcile_witness :
  let t := (chatCompletion sample_deps sample_request sample_context {| bypassCache := false |} 0).1.2 in
  reconciled (sample_server "A") 0 t ∧ told "gateway_failovers_total" [] (samples t) = 1 ∧
  told "gateway_provider_requests_total" [("provider", "B"); ("outcome", "success")]%string (samples t) = 1 ∧
  amounts "gateway_tokens_total" (samples t) = [Num (Finite 3); Num (Finite 1)].
Proof.
  cbv zeta. split; [| by vm_compute].
  destruct (metrics_reconcile sample_deps sample_request
    {| e_model := "m"; e_input := InText "hi"; e_encoding_format := None; e_dimensions := None; e_user := None; e_extra := [] |}
    sample_context {| bypassCache := false |} None 0 sample_takes sample_deps_lawful ltac:(done)) as [(_ & _ & H) _].
  apply (H 0 eq_refl (sample_server "A")); [by left |].
  intros q [-> | ->%list_elem_of_singleton]%elem_of_cons; by split.
Defined.
