(* ===== verification/Outbound.v ===== *)
(** * What leaves the gateway

    The router's dependencies with the adapters in place of the abstract
    providers: a provider call is a request on the network, which is logged, and
    the adapter's reading of what came back.  The theorem says which requests
    leave the process while a client's request is served. *)

From Stdlib Require Import ZArith Lia QArith String Ascii.
From stdpp Require Import base gmap strings list.
From S2P Require Import Prelude Redis Numerals Constants CircuitBreaker LoadBalancer Json Errors Types Tokens Stream Provider CostTracker Registry Cache Auth Router Effects Adapter Adapters.
Open Scope Z_scope.

(** The network: a request with its outcome, a request with a streamed reply,
    and what happens while the next chunk of a stream is awaited. *)
Record Network (W : Type) := {
  fetch : HttpRequest → W → W * fetch_outcome;
  fetch_stream : HttpRequest → W → W * StreamReply;
  await_chunk : W → W
}.
Arguments fetch {W}. Arguments fetch_stream {W}. Arguments await_chunk {W}.

(** [AsyncIterable] of what an adapter yields. *)
Fixpoint to_upstream {W} (first wait : W → W) (l : list json) (failure : option thrown) : upstream W :=
  match l with
  | [] => match failure with None => UDone first | Some e => UThrow first e end
  | c :: l' => UChunk first c (to_upstream wait wait l' failure)
  end.

Section Outbound.
Context {W : Type} (base : RouterDeps W) (net : Network W).
Context (JSON_parse : string → option json) {D : Type} (new_decoder : D) (decode : D → list Byte.byte → D * string)
  (decode_end : D → string) (encoded_length : TiktokenEncoding → string → Z) (zod_issues : json → json).
(** [randomUUID] at a moment of the world. *)
Variable uuids : W → nat → string.

(** The world, with every request sent so far. *)
Abbreviation outside := (W * list HttpRequest)%type.

Definition lift {A} (op : W → W * A) (x : outside) : outside * A := let '(w, a) := op x.1 in ((w, x.2), a).
Definition lift_ (op : W → W) (x : outside) : outside := (op x.1, x.2).

(** The provider of a row, as [createAdapter] makes it. *)
Definition adapter (p : Provider) (w : W) : ProviderMethods :=
  createAdapter JSON_parse new_decoder decode decode_end encoded_length zod_issues (uuids w) (date_now base w) p.

Definition adapter_chat (p : Provider) (request : ChatCompletionRequest) (x : outside)
    : outside * result thrown ChatCompletionResponse :=
  let q := pr_request (adapter p x.1) request false in
  let '(w, o) := fetch net q x.1 in
  ((w, x.2 ++ [q])%list, pr_chat (adapter p w) (λ _, o) request).

Definition adapter_stream (p : Provider) (request : ChatCompletionRequest) (x : outside) : upstream outside :=
  let q := pr_request (adapter p x.1) request true in
  let '(w, r) := fetch_stream net q x.1 in
  let s := pr_chatStream (adapter p w) (λ _, r) request in
  to_upstream (λ _, (w, x.2 ++ [q])%list) (lift_ (await_chunk net)) (chunks s) (failure s).

Definition adapter_embed (p : Provider) (request : EmbeddingRequest) (x : outside)
    : outside * result thrown EmbeddingResponse :=
  match pr_embed_request (adapter p x.1) request with
  | None => (x, pr_embed (adapter p x.1) (λ _, FetchFailed (TValue JNull) false false) request)  (* which does not call [fetch] *)
  | Some q =>
      let '(w, o) := fetch net q x.1 in
      ((w, x.2 ++ [q])%list, pr_embed (adapter p w) (λ _, o) request)
  end.

(** [base] with the adapters as its providers. *)
Definition outbound : RouterDeps outside := {|
  refreshIfStale := lift (refreshIfStale base);
  registry_snapshot x := registry_snapshot base x.1;
  lb_select l := lift (lb_select base l);
  lb_recordSuccess i l := lift_ (lb_recordSuccess base i l);
  lb_recordFailure i := lift_ (lb_recordFailure base i);
  lb_release i := lift_ (lb_release base i);
  cb_acquire i := lift (cb_acquire base i);
  cb_recordSuccess i := lift (cb_recordSuccess base i);
  cb_recordFailure i := lift (cb_recordFailure base i);
  cb_release i := lift (cb_release base i);
  cache_isEligible := cache_isEligible base;
  cache_get r := lift (cache_get base r);
  cache_set r v := lift_ (cache_set base r v);
  ct_isOverBudget k b := lift (ct_isOverBudget base k b);
  ct_addSpend k c := lift_ (ct_addSpend base k c);
  ct_enqueueRequest e := lift_ (ct_enqueueRequest base e);
  provider_chat := adapter_chat;
  provider_chatStream := adapter_stream;
  provider_embed := adapter_embed;
  provider_countTokens p ms m :=
    pr_countTokens (createAdapter JSON_parse new_decoder decode decode_end encoded_length zod_issues (λ _, ""%string) 0 p) ms m;
  date_now x := date_now base x.1;
  counter_inc := counter_inc base
|}.

(** What the dependencies respect, they respect beside the requests sent. *)
Lemma outbound_respects (R : W → W → list event → Prop) : Respects R base → Respects (λ x y t, R x.1 y.1 t) outbound.
Proof.
  intros H. assert (L : ∀ A (op : W → W * A) x, (lift op x).1.1 = (op x.1).1 ∧ (lift op x).2 = (op x.1).2)
    by (intros A op x; unfold lift; by destruct (op x.1)).
  split; intros; unfold outbound; cbn [refreshIfStale lb_select lb_recordSuccess lb_recordFailure lb_release cb_acquire
    cb_recordSuccess cb_recordFailure cb_release cache_get cache_set ct_isOverBudget ct_addSpend ct_enqueueRequest];
    rewrite ?(proj1 (L _ _ _)), ?(proj2 (L _ _ _)); by apply H.
Qed.
End Outbound.

(** ** Which requests a computation sends *)

Section Sent.
Context {W : Type}.
Abbreviation outside := (W * list HttpRequest)%type.
Context (P : Provider → Prop) (req : Provider → list HttpRequest).

(** What was sent is what [req] says of the providers called, in order, all of
    them in [P]. *)
Definition sends (x y : outside) (t : list event) : Prop :=
  ∃ ps, Forall P ps ∧ map p_id ps = calls t ∧ y.2 = (x.2 ++ concat (map req ps))%list.

#[export] Instance sends_effect : Effect sends.
Proof using.
  split.
  - intros x. exists []. split; [done |]. split; [done |]. cbn. by rewrite app_nil_r.
  - intros x y z t1 t2 (ps1 & F1 & H1 & E1) (ps2 & F2 & H2 & E2). exists (ps1 ++ ps2)%list. split; [by apply Forall_app |]. split.
    + by rewrite map_app, calls_app, H1, H2.
    + by rewrite map_app, concat_app, app_assoc, <- E1.
Qed.

(** A step that calls no provider and sends nothing. *)
Lemma sends_quiet x y t : calls t = [] → y.2 = x.2 → sends x y t.
Proof using. intros Ht E. exists []. split; [done |]. rewrite Ht, E. cbn. by rewrite app_nil_r. Qed.
End Sent.

(** ** No provider is called twice *)

Section Once.
Context {W : Type} (deps : RouterDeps W) `{!LawfulBalancer deps}.

Lemma calls_visits_once vs : NoDup (map (λ v, p_id (visited v)) vs) → NoDup (calls (visits_trace vs)).
Proof using.
  intros H. apply (sublist_NoDup _ (map (λ v, p_id (visited v)) vs)); [done |]. clear H.
  induction vs as [|v vs IH]; [done |]. unfold visits_trace. cbn [map concat]. rewrite calls_app.
  change (p_id (visited v) :: map (λ v, p_id (visited v)) vs) with ([p_id (visited v)] ++ map (λ v, p_id (visited v)) vs)%list.
  apply sublist_app; [destruct v; cbn; repeat constructor | exact IH].
Qed.

Lemma chat_calls_once request ctx options w : NoDup (calls (chatCompletion deps request ctx options w).1.2).
Proof using All.
  destruct (chat_run deps request ctx options w) as [(w' & e & ->) | (w1 & _ & _ & _ & [(w2 & w' & cached & _ & _ & l & _ & _ & _ & ->) | (w2 & pre & Hpre & _ & _ & ->)])];
    [constructor.. |].
  pose proof (serve_chat_run deps request ctx options (resolveCandidates (registry_snapshot deps w1) (model request)) (cache_isEligible deps request) w2) as Hs.
  cbv zeta in Hs. destruct (ct_isOverBudget deps _ _ w2) as [w3 [|]]; [rewrite Hs; cbn [fst snd]; rewrite calls_app, Hpre; constructor |].
  destruct Hs as (w4 & vs & r & (Hnd & _) & Hrun). apply calls_visits_once in Hnd.
  destruct r as [[[p [resp l]] n] | e |]; [destruct (refused _ _ _ _) | | done]; rewrite Hrun; cbn [fst snd];
    rewrite !calls_app, Hpre, calls_Budget, ?calls_app, ?calls_accounting, ?calls_refused, ?app_nil_r; [done | by destruct (_ && _); rewrite ?app_nil_r | done].
Qed.

Lemma embeddings_calls_once request ctx w : NoDup (calls (embeddings deps request ctx w).1.2).
Proof using All.
  destruct (embeddings_run deps request ctx w) as [(w' & t & e & -> & Ht & _) | (w1 & w2 & w3 & vs & r & _ & _ & _ & (Hnd & _) & Hrun)];
    [cbn [fst snd]; rewrite Ht; constructor |].
  apply calls_visits_once in Hnd.
  destruct r as [[[p [resp l]] n] | e |]; [cbv zeta in Hrun; destruct (refused _ _ _ _) | | done]; rewrite Hrun; cbn [fst snd];
    rewrite calls_Refreshed, calls_Budget; [by rewrite calls_app, calls_refused, app_nil_r | | done].
  by rewrite calls_app, calls_accounting, app_nil_r.
Qed.

(** Reading the stream calls no other provider. *)
Lemma stream_calls_once request ctx demand w :
  NoDup (calls ((let? (meta, generate) := prepareStream deps request ctx in generate demand) w).1.2).
Proof using All.
  destruct (prepareStream_run deps request ctx w) as [(w' & t & e & E & Ht & _) | (w1 & w2 & w3 & vs & r & _ & _ & _ & (Hnd & _) & Hrun)].
  { erewrite bind_throw by exact E. cbn [fst snd]. rewrite Ht. constructor. }
  apply calls_visits_once in Hnd. destruct r as [[[p [[first rest] start]] n] | e |]; [| | done].
  - destruct Hrun as (sec & meta & E & _). erewrite bind_ret by exact E.
    set (m := canonicalModel _) in *.
    assert (Hq : calls (run_stream deps request ctx p m first rest start n demand w3).1.2 = []).
    { by destruct (run_stream_answered deps request ctx p m first rest start n demand w3) as (w' & t & x & -> & Ht). }
    change ((let '(meta, generate) := (meta, run_stream deps request ctx p m first rest start n) in generate demand) w3)
      with (run_stream deps request ctx p m first rest start n demand w3).
    destruct (run_stream deps request ctx p m first rest start n demand w3) as [[y t] r]. cbn [fst snd] in *.
    rewrite calls_app, Hq, app_nil_r, calls_Refreshed, calls_Budget, calls_app. cbn. by rewrite app_nil_r.
  - erewrite bind_throw by exact Hrun. cbn [fst snd]. by rewrite calls_Refreshed, calls_Budget.
Qed.
End Once.

(** ** The handlers *)

Section Handlers.
Context {W : Type} (base : RouterDeps W) (net : Network W).
Context (JSON_parse : string → option json) {D : Type} (new_decoder : D) (decode : D → list Byte.byte → D * string)
  (decode_end : D → string) (encoded_length : TiktokenEncoding → string → Z) (zod_issues : json → json).
Variable uuids : W → nat → string.
Context `{Hbase : !LawfulBalancer base}.
Abbreviation outside := (W * list HttpRequest)%type.
Abbreviation deps := (outbound base net JSON_parse new_decoder decode decode_end encoded_length zod_issues uuids).

#[export] Instance outbound_lawful : LawfulBalancer deps.
Proof using Hbase.
  split. intros l [w log] Hl. destruct (select_candidate l w Hl) as (w' & p & E & Hp).
  exists (w', log), p. cbn [lb_select outbound]. unfold lift. cbn [fst snd]. by rewrite E.
Qed.

(** The adapter of a provider, with no id or clock yet. *)
Definition adapter_of (p : Provider) : ProviderMethods :=
  createAdapter JSON_parse new_decoder decode decode_end encoded_length zod_issues (λ _, ""%string) 0 p.
Definition chat_request (request : ChatCompletionRequest) (streaming : bool) (p : Provider) : list HttpRequest :=
  [pr_request (adapter_of p) request streaming].
Definition embed_request (request : EmbeddingRequest) (p : Provider) : list HttpRequest :=
  match pr_embed_request (adapter_of p) request with Some q => [q] | None => [] end.

Lemma request_fixed p w : pr_request (adapter base JSON_parse new_decoder decode decode_end encoded_length zod_issues uuids p w) =
  pr_request (adapter_of p) ∧
  pr_embed_request (adapter base JSON_parse new_decoder decode decode_end encoded_length zod_issues uuids p w) = pr_embed_request (adapter_of p).
Proof using. unfold adapter, adapter_of, createAdapter. by destruct (adapterType p). Qed.

Lemma outbound_sends P req : Respects (sends P req) deps.
Proof using. split; intros; try (by apply sends_quiet); apply sends_quiet; cbn [outbound refreshIfStale lb_select cb_acquire cb_recordSuccess
  cb_recordFailure cb_release cache_get ct_isOverBudget]; unfold lift; by repeat split_match. Qed.

(** A provider call sends the adapter's request. *)
Lemma one_sent {A} P req (f : Provider → outside → outside * result thrown A) Q p x :
  P p → (f p x).1.2 = (x.2 ++ req p)%list → match (f p x).2 with Ok a => Q a | Err _ => True end →
  sends P req x (f p x).1 [Called (p_id p)] ∧ match (f p x).2 with Ok a => Q a | Err _ => True end.
Proof using.
  intros Hp E HQ. split; [| done]. exists [p]. split; [by constructor |]. split; [done |]. cbn [map concat]. by rewrite app_nil_r, <- E.
Qed.

Lemma chat_sends P request :
  calls_with (sends P (chat_request request false)) P (λ p, provider_chat deps p request) (λ _, True).
Proof using.
  intros p x Hp. apply (one_sent P _ (λ p, provider_chat deps p request) _ p x); [done | | by destruct (provider_chat _ _ _ _).2]. cbn [provider_chat outbound]. unfold adapter_chat.
  rewrite (proj1 (request_fixed p x.1)). by destruct (fetch net _ x.1) as [w o].
Qed.

Lemma embed_sends P request :
  calls_with (sends P (embed_request request)) P (λ p, provider_embed deps p request) (λ _, True).
Proof using.
  intros p x Hp. apply (one_sent P _ (λ p, provider_embed deps p request) _ p x); [done | | by destruct (provider_embed _ _ _ _).2]. cbn [provider_embed outbound]. unfold adapter_embed, embed_request.
  rewrite (proj2 (request_fixed p x.1)). destruct (pr_embed_request (adapter_of p) request) as [q|]; [by destruct (fetch net q x.1) |].
  by rewrite app_nil_r.
Qed.

Lemma quiet_flows P req wait l e : (∀ x, (wait x).2 = x.2) → flows (sends (W := W) P req) (to_upstream wait wait l e).
Proof using.
  intros H. assert (Hw : ∀ x, sends P req x (wait x) []) by (intros x; by apply sends_quiet).
  induction l as [|c l IH]; [by destruct e | by split].
Qed.

Lemma stream_sends P request :
  calls_with (sends P (chat_request request true)) P (open_stream deps request) (λ r, flows (sends P (chat_request request true)) r.1.2).
Proof using.
  intros p x Hp. apply (one_sent P _ (open_stream deps request) _ p x); [done | |]; unfold open_stream; cbn [provider_chatStream outbound]; unfold adapter_stream;
    rewrite (proj1 (request_fixed p x.1)); destruct (fetch_stream net _ x.1) as [w r]; set (s := pr_chatStream _ _ _);
    (destruct (chunks s) as [|c l]; [destruct (failure s) |]); cbn [to_upstream next fst snd]; try done.
  - intros x'. by apply sends_quiet.
  - by apply quiet_flows.
Qed.

(** What a handler sent, in all, when it called the providers of [t]. *)
Definition sent_for (ctx : GatewayContext) (requested : string) (x : outside) (req : string → Provider → list HttpRequest)
    (t : list event) (sent : list HttpRequest) : Prop :=
  (calls t = [] ∧ sent = x.2) ∨
  ∃ w1 ps, refreshIfStale base x.1 = (w1, Ok tt) ∧
    let res := resolveCandidates (registry_snapshot base w1) requested in
    permitted ctx requested (canonicalModel res) = true ∧
    Forall (offered res) ps ∧ map p_id ps = calls t ∧
    sent = (x.2 ++ concat (map (req (canonicalModel res)) ps))%list.

Lemma resolved_sent {A} requested ctx (k : ModelResolution → M outside A) req x :
  (∀ res, effect (sends (offered res) (req (canonicalModel res))) (k res) (λ _, True)) →
  let run := resolved deps requested ctx k x in
  sent_for ctx requested x req run.1.2 run.1.1.2.
Proof using.
  intros Hk. cbv zeta. unfold resolved. destruct x as [w log]. cbn [fst snd].
  assert (Er : refreshIfStale deps (w, log) = let '(w1, r) := refreshIfStale base w in ((w1, log), r)) by done.
  destruct (refreshIfStale base w) as [w1 [[]|e]] eqn:E.
  2: { erewrite bind_throw by (by apply call_err). by left. }
  erewrite bind_ret by (by apply call_ok). pose proof (resolve_run deps requested ctx (w1, log)) as Hres. cbv zeta in Hres.
  cbn [registry_snapshot outbound fst] in Hres. set (res := resolveCandidates _ _) in *.
  case_bool_decide as Hc; [erewrite bind_throw by exact Hres; by left |].
  destruct (permitted _ _ _) eqn:Hp; [| erewrite bind_throw by exact Hres; by left].
  erewrite bind_ret by exact Hres. right. exists w1.
  destruct (Hk res (w1, log)) as [(ps & F & Hids & Es) _]. exists ps. split; [done |]. fold res.
  destruct (k res (w1, log)) as [[y t] r]. cbn [fst snd app] in *. by split_and!.
Qed.
End Handlers.

(** ** Theorem *)

(** C9: What leaves the gateway. While a client's request is served (a chat
    completion, a stream read in any way, an embedding), the requests sent to
    upstreams are exactly those of the providers called, in order: each is what
    the adapter of a provider that offers the resolved model makes of the
    request, addressed to that provider's own base URL with that provider's own
    credential and no other header of substance; no provider is sent a request
    twice; and nothing is sent for a request whose model the key may not use. *)
Theorem outbound_confined {W D : Type} (base : RouterDeps W) net JSON_parse (new_decoder : D) decode decode_end
    encoded_length zod_issues uuids ctx options demand (chat : ChatCompletionRequest) (embed : EmbeddingRequest) x :
  LawfulBalancer base →
  let deps := outbound base net JSON_parse new_decoder decode decode_end encoded_length zod_issues uuids in
  let adapter := adapter_of JSON_parse new_decoder decode decode_end encoded_length zod_issues in
  let sent_for := sent_for base ctx in
  let served := chatCompletion deps chat ctx options x in
  let streamed := (let? (meta, generate) := prepareStream deps chat ctx in generate demand) x in
  let embedded := embeddings deps embed ctx x in
  sent_for (model chat) x (λ m p, [pr_request (adapter p) (with_model chat m) false]) served.1.2 served.1.1.2 ∧
  sent_for (model chat) x (λ m p, [pr_request (adapter p) (with_stream_usage chat m) true]) streamed.1.2 streamed.1.1.2 ∧
  sent_for (e_model embed) x
    (λ m p, match pr_embed_request (adapter p) (with_embedding_model embed m) with Some q => [q] | None => [] end)
    embedded.1.2 embedded.1.1.2 ∧
  (NoDup (calls served.1.2) ∧ NoDup (calls streamed.1.2) ∧ NoDup (calls embedded.1.2)) ∧
  ∀ p, (∀ request s, addressed_to p (pr_request (adapter p) request s)) ∧
       (∀ request q, pr_embed_request (adapter p) request = Some q → addressed_to p q).
Proof.
  intros Hl. cbv zeta. split_and!.
  - rewrite chat_resolved. apply resolved_sent. intros res.
    apply chat_rest_effect; [apply sends_effect | apply outbound_sends | by apply outbound_lawful | apply chat_sends].
  - rewrite stream_resolved. apply resolved_sent. intros res.
    apply stream_rest_effect; [apply sends_effect | apply outbound_sends | by apply outbound_lawful | apply stream_sends].
  - rewrite embeddings_resolved. apply resolved_sent. intros res.
    apply embeddings_rest_effect; [apply sends_effect | apply outbound_sends | by apply outbound_lawful | apply embed_sends].
  - by apply chat_calls_once, outbound_lawful.
  - by apply stream_calls_once, outbound_lawful.
  - by apply embeddings_calls_once, outbound_lawful.
  - intros p. unfold adapter, adapter_of. exact (adapter_addressed JSON_parse new_decoder decode decode_end encoded_length zod_issues _ _ p).
Qed.

(** Two OpenAI-compatible providers, both unavailable: each is asked once. *)
Definition sample_network : Network Z := {|
  fetch q t := (t + 1, unavailable);
  fetch_stream q t := (t + 1, {| reply := unavailable; Adapter.reads := []; broken := None |});
  await_chunk t := t
|}.
Definition sample_outbound : RouterDeps (Z * list HttpRequest) :=
  outbound sample_deps sample_network (λ _, None) tt (λ _ _, (tt, ""%string)) (λ _, ""%string) (λ _ _, 0) (λ v, v) (λ _ _, "u"%string).

Lemma outbound_confined_witness :
  let run := chatCompletion sample_outbound sample_request sample_context {| bypassCache := false |} (0, []) in
  let q := ("https://example.test/chat/completions", [("content-type", "application/json"); ("authorization", "Bearer k")])%string in
  map (λ q, (url q, req_headers q)) run.1.1.2 = [q; q] ∧ calls run.1.2 = ["A"; "B"]%string ∧ NoDup (calls run.1.2).
Proof.
  cbv zeta. split; [by vm_compute |]. split; [by vm_compute |].
  pose proof (outbound_confined sample_deps sample_network (λ _, None) tt (λ _ _, (tt, ""%string)) (λ _, ""%string) (λ _ _, 0) (λ v, v)
    (λ _ _, "u"%string) sample_context {| bypassCache := false |} None sample_request
    {| e_model := "m"; e_input := InText "x"; e_encoding_format := None; e_dimensions := None; e_user := None; e_extra := [] |}
    (0, []) sample_deps_lawful) as H.
  exact (proj1 (proj1 (proj2 (proj2 (proj2 H))))).
Defined.
