(* ===== verification/App.v ===== *)
(** * The application ([src/app.ts])

    The whole gateway as one state and one step per request: the route table and
    its guards, the hooks around every request, and the handlers of the other
    files over the state they share, the adapters being the router's providers. *)

From Stdlib Require Import ZArith Lia QArith String Ascii.
From stdpp Require Import base gmap strings list.
From S2P Require Import Prelude Redis Numerals Constants Bytes Json Errors ErrorHandler Types Crypto Tokens Stream CircuitBreaker RateLimiter LoadBalancer Provider CostTracker Registry Cache Auth Router Wiring Http Metrics HealthMonitor BreakerListing Admin AdminKeys AdminProviders AdminLogs AdminRoutes Adapter Adapters Instruments Outbound.
Open Scope Z_scope.

(** ** Routes *)

(** Who may reach a route: anyone, the holder of an API key, the administrator. *)
Inductive guard := Open_ | KeyHolder | Administrator.
#[export] Instance guard_eq_dec : EqDecision guard.
Proof. solve_decision. Defined.

Definition under (prefix : string) (g : guard) (l : list (string * string)) : list (string * string * guard) :=
  map (λ r, (r.1, (prefix ++ r.2)%string, g)) l.

Definition v1_routes : list (string * string) :=
  [("POST", "/chat/completions"); ("POST", "/embeddings"); ("GET", "/models")]%string.

Definition admin_routes : list (string * string) :=
  [("GET", "/health");
   ("POST", "/keys"); ("GET", "/keys"); ("GET", "/keys/:id"); ("PATCH", "/keys/:id"); ("DELETE", "/keys/:id"); ("GET", "/keys/:id/usage");
   ("GET", "/providers"); ("POST", "/providers"); ("GET", "/providers/:id"); ("PATCH", "/providers/:id"); ("DELETE", "/providers/:id");
   ("GET", "/providers/:id/models"); ("POST", "/providers/:id/models"); ("DELETE", "/providers/:id/models/:modelId");
   ("GET", "/providers/:id/health");
   ("GET", "/circuit-breakers"); ("POST", "/circuit-breakers/:id/reset");
   ("GET", "/cache"); ("POST", "/cache/flush"); ("DELETE", "/cache/:fingerprint");
   ("GET", "/logs")]%string.

(** What [buildApp] registers. *)
Definition routes (METRICS_ENABLED : bool) : list (string * string * guard) :=
  ([("GET", "/health", Open_); ("GET", "/ready", Open_)]%string ++
   (if METRICS_ENABLED then [("GET", "/metrics", Open_)]%string else []) ++
   under "/v1" KeyHolder v1_routes ++ under "/admin" Administrator admin_routes)%list.

(** ** Requests *)

(** What a request for a [/v1] route meets: the database's error, if its queries
    fail, and the id the limiter draws. *)
Record v1_env := { v_db_error : option thrown; v_uuid : string }.

(** Where a request is routed, with its parameters. *)
Inductive target :=
| Health
| Ready (database redis : bool)
| MetricsPage
| Chat (r : http_request) (env : v1_env)
| Embed (r : http_request) (env : v1_env)
| Models (r : http_request) (env : v1_env)
| AdminTo (h : headers) (env : surroundings) (r : admin_request)
| PluginRoute (path : string)        (* the OPTIONS route @fastify/cors registers *)
| Nowhere.

Definition admin_pattern (r : admin_request) : string * string :=
  match r with
  | AdminHealth => ("GET", "/health")
  | Keys (PostKeys _) => ("POST", "/keys")
  | Keys GetKeys => ("GET", "/keys")
  | Keys (GetKey _) => ("GET", "/keys/:id")
  | Keys (PatchKey _ _) => ("PATCH", "/keys/:id")
  | Keys (DeleteKey _) => ("DELETE", "/keys/:id")
  | Keys (GetUsage _ _) => ("GET", "/keys/:id/usage")
  | Providers GetProviders => ("GET", "/providers")
  | Providers (PostProviders _) => ("POST", "/providers")
  | Providers (GetProvider _) => ("GET", "/providers/:id")
  | Providers (PatchProvider _ _) => ("PATCH", "/providers/:id")
  | Providers (DeleteProvider _) => ("DELETE", "/providers/:id")
  | Providers (GetModels _) => ("GET", "/providers/:id/models")
  | Providers (PostModels _ _) => ("POST", "/providers/:id/models")
  | Providers (DeleteModel _ _) => ("DELETE", "/providers/:id/models/:modelId")
  | Providers (GetHealth _) => ("GET", "/providers/:id/health")
  | GetBreakers => ("GET", "/circuit-breakers")
  | ResetBreaker _ => ("POST", "/circuit-breakers/:id/reset")
  | GetCache => ("GET", "/cache")
  | FlushCache => ("POST", "/cache/flush")
  | DeleteCached _ => ("DELETE", "/cache/:fingerprint")
  | Logs _ => ("GET", "/logs")
  end%string.

(** The method and the route pattern, [request.routeOptions.url]. *)
Definition pattern (t : target) : option (string * string) :=
  match t with
  | Health => Some ("GET", "/health")
  | Ready _ _ => Some ("GET", "/ready")
  | MetricsPage => Some ("GET", "/metrics")
  | Chat _ _ => Some ("POST", "/v1/chat/completions")
  | Embed _ _ => Some ("POST", "/v1/embeddings")
  | Models _ _ => Some ("GET", "/v1/models")
  | AdminTo _ _ r => let p := admin_pattern r in Some (p.1, ("/admin" ++ p.2)%string)
  | PluginRoute path => Some ("OPTIONS", path)
  | Nowhere => None
  end%string.

Definition guard_of (t : target) : guard :=
  match t with
  | Chat _ _ | Embed _ _ | Models _ _ => KeyHolder
  | AdminTo _ _ _ => Administrator
  | _ => Open_
  end.

(** How a request ends for Fastify: its response was sent; or the client went
    away, and Fastify runs [onRequestAbort] or runs no hook at all.  Which of the
    two is the framework's affair; docs/reliability.md measures the latter. *)
Inductive request_end := Completed | AbortReported | AbortUnreported.

Record arrival := {
  ar_method : string; ar_url : string;
  ar_headers : header_list;          (* as the plugins see them *)
  ar_request_id : option string;     (* the X-Request-Id header *)
  ar_randomUUID : string;
  ar_overloaded : bool;              (* under-pressure sheds the request *)
  ar_body_error : option thrown;     (* the body could not be read or parsed *)
  ar_end : request_end;
  ar_target : target
}.

(** ** State *)

Record gateway := {
  g_wire : world * list HttpRequest;     (* Redis, clock, registry, log queue; what was sent upstream *)
  g_keys : list key_record;
  g_providers : list provider_record;
  g_models : list model_record;
  g_health : health_table;
  g_logs : list log_row;
  g_metrics : metrics;
  g_told : list sample;                  (* what prom-client was told of the router's work *)
  g_arrived : nat                        (* requests so far *)
}.

(** The configuration and the libraries of the process. *)
Record Process := {
  pc_config : Config; pc_limiter : limiter_config; pc_auth_ttl : Z;
  pc_host : Host; pc_admin : AdminHost; pc_net : Network world;
  pc_encoded_length : TiktokenEncoding → string → Z;
  pc_zod_issues : json → json;
  pc_uuids : world → nat → string;
  pc_exposition : metrics → list sample → string;
  pc_contentType : string;
  (* @fastify/cors, registered with origin true: the reply with which its onRequest hook ends a
     request of this method and these headers, if it does; the reply of the route it registers *)
  pc_cors : string → header_list → option http_reply;
  pc_cors_route : http_reply;
  (* under-pressure: the headers it sets and the error it throws, from its message and retryAfter options *)
  pc_shed : string → Z → header_list * thrown
}.

Section App.
Context `{Cipher}.
Variable pc : Process.
Context {D : Type} (new_decoder : D) (decode : D → list Byte.byte → D * string) (decode_end : D → string).

Abbreviation admin := (pc_admin pc).
Abbreviation prefix := (cfg_prefix (pc_config pc)).
Abbreviation outside := (world * list HttpRequest)%type.

(** ** The state as the parts see it *)

Definition admin_view (g : gateway) : admin_state :=
  let w := (g_wire g).1 in
  {| a_keys := {| keys := g_keys g; store := w_db w |};
     a_providers := {| AdminProviders.providers := g_providers g; provider_models := g_models g; health := g_health g; reg := w_registry w |};
     a_logs := g_logs g |}.

Definition with_admin (st : admin_state) (g : gateway) : gateway :=
  let w := (g_wire g).1 in
  {| g_wire := (World (store (a_keys st)) (w_now w) (w_counters w) (reg (a_providers st)) (w_queue w) (w_fates w), (g_wire g).2);
     g_keys := keys (a_keys st); g_providers := AdminProviders.providers (a_providers st);
     g_models := provider_models (a_providers st); g_health := health (a_providers st); g_logs := a_logs st;
     g_metrics := g_metrics g; g_told := g_told g; g_arrived := g_arrived g |}.

Definition with_wire (x : outside) (g : gateway) : gateway :=
  {| g_wire := x; g_keys := g_keys g; g_providers := g_providers g; g_models := g_models g; g_health := g_health g;
     g_logs := g_logs g; g_metrics := g_metrics g; g_told := g_told g; g_arrived := g_arrived g |}.

Definition with_metrics (m : metrics) (g : gateway) : gateway :=
  {| g_wire := g_wire g; g_keys := g_keys g; g_providers := g_providers g; g_models := g_models g; g_health := g_health g;
     g_logs := g_logs g; g_metrics := m; g_told := g_told g; g_arrived := g_arrived g |}.

Definition with_told (xs : list sample) (g : gateway) : gateway :=
  {| g_wire := g_wire g; g_keys := g_keys g; g_providers := g_providers g; g_models := g_models g; g_health := g_health g;
     g_logs := g_logs g; g_metrics := g_metrics g; g_told := (g_told g ++ xs)%list; g_arrived := g_arrived g |}.

Definition arrived (g : gateway) : gateway :=
  {| g_wire := g_wire g; g_keys := g_keys g; g_providers := g_providers g; g_models := g_models g; g_health := g_health g;
     g_logs := g_logs g; g_metrics := g_metrics g; g_told := g_told g; g_arrived := S (g_arrived g) |}.

(** ** The [/v1] routes *)

Definition table {A} (env : v1_env) (rows : A) : result thrown A :=
  match v_db_error env with Some e => Err e | None => Ok rows end.

(** The host with the tables of this gateway behind it. *)
Definition host_of (env : v1_env) (g : gateway) : Host :=
  let h := pc_host pc in
  {| Wiring.sha256Hex := Wiring.sha256Hex h; Wiring.localeCompare := Wiring.localeCompare h; secureRandomInt := secureRandomInt h;
     JSON_parse := JSON_parse h; decrypt := credential (master admin) (previous admin);
     load_table := λ _, table env (active_rows (a_providers (admin_view g)));
     Wiring.chat := Wiring.chat h; Wiring.chatStream := Wiring.chatStream h; Wiring.embed := Wiring.embed h;
     countTokens := countTokens h; refuse_amount := refuse_amount h |}.

Definition router_deps (env : v1_env) (g : gateway) : RouterDeps outside :=
  outbound (production (pc_config pc) (host_of env g)) (pc_net pc) (JSON_parse (pc_host pc)) new_decoder decode decode_end
    (pc_encoded_length pc) (pc_zod_issues pc) (pc_uuids pc).

Definition fate3 (w : world) : fault := head (tail (tail (w_fates w))) ?? Up.

Definition wire_authenticate (env : v1_env) (g : gateway) (h : headers) (w : world) : world * result thrown GatewayContext :=
  let '(d, r) := authPreHandler (hashApiKey (sha256 admin)) (JSON_parse (pc_host pc)) prefix (pc_auth_ttl pc)
                   (fate w) (fate2 w) (fate3 w) (table env (map kr_row (g_keys g))) h (w_now w) (w_db w) in
  (set_db 3 d w, r).

(** A limiter that is switched off sends no command. *)
Definition wire_check (env : v1_env) (key : string) (limits : RateLimitConfig) (w : world) : world * result thrown RateLimitResult :=
  match check prefix (pc_limiter pc) key limits (w_now w) (v_uuid env) with
  | Done limit => (w, Ok limit)
  | _ => breaker_call (λ now, check prefix (pc_limiter pc) key limits now (v_uuid env)) w
  end.

Definition route_deps (env : v1_env) (g : gateway) : RouteDeps outside := {|
  authenticate h := lift (wire_authenticate env g h);
  limiter_check key limits := lift (wire_check env key limits);
  Http.encoded_length := pc_encoded_length pc;
  zod_issues := pc_zod_issues pc;
  collate := Wiring.localeCompare (pc_host pc)
|}.

(** A computation of a route, on the wire; [converges] rules out the last case. *)
Definition on_wire (m : M outside http_reply) (g : gateway) : gateway * http_reply :=
  let '(x, t, r) := m (g_wire g) in
  (with_told (samples t) (with_wire x g),
   match r with Ret reply => reply | Throw e => error_reply [] e | Diverge => SseReply [] [] end).

(** ** All routes *)

Definition ready_reply (database redis : bool) : http_reply :=
  let ready := database && redis in
  JsonReply (if ready then 200 else 503) []
    (JObj [("status"%string, JStr (if ready then "ready" else "not_ready"));
           ("checks"%string, JObj [("database"%string, JBool database); ("redis"%string, JBool redis)])]).

Definition not_found_reply (method url : string) : http_reply :=
  match notFoundHandler method url with
  | SendJson status extra body => JsonReply status extra body
  | EndSocket => SseReply [] []
  end.

(** The admin routes run at the gateway's own time. *)
Definition at_now (now : Z) (env : surroundings) : surroundings :=
  let a := around (s_provider_env env) in
  {| s_provider_env := {| around := {| db_error := db_error a; cache_fate := cache_fate a; clock := now; new_id := new_id a;
                                       random_bytes := random_bytes a |};
                          load_error := load_error (s_provider_env env) |};
     s_batches := s_batches env; s_pages := s_pages env; s_counted := s_counted env; s_usage := s_usage env;
     s_database := s_database env; s_redis := s_redis env |}.

(** [request.id] is the id Fastify got from [genRequestId]. *)
Definition identified (a : arrival) (r : http_request) : http_request :=
  {| Http.req_auth := Http.req_auth r; req_cache_control := req_cache_control r;
     req_id := genRequestId (ar_request_id a) (ar_randomUUID a); Http.req_body := Http.req_body r |}.

(** The handler a request is routed to, behind its guard. *)
Definition handle (a : arrival) (g : gateway) : gateway * http_reply :=
  match ar_target a with
  | Health => (g, JsonReply 200 [] (JObj [("status"%string, JStr "ok")]))
  | Ready database redis => (g, ready_reply database redis)
  | MetricsPage => (g, JsonReply 200 [("content-type"%string, pc_contentType pc)] (JStr (pc_exposition pc (g_metrics g) (g_told g))))
  | Chat r env => on_wire (v1 (route_deps env g) (completions_handler (router_deps env g) (route_deps env g)) (identified a r)) g
  | Embed r env => on_wire (v1 (route_deps env g) (embeddings_handler (router_deps env g) (route_deps env g)) (identified a r)) g
  | Models r env => on_wire (v1 (route_deps env g) (λ _, models_handler (router_deps env g) (route_deps env g)) (identified a r)) g
  | AdminTo h env r =>
      let '(st, reply) := adminRoutes admin (at_now (w_now (g_wire g).1) env) h r (admin_view g) in (with_admin st g, reply)
  | PluginRoute _ => (g, pc_cors_route pc)
  | Nowhere => (g, not_found_reply (ar_method a) (ar_url a))
  end.

(** ** The hooks around a request *)

Definition status_of (reply : http_reply) : Z := match reply with JsonReply status _ _ => status | SseReply _ _ => 200 end.

Definition with_header (h : string * string) (reply : http_reply) : http_reply :=
  match reply with
  | JsonReply status hs body => JsonReply status (h :: hs) body
  | SseReply hs frames => SseReply (h :: hs) frames
  end.

(** [requestIdHook]. *)
Definition requestIdHook (a : arrival) (reply : http_reply) : http_reply :=
  with_header (HEADERS.REQUEST_ID, genRequestId (ar_request_id a) (ar_randomUUID a)) reply.

(** A request shed by [@fastify/under-pressure]: its headers, then the error
    handler on the error it throws. *)
Definition shed_reply : http_reply :=
  let '(hs, e) := pc_shed pc "The gateway is under heavy load. Please retry shortly." 50 in error_reply hs e.

(** The plugins' own [onRequest] hooks, which are registered before the gateway's:
    cors may answer the request, then under-pressure may shed it. *)
Definition plugin_reply (a : arrival) : option http_reply :=
  match pc_cors pc (ar_method a) (ar_headers a) with
  | Some reply => Some reply
  | None => if ar_overloaded a then Some shed_reply else None
  end.

(** The hook that reports the request's end, if one does. *)
Definition ended (a : arrival) (reply : http_reply) (n : nat) : option hook :=
  match ar_end a with
  | Completed => Some (Responds n (status_of reply))
  | AbortReported => Some (Aborts n)
  | AbortUnreported => None
  end.
Definition report (now : Z) (h : option hook) (m : metrics) : metrics := match h with Some h => on_hook now h m | None => m end.

Definition now_ns (g : gateway) : Z := w_now (g_wire g).1 * 1000000.

(** A request: a plugin may answer it before the gateway's own hooks run; then
    those hooks, the body, and the handler. *)
Definition serve (a : arrival) (g : gateway) : gateway * http_reply :=
  let n := g_arrived g in
  let route := snd <$> pattern (ar_target a) in
  match plugin_reply a with
  | Some reply =>
      let m := g_metrics g in
      let m := {| inFlight := inFlight m; httpRequests := httpRequests m; httpDuration := httpDuration m;
                  requests := <[n := fresh_request (ar_method a) route]> (requests m) |} in
      (with_metrics (report (now_ns g) (ended a reply n) m) (arrived g), reply)
  | None =>
      let g := with_metrics (on_hook (now_ns g) (Arrives n (ar_method a) route) (g_metrics g)) (arrived g) in
      let '(g, reply) := match ar_body_error a with
                         | Some e => (g, error_reply [] e)
                         | None => handle a g
                         end in
      let reply := requestIdHook a reply in
      (with_metrics (report (now_ns g) (ended a reply n) (g_metrics g)) g, reply)
  end.

Definition serve_all (l : list arrival) (g : gateway) : gateway := foldl (λ g a, (serve a g).1) g l.
End App.

(** ** The route table *)

(** [/metrics] is routed to only when it is registered; the rest of the table is
    the gateway's own. *)
Definition routed (METRICS_ENABLED : bool) (t : target) : Prop :=
  (t = MetricsPage → METRICS_ENABLED = true) ∧ ∀ path, t ≠ PluginRoute path.

Lemma pattern_registered METRICS_ENABLED t method path : routed METRICS_ENABLED t → pattern t = Some (method, path) →
  (method, path, guard_of t) ∈ routes METRICS_ENABLED.
Proof.
  intros [Hr Hn] Hp. destruct METRICS_ENABLED; (destruct t as [| | | | | | h env r | plugged |]; try done; try (by destruct (Hn plugged));
    [injection Hp as <- <- .. | destruct r as [| [] | [] | | | | | |]; injection Hp as <- <-]);
    try (by discriminate (Hr eq_refl)); cbn; by repeat (first [left | right]).
Qed.

(** The table is unambiguous, and only three routes are open. *)
Lemma routes_guarded METRICS_ENABLED :
  NoDup (map fst (routes METRICS_ENABLED)) ∧
  ∀ method path g, (method, path, g) ∈ routes METRICS_ENABLED →
    (starts_with "/v1/" path = true → g = KeyHolder) ∧ (starts_with "/admin/" path = true → g = Administrator) ∧
    (g = Open_ → path ∈ ["/health"; "/ready"; "/metrics"]%string).
Proof.
  split; [refine (bool_decide_eq_true_1 _ _); by destruct METRICS_ENABLED; vm_compute |].
  assert (H : Forall (λ r, (starts_with "/v1/" r.1.2 = true → r.2 = KeyHolder) ∧ (starts_with "/admin/" r.1.2 = true → r.2 = Administrator) ∧
    (r.2 = Open_ → r.1.2 ∈ ["/health"; "/ready"; "/metrics"]%string)) (routes METRICS_ENABLED)).
  { destruct METRICS_ENABLED; repeat (constructor; [split_and!; first [done | intros _; refine (bool_decide_eq_true_1 _ _); by vm_compute] |]); constructor. }
  intros method path g Hin. exact (proj1 (list.Forall_forall _ _) H (method, path, g) Hin).
Qed.

(** ** What a request leaves alone *)

(** Everything but the metrics and the count of requests. *)
Definition rest_of (g : gateway) := (g_wire g, g_keys g, g_providers g, g_models g, g_health g, g_logs g).

Lemma with_admin_view g : with_admin (admin_view g) g = g.
Proof. destruct g as [[[] ?] ? ? ? ? ? ? ?]. done. Qed.

Section Served.
Context `{Cipher}.
Variable pc : Process.
Context {D : Type} (new_decoder : D) (decode : D → list Byte.byte → D * string) (decode_end : D → string).
Abbreviation handles := (handle pc new_decoder decode decode_end).
Abbreviation serves := (serve pc new_decoder decode decode_end).

(** Requests are numbered in the order they arrive. *)
Definition numbered (g : gateway) : Prop := ∀ i, (g_arrived g <= i)%nat → requests (g_metrics g) !! i = None.

Lemma handle_metrics a g : g_metrics (handles a g).1 = g_metrics g ∧ g_arrived (handles a g).1 = g_arrived g.
Proof using.
  unfold App.handle, on_wire. destruct (ar_target a); try done;
    try (match goal with |- context [v1 ?x ?y ?r ?w] => destruct (v1 x y r w) as [[? ?] [?|?|]] end; done).
  by destruct (adminRoutes _ _ _ _ _).
Qed.

Lemma open_handled a g : guard_of (ar_target a) = Open_ → (handles a g).1 = g.
Proof using. unfold App.handle. by destruct (ar_target a). Qed.

Lemma admin_refused a h env r g : ar_target a = AdminTo h env r →
  (∀ x y, length (sha256 (pc_admin pc) x) = length (sha256 (pc_admin pc) y)) →
  (∀ k, sha256 (pc_admin pc) (utf8 k) = sha256 (pc_admin pc) (utf8 (ADMIN_API_KEY (pc_admin pc))) → k = ADMIN_API_KEY (pc_admin pc)) →
  extractAdminKey h ≠ Some (ADMIN_API_KEY (pc_admin pc)) → handles a g = (g, JsonReply 403 [] refused).
Proof using.
  intros Ht H1 H2 Hne. unfold App.handle. rewrite Ht, gate_refuses by done. by rewrite with_admin_view.
Qed.

(** The headers and the environment of a request that needs a key. *)
Definition key_request_of (t : target) : option (http_request * v1_env) :=
  match t with Chat r env | Embed r env | Models r env => Some (r, env) | _ => None end.

Lemma key_refused a r env g e : key_request_of (ar_target a) = Some (r, env) →
  (wire_authenticate pc env g (req_auth r) (g_wire g).1).2 = Err e →
  handles a g = (with_wire ((wire_authenticate pc env g (req_auth r) (g_wire g).1).1, (g_wire g).2) g, error_reply [] e).
Proof using.
  intros Ht E. unfold App.handle, on_wire.
  assert (Hv : ∀ h, v1 (route_deps pc env g) h (identified a r) (g_wire g) =
    (((wire_authenticate pc env g (req_auth r) (g_wire g).1).1, (g_wire g).2), [Authenticated], Ret (error_reply [] e))).
  { intros h.
    assert (Ec : call Authenticated (authenticate (route_deps pc env g) (req_auth r)) (g_wire g) =
      (((wire_authenticate pc env g (req_auth r) (g_wire g).1).1, (g_wire g).2), [Authenticated], Throw e)).
    { apply call_err. cbn [authenticate route_deps]. unfold lift.
      destruct (wire_authenticate _ _ _ _ _) as [w x]. cbn [snd] in E. by subst x. }
    unfold v1, try_catch. by erewrite bind_throw by exact Ec. }
  destruct (ar_target a); try done; injection Ht as -> ->; rewrite Hv; unfold with_told; cbn; by rewrite app_nil_r.
Qed.

(** A request object that is settled at once. *)
Lemma settle_new n now r code m : requests m !! n = Some r → metricsSettled r = false →
  let m' := settle n code now m in
  inFlight m' = inFlight m - 1 ∧ httpRequests m' = inc (rm_method r, rm_route r ?? "unknown"%string, code) (httpRequests m) ∧
  ∀ i, i ≠ n → requests m' !! i = requests m !! i.
Proof using.
  intros Hr Hs. unfold settle. rewrite Hr, Hs. cbn [inFlight httpRequests requests]. split_and!; try done.
  intros i Hi. by rewrite lookup_insert_ne.
Qed.

(** Whether a hook runs at the request's end, and the status it reports. *)
Definition reported (a : arrival) : bool := match ar_end a with AbortUnreported => false | _ => true end.
Definition code_of (a : arrival) (reply : http_reply) : string :=
  match ar_end a with Completed => dec (status_of reply) | _ => "499" end.

Lemma ended_settles a reply n now m :
  report now (ended a reply n) m = if reported a then settle n (code_of a reply) now m else m.
Proof using. unfold ended, reported, code_of. by destruct (ar_end a). Qed.

(** What the report of an arrived request's end does to the metrics. *)
Lemma end_report a reply n now r m : requests m !! n = Some r → metricsSettled r = false →
  let m' := report now (ended a reply n) m in
  inFlight m' = inFlight m - (if reported a then 1 else 0) ∧
  httpRequests m' = (if reported a then inc (rm_method r, rm_route r ?? "unknown"%string, code_of a reply) (httpRequests m) else httpRequests m) ∧
  ∀ i, i ≠ n → requests m' !! i = requests m !! i.
Proof using.
  intros Hr Hs. cbv zeta. rewrite ended_settles. destruct (reported a); [by apply settle_new |]. split_and!; [lia | done | done].
Qed.

(** How [serve] runs a request that no plugin answers. *)
Lemma serve_run a g : plugin_reply pc a = None →
  let n := g_arrived g in
  let route := snd <$> pattern (ar_target a) in
  let g0 := with_metrics (on_hook (now_ns g) (Arrives n (ar_method a) route) (g_metrics g)) (arrived g) in
  let x := match ar_body_error a with Some e => (g0, error_reply [] e) | None => handles a g0 end in
  let reply := requestIdHook a x.2 in
  serves a g = (with_metrics (report (now_ns x.1) (ended a reply n) (g_metrics g0)) x.1, reply) ∧
  rest_of g0 = rest_of g.
Proof using.
  intros Ho. cbv zeta. unfold App.serve. rewrite Ho. set (g0 := with_metrics _ (arrived g)). split; [| done].
  destruct (ar_body_error a) as [e|]; cbn [fst snd]; [done |].
  pose proof (handle_metrics a g0) as [Hm _]. destruct (handles a g0) as [g1 reply]. cbn [fst snd] in *. by rewrite Hm.
Qed.

Lemma arrival_counted a g now : numbered g →
  let n := g_arrived g in
  let route := snd <$> pattern (ar_target a) in
  let m := on_hook now (Arrives n (ar_method a) route) (g_metrics g) in
  ∃ r, requests m !! n = Some r ∧ metricsSettled r = false ∧ rm_method r = ar_method a ∧ rm_route r = route ∧
    inFlight m = inFlight (g_metrics g) + 1 ∧ httpRequests m = httpRequests (g_metrics g) ∧
    ∀ i, i ≠ n → requests m !! i = requests (g_metrics g) !! i.
Proof using.
  intros Hn. cbv zeta. cbn [on_hook]. rewrite (Hn _ (Nat.le_refl _)). unfold metricsOnRequest. cbn [inFlight httpRequests requests].
  rewrite alter_insert_eq, lookup_insert_eq. eexists. split_and!; try done. intros i Hi. by rewrite lookup_insert_ne.
Qed.
End Served.

(** What under-pressure throws is answered 503. *)
Lemma under_pressure_status hs name message o : field "code" o = Some (JStr "FST_UNDER_PRESSURE") →
  status_of (error_reply hs (TError name message o)) = 503.
Proof.
  intros Ec. assert (E : normalizeError (TError name message o) = ServiceUnavailableError (Some message) no_options).
  { unfold normalizeError, isFastifyError. cbn [thrown_props default]. change (Some o ?? []) with o. unfold ErrorHandler.has_key. by rewrite Ec. }
  unfold error_reply, errorHandler. by rewrite E.
Qed.

(** ** Theorem *)

(** C10: Every request is answered, counted and guarded, and the in-flight gauge
    is accounted for. A request whose end Fastify reports (its response was sent,
    or its client left and the abort hook ran) adds one to the request counter of
    its method, route pattern and status (499 for an abort); one whose abort no
    hook reports is not counted. The gauge returns to where it was for a request
    that reaches the gateway's hooks and whose end is reported. It stays one too
    high for one whose abort is not, and falls one too low for one a plugin
    answered first, as cors answers preflights and under-pressure sheds load
    (with 503): its start was never counted. These carry no X-Request-Id and
    touch nothing; every other reply carries it. A
    request whose body cannot be read is answered by the error handler and
    touches nothing; so do the open routes and unknown paths, whatever they
    answer; under /v1 a request that does not authenticate gets the error of its
    authentication and touches nothing beyond it; under /admin one without the
    administrator's key gets 403 and touches nothing. *)
Theorem request_served `{Cipher} pc {D} (new_decoder : D) decode decode_end a g :
  let admin := pc_admin pc in
  (∀ x y, length (sha256 admin x) = length (sha256 admin y)) →
  (∀ k, sha256 admin (utf8 k) = sha256 admin (utf8 (ADMIN_API_KEY admin)) → k = ADMIN_API_KEY admin) →
  numbered g →
  let g' := (serve pc new_decoder decode decode_end a g).1 in
  let reply := (serve pc new_decoder decode decode_end a g).2 in
  numbered g' ∧ g_arrived g' = S (g_arrived g) ∧
  httpRequests (g_metrics g') =
    (if reported a
     then inc (ar_method a, (snd <$> pattern (ar_target a)) ?? "unknown"%string, code_of a reply) (httpRequests (g_metrics g))
     else httpRequests (g_metrics g)) ∧
  inFlight (g_metrics g') =
    inFlight (g_metrics g) + (match plugin_reply pc a with Some _ => 0 | None => 1 end) - (if reported a then 1 else 0) ∧
  match plugin_reply pc a with
  | Some r => reply = r ∧ rest_of g' = rest_of g ∧
    ∀ hs name message o, pc_cors pc (ar_method a) (ar_headers a) = None →
      pc_shed pc "The gateway is under heavy load. Please retry shortly." 50 = (hs, TError name message o) →
      field "code" o = Some (JStr "FST_UNDER_PRESSURE") → status_of reply = 503
  | None => ∃ handled, reply = requestIdHook a handled ∧
    match ar_body_error a with
    | Some e => handled = error_reply [] e ∧ rest_of g' = rest_of g
    | None =>
        match ar_target a with
        | Chat r env | Embed r env | Models r env => ∀ e w,
            wire_authenticate pc env g (req_auth r) (g_wire g).1 = (w, Err e) →
            handled = error_reply [] e ∧ rest_of g' = rest_of (with_wire (w, (g_wire g).2) g)
        | AdminTo h _ _ => extractAdminKey h ≠ Some (ADMIN_API_KEY admin) →
            handled = JsonReply 403 [] refused ∧ rest_of g' = rest_of g
        | _ => rest_of g' = rest_of g
        end
    end
  end.
Proof.
  cbv zeta. intros Hlen Hinj Hn. destruct (plugin_reply pc a) as [answer|] eqn:Eo.
  - unfold serve. rewrite Eo. set (m0 := {| inFlight := _ |}).
    destruct (end_report a answer (g_arrived g) (now_ns g) (fresh_request (ar_method a) (snd <$> pattern (ar_target a))) m0)
      as (Hg & Hc & Hr); [apply lookup_insert_eq | done |].
    cbn [fst snd with_metrics arrived g_metrics g_arrived]. split_and!; try done.
    2: { rewrite Hg. cbn [inFlight m0]. lia. }
    2: { intros hs name message o Ec E Eco. unfold plugin_reply in Eo. rewrite Ec in Eo. destruct (ar_overloaded a); [| done].
         injection Eo as <-. unfold shed_reply. rewrite E. by apply under_pressure_status. }
    intros i Hi. cbn [with_metrics g_metrics g_arrived arrived] in *. rewrite Hr by lia. cbn [requests m0]. rewrite lookup_insert_ne by lia. apply Hn. lia.
  - destruct (serve_run pc new_decoder decode decode_end a g Eo) as [Hs Hrest]. cbv zeta in Hs, Hrest. rewrite Hs. clear Hs.
    destruct (arrival_counted a g (now_ns g) Hn) as (r & Hr & Hset & Hm & Hro & Hin & Hreq & Hoth).
    set (g0 := with_metrics _ (arrived g)) in *. change (on_hook _ _ _) with (g_metrics g0) in Hr, Hin, Hreq, Hoth.
    set (x := match ar_body_error a with Some e => (g0, error_reply [] e) | None => handle pc new_decoder decode decode_end a g0 end).
    assert (Hx : g_arrived x.1 = S (g_arrived g)).
    { unfold x. destruct (ar_body_error a); [done |]. by rewrite (proj2 (handle_metrics pc new_decoder decode decode_end a g0)). }
    destruct (end_report a (requestIdHook a x.2) (g_arrived g) (now_ns x.1) r (g_metrics g0) Hr Hset) as (Hg & Hc & Hi).
    cbn [fst snd with_metrics g_metrics g_arrived]. split_and!.
    + intros i Hle. cbn [with_metrics g_metrics g_arrived] in *. rewrite Hx in Hle. rewrite Hi, Hoth by lia. apply Hn. lia.
    + exact Hx.
    + by rewrite Hc, Hm, Hro, Hreq.
    + rewrite Hg, Hin. lia.
    + exists x.2. split; [done |]. unfold x. destruct (ar_body_error a) as [e|]; [done |].
      assert (Ho : ∀ t, ar_target a = t → guard_of t = Open_ → rest_of (handle pc new_decoder decode decode_end a g0).1 = rest_of g)
        by (intros t Et Hgt; rewrite open_handled by (by rewrite Et); done).
      assert (Hk : ∀ r env e w, key_request_of (ar_target a) = Some (r, env) →
        wire_authenticate pc env g (req_auth r) (g_wire g).1 = (w, Err e) →
        (handle pc new_decoder decode decode_end a g0).2 = error_reply [] e ∧
        rest_of (handle pc new_decoder decode decode_end a g0).1 = rest_of (with_wire (w, (g_wire g).2) g)).
      { intros r' env e w Ht E. change (wire_authenticate pc env g0 (req_auth r') (g_wire g0).1 = (w, Err e)) in E.
        rewrite (key_refused pc new_decoder decode decode_end a r' env g0 e Ht) by (by rewrite E). rewrite E. done. }
      destruct (ar_target a) as [| | | r' env | r' env | r' env | h env r' | path |] eqn:Et; try (by apply (Ho _ eq_refl)); try (intros e w; by apply Hk).
      intros Hne. by rewrite (admin_refused pc new_decoder decode decode_end a h env r' g0 Et).
Qed.

(** ** A process with one API key *)

Definition sample_network : Network world := {|
  fetch q w := (Wiring.later 100 w, unavailable);
  fetch_stream q w := (Wiring.later 100 w, {| reply := unavailable; Adapter.reads := []; broken := None |});
  await_chunk w := w
|}.
Definition sample_process : Process := {|
  pc_config := Wiring.sample_config;
  pc_limiter := {| RATE_LIMIT_ENABLED := true; RATE_LIMIT_BURST_ENABLED := false; RATE_LIMIT_BURST_MULTIPLIER := 1; RATE_LIMIT_BURST_WINDOW_MS := 1000 |};
  pc_auth_ttl := 300; pc_host := Wiring.sample_host; pc_admin := AdminRoutes.sample_host; pc_net := sample_network;
  pc_encoded_length _ s := Z.of_nat (String.length s); pc_zod_issues _ := JArr []; pc_uuids _ _ := "u"%string;
  pc_exposition _ _ := ""%string; pc_contentType := "text/plain";
  pc_cors method _ := if String.eqb method "OPTIONS" then Some (JsonReply 204 [] JNull) else None; pc_cors_route := JsonReply 200 [] JNull;
  pc_shed message retryAfter := ([("Retry-After"%string, dec retryAfter)], TError "FastifyError" message [("code"%string, JStr "FST_UNDER_PRESSURE")])
|}.
Definition sample_gateway : gateway := {|
  g_wire := (boot, []); g_keys := [sample_key (hashApiKey admin_digest "gw-1")];
  g_providers := AdminProviders.providers one_model; g_models := provider_models one_model; g_health := ∅;
  g_logs := []; g_metrics := no_metrics; g_told := []; g_arrived := 0
|}.
Definition sample_env : v1_env := {| v_db_error := None; v_uuid := "u" |}.
Definition arrives (method url : string) (overloaded : bool) (t : target) : arrival := {|
  ar_method := method; ar_url := url; ar_headers := []; ar_request_id := Some "r-1"%string; ar_randomUUID := "u"; ar_overloaded := overloaded;
  ar_body_error := None; ar_end := Completed; ar_target := t
|}.
Definition bearer (key : string) : headers := {| h_authorization := Some ("Bearer " ++ key)%string; h_x_api_key := None |}.
Definition chat_call : http_request := {|
  Http.req_auth := bearer "gw-1"; Http.req_cache_control := None; Http.req_id := "r-1";
  Http.req_body := JObj [("model"%string, JStr "m-1"); ("messages"%string, JArr [JObj [("role"%string, JStr "user"); ("content"%string, JStr "hi")]])] |}.
Definition chat_arrival : arrival := arrives "POST" "/v1/chat/completions" false (Chat chat_call sample_env).
Definition delete_arrival (key : string) : arrival :=
  arrives "DELETE" "/admin/keys/1" false (AdminTo (bearer key) sample_surroundings (Keys (DeleteKey sample_id))).
Definition sample_serve := serve sample_process tt (λ _ _, (tt, ""%string)) (λ _, ""%string).

(** Another end than the response. *)
Definition ends (e : request_end) (a : arrival) : arrival := {|
  ar_method := ar_method a; ar_url := ar_url a; ar_headers := ar_headers a; ar_request_id := ar_request_id a;
  ar_randomUUID := ar_randomUUID a; ar_overloaded := ar_overloaded a; ar_body_error := ar_body_error a; ar_end := e;
  ar_target := ar_target a
|}.

(** A deletion without the administrator's key; a request that is shed; a
    preflight; a call whose client leaves unnoticed. *)
Lemma request_served_witness :
  rest_of (sample_serve (delete_arrival "gw-1") sample_gateway).1 = rest_of sample_gateway ∧
  httpRequests (g_metrics (sample_serve (delete_arrival "gw-1") sample_gateway).1) = {[("DELETE", "/admin/keys/:id", "403")%string := 1]} ∧
  inFlight (g_metrics (sample_serve (arrives "GET" "/health" true Health) sample_gateway).1) = -1 ∧
  inFlight (g_metrics (sample_serve (arrives "OPTIONS" "/v1/models" false (PluginRoute "*")) sample_gateway).1) = -1 ∧
  inFlight (g_metrics (sample_serve (ends AbortReported chat_arrival) sample_gateway).1) = 0 ∧
  inFlight (g_metrics (sample_serve (ends AbortUnreported chat_arrival) sample_gateway).1) = 1.
Proof.
  assert (Hn : numbered sample_gateway) by (intros i _; apply lookup_empty).
  pose proof (λ a, request_served sample_process tt (λ _ _, (tt, ""%string)) (λ _, ""%string) a sample_gateway (λ _ _, eq_refl)
    sample_admin_key Hn) as H.
  destruct (H (delete_arrival "gw-1")) as (_ & _ & Hc & _ & reply & E & Hd).
  destruct Hd as [-> Hr]; [by vm_compute |]. split; [exact Hr |].
  split; [| split; [exact (proj1 (proj2 (proj2 (proj2 (H _))))) | split; [exact (proj1 (proj2 (proj2 (proj2 (H _))))) |
    split; exact (proj1 (proj2 (proj2 (proj2 (H _)))))]]].
  unfold sample_serve. rewrite Hc, E.
  change (httpRequests (g_metrics sample_gateway)) with (∅ : gmap labels Z). unfold inc. rewrite lookup_empty. reflexivity.
Defined.
