(* ===== verification/Revocation.v ===== *)
(** * Revocation across the whole gateway

    Which keys of the store each component writes, the invariant that a revoked
    API key stays shut out, and that every request keeps it, whatever route it
    is for and whoever sends it. *)

From Stdlib Require Import ZArith Lia QArith String Ascii.
From stdpp Require Import base gmap strings list fin_maps.
From S2P Require Import Prelude Redis Numerals Constants Bytes Json Errors ErrorHandler Types Crypto Tokens Stream CircuitBreaker RateLimiter LoadBalancer Provider CostTracker Registry Cache Auth Router Effects Wiring Footprint Http Metrics HealthMonitor BreakerListing Admin AdminKeys AdminProviders AdminLogs AdminRoutes Adapter Adapters Outbound App.
Open Scope Z_scope.

(** ** A key that is not in the store *)

(** [k] does not appear. *)
Definition spares (k : string) (s s' : db) : Prop := s !! k = None → s' !! k = None.

Lemma spares_refl k s : spares k s s.
Proof. by intros H. Qed.
Lemma spares_trans k s1 s2 s3 : spares k s1 s2 → spares k s2 s3 → spares k s1 s3.
Proof. unfold spares. tauto. Qed.

Lemma keeps_spares k s s' : keeps k s s' → spares k s s'.
Proof. unfold spares. by intros ->. Qed.

(** Deletions only remove. *)
Lemma deletes_spare ks k f now s : spares k s (client f (redis_call (DEL ks)) now s).1.
Proof.
  assert (H : spares k s (foldl (λ s k, delete k s) s ks)).
  { revert s. induction ks as [|k' ks IH]; intros s Hs; [done |]. apply IH. by rewrite lookup_delete_None; right. }
  destruct f; cbn [client fst]; [| apply spares_refl |]; rewrite run_redis_call; exact H.
Qed.

(** ** What each component spares *)

Section Components.
Context (prefix hash : string).
Abbreviation entry := (redisKeys.authKey prefix hash).

(** What leaves the entry as it is spares it. *)
Lemma spend_spares f1 f2 key cost now s : spares entry s (addSpend prefix f1 f2 key cost now s).
Proof. apply keeps_spares, spend_keeps. unfold spendKey. key_ne. Qed.
Lemma limiter_spares c key limits now uuid f s : spares entry s (client f (check prefix c key limits now uuid) now s).1.
Proof. apply keeps_spares, limiter_keeps, _. Qed.
Lemma breaker_spares {A} i f (p : prog A) now s : writes_within (cb_keys prefix i) p → spares entry s (client f p now s).1.
Proof. intros Hp. by apply keeps_spares, (breaker_keeps prefix _ i). Qed.

(** EXPIRE creates no key. *)
Lemma expire_spares k f ms now s : spares entry s (client f (redis_call (PEXPIRE k ms)) now s).1.
Proof.
  destruct (decide (entry = k)) as [<- | Hne]; [| by eapply keeps_spares, command_keeps_one].
  intros Hs. destruct f; cbn [client fst]; [| done |]; rewrite run_redis_call; cbn [exec]; unfold look; by rewrite Hs.
Qed.

Lemma cached_spares JSON_parse ttl f1 f2 k now s : spares entry s (cached_context JSON_parse ttl f1 f2 k now s).1.
Proof.
  unfold cached_context. destruct (client_get f1 k now s) as (x & -> & _).
  destruct x as [[| v | | | | | |]|]; cbn [fst]; try apply spares_refl. destruct (JSON_parse _) as [j|]; [| apply spares_refl].
  pose proof (expire_spares k f2 (ttl * 1000) now s) as He. fold (EXPIRE k ttl) in He.
  destruct j; try apply spares_refl; (destruct (expired _ _); [apply deletes_spare |];
    by destruct (client f2 (redis_call (EXPIRE k ttl)) now s) as [? []]).
Qed.

(** Authentication writes the entry of the key it is for, if the key is active. *)
Lemma authenticate_spares hashApiKey JSON_parse ttl f1 f2 f3 tbl h now s :
  (∀ rows, tbl = Ok rows → ∀ r, r ∈ rows → k_keyHash r = hash → k_isActive r = false) →
  spares entry s (authPreHandler hashApiKey JSON_parse prefix ttl f1 f2 f3 tbl h now s).1.
Proof.
  intros Hoff. unfold authPreHandler. destruct (extractApiKey h) as [raw|]; [| apply spares_refl].
  unfold authenticateKey. set (k := redisKeys.authKey prefix (hashApiKey raw)).
  pose proof (cached_spares JSON_parse ttl f1 f2 k now s) as Hc.
  destruct (cached_context JSON_parse ttl f1 f2 k now s) as [s1 [c|]]; [exact Hc |]. cbn [fst] in Hc.
  unfold find_key. destruct tbl as [rows|e]; cbn [res_bind]; [| exact Hc].
  destruct (List.find _ rows) as [row|] eqn:Ef; [| exact Hc]. destruct (expired _ _); [exact Hc |].
  eapply spares_trans; [exact Hc |]. eapply keeps_spares, command_keeps_one; [done |].
  apply find_some in Ef as [Hin Hb]. apply andb_true_iff in Hb as [He%String.eqb_eq Ha]. apply list_elem_of_In in Hin.
  intros E. unfold k, redisKeys.authKey in E. rewrite !keys_same_prefix in E.
  rewrite (Hoff rows eq_refl row Hin) in Ha by congruence. done.
Qed.
End Components.

(** ** A request keeps a key out of the cache *)

(** [k] does not appear in the store of the gateway. *)
Definition keeps_out (k : string) (x y : world * list HttpRequest) (_ : list event) : Prop := spares k (w_db x.1) (w_db y.1).

#[export] Instance keeps_out_effect k : Effect (keeps_out k).
Proof. split; [intros; apply spares_refl | intros x y z t1 t2; apply spares_trans]. Qed.

(** One prefix for all keys; calls upstream leave the store alone. *)
Record well_wired (pc : Process) : Prop := {
  router_prefix : CACHE_KEY_PREFIX (cfg_cache (pc_config pc)) = cfg_prefix (pc_config pc);
  admin_prefix : CACHE_KEY_PREFIX (cache_config (pc_admin pc)) = cfg_prefix (pc_config pc);
  random_fair : random_ok (secureRandomInt (pc_host pc));
  fetch_apart q w : w_db (fetch (pc_net pc) q w).1 = w_db w;
  stream_apart q w : w_db (fetch_stream (pc_net pc) q w).1 = w_db w;
  await_apart w : w_db (await_chunk (pc_net pc) w) = w_db w
}.

Section Requests.
Context `{Cipher}.
Context (pc : Process) (wired : well_wired pc).
Context {D : Type} (new_decoder : D) (decode : D → list Byte.byte → D * string) (decode_end : D → string).
Abbreviation prefix := (cfg_prefix (pc_config pc)).
Context (hash : string) (env : v1_env) (g : gateway).
(** No active row has the hash. *)
Hypothesis inactive : ∀ r, r ∈ g_keys g → k_keyHash (kr_row r) = hash → k_isActive (kr_row r) = false.
Abbreviation entry := (redisKeys.authKey prefix hash).
Abbreviation R := (keeps_out entry).
Abbreviation outside := (world * list HttpRequest)%type.
Abbreviation deps := (router_deps pc new_decoder decode decode_end env g).
Abbreviation app := (route_deps pc env g).

Lemma router_lawful : LawfulBalancer deps.
Proof using wired. apply outbound_lawful, production_lawful. exact (random_fair pc wired). Qed.

(** A script of the breaker, through the client. *)
Lemma call_spares {A} (p : Z → prog A) w : (∀ f now s, spares entry s (client f (p now) now s).1) →
  spares entry (w_db w) (w_db (breaker_call p w).1).
Proof using.
  intros Hp. unfold breaker_call. specialize (Hp (fate w) (w_now w) (w_db w)). by destruct (client _ _ _ _) as [d r].
Qed.

(** No operation of the router's touches the entry. *)
Lemma deps_keep_out : Respects R deps.
Proof using wired.
  apply (respects_mono (λ x y t, spot prefix entry x.1 y.1 t)).
  - intros x y t [Hk _]. apply keeps_spares, Hk, list.Forall_forall. intros c _. unfold spendKey. key_ne.
  - apply outbound_respects, production_spot; [apply _ | apply wired].
Qed.

Lemma chat_keeps_out P request : calls_with R P (λ p, provider_chat deps p request) (λ _, True).
Proof using wired.
  intros p x _. split; [| by destruct (provider_chat deps p request x).2]. unfold keeps_out. cbn -[spares]. unfold adapter_chat.
  pose proof (fetch_apart pc wired) as Ha. match goal with |- context [fetch ?n ?q ?w] => specialize (Ha q w); destruct (fetch n q w) as [w' o] end.
  cbn [fst] in *. rewrite Ha. apply spares_refl.
Qed.

Lemma embed_keeps_out P request : calls_with R P (λ p, provider_embed deps p request) (λ _, True).
Proof using wired.
  intros p x _. split; [| by destruct (provider_embed deps p request x).2]. unfold keeps_out. cbn -[spares]. unfold adapter_embed.
  destruct (pr_embed_request _ _) as [q|]; [| apply spares_refl].
  pose proof (fetch_apart pc wired q x.1) as Ha. destruct (fetch _ q x.1) as [w' o]. cbn [fst] in *. rewrite Ha. apply spares_refl.
Qed.

Lemma stream_keeps_out P request : calls_with R P (open_stream deps request) (λ r, flows R r.1.2).
Proof using wired.
  intros p x _. unfold open_stream. cbn [provider_chatStream router_deps outbound]. unfold adapter_stream.
  pose proof (stream_apart pc wired) as Ha. match goal with |- context [fetch_stream ?n ?q ?w] => specialize (Ha q w); destruct (fetch_stream n q w) as [w' o] end.
  cbn [fst] in Ha. set (s := pr_chatStream _ _ _).
  assert (Hx : R x (w', (x.2 ++ [pr_request (adapter (production (pc_config pc) (host_of pc env g)) (JSON_parse (pc_host pc)) new_decoder
    decode decode_end (pc_encoded_length pc) (pc_zod_issues pc) (pc_uuids pc) p x.1) request true])%list) [Called (p_id p)]).
  { unfold keeps_out. cbn [fst]. rewrite Ha. apply spares_refl. }
  destruct (chunks s) as [|c l]; [destruct (failure s) |]; cbn [to_upstream next fst snd]; (split; [exact Hx |]); [done | |].
  - intros y. apply spares_refl.
  - assert (Hw : ∀ y, R y (lift_ (await_chunk (pc_net pc)) y) []).
    { intros y. unfold keeps_out, lift_. cbn [fst]. rewrite (await_apart pc wired). apply spares_refl. }
    clear Hx. induction l as [|c' l IH]; [by destruct (failure s) | by split].
Qed.

Lemma limited_keeps_out ctx est k : (∀ l, effect R (k l) (λ _, True)) → effect R (limited app ctx est k) (λ _, True).
Proof using wired.
  intros Hk. unfold limited. apply effect_catch; [apply _ | | intros; by apply effect_ret; [apply _ |]].
  apply effect_then; [apply _ | |].
  - apply effect_call. intros x. split; [| by destruct (limiter_check app _ _ x).2]. unfold keeps_out.
    cbn [limiter_check route_deps]. unfold lift, wire_check.
    set (limits := {| RateLimiter.rpmLimit := Auth.rpmLimit ctx; RateLimiter.tpmLimit := Auth.tpmLimit ctx; estimatedTokens := est |}).
    pose proof (call_spares (λ now, check prefix (pc_limiter pc) (apiKeyId ctx) limits now (v_uuid env)) x.1
      (λ f now s, limiter_spares prefix hash (pc_limiter pc) (apiKeyId ctx) limits now (v_uuid env) f s)) as Hs.
    destruct (check prefix (pc_limiter pc) (apiKeyId ctx) limits (w_now x.1) (v_uuid env)); [apply spares_refl | |];
    by destruct (breaker_call _ _).
  - intros l. apply effect_catch; [apply _ | | intros; by apply effect_ret; [apply _ |]]. destruct (negb _); [| apply Hk].
    apply effect_then; [apply _ | apply effect_tell; intros; apply spares_refl | intros; apply effect_throw, _].
Qed.

Lemma completions_keep_out r ctx : effect R (completions_handler deps app r ctx) (λ _, True).
Proof using wired.
  unfold completions_handler. destruct (chatCompletionRequestSchema _) as [body|]; [| by apply effect_ret; [apply _ |]].
  apply limited_keeps_out. intros l. destruct (match stream body with Some true => true | _ => false end).
  - intros x. pose proof (stream_resolved deps body ctx None) as E.
    assert (Hs : effect R (let? (meta, generate) := prepareStream deps body ctx in generate None) (λ _, True)).
    { intros y. rewrite E. apply resolved_effect; [apply _ | apply deps_keep_out |]. intros res.
      apply stream_rest_effect; [apply _ | apply deps_keep_out | apply router_lawful | apply stream_keeps_out]. }
    specialize (Hs x). unfold mbind_ in Hs |- *. destruct (prepareStream deps body ctx x) as [[y t1] [[meta generate]|e|]]; [| done | done].
    destruct (generate None y) as [[z t2] [[ch fl]|e|]]; destruct Hs as [Hs _]; split; try done; exact Hs.
  - apply effect_then; [apply _ | | intros [response meta]; by apply effect_ret; [apply _ |]].
    rewrite chat_resolved. apply resolved_effect; [apply _ | apply deps_keep_out |]. intros res.
    apply chat_rest_effect; [apply _ | apply deps_keep_out | apply router_lawful | apply chat_keeps_out].
Qed.

Lemma embeddings_keep_out r ctx : effect R (embeddings_handler deps app r ctx) (λ _, True).
Proof using wired.
  unfold embeddings_handler. destruct (embeddingRequestSchema _) as [body|]; [| by apply effect_ret; [apply _ |]].
  apply limited_keeps_out. intros l. cbv zeta. apply effect_then; [apply _ | | intros [response meta]; by apply effect_ret; [apply _ |]].
  rewrite embeddings_resolved. apply resolved_effect; [apply _ | apply deps_keep_out |]. intros res.
  apply embeddings_rest_effect; [apply _ | apply deps_keep_out | apply router_lawful | apply embed_keeps_out].
Qed.

Lemma models_keep_out ctx : effect R (models_handler deps app ctx) (λ _, True).
Proof using wired.
  unfold models_handler. apply effect_catch; [apply _ | | intros; by apply effect_ret; [apply _ |]].
  apply effect_then; [apply _ | | intros _; apply effect_then; [apply _ | apply effect_reads, _ | intros; by apply effect_ret; [apply _ |]]].
  apply effect_call. intros x. split; [apply deps_keep_out | by destruct (refreshIfStale deps x).2].
Qed.

(** Every [/v1] route, behind its authentication. *)
Lemma v1_keeps_out handler r : (∀ ctx, effect R (handler r ctx) (λ _, True)) → effect R (v1 app handler r) (λ _, True).
Proof using wired inactive.
  intros Hh. unfold v1. apply effect_catch; [apply _ | | intros; by apply effect_ret; [apply _ |]].
  apply effect_then; [apply _ | | apply Hh]. apply effect_call. intros x. split; [| by destruct (authenticate app _ x).2].
  unfold keeps_out. cbn [authenticate route_deps]. unfold lift, wire_authenticate.
  pose proof (authenticate_spares prefix hash (hashApiKey (sha256 (pc_admin pc))) (JSON_parse (pc_host pc)) (pc_auth_ttl pc)
    (fate x.1) (fate2 x.1) (fate3 x.1) (table env (map kr_row (g_keys g))) (req_auth r) (w_now x.1) (w_db x.1)) as Hs.
  destruct (authPreHandler _ _ _ _ _ _ _ _ _ _ _) as [d res]. apply Hs. intros rows Et row Hin Hh'.
  unfold table in Et. destruct (v_db_error env); [done |]. injection Et as <-. apply list_elem_of_fmap in Hin as (k & -> & Hk). by apply inactive.
Qed.

Lemma on_wire_keeps_out m : effect R m (λ _, True) → spares entry (w_db (g_wire g).1) (w_db (g_wire (on_wire m g).1).1).
Proof using.
  intros Hm. destruct (Hm (g_wire g)) as [HR _]. unfold on_wire. destruct (m (g_wire g)) as [[x t] [a|e|]]; exact HR.
Qed.
End Requests.

(** ** The invariant *)

(** The key with this hash and id is switched off and not cached. *)
Definition shut_out (pc : Process) (hash id : string) (g : gateway) : Prop :=
  w_db (g_wire g).1 !! redisKeys.authKey (cfg_prefix (pc_config pc)) hash = None ∧
  (∃ r, r ∈ g_keys g ∧ k_keyHash (kr_row r) = hash) ∧
  ∀ r, r ∈ g_keys g → k_keyHash (kr_row r) = hash → k_id (kr_row r) = id ∧ k_isActive (kr_row r) = false.

(** Not an update of the key with this id, which could switch it on again. *)
Definition never_reopens (id : string) (a : arrival) : Prop :=
  match ar_target a with
  | AdminTo _ _ (Keys (PatchKey i _)) => uuid_column i ≠ id
  | _ => True
  end.

(** The table and the store, as the routes of the keys see them. *)
Definition key_out (k hash id : string) (st : key_state) : Prop :=
  store st !! k = None ∧ (∃ r, r ∈ keys st ∧ k_keyHash (kr_row r) = hash) ∧
  ∀ r, r ∈ keys st → k_keyHash (kr_row r) = hash → k_id (kr_row r) = id ∧ k_isActive (kr_row r) = false.

Section Keys.
Context (prefix k hash id : string).

Lemma update_out env i f st : key_out k hash id st →
  (∀ f', f = Ok f' → keeps_key f' ∧ (uuid_column i ≠ id ∨ ∀ r, k_isActive (kr_row (f' r)) = false)) →
  key_out k hash id (update_key env i f st).1.
Proof.
  intros Hst Hf. unfold update_key, query. destruct (db_error env); [done |].
  destruct f as [f|e]; [| done]. destruct Hst as (Hs & (r0 & Hr0 & Hh0) & Hall). destruct (Hf f eq_refl) as [Hk Hi]. cbn [fst]. split; [done |]. cbn [keys]. split.
  - destruct (decide (key_id r0 = uuid_column i)) as [E | Hne].
    + exists (f r0). split; [apply elem_of_update; exists r0; split; [done | by left] | by rewrite (proj2 (Hk r0))].
    + exists r0. split; [apply elem_of_update; exists r0; split; [done | by right] | done].
  - intros r (x & Hx & Hr)%elem_of_update Hh. destruct Hr as [[E ->] | [Hne ->]]; [| by apply Hall].
    destruct (Hk x) as [Ei Eh]. rewrite Eh in Hh. destruct (Hall x Hx Hh) as [Hid Hoff]. rewrite Ei. split; [done |].
    destruct Hi as [Hi | Hi]; [| apply Hi]. unfold key_id in E. congruence.
Qed.

Lemma updated_out env (reply : key_record → admin_reply) x : key_out k hash id x.1 → key_out k hash id (updated prefix env reply x).1.
Proof.
  unfold updated. destruct x as [st [[row|]|e]]; try done. cbn [fst]. intros (Hs & He & Hall). split; [| done].
  unfold invalidateAuthCache. by apply deletes_spare.
Qed.

Lemma keys_out datetime toISOString numeric sha256 zod_issues env r st :
  (match r with PatchKey i _ => uuid_column i ≠ id | _ => True end) → key_out k hash id st →
  key_out k hash id (keysRoutes datetime toISOString numeric sha256 zod_issues prefix env r st).1.
Proof.
  intros Hr Hst. destruct r as [body | | i | i body | i | i usage]; cbn [keysRoutes]; try done.
  - unfold post_keys. destruct (createKeySchema _ _) as [p|]; [| done]. destruct (generateApiKey _ _) as [raw h].
    unfold query. destruct (db_error env); [done |]. destruct (numeric_column _ _) as [b|]; [| done]. cbn [res_bind].
    destruct (existsb _ _) eqn:Ex; [done |]. destruct Hst as (Hs & (r0 & Hr0 & Hh0) & Hall). cbn [fst]. split; [done |]. cbn [keys].
    split; [exists r0; split; [apply elem_of_app; by left | done] |].
    intros r [Hin | ->%list_elem_of_singleton]%elem_of_app Hh; [by apply Hall |]. exfalso.
    cbn [kr_row k_keyHash] in Hh. apply not_true_iff_false in Ex. apply Ex, existsb_exists. exists r0. apply list_elem_of_In in Hr0.
    split; [done |]. rewrite Hh0, Hh. apply String.eqb_refl.
  - unfold patch_keys. destruct (parseId i) as [i'|] eqn:Ei; [| done].
    assert (i' = i) as -> by (unfold parseId in Ei; destruct (is_uuid i); congruence).
    destruct (patchKeySchema _ _) as [p|]; [| done]. apply updated_out, update_out; [done |].
    intros f. destruct (patch_budget _ _) as [b|]; [| done]. intros [= <-]. split; [apply with_patch_keeps | by left].
  - unfold delete_key. destruct (parseId i) as [i'|] eqn:Ei; [| done]. apply updated_out, update_out; [done |].
    intros f [= <-]. split; [apply deactivate_keeps | by right].
Qed.
End Keys.

Section Gateway.
Context `{Cipher}.
Context (pc : Process) (wired : well_wired pc).
Context {D : Type} (new_decoder : D) (decode : D → list Byte.byte → D * string) (decode_end : D → string).
Context (hash id : string).
Abbreviation prefix := (cfg_prefix (pc_config pc)).
Abbreviation entry := (redisKeys.authKey prefix hash).
Abbreviation serves := (serve pc new_decoder decode decode_end).
Abbreviation serves_all := (serve_all pc new_decoder decode decode_end).
Abbreviation shut := (shut_out pc hash id).

Lemma shut_out_view g : shut g ↔ key_out entry hash id (a_keys (admin_view g)).
Proof using. done. Qed.

Lemma shut_out_wire x g : spares entry (w_db (g_wire g).1) (w_db x.1) → shut g → shut (with_wire x g).
Proof using. intros Hs (H1 & H2 & H3). split; [by apply Hs | by split]. Qed.

(** The keys and the store are all that matters of the state. *)
Lemma key_out_store k s st : spares k (store st) s → key_out k hash id st → key_out k hash id {| keys := keys st; store := s |}.
Proof using. intros Hs (H1 & H2 & H3). split; [by apply Hs | by split]. Qed.

Lemma dispatch_out env r st : (match r with Keys (PatchKey i _) => uuid_column i ≠ id | _ => True end) →
  key_out entry hash id (a_keys st) → key_out entry hash id (a_keys (dispatch (pc_admin pc) env r st).1).
Proof using wired.
  intros Hr Hst. unfold dispatch. cbv zeta. rewrite (admin_prefix pc wired). destruct r as [| r | r | | i | | | fp | q]; try done.
  - pose proof (keys_out prefix entry hash id (datetime (pc_admin pc)) (toISOString (pc_admin pc)) (key_budget (pc_admin pc)) (sha256 (pc_admin pc))
      (body_issues (pc_admin pc)) (around (s_provider_env env)) r (a_keys st)) as Hk.
    destruct (keysRoutes _ _ _ _ _ _ _ _ _) as [k reply]. cbn [fst a_keys] in *. apply Hk; [by destruct r | done].
  - by destruct (providersRoutes _ _ _ _ _ _ _ _ _).
  - unfold reset_breaker. destruct (String.eqb i "")%string; [by destruct st as [[]] |].
    pose proof (breaker_spares prefix hash i (cache_fate (around (s_provider_env env))) (reset prefix i) (clock (around (s_provider_env env)))
      (store (a_keys st)) (reset_writes _ i)) as Hs. rewrite (admin_prefix pc wired).
    destruct (client _ _ _ _) as [s [a|e]]; by apply key_out_store.
  - unfold flush_cache, Cache.flush.
    assert (Hs : ∀ pages n now s, spares entry s (flush_pages pages n now s).1).
    { induction pages as [|[[[|b batch]|] f] pages IH]; intros n now s; cbn [flush_pages]; try apply spares_refl; [apply IH |].
      pose proof (deletes_spare (b :: batch) entry f now s) as Hd. destruct (client _ _ _ _) as [s1 [[]|]]; try exact Hd.
      eapply spares_trans; [exact Hd | apply IH]. }
    specialize (Hs (s_pages env) 0 (clock (around (s_provider_env env))) (store (a_keys st))).
    destruct (flush_pages _ _ _ _) as [s n]. by apply key_out_store.
  - unfold delete_cached. destruct (is_fingerprint fp); [| by destruct st as [[]]].
    match goal with |- context [client ?f (redis_call (DEL ?l)) ?n ?s] => pose proof (deletes_spare l entry f n s) as Hd;
      destruct (client f (redis_call (DEL l)) n s) as [s' [[]|]] end; by apply key_out_store.
Qed.

Lemma admin_out env h r st : (match r with Keys (PatchKey i _) => uuid_column i ≠ id | _ => True end) →
  key_out entry hash id (a_keys st) → key_out entry hash id (a_keys (adminRoutes (pc_admin pc) env h r st).1).
Proof using wired.
  intros Hr Hst. pose proof (dispatch_out env r st Hr Hst) as Hd. unfold adminRoutes. destruct (adminAuthPreHandler _ _ _); [| done].
  by destruct (dispatch _ _ _ _) as [st' [reply|e]].
Qed.

Lemma handle_out a g : never_reopens id a → shut g → shut (handle pc new_decoder decode decode_end a g).1.
Proof using wired.
  intros Ha Hg. unfold handle, never_reopens in *.
  assert (Hoff : ∀ r, r ∈ g_keys g → k_keyHash (kr_row r) = hash → k_isActive (kr_row r) = false) by (intros r Hr Hh; by apply Hg).
  assert (Hw : ∀ m, effect (keeps_out entry) m (λ _, True) → shut (on_wire m g).1).
  { intros m Hm. pose proof (on_wire_keeps_out pc hash g m Hm) as Hs. unfold on_wire in *.
    destruct (m (g_wire g)) as [[x t] [reply|e|]]; by apply shut_out_wire. }
  destruct (ar_target a) as [| | | r env | r env | r env | h env r | path |]; try done.
  - apply Hw, v1_keeps_out; [done | done |]. intros ctx. by apply completions_keep_out.
  - apply Hw, v1_keeps_out; [done | done |]. intros ctx. by apply embeddings_keep_out.
  - apply Hw, v1_keeps_out; [done | done |]. intros ctx. by apply models_keep_out.
  - pose proof (admin_out (at_now (w_now (g_wire g).1) env) h r (admin_view g) ltac:(by destruct r as [| [] | | | | | | |]) Hg) as Ho.
    by destruct (adminRoutes _ _ _ _ _) as [st reply].
Qed.

Lemma serve_out a g : never_reopens id a → shut g → shut (serves a g).1.
Proof using wired.
  intros Ha Hg. destruct (plugin_reply pc a) eqn:Eo.
  - unfold App.serve. by rewrite Eo.
  - destruct (serve_run pc new_decoder decode decode_end a g Eo) as [Hs _]. cbv zeta in Hs. rewrite Hs. cbn [fst].
    set (g0 := with_metrics _ (arrived g)). assert (Hg0 : shut g0) by done.
    destruct (ar_body_error a); [done |]. by apply (handle_out a g0).
Qed.

Lemma serve_all_out l : ∀ g, Forall (never_reopens id) l → shut g → shut (serves_all l g).
Proof using wired.
  induction l as [|a l IH]; intros g Hl Hg; [done |]. apply list.Forall_cons in Hl as [Ha Hl]. apply IH; [done |]. by apply serve_out.
Qed.

(** A request that presents the key. *)
Lemma shut_out_refused a g r env rawKey : plugin_reply pc a = None → ar_body_error a = None →
  key_request_of (ar_target a) = Some (r, env) → extractApiKey (req_auth r) = Some rawKey →
  hashApiKey (sha256 (pc_admin pc)) rawKey = hash → shut g →
  let e := match v_db_error env with Some e => e | None => unauthorized "Invalid API key." end in
  (serves a g).2 = requestIdHook a (error_reply [] e) ∧ (g_wire (serves a g).1).2 = (g_wire g).2.
Proof using.
  intros Eo Eb Et Er Eh (Hs & _ & Hall). cbv zeta. destruct (serve_run pc new_decoder decode decode_end a g Eo) as [E _]. cbv zeta in E.
  rewrite E, Eb. clear E. set (g0 := with_metrics _ (arrived g)).
  assert (Ha : (wire_authenticate pc env g0 (req_auth r) (g_wire g0).1).2 =
    Err (match v_db_error env with Some e => e | None => unauthorized "Invalid API key." end)).
  { unfold wire_authenticate, authPreHandler. rewrite Er. unfold authenticateKey, cached_context. rewrite Eh.
    destruct (client_get (fate (g_wire g0).1) entry (w_now (g_wire g0).1) (w_db (g_wire g0).1)) as (x & -> & Ex).
    assert (Hn : look_val (w_now (g_wire g0).1) (w_db (g_wire g0).1) entry = None).
    { unfold look_val, look. change (w_db (g_wire g0).1) with (w_db (g_wire g).1). by rewrite Hs. }
    rewrite Hn in Ex. unfold find_key, table.
    assert (Hf : List.find (λ row, String.eqb (k_keyHash row) hash && k_isActive row) (map kr_row (g_keys g0)) = None).
    { destruct (List.find _ _) as [row|] eqn:Ef; [| done]. apply find_some in Ef as [Hin Hb]. apply andb_true_iff in Hb as [He%String.eqb_eq Hact].
      apply list_elem_of_In, list_elem_of_fmap in Hin as (k & -> & Hk). destruct (Hall k Hk He) as [_ Hoff]. congruence. }
    destruct x as [[| v | | | | | |]|]; try done; (destruct (v_db_error env); cbn [res_bind]; [done | by rewrite Hf]). }
  rewrite (key_refused pc new_decoder decode decode_end a r env g0 _ Et Ha). done.
Qed.
End Gateway.

(** ** The deletion *)

Definition confirmed (reply : http_reply) : Prop :=
  match reply with JsonReply _ _ (JObj o) => field "deleted" o = Some (JBool true) | _ => False end.

Lemma errors_confirm_nothing hs e : ¬ confirmed (error_reply hs e).
Proof. done. Qed.

(** An update that switches the key off; its cached context is dropped, or there
    was none. *)
Lemma deactivated_out prefix env id st st1 rec row :
  keys_unique st → (cache_fate env = Down → store st !! redisKeys.authKey prefix (k_keyHash (kr_row rec)) = None) → rec ∈ keys st → k_id (kr_row rec) = uuid_column id →
  update_key env id (Ok (deactivate (clock env))) st = (st1, Ok (Some row)) →
  let hash := k_keyHash (kr_row rec) in
  key_out (redisKeys.authKey prefix hash) hash (uuid_column id)
    {| keys := keys st1; store := invalidateAuthCache prefix (cache_fate env) (k_keyHash (kr_row row)) (clock env) (store st1) |}.
Proof.
  intros [Hui Huh] Hup Hin Hid Eu. destruct (update_found env id _ st st1 row Eu) as (Est & Hk & r1 & Hr1 & Hid1 & ->).
  assert (r1 = rec) as -> by (apply (nodup_key key_id (keys st)); unfold key_id in *; congruence).
  split_and!; cbn [keys store].
  - unfold invalidateAuthCache. destruct (cache_fate env); cbn [client fst]; [| rewrite Est; by apply Hup |];
      rewrite run_redis_call; cbn [exec fst foldl]; apply lookup_delete_eq.
  - exists (deactivate (clock env) rec). split; [| done]. rewrite Hk. apply elem_of_update. exists rec. split; [done | by left].
  - intros r Hr Hh. rewrite Hk in Hr. apply elem_of_update in Hr as (z & Hz & Hr).
    assert (z = rec) as -> by (apply (nodup_key (λ r, k_keyHash (kr_row r)) (keys st)); [done | done | done |];
      by destruct Hr as [[_ ->] | [_ ->]]).
    destruct Hr as [[_ ->] | [Hne _]]; [by split | by destruct Hne].
Qed.

(** The deletion's DEL reached the server (whether or not its reply came back), or
    there was nothing to drop. *)
Definition dropped `{Cipher} (pc : Process) (env : surroundings) (hash : string) (g : gateway) : Prop :=
  cache_fate (around (s_provider_env env)) = Down → w_db (g_wire g).1 !! redisKeys.authKey (cfg_prefix (pc_config pc)) hash = None.

Lemma deleted_shuts_out `{Cipher} pc {D} (new_decoder : D) decode decode_end a g h env id rec :
  CACHE_KEY_PREFIX (cache_config (pc_admin pc)) = cfg_prefix (pc_config pc) →
  ar_target a = AdminTo h env (Keys (DeleteKey id)) → dropped pc env (k_keyHash (kr_row rec)) g →
  keys_unique (a_keys (admin_view g)) → rec ∈ g_keys g → k_id (kr_row rec) = uuid_column id →
  plugin_reply pc a = None → confirmed (App.serve pc new_decoder decode decode_end a g).2 →
  shut_out pc (k_keyHash (kr_row rec)) (uuid_column id) (App.serve pc new_decoder decode decode_end a g).1.
Proof.
  intros Hp Ht Hup Hu Hin Hid Eo.
  destruct (serve_run pc new_decoder decode decode_end a g Eo) as [-> _]. set (g0 := with_metrics _ (arrived g)).
  destruct (ar_body_error a); [done |]. unfold handle. rewrite Ht. unfold adminRoutes.
  destruct (adminAuthPreHandler _ _ _); [| done]. unfold dispatch. cbn [keysRoutes]. rewrite Hp. unfold delete_key.
  destruct (parseId id) as [i|] eqn:Ei; [| done].
  assert (i = id) as -> by (unfold parseId in Ei; destruct (is_uuid id); congruence).
  set (env' := around _). change (a_keys (admin_view g0)) with (a_keys (admin_view g)).
  destruct (update_key env' id (Ok (deactivate (clock env'))) (a_keys (admin_view g))) as [st1 [[row|]|e]] eqn:Eu; try done.
  intros _. exact (deactivated_out _ env' id _ st1 rec row Hu Hup Hin Hid Eu).
Qed.

(** ** Theorem *)

(** C6: A revoked key stays out, whatever else the gateway serves. Once the
    deletion of a key has been confirmed to the administrator and its cached
    context dropped (the DEL reached Redis, or nothing was cached), every later
    request that presents the key (and reaches the gateway, past the plugins that
    answer preflights and shed load) is answered with 401 Invalid API key (or with
    the database's own error) and nothing is sent upstream for it, after any
    number of other requests by anyone, with Redis up or failing at any point from
    then on, short of an update of that same key, which may switch it on again.
    The condition is needed: the code confirms the deletion also when the DEL was
    never sent, and a cached context then goes on serving the key
    ([undropped_key_serves]). *)
Theorem revoked_stays_out `{Cipher} pc {D} (new_decoder : D) decode decode_end g0 revocation h env0 id rec rawKey later a r env :
  let serve := serve pc new_decoder decode decode_end in
  let serve_all := serve_all pc new_decoder decode decode_end in
  well_wired pc → keys_unique (a_keys (admin_view g0)) →
  rec ∈ g_keys g0 → k_id (kr_row rec) = uuid_column id →
  k_keyHash (kr_row rec) = hashApiKey (sha256 (pc_admin pc)) rawKey →
  ar_target revocation = AdminTo h env0 (Keys (DeleteKey id)) → dropped pc env0 (hashApiKey (sha256 (pc_admin pc)) rawKey) g0 →
  plugin_reply pc revocation = None → confirmed (serve revocation g0).2 →
  Forall (never_reopens (uuid_column id)) later →
  plugin_reply pc a = None → ar_body_error a = None →
  key_request_of (ar_target a) = Some (r, env) → extractApiKey (req_auth r) = Some rawKey →
  let g := serve_all later (serve revocation g0).1 in
  let e := match v_db_error env with Some e => e | None => unauthorized "Invalid API key." end in
  (serve a g).2 = requestIdHook a (error_reply [] e) ∧ (g_wire (serve a g).1).2 = (g_wire g).2.
Proof.
  cbv zeta. intros Hw Hu Hin Hid Hh Ht Hup Hpr Hc Hl Eo Eb Et Er. 
  apply (shut_out_refused pc _ _ _ (hashApiKey (sha256 (pc_admin pc)) rawKey) (uuid_column id) a _ r env rawKey); try done.
  apply serve_all_out; [done | done |]. rewrite <- Hh in *. by apply (deleted_shuts_out pc _ _ _ revocation g0 h env0 id rec); [apply Hw | ..].
Qed.

(** The key works; it is deleted; other requests follow, its own among them;
    then the key is refused. *)
Definition sample_later : list arrival :=
  [arrives "GET" "/v1/models" false (Models chat_call sample_env); chat_arrival;
   arrives "DELETE" "/admin/cache/x" false (AdminTo (bearer "admin-1") sample_surroundings FlushCache)].

Lemma revoked_stays_out_witness :
  (g_wire (sample_serve chat_arrival sample_gateway).1).2 ≠ [] ∧
  let g := serve_all sample_process tt (λ _ _, (tt, ""%string)) (λ _, ""%string) sample_later
    (sample_serve (delete_arrival "admin-1") sample_gateway).1 in
  (sample_serve chat_arrival g).2 = requestIdHook chat_arrival (error_reply [] (unauthorized "Invalid API key.")).
Proof.
  assert (Hw : well_wired sample_process) by (by split).
  assert (Hu : keys_unique (a_keys (admin_view sample_gateway))) by (split; apply NoDup_singleton).
  assert (Hin : sample_key (hashApiKey admin_digest "gw-1") ∈ g_keys sample_gateway) by (by left).
  split; [by vm_compute |]. cbv zeta.
  apply (revoked_stays_out sample_process tt (λ _ _, (tt, ""%string)) (λ _, ""%string) sample_gateway (delete_arrival "admin-1")
    (bearer "admin-1") sample_surroundings sample_id (sample_key (hashApiKey admin_digest "gw-1")) "gw-1" sample_later chat_arrival
    chat_call sample_env Hw Hu Hin); try done; try by vm_compute. by repeat constructor.
Defined.

(** The key is cached, then deleted while Redis cannot be reached: the deletion is
    confirmed, and the next request with the key is served. *)
Definition unreached : surroundings :=
  let a := sample_admin_env in
  {| s_provider_env := {| around := Admin.Build_admin_env (db_error a) Down (clock a) (new_id a) (random_bytes a); load_error := None |};
     s_batches := []; s_pages := []; s_counted := []; s_usage := None; s_database := true; s_redis := false |}.
Definition caching_process : Process :=
  let h := pc_host sample_process in
  {| pc_config := pc_config sample_process; pc_limiter := pc_limiter sample_process; pc_auth_ttl := pc_auth_ttl sample_process;
     pc_host := {| sha256Hex := sha256Hex h; Wiring.localeCompare := Wiring.localeCompare h; secureRandomInt := secureRandomInt h;
       JSON_parse _ := Some (context_json (context_of (kr_row (sample_key (hashApiKey admin_digest "gw-1")))));
       Wiring.decrypt := Wiring.decrypt h; load_table := load_table h; Wiring.chat := Wiring.chat h; chatStream := chatStream h;
       Wiring.embed := Wiring.embed h; Wiring.countTokens := Wiring.countTokens h; refuse_amount := Wiring.refuse_amount h |};
     pc_admin := pc_admin sample_process; pc_net := pc_net sample_process; pc_encoded_length := pc_encoded_length sample_process;
     pc_zod_issues := pc_zod_issues sample_process; pc_uuids := pc_uuids sample_process; pc_exposition := pc_exposition sample_process;
     pc_contentType := pc_contentType sample_process; pc_cors := pc_cors sample_process; pc_cors_route := pc_cors_route sample_process; pc_shed := pc_shed sample_process |}.
Definition caching_serve := App.serve caching_process tt (λ _ _, (tt, ""%string)) (λ _, ""%string).

Example undropped_key_serves :
  let g1 := (caching_serve chat_arrival sample_gateway).1 in
  let '(g2, reply) := caching_serve (arrives "DELETE" "/admin/keys/1" false
    (AdminTo (bearer "admin-1") unreached (Keys (DeleteKey sample_id)))) g1 in
  let g3 := (caching_serve chat_arrival g2).1 in
  confirmed reply ∧ map (λ r, k_isActive (kr_row r)) (g_keys g2) = [false] ∧
  map (λ g, length (g_wire g).2) [g1; g2; g3] = [1; 1; 2]%nat.
Proof. by vm_compute. Qed.
