(* ===== verification/Outage.v ===== *)
(** * A gateway without Redis

    What a request meets while every command to Redis is rejected: an interface
    that says how each of the router's dependencies then behaves, the router's
    theorem over it, the production wiring that meets it, and the whole [/v1]
    route, where the rate limiter is the only component that does not degrade.

    This is about what is answered once the commands are rejected, not about when.
    While ioredis reconnects it holds the commands it is given (up to
    [REDIS_MAX_RETRIES_PER_REQUEST] attempts), the code awaits each of them
    without a deadline of its own, and a client that gives up before sees a
    request that hangs. *)

From Stdlib Require Import ZArith Lia QArith String.
From stdpp Require Import base gmap strings list fin_maps.
From S2P Require Import Prelude Redis Numerals Constants Bytes Json Errors ErrorHandler Types Crypto Tokens Stream CircuitBreaker RateLimiter LoadBalancer Provider Values CostTracker Registry Cache Auth Router Effects Wiring Http Metrics HealthMonitor BreakerListing Admin AdminKeys AdminProviders AdminLogs AdminRoutes Adapter Adapters Outbound App.

(** ** The interface *)

(** [dark n w]: in [w] at least the next [n] commands fail.  Each dependency
    spends at most as many as it sends. *)
Class Degrades {W} (deps : RouterDeps W) (dark : nat → W → Prop) : Prop := {
  dark_pred n w : dark (S n) w → dark n w;
  dark_refresh n w : dark n w → dark n (refreshIfStale deps w).1;
  dark_select n l w : l ≠ [] → dark (S n) w → ∃ w' p, lb_select deps l w = (w', Ok p) ∧ p ∈ l ∧ dark n w';
  dark_balancer_success n i l w : dark (S n) w → dark n (lb_recordSuccess deps i l w);
  dark_balancer_failure n i w : dark (S n) w → dark n (lb_recordFailure deps i w);
  dark_slot_release n i w : dark (S n) w → dark n (lb_release deps i w);
  dark_acquire n i w : dark (S n) w → ∃ w' e, cb_acquire deps i w = (w', Err e) ∧ dark n w';
  dark_breaker_success n i w : dark (S n) w → dark n (cb_recordSuccess deps i w).1;
  dark_breaker_failure n i w : dark (S n) w → dark n (cb_recordFailure deps i w).1;
  dark_cache_get n r w : dark (S (S n)) w → ∃ w', cache_get deps r w = (w', None) ∧ dark n w';
  dark_cache_set n r v w : dark (S n) w → dark n (cache_set deps r v w);
  dark_budget n k b w : dark (S n) w →
    ∃ w', ct_isOverBudget deps k b w = (w', match b with Some budget => Qle_bool budget 0 | None => false end) ∧ dark n w';
  dark_spend n k c w : dark (S (S n)) w → dark n (ct_addSpend deps k c w);
  dark_log n e w : dark n w → dark n (ct_enqueueRequest deps e w)
}.

(** ** The router in the dark *)

Section Dark.
Context {W : Type} (deps : RouterDeps W) (dark : nat → W → Prop) `{!Degrades deps dark}.

Lemma dark_le n k w : (k <= n)%nat → dark n w → dark k w.
Proof. induction 1; [done |]. intros H'. apply IHle. by apply dark_pred. Qed.

(** [m] spends at most [b] commands and returns something in [Q]. *)
Definition copes (b : nat) {A} (m : M W A) (Q : A → Prop) : Prop := ∀ n w, dark (b + n) w →
  ∃ w' t a, m w = (w', t, Ret a) ∧ Q a ∧ dark n w'.

Lemma copes_ret {A} (a : A) (Q : A → Prop) : Q a → copes 0 (ret a) Q.
Proof. intros HQ n w Hw. by exists w, [], a. Qed.
Lemma copes_tell e : copes 0 (tell e) (λ _, True).
Proof. intros n w Hw. by exists w, [e], tt. Qed.
Lemma copes_do b e op : (∀ n w, dark (b + n) w → dark n (op w)) → copes b (do_ e op) (λ _, True).
Proof. intros H n w Hw. exists (op w), [e], tt. split; [done |]. split; [done |]. by apply H. Qed.
Lemma copes_call {A} b e (op : W → W * result thrown A) (Q : A → Prop) :
  (∀ n w, dark (b + n) w → ∃ w' a, op w = (w', Ok a) ∧ Q a ∧ dark n w') → copes b (call e op) Q.
Proof. intros H n w Hw. destruct (H n w Hw) as (w' & a & E & HQ & Hd). exists w', [e], a. by rewrite (call_ok _ _ _ _ _ E). Qed.
Lemma copes_swallow e (op : W → W * result thrown unit) :
  (∀ n w, dark (S n) w → dark n (op w).1) → copes 1 (swallow (call e op)) (λ _, True).
Proof.
  intros H n w Hw. specialize (H n w Hw). unfold swallow, try_catch, call, ret.
  destruct (op w) as [w' [[]|x]]; by eexists _, _, _.
Qed.

Lemma copes_bind {A B} a b (m : M W A) (f : A → M W B) (I : A → Prop) (Q : B → Prop) :
  copes a m I → (∀ x, I x → copes b (f x) Q) → copes (a + b) (mbind_ m f) Q.
Proof.
  intros Hm Hf n w Hw. destruct (Hm (b + n)%nat w) as (w1 & t1 & x & E & Hx & H1); [by rewrite Nat.add_assoc |].
  destruct (Hf x Hx n w1 H1) as (w2 & t2 & y & E2 & Hy & H2). exists w2, (t1 ++ t2)%list, y. by rewrite (bind_ret _ _ _ _ _ _ E), E2.
Qed.
Lemma copes_then {A B} a b (m : M W A) (f : A → M W B) (Q : B → Prop) :
  copes a m (λ _, True) → (∀ x, copes b (f x) Q) → copes (a + b) (mbind_ m f) Q.
Proof. intros Hm Hf. apply (copes_bind a b m f (λ _, True)); auto. Qed.
Lemma copes_weaken {A} a b (m : M W A) (Q Q' : A → Prop) : copes a m Q → (a <= b)%nat → (∀ x, Q x → Q' x) → copes b m Q'.
Proof.
  intros H Hab HQ n w Hw. replace (b + n)%nat with (a + (b - a + n))%nat in Hw by lia.
  destruct (H _ w Hw) as (w' & t & x & E & Hx & Hd). exists w', t, x. split; [done |]. split; [auto |].
  apply (dark_le (b - a + n)); [lia | done].
Qed.

(** ** Providers *)

(** A call upstream sends nothing to the store, and serves or fails over. *)
Definition serves {A} (Q : A → Prop) (f : W → W * result thrown A) : Prop := ∀ n w, dark n w → ∃ w' a, f w = (w', Ok a) ∧ Q a ∧ dark n w'.
Definition fails_over {A} (f : W → W * result thrown A) : Prop :=
  ∀ n w, dark n w → ∃ w' e, f w = (w', Err e) ∧ retryable (from e) = true ∧ dark n w'.

Lemma attempt_serves {A} (Q : A → Prop) (f : Provider → W → W * result thrown A) p : serves Q (f p) →
  copes 2 (attempt deps f p) (λ r, ∃ a, r = Some a ∧ Q a).
Proof.
  intros Hf n w Hw. destruct (Hf _ w Hw) as (w1 & a & E & Ha & H1).
  destruct (copes_swallow (BreakerSuccess (p_id p)) (cb_recordSuccess deps (p_id p))) with (n := S n) (w := w1)
    as (w2 & t2 & [] & E2 & _ & H2); [intros; by apply dark_breaker_success | done |].
  unfold attempt, try_finally, try_catch. erewrite bind_ret by exact (call_ok _ _ _ _ _ E). erewrite bind_ret by exact E2.
  unfold release_slot, do_, ret. eexists _, _, _. split; [reflexivity |]. split; [by exists a |]. by apply dark_slot_release.
Qed.

Lemma attempt_fails_over {A} (f : Provider → W → W * result thrown A) p : fails_over (f p) →
  copes 3 (attempt deps f p) (λ r, r = None).
Proof.
  intros Hf n w Hw. destruct (Hf _ w Hw) as (w1 & e & E & Hr & H1).
  destruct (copes_swallow (BreakerFailure (p_id p)) (cb_recordFailure deps (p_id p))) with (n := S (S n)) (w := w1)
    as (w2 & t2 & [] & E2 & _ & H2); [intros; by apply dark_breaker_failure | done |].
  unfold attempt, try_finally, try_catch. erewrite bind_throw by exact (call_err _ _ _ _ _ E). unfold on_failure. rewrite Hr. cbn [negb].
  erewrite bind_ret by exact E2. unfold release_slot, metric_, do_, tell, ret, mbind_. eexists _, _, _. split; [reflexivity |].
  split; [done |]. apply dark_slot_release. by apply dark_balancer_failure.
Qed.

(** One of the providers serves, the rows sharing its id included. *)
Definition someone_serves {A} (Q : A → Prop) (f : Provider → W → W * result thrown A) (l : list Provider) : Prop :=
  Forall (λ p, serves Q (f p) ∨ fails_over (f p)) l ∧ ∃ p, p ∈ l ∧ ∀ q, q ∈ l → p_id q = p_id p → serves Q (f q).

(** A turn: it serves, or someone else still does. *)
Lemma attempt_either {A} (Q : A → Prop) (f : Provider → W → W * result thrown A) p l : someone_serves Q f l → p ∈ l →
  copes 3 (attempt deps f p) (λ r, match r with Some a => Q a | None => someone_serves Q f (others p l) end).
Proof.
  intros [Hall (q & Hq & Hs)] Hp. destruct (decide (p_id p = p_id q)) as [E | Hne].
  - apply (copes_weaken 2 3 _ (λ r, ∃ a, r = Some a ∧ Q a)); [by apply attempt_serves, Hs | lia | by intros r (a & -> & Ha)].
  - destruct (proj1 (list.Forall_forall _ _) Hall p Hp) as [H | H].
    + apply (copes_weaken 2 3 _ (λ r, ∃ a, r = Some a ∧ Q a)); [by apply attempt_serves | lia | by intros r (a & -> & Ha)].
    + apply (copes_weaken 3 3 _ (λ r, r = None)); [by apply attempt_fails_over | lia |]. intros r ->. split.
      * apply list.Forall_forall. intros x [Hx _]%elem_of_others. by apply (proj1 (list.Forall_forall _ _) Hall).
      * exists q. split; [by apply elem_of_others |]. intros x [Hx _]%elem_of_others. by apply Hs.
Qed.

(** The breaker fails open. *)
Lemma acquire_copes p : copes 1 (acquire deps p) (λ d, cd_allowed d = true).
Proof.
  intros n w Hw. destruct (dark_acquire n (p_id p) w Hw) as (w' & e & E & Hd). unfold acquire, try_catch.
  rewrite (call_err _ _ _ _ _ E). by eexists _, _, _.
Qed.

(** The loop reaches a provider that serves. *)
Lemma loop_copes {A} (Q : A → Prop) (f : Provider → W → W * result thrown A) : ∀ fuel remaining attempts,
  (length remaining <= fuel)%nat → someone_serves Q f remaining →
  copes (5 * length remaining) (failover_loop deps fuel f remaining attempts) (λ r, r.1.1 ∈ remaining ∧ Q r.1.2).
Proof.
  induction fuel as [|fuel IH]; intros remaining attempts Hfuel Hsome n w Hw;
    (assert (Hne : remaining ≠ []) by (intros ->; by destruct Hsome as [_ (? & ?%elem_of_nil & _)])); [destruct remaining; [done | simpl in Hfuel; lia] |].
  cbn [failover_loop]. rewrite bool_decide_eq_false_2 by done.
  assert (Hpos : (1 <= length remaining)%nat) by (destruct remaining; [done | simpl; lia]).
  destruct (dark_select (5 * length remaining - 1 + n) remaining w Hne) as (w1 & p & Es & Hp & H1);
    [eapply dark_le; [| exact Hw]; lia |].
  erewrite bind_ret by (unfold select_provider; rewrite Es; reflexivity).
  destruct (acquire_copes p (5 * length remaining - 2 + n)%nat w1) as (w2 & t2 & d & Ea & Hd & H2); [eapply dark_le; [| exact H1]; lia |].
  erewrite bind_ret by exact Ea. rewrite Hd. cbn [negb]. pose proof (others_length p remaining Hp) as Hlen.
  destruct (attempt_either Q f p remaining Hsome Hp (5 * length remaining - 5 + n)%nat w2) as (w3 & t3 & r & E3 & Hr & H3);
    [eapply dark_le; [| exact H2]; lia |].
  erewrite bind_ret by exact E3. destruct r as [a|].
  - eexists _, _, _. split; [reflexivity |]. split; [done |]. eapply dark_le; [| exact H3]. lia.
  - destruct (IH (others p remaining) (attempts + 1)%Z ltac:(lia) Hr n w3) as (w4 & t4 & x & E4 & Hx & H4); [eapply dark_le; [| exact H3]; lia |].
    rewrite E4. eexists _, _, _. split; [reflexivity |]. split; [| done]. destruct Hx as [Hx ?]. apply elem_of_others in Hx. tauto.
Qed.
(** The commands of a chat completion over [l] candidates. *)
Definition chat_commands (l : nat) : nat := 2 + (1 + (5 * l + (1 + (2 + 1)))).

(** A reply whose counts the counters take. *)
Definition countable (r : ChatCompletionResponse) : Prop :=
  sound_count (prompt_tokens (r_usage r)) ∧ sound_count (completion_tokens (r_usage r)).

Lemma metrics_copes p m l pt ct o : takes_counts deps → sound_count pt → sound_count ct →
  copes 1 (recordProviderMetrics deps p m l pt ct (estimateCost (getModel p m) pt ct) o) (λ _, True).
Proof.
  intros Ht Hp Hc n w Hw. rewrite metrics_told by (by apply refused_counts). eexists _, _, _. split; [reflexivity |].
  split; [done |]. by apply dark_balancer_success.
Qed.

(** The gate is open for every key but those with no budget at all. *)
Lemma budget_copes ctx : match monthlyBudgetUsd ctx with Some b => (0 < b)%Q | None => True end →
  copes 1 (enforceBudget deps ctx) (λ _, True).
Proof.
  intros Hb n w Hw. destruct (dark_budget n (apiKeyId ctx) (monthlyBudgetUsd ctx) w Hw) as (w' & E & Hd).
  rewrite budget_run, E. exists w', [BudgetChecked (apiKeyId ctx)], tt. split; [| by split].
  assert (match monthlyBudgetUsd ctx with Some budget => Qle_bool budget 0 | None => false end = false) as ->; [| done].
  destruct (monthlyBudgetUsd ctx) as [b|]; [| done]. apply not_true_iff_false. rewrite Qle_bool_iff. by apply Qlt_not_le.
Qed.

(** A reply of one of the providers. *)
Definition served_by (l : list Provider) (x : ChatCompletionResponse * RouterMeta) : Prop :=
  meta_cacheStatus x.2 ≠ HIT ∧ ∃ p, p ∈ l ∧ meta_providerId x.2 = Some (p_id p).

Lemma timed_serves {A} (Q : A → Prop) (f : W → W * result thrown A) : serves Q f → serves (λ x, Q x.1) (timed deps f).
Proof. intros H n w Hw. destruct (H n w Hw) as (w' & a & E & Ha & Hd). unfold timed. rewrite E. by eexists _, _. Qed.
Lemma timed_fails_over {A} (f : W → W * result thrown A) : fails_over f → fails_over (timed deps f).
Proof. intros H n w Hw. destruct (H n w Hw) as (w' & e & E & Hr & Hd). unfold timed. rewrite E. by eexists _, _. Qed.
Lemma timed_someone {A} (Q : A → Prop) (f : Provider → W → W * result thrown A) l :
  someone_serves Q f l → someone_serves (λ x, Q x.1) (λ p, timed deps (f p)) l.
Proof.
  intros [Hall (p & Hp & Hs)]. split; [| exists p; split; [done |]; intros q Hq E; by apply timed_serves, Hs].
  eapply Forall_impl; [exact Hall |]. intros q [H | H]; [left; by apply timed_serves | right; by apply timed_fails_over].
Qed.

Lemma serve_chat_copes request ctx options res eligible :
  takes_counts deps → match monthlyBudgetUsd ctx with Some b => (0 < b)%Q | None => True end →
  someone_serves countable (λ p, provider_chat deps p (with_model request (canonicalModel res))) (map c_provider (candidates res)) →
  copes (1 + (5 * length (map c_provider (candidates res)) + (1 + (2 + 1))))
    (serve_chat deps request ctx options res eligible) (served_by (map c_provider (candidates res))).
Proof.
  intros Ht Hb Hs. unfold serve_chat. cbv zeta. apply copes_then; [by apply budget_copes |]. intros _.
  eapply copes_bind; [apply loop_copes; [done | by apply timed_someone] |].
  intros [[p [response latencyMs]] n] (Hp & Hpt & Hct). cbn [fst snd] in *. apply copes_then; [by apply metrics_copes |]. intros _.
  apply copes_then; [apply copes_do; intros; by apply dark_spend |]. intros _.
  apply (copes_then 0 1); [apply copes_do; intros; by apply dark_log |]. intros _.
  apply (copes_then 1 0); [destruct (_ && _)%bool |]; [apply copes_do; intros; by apply dark_cache_set | |].
  - apply (copes_weaken 0 1 _ (λ _, True)); [by apply copes_ret | lia | done].
  - intros _. apply (copes_then 0 0); [apply copes_tell |]. intros _. apply copes_ret. split; [by destruct (_ && _)%bool |]. by exists p.
Qed.

Lemma chat_copes request ctx options res :
  takes_counts deps → match monthlyBudgetUsd ctx with Some b => (0 < b)%Q | None => True end →
  someone_serves countable (λ p, provider_chat deps p (with_model request (canonicalModel res))) (map c_provider (candidates res)) →
  copes (chat_commands (length (candidates res))) (chat_rest deps request ctx options res) (served_by (map c_provider (candidates res))).
Proof.
  intros Ht Hb Hs. unfold chat_commands. pose proof (serve_chat_copes request ctx options res) as Hc. rewrite length_map in Hc.
  assert (Hweak : ∀ el, copes (2 + (1 + (5 * length (candidates res) + (1 + (2 + 1))))) (serve_chat deps request ctx options res el)
    (served_by (map c_provider (candidates res)))).
  { intros el. eapply copes_weaken; [by apply Hc | lia | done]. }
  unfold chat_rest. cbv zeta. destruct (_ && _)%bool; [| destruct (cache_isEligible deps request)]; [| | apply Hweak].
  - apply (copes_then 0); [apply copes_tell |]. intros _. apply Hweak.
  - eapply (copes_bind 2 _ _ _ (λ hit, hit = None)); [| intros hit ->; by apply Hc].
    intros n w Hw. destruct (dark_cache_get n request w Hw) as (w' & E & Hd). exists w', [CacheGet], None. unfold act. by rewrite E.
Qed.

(** A chat completion for a model the key may use. *)
Lemma completion_copes request ctx options w1 n w : dark (chat_commands (length (candidates (resolveCandidates (registry_snapshot deps w1) (model request)))) + n) w →
  let res := resolveCandidates (registry_snapshot deps w1) (model request) in
  refreshIfStale deps w = (w1, Ok tt) → candidates res ≠ [] → permitted ctx (model request) (canonicalModel res) = true →
  takes_counts deps → match monthlyBudgetUsd ctx with Some b => (0 < b)%Q | None => True end →
  someone_serves countable (λ p, provider_chat deps p (with_model request (canonicalModel res))) (map c_provider (candidates res)) →
  ∃ w' t x, chatCompletion deps request ctx options w = (w', t, Ret x) ∧ served_by (map c_provider (candidates res)) x ∧ dark n w'.
Proof.
  intros Hw res Hr Hc Hp Ht Hb Hs. rewrite chat_resolved. unfold resolved. erewrite bind_ret by exact (call_ok _ _ _ _ _ Hr).
  pose proof (resolve_run deps (model request) ctx w1) as Hres. cbv zeta in Hres. fold res in Hres.
  rewrite bool_decide_eq_false_2, Hp in Hres by done. erewrite bind_ret by exact Hres.
  pose proof (dark_refresh _ _ Hw) as Hd. rewrite Hr in Hd.
  destruct (chat_copes request ctx options res Ht Hb Hs n w1 Hd) as (w' & t & x & E & Hx & H'). rewrite E. by eexists _, _, _.
Qed.
End Dark.

(** ** The production wiring *)

(** The store stays as it is, and the next [n] commands do not reach it. *)
Definition unlit (s : db) (n : nat) (w : world) : Prop := w_db w = s ∧ take n (w_fates w) = replicate n Down.

Lemma unlit_next s n w : unlit s (S n) w → fate w = Down ∧ unlit s n (set_db 1 s w).
Proof.
  intros [Hd Hf]. unfold fate, unlit, set_db. cbn [w_db w_fates]. destruct (w_fates w) as [|f l]; [done |]. by injection Hf as -> Hf.
Qed.
Lemma unlit_next2 s n w : unlit s (S (S n)) w → fate w = Down ∧ fate2 w = Down ∧ unlit s n (set_db 2 s w).
Proof.
  intros [Hd Hf]. unfold fate, fate2, unlit, set_db. cbn [w_db w_fates]. destruct (w_fates w) as [|f [|f' l]]; [done | done |].
  by injection Hf as -> -> Hf.
Qed.

Lemma select_down {P} `{!BaseProvider P} sha locale_le `{!RelDecision locale_le} rnd prefix strategy (l : list P) now c s :
  (LoadBalancer.select sha locale_le rnd prefix strategy Down l now c s).1.2 = s.
Proof.
  unfold LoadBalancer.select. case_bool_decide as Hl; [done |].
  assert (Hs : (strategy_select sha locale_le rnd prefix strategy Down l now c s).1.2 = s).
  { destruct strategy; cbn [strategy_select fst snd]; try done.
    - unfold wrr_select. by rewrite bool_decide_eq_false_2.
    - unfold lc_select. by rewrite bool_decide_eq_false_2.
    - unfold latency_select. by destruct l. }
  by destruct (strategy_select _ _ _ _ _ _ _ _ _ _) as [[c' s'] [p|[]]].
Qed.

Section Production.
Context (cfg : Config) (host : Host) (fair : random_ok (secureRandomInt host)) (s : db).

Lemma on_store_unlit n f w : (∀ now d, f Down now d = d) → unlit s (S n) w → unlit s n (on_store f w).
Proof using. intros Hf Hw. destruct (unlit_next s n w Hw) as [E H]. unfold on_store. rewrite E, Hf. destruct Hw as [-> _]. exact H. Qed.

Lemma breaker_unlit {A} n (p : Z → prog A) w : unlit s (S n) w →
  breaker_call p w = (set_db 1 s w, Err (redis_error "Connection is closed.")) ∧ unlit s n (set_db 1 s w).
Proof using. intros Hw. destruct (unlit_next s n w Hw) as [E H]. unfold breaker_call. rewrite E. cbn [client]. destruct Hw as [-> _]. done. Qed.

(** Each component degrades as it is meant to. *)
#[export] Instance production_degrades : Degrades (production cfg host) (unlit s).
Proof using fair.
  split; intros n.
  - intros w [Hd Hf]. split; [done |]. destruct (w_fates w) as [|f l]; [done |]. injection Hf as -> Hf.
    destruct n as [|n]; [done |]. clear Hd. revert n l Hf. induction n as [|n IH]; intros l Hf; [done |].
    destruct l as [|f l]; [done |]. injection Hf as -> Hf. cbn [take replicate]. f_equal. by apply IH.
  - intros w Hw. cbn [refreshIfStale production]. unfold wire_refresh. destruct (refresh_arrive _ _ _) as [r []]; [done | |];
      destruct (refresh_finish _ _ _ _) as [r' x]; exact Hw.
  - intros l w Hl Hw. cbn [lb_select production]. unfold wire_select. destruct (unlit_next s n w Hw) as [E H]. rewrite E.
    pose proof (select_down (Wiring.sha256Hex host) (locale_le host) (secureRandomInt host) (cfg_prefix cfg) (cfg_strategy cfg) l
      (w_now w) (w_counters w) (w_db w)) as Hd.
    destruct (select_member (Wiring.sha256Hex host) (locale_le host) (secureRandomInt host) (cfg_prefix cfg) (cfg_strategy cfg) Down l
      (w_now w) (w_counters w) (w_db w) fair Hl) as (p & Ep & Hp).
    destruct (LoadBalancer.select _ _ _ _ _ _ _ _ _ _) as [[c d] r]. cbn in Hd, Ep. subst d r. eexists _, p.
    split; [done |]. split; [done |]. split; [apply Hw | apply H].
  - intros i l w. apply on_store_unlit. intros now d. by destruct (cfg_strategy cfg).
  - intros i w. apply on_store_unlit. intros now d. by destruct (cfg_strategy cfg).
  - intros i w. apply on_store_unlit. intros now d. by destruct (cfg_strategy cfg).
  - intros i w Hw. cbn [cb_acquire production].
    destruct (breaker_unlit n (λ now, CircuitBreaker.acquire (cfg_prefix cfg) (cfg_breaker cfg) i now) w Hw) as [-> H]. by eexists _, _.
  - intros i w Hw. cbn [cb_recordSuccess production].
    by destruct (breaker_unlit n (λ _, CircuitBreaker.recordSuccess (cfg_prefix cfg) (cfg_breaker cfg) i) w Hw) as [-> H].
  - intros i w Hw. cbn [cb_recordFailure production].
    by destruct (breaker_unlit n (λ now, CircuitBreaker.recordFailure (cfg_prefix cfg) (cfg_breaker cfg) i now) w Hw) as [-> H].
  - intros r w Hw. destruct (unlit_next2 s n w Hw) as (E1 & E2 & H). exists (set_db 2 s w). split; [| done].
    cbn [cache_get production]. unfold Cache.get. rewrite E1. cbn [client]. by destruct Hw as [-> _].
  - intros r v w. apply on_store_unlit. intros now d. unfold Cache.set. by destruct (_ <? _).
  - intros k b w Hw. destruct (unlit_next s n w Hw) as [E H]. exists (set_db 1 s w). split; [| done].
    cbn [ct_isOverBudget production]. unfold isOverBudget, getMonthlySpendUsd. rewrite E. cbn [client]. by destruct Hw as [-> _], b.
  - intros k c w Hw. destruct (unlit_next2 s n w Hw) as (E1 & E2 & H). cbn [ct_addSpend production]. unfold addSpend.
    rewrite E1. cbn [client]. destruct Hw as [-> _], c as [| |c]; [done.. |]. by destruct (Qle_bool c 0).
  - intros e w [Hd Hf]. by split.
Qed.
End Production.

(** Requests sent upstream do not matter to the store. *)
Lemma outbound_degrades {W} (base : RouterDeps W) dark net JSON_parse {D} (new_decoder : D) decode decode_end encoded_length zod_issues uuids :
  Degrades base dark →
  Degrades (outbound base net JSON_parse new_decoder decode decode_end encoded_length zod_issues uuids) (λ n x, dark n x.1).
Proof.
  intros H. split; intros n; unfold outbound, lift, lift_; cbn [refreshIfStale lb_select lb_recordSuccess lb_recordFailure lb_release
    cb_acquire cb_recordSuccess cb_recordFailure cb_release cache_get cache_set ct_isOverBudget ct_addSpend ct_enqueueRequest fst].
  - intros x. apply (dark_pred n).
  - intros [w l] Hw. apply (dark_refresh (deps := base)) in Hw. cbn [fst] in *. by destruct (refreshIfStale base w).
  - intros l [w sent] Hl Hw. destruct (dark_select n l w Hl Hw) as (w' & p & E & Hp & Hd). cbn [fst]. rewrite E. by eexists _, p.
  - intros i l x. apply dark_balancer_success.
  - intros i x. apply dark_balancer_failure.
  - intros i x. apply dark_slot_release.
  - intros i [w sent] Hw. destruct (dark_acquire n i w Hw) as (w' & e & E & Hd). cbn [fst]. rewrite E. by eexists _, e.
  - intros i [w sent] Hw. pose proof (dark_breaker_success n i w Hw) as Hd. cbn [fst]. by destruct (cb_recordSuccess base i w).
  - intros i [w sent] Hw. pose proof (dark_breaker_failure n i w Hw) as Hd. cbn [fst]. by destruct (cb_recordFailure base i w).
  - intros r [w sent] Hw. destruct (dark_cache_get n r w Hw) as (w' & E & Hd). cbn [fst]. rewrite E. by eexists.
  - intros r v x. apply dark_cache_set.
  - intros k b [w sent] Hw. destruct (dark_budget n k b w Hw) as (w' & E & Hd). cbn [fst]. rewrite E. by eexists.
  - intros k c x. apply dark_spend.
  - intros e x. apply dark_log.
Qed.

(** ** The [/v1] route *)

(** What authentication answers from the database alone. *)
Definition from_database (hashApiKey : string → string) (tbl : result thrown (list api_key_row)) (h : headers) (now : Z)
    : result thrown GatewayContext :=
  match extractApiKey h with
  | None => Err (unauthorized "Missing API key. Provide a Bearer token or x-api-key header.")
  | Some rawKey =>
      match find_key tbl (hashApiKey rawKey) with
      | Err e => Err e
      | Ok None => Err (unauthorized "Invalid API key.")
      | Ok (Some row) => if expired (k_expiresAt row) now then Err (unauthorized "API key has expired.") else Ok (context_of row)
      end
  end.

Lemma authenticate_down hashApiKey JSON_parse prefix ttl tbl h now s :
  authPreHandler hashApiKey JSON_parse prefix ttl Down Down Down tbl h now s = (s, from_database hashApiKey tbl h now).
Proof.
  unfold authPreHandler, from_database. destruct (extractApiKey h) as [raw|]; [| done]. unfold authenticateKey, cached_context. cbn [client].
  destruct (find_key tbl _) as [[row|]|e]; [| done | done]. by destruct (expired _ _).
Qed.

Section Route.
Context `{Cipher}.
Context (pc : Process) {D : Type} (new_decoder : D) (decode : D → list Byte.byte → D * string) (decode_end : D → string).
Context (env : v1_env) (g : gateway) (s : db).
Abbreviation deps := (router_deps pc new_decoder decode decode_end env g).
Abbreviation app := (route_deps pc env g).
Abbreviation outside := (world * list HttpRequest)%type.
Abbreviation dark := (λ n (x : outside), unlit s n x.1).

Lemma route_degrades : random_ok (secureRandomInt (pc_host pc)) → Degrades deps dark.
Proof using. intros Hr. apply outbound_degrades, production_degrades. exact Hr. Qed.

(** The keys of the gateway's own table. *)
Definition looked_up (h : headers) (now : Z) : result thrown GatewayContext :=
  from_database (hashApiKey (sha256 (pc_admin pc))) (table env (map kr_row (g_keys g))) h now.

Lemma unlit_next3 n w : unlit s (S (S (S n))) w → fate w = Down ∧ fate2 w = Down ∧ fate3 w = Down ∧ unlit s n (set_db 3 s w).
Proof using.
  intros [Hd Hf]. unfold fate, fate2, fate3, unlit, set_db. cbn [w_db w_fates]. destruct (w_fates w) as [|f [|f' [|f2 l]]]; try done.
  by injection Hf as -> -> -> Hf.
Qed.

Lemma authenticated_down n h x : dark (S (S (S n))) x →
  authenticate app h x = ((set_db 3 s x.1, x.2), looked_up h (w_now x.1)) ∧ dark n (set_db 3 s x.1, x.2).
Proof using.
  intros Hx. destruct (unlit_next3 n x.1 Hx) as (E1 & E2 & E3 & Hn). split; [| exact Hn].
  cbn [authenticate route_deps]. unfold lift, wire_authenticate. rewrite E1, E2, E3, authenticate_down. by destruct Hx as [-> _].
Qed.

(** The limiter's script fails, and its error is not caught in the limiter. *)
Lemma limiter_down n key limits x : RATE_LIMIT_ENABLED (pc_limiter pc) = true → dark (S n) x →
  limiter_check app key limits x = ((set_db 1 s x.1, x.2), Err (redis_error "Connection is closed.")) ∧ dark n (set_db 1 s x.1, x.2).
Proof using.
  intros He Hx. cbn [limiter_check route_deps]. unfold lift, wire_check. unfold check at 1. rewrite He. cbn [negb].
  destruct (breaker_unlit s n (λ now, check (cfg_prefix (pc_config pc)) (pc_limiter pc) key limits now (v_uuid env)) x.1 Hx) as [E Hd].
  unfold RATE_LIMIT_LUA, bind, redis_call. cbn [bind]. by rewrite E.
Qed.

(** Switched off, it admits without a command. *)
Lemma limiter_off key limits x : RATE_LIMIT_ENABLED (pc_limiter pc) = false → ∃ l,
  limiter_check app key limits x = (x, Ok l) ∧ rl_allowed l = true.
Proof using.
  intros He. cbn [limiter_check route_deps]. unfold lift, wire_check, check. rewrite He. cbn [negb]. destruct x as [w sent]. by eexists.
Qed.
End Route.

(** ** Theorem *)

(** C11: What a chat completion is answered when Redis rejects every command. In
    the whole [/v1] route over the production wiring, with every command rejected
    for as long as the request runs (however long the client of Redis holds them
    first), whatever the balancing strategy, the store is left as it is, and: the
    key is authenticated from the database alone; with the rate limiter enabled,
    the request of any key is answered 500, once the limiter's command is
    rejected, before anything is sent upstream; with it disabled, the balancer
    falls back to a random pick, the breaker lets every provider through, the
    cache misses and the budget gate opens for every key with a budget above zero,
    so that as long as one candidate serves with counts that prom-client takes and
    the others fail over, the request is answered 200 with a reply a candidate
    gave. *)
Theorem redis_outage `{Cipher} pc {D} (new_decoder : D) decode decode_end env g r s ctx body :
  random_ok (secureRandomInt (pc_host pc)) →
  looked_up pc env g (Http.req_auth r) (w_now (g_wire g).1) = Ok ctx →
  chatCompletionRequestSchema (Http.req_body r) = Some body → stream body ≠ Some true →
  let deps := router_deps pc new_decoder decode decode_end env g in
  let run := v1 (route_deps pc env g) (completions_handler deps (route_deps pc env g)) r (g_wire g) in
  (RATE_LIMIT_ENABLED (pc_limiter pc) = true → unlit s 4 (g_wire g).1 →
    ∃ x reply, run = (x, [Authenticated; RateChecked (apiKeyId ctx)], Ret (JsonReply 500 [] reply)) ∧
      x.2 = (g_wire g).2 ∧ w_db x.1 = s) ∧
  (RATE_LIMIT_ENABLED (pc_limiter pc) = false →
    ∀ x1, let res := resolveCandidates (registry_snapshot deps x1) (model body) in
    takes_counts deps → unlit s (3 + chat_commands (length (candidates res))) (g_wire g).1 →
    refreshIfStale deps (set_db 3 s (g_wire g).1, (g_wire g).2) = (x1, Ok tt) →
    candidates res ≠ [] → permitted ctx (model body) (canonicalModel res) = true →
    match monthlyBudgetUsd ctx with Some b => (0 < b)%Q | None => True end →
    someone_serves (λ n x, unlit s n x.1) countable (λ p, provider_chat deps p (with_model body (canonicalModel res))) (map c_provider (candidates res)) →
    ∃ x t hs response meta, run = (x, t, Ret (JsonReply 200 hs (response_json response))) ∧
      served_by (map c_provider (candidates res)) (response, meta) ∧ w_db x.1 = s).
Proof.
  intros Hr Hkey Hbody Hst deps run.
  assert (Hlaw : LawfulBalancer deps) by (apply outbound_lawful, production_lawful; exact Hr).
  pose proof (route_degrades pc new_decoder decode decode_end env g s Hr) as Hdeg.
  assert (Ha : ∀ n, unlit s (S (S (S n))) (g_wire g).1 → unlit s n (set_db 3 s (g_wire g).1) ∧
    run = let '(x, t, a) := completions_handler deps (route_deps pc env g) r ctx (set_db 3 s (g_wire g).1, (g_wire g).2) in
          (x, Authenticated :: t, a)).
  { intros n Hn. destruct (authenticated_down pc env g s n (Http.req_auth r) (g_wire g) Hn) as [E Hd]. rewrite Hkey in E.
    split; [exact Hd |]. unfold run, v1, try_catch. erewrite bind_ret by exact (call_ok _ _ _ _ _ E).
    destruct (completions_answers deps (route_deps pc env g) r ctx (set_db 3 s (g_wire g).1, (g_wire g).2)) as (x & t & a & ->). done. }
  assert (Hh : ∀ x, completions_handler deps (route_deps pc env g) r ctx x =
    limited (route_deps pc env g) ctx (countChatTokens (Http.encoded_length (route_deps pc env g)) (messages body) (model body))
      (λ limit, let? (response, meta) := chatCompletion deps body ctx {| bypassCache := isBypassCache (req_cache_control r) |} in
                ret (JsonReply 200 (rateLimitHeaderObject limit ++ gatewayHeaderObject meta (Http.req_id r))%list (response_json response))) x).
  { intros x. unfold completions_handler. rewrite Hbody. by destruct (stream body) as [[]|]. }
  split.
  - intros He Hn. destruct (Ha 1%nat Hn) as [Hd ->]. rewrite Hh. unfold limited, try_catch.
    destruct (limiter_down pc env g s 0 (apiKeyId ctx) {| RateLimiter.rpmLimit := Auth.rpmLimit ctx; RateLimiter.tpmLimit := Auth.tpmLimit ctx;
      estimatedTokens := countChatTokens (Http.encoded_length (route_deps pc env g)) (messages body) (model body) |}
      (set_db 3 s (g_wire g).1, (g_wire g).2) He Hd) as [E Hx].
    erewrite bind_throw by exact (call_err _ _ _ _ _ E). by eexists _, _.
  - intros He x1 res Htaken Hn Hrefresh Hc Hp Hb Hs. destruct (Ha _ Hn) as [Hd ->]. rewrite Hh. unfold limited, try_catch.
    match goal with |- context [limiter_check _ (apiKeyId ctx) ?l] =>
      destruct (limiter_off pc env g (apiKeyId ctx) l (set_db 3 s (g_wire g).1, (g_wire g).2) He) as (limit & E & Hl) end.
    erewrite bind_ret by exact (call_ok _ _ _ _ _ E). rewrite Hl. cbn [negb]. rewrite <- (Nat.add_0_r (chat_commands _)) in Hd.
    destruct (completion_copes deps (λ n x, unlit s n x.1) body ctx {| bypassCache := isBypassCache (req_cache_control r) |} x1 0
      (set_db 3 s (g_wire g).1, (g_wire g).2) Hd Hrefresh Hc Hp Htaken Hb Hs) as (x & t & [response meta] & Ec & Hx & Hend).
    erewrite bind_ret by exact Ec. unfold ret. eexists _, _, _, response, meta. split; [reflexivity |]. split; [exact Hx | apply Hend].
Qed.

(** A gateway in the dark whose one provider answers, with and without the limiter. *)
Definition answering : Network world := {|
  fetch q w := (Wiring.later 100 w, Responded {| status := 200; Provider.body := Some (Ok "{}"%string) |});
  fetch_stream := fetch_stream sample_network; await_chunk w := w
|}.
Definition dark_process (limiter : bool) : Process := {|
  pc_config := Wiring.sample_config;
  pc_limiter := {| RATE_LIMIT_ENABLED := limiter; RATE_LIMIT_BURST_ENABLED := false; RATE_LIMIT_BURST_MULTIPLIER := 1; RATE_LIMIT_BURST_WINDOW_MS := 1000 |};
  pc_auth_ttl := 300;
  pc_host := let h := Wiring.sample_host in
    {| Wiring.sha256Hex := Wiring.sha256Hex h; Wiring.localeCompare := Wiring.localeCompare h; secureRandomInt := secureRandomInt h;
       JSON_parse := λ _, Some (response_json sample_response); Wiring.decrypt := Wiring.decrypt h; load_table := load_table h;
       Wiring.chat := Wiring.chat h; Wiring.chatStream := Wiring.chatStream h; Wiring.embed := Wiring.embed h; countTokens := countTokens h; refuse_amount := refuse_amount h |};
  pc_admin := AdminRoutes.sample_host; pc_net := answering;
  pc_encoded_length := pc_encoded_length sample_process; pc_zod_issues _ := JArr []; pc_uuids _ _ := "u"%string;
  pc_exposition _ _ := ""%string; pc_contentType := "text/plain"; pc_cors := pc_cors sample_process; pc_cors_route := pc_cors_route sample_process; pc_shed := pc_shed sample_process
|}.
Definition dark_gateway : gateway :=
  with_wire (World (w_db boot) (w_now boot) (w_counters boot) (w_registry boot) (w_queue boot) (replicate 40 Down), []) sample_gateway.
Definition dark_call (limiter : bool) : world * list HttpRequest * list event * ending http_reply :=
  v1 (route_deps (dark_process limiter) sample_env dark_gateway)
    (completions_handler (router_deps (dark_process limiter) tt (λ _ _, (tt, ""%string)) (λ _, ""%string) sample_env dark_gateway)
       (route_deps (dark_process limiter) sample_env dark_gateway)) chat_call (g_wire dark_gateway).

Definition dark_start : world * list HttpRequest := (set_db 3 ∅ (g_wire dark_gateway).1, (g_wire dark_gateway).2).
Definition dark_deps (limiter : bool) : RouterDeps (world * list HttpRequest) :=
  router_deps (dark_process limiter) tt (λ _ _, (tt, ""%string)) (λ _, ""%string) sample_env dark_gateway.
Definition dark_body : ChatCompletionRequest := match chatCompletionRequestSchema (Http.req_body chat_call) with Some b => b | None => sample_request end.
Definition dark_resolution : ModelResolution :=
  resolveCandidates (registry_snapshot (dark_deps false) (refreshIfStale (dark_deps false) dark_start).1) (model dark_body).

Lemma dark_serves : someone_serves (λ n x, unlit ∅ n x.1) countable
  (λ p, provider_chat (dark_deps false) p (with_model dark_body (canonicalModel dark_resolution))) (map c_provider (candidates dark_resolution)).
Proof.
  set (f := λ p, provider_chat (dark_deps false) p (with_model dark_body (canonicalModel dark_resolution))).
  assert (Hs : Forall (λ p, serves (λ n x, unlit ∅ n x.1) countable (f p)) (map c_provider (candidates dark_resolution))).
  { match goal with |- Forall ?P ?l => let l' := eval vm_compute in l in change (Forall P l') end.
    apply list.Forall_cons_2; [| apply list.Forall_nil_2]. intros n [w sent] Hw.
    unfold f, dark_deps, router_deps, outbound, adapter_chat, adapter, createAdapter. cbn [provider_chat fst snd].
    cbn [dark_process pc_net answering fetch adapterType]. unfold OpenAIProvider, openai_methods. cbn [pr_chat]. unfold OpenAI.chat.
    match goal with |- context [fetch_json ?a ?b ?c] => let x := eval vm_compute in (fetch_json a b c) in change (fetch_json a b c) with x end.
    cbn [res_bind].
    match goal with |- context [OpenAI.chatResponseSchema ?a] => let x := eval vm_compute in (OpenAI.chatResponseSchema a) in change (OpenAI.chatResponseSchema a) with x end.
    eexists _, _. split; [reflexivity |]. split; [| exact Hw]. split; eexists; (split; [reflexivity | by apply Qle_bool_iff; vm_compute]). }
  split; [eapply Forall_impl; [exact Hs | by left] |].
  destruct (map c_provider (candidates dark_resolution)) as [|p l] eqn:E; [by vm_compute in E |].
  exists p. split; [by left |]. intros q Hq _. by apply (proj1 (list.Forall_forall _ _) Hs).
Qed.

Lemma redis_outage_witness :
  (∃ x reply, dark_call true = (x, [Authenticated; RateChecked sample_id], Ret (JsonReply 500 [] reply)) ∧ x.2 = [] ∧ w_db x.1 = ∅) ∧
  ∃ x t hs response meta, dark_call false = (x, t, Ret (JsonReply 200 hs (response_json response))) ∧
    served_by (map c_provider (candidates dark_resolution)) (response, meta) ∧ w_db x.1 = ∅.
Proof.
  assert (Hr : ∀ b, random_ok (secureRandomInt (pc_host (dark_process b)))) by (intros b n Hn; cbn; lia).
  pose proof (λ b, redis_outage (dark_process b) tt (λ _ _, (tt, ""%string)) (λ _, ""%string) sample_env dark_gateway chat_call ∅
    (context_of (kr_row (sample_key (hashApiKey admin_digest "gw-1")))) dark_body (Hr b)) as H.
  assert (Hb : chatCompletionRequestSchema (Http.req_body chat_call) = Some dark_body) by reflexivity.
  assert (Hst : stream dark_body ≠ Some true) by done.
  split.
  - by apply (proj1 (H true ltac:(by vm_compute) Hb Hst)).
  - apply (proj2 (H false ltac:(by vm_compute) Hb Hst) eq_refl (refreshIfStale (dark_deps false) dark_start).1).
    + intros q Hq. cbn. by rewrite (proj2 (Qle_bool_iff 0 q) Hq).
    + split; [done | by vm_compute].
    + by vm_compute.
    + by vm_compute.
    + by vm_compute.
    + by vm_compute.
    + apply dark_serves.
Defined.
